(* ===== verification/_CoqProject ===== *)
-Q . S2P
Prelude.v
GoFloat.v
Window.v
Icmp.v
Aggregate.v
Hysteresis.v
NetIP.v
Runtime.v
Metrics.v
MetricsServer.v
Selector.v
State.v
Config.v
Rtnl.v
Routes.v
Subscribers.v
Health.v
Decision.v
Apply.v
Gateway.v
Daemon.v
Coordination.v
Publication.v
Gauges.v
StateGauges.v
Ident.v
Pinger.v
PingerLoop.v
Probers.v
Filepath.v
Hooks.v
Notifier.v
StateWriter.v
Flags.v
Lifecycle.v
Telemetry.v
Detection.v
NetlinkKernel.v
Routing.v
