(* ===== verification/Prelude.v ===== *)
(** * wanwatchd: a verification library

    [wanwatchd] (src/daemon, Go) watches the WAN links of a NixOS host. It
    probes every WAN by ICMP per Family, follows link and route notifications
    of the kernel, derives the Health of each WAN, decides for each Group which
    Member WAN carries its traffic, writes that decision as default routes of
    the Group's routing table, and publishes it as state.json, Hooks and
    metrics. This library models the decision core of the daemon as executable
    definitions, one per Go function, and proves what makes it correct.

    ** The parts

    From the leaves up; each file names the Go lines next to its definitions.

    - [Prelude]: scope, tactics, hint databases, generic lemmas (this file).
    - [GoFloat]: Go's float64 (binary64, round to nearest even) by the Standard
      Library's [SpecFloat], the conversions from integers, and the float64
      nearest to a rational.
    - [Window] (internal/probe/stats.go): the ring buffer of Samples, its
      counts, mean and jitter.
    - [Icmp] (internal/probe/icmp.go): the echo request, the reply parser, the
      RFC 1071 checksum. Types shared by the probe packages.
    - [Aggregate] (internal/probe/result.go): per-Family statistics over the
      Targets, with exact rational loss.
    - [Hysteresis] (internal/health/hysteresis.go): the consecutive-cycle
      verdict.
    - [NetIP]: the addresses of the Go standard library the sources use, net.IP
      and netip.ParseAddr.
    - [Runtime]: what a handler runs on. A computation [M E Ev A] is a state
      transformer over a [World]: the environment [E] its calls act on, the
      effects [Ev] emitted so far, and a [Schedule] that fixes the clock, the
      moment of cancellation and every map iteration order. A theorem over all
      worlds thus covers every order, every clock and every moment of a stop;
      [shuffle_complete] shows that no order is excluded. [wp] and [wlog] are
      its program logic.
    - [Metrics] (internal/metrics/metrics.go): the catalog and the operations.
      [MetricsServer] (server.go): one run of its HTTP server.
    - [Selector] (internal/selector): the strategy registry and primary-backup.
    - [State] (internal/state: the data of state.go and hooks.go), with the
      State writer and the Hook notifier as the interfaces [StateSink] and
      [HookSink].
    - [Config] (internal/config/config.go): the data, [Parse] and every check of
      [Validate]; JSON decoding is a parameter.
    - [Rtnl] (internal/rtnl/event.go, subscriber.go) and [Routes] (route.go,
      dump.go): links and default routes from netlink notifications; the
      netlink library's calls are parameters. [Subscribers]: the life of both
      subscriptions, and the link subscriber next to a changing kernel.
    - [Health] (internal/health/health.go): WAN Health.
    - [Decision] (internal/decision/group.go): a Group's Decisions over an
      abstract Apply adapter.
    - [Apply] (internal/apply): rules, routes and conntrack through the netlink
      library, a parameter.
    - [Gateway] (cmd/wanwatchd/gateway.go): the Gateway cache.
    - [Daemon] (cmd/wanwatchd/daemon.go, decision.go, helpers.go, kernel.go,
      eventloop.go): the runtime state as the record [daemon], the handlers,
      bootstrap, prime and the event loop over the interfaces [Kernel],
      [StateSink] and [HookSink]. [Kernel] is the Go interface of that name.
      Every call that changes the outside is recorded as an [effect], in
      program order, next to the metric operations.
    - [Coordination] and [Publication]: the theorems about the handlers.
      [Gauges]: the values of the gauges after a run's metric operations, and
      what it means that they agree with a State; [StateGauges]: they do.
    - [Ident] (internal/probe/ident.go): the ICMP identifiers, with SHA-256 as
      an executable definition.
    - [Pinger] and [PingerLoop] (pinger.go, socket.go): the probe cycle, its
      socket and its loop, over the interface of a connection. [Probers]
      (cmd/wanwatchd/probers.go): one Pinger per WAN and Family.
    - [Filepath]: the path functions of the standard library that Hooks use.
    - [Hooks] (internal/state/hooks.go): the scan of a Hook directory, the
      environment of a Hook, its run, its capped output.
    - [Notifier] (notifications.go): the bounded queue before the Hooks and its
      worker, as a step relation. [StateWriter] (state.go): the write of
      state.json over an interface of the file system.
    - [Flags] and [Lifecycle] (cmd/wanwatchd/main.go, sdnotify.go, eventloop.go,
      subscribers.go): the command line, [run], the causes of a stop and the
      exit status, retries, and the systemd protocol. [Telemetry]: the metric
      operations of a whole run against the catalog.
    - [Detection]: the probe cycle composed with Health and the Decisions.
    - [NetlinkKernel] (kernel.go, helpers.go and the wrappers of
      internal/apply): the production instance of [Kernel], and its contract
      [KernelSpec], proved from the documented laws of the netlink library.
      [Routing]: the theorems over any kernel that meets the contract.

    The handlers call [Health], hand the flipped WANs to each Group's Decision
    module in [Decision], which calls back into [Daemon.applyRoutes]; a commit
    returns to [Daemon.publishDecision], which flushes connections, publishes
    State and hands over the Hook.

    ** What the theorems show

    - The whole daemon ([Coordination], [Routing]): after any events, if the
      daemon was not stopped, Health is the Health of the history, every Group
      wants the best healthy Member, every watchdog challenge was answered, the
      kernel has exactly one rule per Group and Family, and the table of a
      Group with a settled Selection holds that WAN's routes; start-up makes at
      most one Decision per Group.
    - End to end ([Detection]): once a network answers none of a Family's echo
      requests, a number of cycles fixed by the configuration makes the WAN
      unhealthy, and no Group wants it any more.
    - Effects ([Publication]): the order of a Decision (routes, flushes, State,
      Hook), the scope of route writes, the rules of bootstrap, and that a
      stopped daemon does nothing more.
    - Health, Decisions, Selection: refinement of a specification over the
      history of events ([health_spec], [best]), exact change reports, cold
      start, band-pass thresholds, convergence and recovery of a Group.
    - Configuration, links, routes, Apply: which inputs are accepted, what is
      reported, that the link subscriber catches up with the kernel whatever
      the interleaving, when a subscription is closed, and the laws a run
      leaves the rule table with.
    - Probes: the Window refines the last [capacity] Samples, its statistics
      are exact, aggregation does not depend on map order, Hysteresis counts
      consecutive verdicts, and echo requests round-trip and checksum to zero.
      A cycle gives every Target one Sample, a run of the Pinger terminates,
      identifiers are distinct, and a valid configuration starts its probers.
    - Publication to the outside: state.json is replaced atomically, Hook events
      are delivered in order and not twice, closing the notifier terminates, a
      Hook sees its documented environment, and one event's run of Hooks does
      what its directory says.
    - Lifecycle: the first cause decides the exit status; retries are paced;
      every metric operation of a run fits the catalog ([Telemetry]), and the
      gauges report what state.json reports ([StateGauges]).

    ** Modelling conventions

    Go's int is [Z] wrapped to 64 bits where it can grow ([int_wrap]); unsigned
    fields are [Z] masked to their width. A Go error is the chain errors.Is
    walks, a message being the constant part of its format. A nil pointer is
    [None]. Maps are [gmap]; ranging over one draws an order from the schedule.
    Logging has no behaviour and is left out. Time is a count of nanoseconds,
    zero only for the zero time. A goroutine's [select] is the list of the cases
    it takes, so a theorem over all lists covers every interleaving; the Hook
    notifier and the link subscriber with its kernel, where the interleaving
    matters, are step relations.

    Loops recurse over lists, and a retried dump has the bound the source gives
    it. Fuel occurs four times. In the checksum's carry fold [fold_carry_spec]
    shows that two rounds are enough. In the parser of IPv6 literals each of the
    eight turns stores two of the sixteen bytes. The primes behind SHA-256's
    constants are found by evaluation. The Pinger's read loop ends at
    the deadline, after finitely many datagrams: [pinger_run] proves that enough
    fuel exists for every run. The search for a free identifier visits each of
    the 65536 slots once.

    ** What is not modelled, and the plan

    The netlink, Prometheus and JSON libraries and the operating system are
    parameters or interfaces. The values of the Prometheus metrics live in that
    library; [Metrics] records the operations, from which [Gauges] recomputes
    the value of a gauge. Logging, the text of errors past
    their constant part, and [main]'s call of [os.Exit] are left out. The Nix
    sources, which render the configuration, and the vendored packages are
    outside the development. Planned next: the route subscriber next to a
    changing kernel, as [Subscribers] has it for links. *)
From Stdlib Require Export ZArith Lia.
From stdpp Require Export prelude strings gmap list sorting fin_maps.

#[global] Set Default Goal Selector "!".

(** ** Scope, tactics and hints shared by the development *)

Declare Scope wanwatch_scope.
Delimit Scope wanwatch_scope with ww.
Open Scope wanwatch_scope.

Create HintDb wanwatch.
Create Rewrite HintDb wanwatch.

(** Case analysis on every [match] and [if] of the goal, innermost first. *)
Ltac cases_goal :=
  repeat (case_match; simplify_eq/=; try done).

(** The same in one hypothesis. *)
Ltac cases_in H :=
  repeat match type of H with
  | context [match ?x with _ => _ end] => destruct x eqn:?; simplify_eq/=; try done
  end.

(** Boolean comparisons of the model as propositions. *)
Ltac bool_to_Prop :=
  repeat match goal with
  | H : (_ <? _)%Z = true |- _ => apply Z.ltb_lt in H
  | H : (_ <? _)%Z = false |- _ => apply Z.ltb_ge in H
  | H : (_ <=? _)%Z = true |- _ => apply Z.leb_le in H
  | H : (_ <=? _)%Z = false |- _ => apply Z.leb_gt in H
  | H : (_ =? _)%Z = true |- _ => apply Z.eqb_eq in H
  | H : (_ =? _)%Z = false |- _ => apply Z.eqb_neq in H
  | H : (_ && _) = true |- _ => apply andb_prop in H as [? ?]
  | H : (_ || _) = false |- _ => apply orb_false_elim in H as [? ?]
  end.

(** ** Machine integers

    Go's [int] is 64 bits wide on both supported platforms. [uint64],
    [uint32] and [uint16] wrap modulo their width. *)

Definition two64 : Z := Eval vm_compute in (2 ^ 64)%Z.
Definition two63 : Z := Eval vm_compute in (2 ^ 63)%Z.

Definition u64 (z : Z) : Z := (z mod two64)%Z.
Definition u16 (z : Z) : Z := (z mod 65536)%Z.
Definition u8 (z : Z) : Z := (z mod 256)%Z.
Definition int_wrap (z : Z) : Z := ((z + two63) mod two64 - two63)%Z.

Definition max_int : Z := (two63 - 1)%Z.

Lemma u64_small z : (0 ≤ z < two64)%Z → u64 z = z.
Proof. apply Z.mod_small. Qed.

Lemma u64_range z : (0 ≤ u64 z < two64)%Z.
Proof. by apply Z.mod_pos_bound. Qed.

Lemma u64_add_l x y : u64 (u64 x + y) = u64 (x + y).
Proof. apply Zplus_mod_idemp_l. Qed.

Lemma u64_add_r x y : u64 (x + u64 y) = u64 (x + y).
Proof. apply Zplus_mod_idemp_r. Qed.

Lemma u16_range z : (0 ≤ u16 z < 65536)%Z.
Proof. by apply Z.mod_pos_bound. Qed.

Lemma u16_small z : (0 ≤ z < 65536)%Z → u16 z = z.
Proof. apply Z.mod_small. Qed.

Lemma u8_range z : (0 ≤ u8 z < 256)%Z.
Proof. by apply Z.mod_pos_bound. Qed.

Lemma int_wrap_small z : (- two63 ≤ z < two63)%Z → int_wrap z = z.
Proof. unfold int_wrap, two63, two64. intros. rewrite Z.mod_small; lia. Qed.

Lemma int_wrap_range z : (- two63 ≤ int_wrap z < two63)%Z.
Proof.
  unfold int_wrap.
  pose proof (Z.mod_pos_bound (z + two63) two64 eq_refl). unfold two63, two64 in *. lia.
Qed.

Lemma int_wrap_add_l x y : int_wrap (int_wrap x + y) = int_wrap (x + y).
Proof.
  unfold int_wrap. f_equal.
  replace ((x + two63) mod two64 - two63 + y + two63)%Z
    with ((x + two63) mod two64 + y)%Z by lia.
  rewrite Zplus_mod_idemp_l. f_equal. lia.
Qed.

#[export] Hint Rewrite u64_small u16_small int_wrap_small using lia : wanwatch.
#[export] Hint Resolve u64_range u16_range u8_range int_wrap_range : wanwatch.

(** ** Sorting, as Go's [slices.Sort] and [slices.SortFunc]

    [slices.SortFunc] is not stable. The model sorts with stdpp's
    [merge_sort]; each use is on keys that are distinct or whose ties
    are interchangeable, so every sorting algorithm gives the same
    result, which [sort_unique] states. *)

Lemma sort_unique {A} (R : relation A) `{!PartialOrder R, !Total R, ∀ x y, Decision (R x y)}
    (l1 l2 : list A) :
  l1 ≡ₚ l2 → merge_sort R l1 = merge_sort R l2.
Proof.
  intros Hp. apply (Sorted_unique R).
  - apply (Sorted_merge_sort R).
  - apply (Sorted_merge_sort R).
  - by rewrite !merge_sort_Permutation.
Qed.

(** Order by the image under a key. *)
Definition by_key {A B} (R : relation B) (f : A → B) : relation A :=
  λ x y, R (f x) (f y).

#[export] Typeclasses Opaque by_key.

#[export] Instance by_key_dec {A B} (R : relation B) (f : A → B)
  `{∀ x y, Decision (R x y)} : ∀ x y, Decision (by_key R f x y).
Proof. intros x y. unfold by_key. apply _. Defined.

#[export] Instance by_key_trans {A B} (R : relation B) (f : A → B) `{!Transitive R} :
  Transitive (by_key R f).
Proof. intros x y z. unfold by_key. apply transitivity. Qed.

#[export] Instance by_key_total {A B} (R : relation B) (f : A → B) `{!Total R} :
  Total (by_key R f).
Proof. intros x y. apply (total R). Qed.

Definition sort_strings (l : list string) : list string := merge_sort String.le l.

(** Sorting by a key that determines the element ignores the input order. *)
Lemma sort_by_key_unique {A B} (R : relation B) (f : A → B)
    `{!PartialOrder R, !Total R, ∀ x y, Decision (R x y)} (l1 l2 : list A) :
  (∀ x y, x ∈ l1 → y ∈ l1 → f x = f y → x = y) →
  l1 ≡ₚ l2 → merge_sort (by_key R f) l1 = merge_sort (by_key R f) l2.
Proof.
  intros Hinj Hp. apply (Sorted_unique_strong (by_key R f)).
  - intros x y Hx Hy Hxy Hyx.
    apply Hinj; [by rewrite merge_sort_Permutation in Hx
      | by rewrite merge_sort_Permutation, <- Hp in Hy | ].
    by apply (anti_symm R).
  - apply (Sorted_merge_sort _).
  - apply (Sorted_merge_sort _).
  - by rewrite !merge_sort_Permutation.
Qed.

(** Elements with distinct keys are determined by their key. *)
Lemma NoDup_key_inj {A B} (f : A → B) (l : list A) :
  NoDup (f <$> l) → ∀ x y, x ∈ l → y ∈ l → f x = f y → x = y.
Proof.
  intros Hnd x y [i Hi]%list_elem_of_lookup [j Hj]%list_elem_of_lookup Hf.
  assert (i = j) as ->.
  { apply (NoDup_lookup (f <$> l) i j (f x)); [done| |].
    - by rewrite list_lookup_fmap, Hi.
    - by rewrite list_lookup_fmap, Hj, Hf. }
  congruence.
Qed.

(** ** Lists *)

(** The last [n] elements of [l]. *)
Definition take_last {A} (n : nat) (l : list A) : list A := drop (length l - n) l.

Lemma take_last_short {A} n (l : list A) : length l ≤ n → take_last n l = l.
Proof. intros. unfold take_last. by replace (length l - n) with 0 by lia. Qed.

Lemma length_take_last {A} n (l : list A) : length (take_last n l) = n `min` length l.
Proof. unfold take_last. rewrite length_drop. lia. Qed.

(** Sliding a window of the last [n] elements needs only that window. *)
Lemma take_last_app_take_last {A} n (l k : list A) :
  take_last n (take_last n l ++ k) = take_last n (l ++ k).
Proof.
  unfold take_last. rewrite !length_app, length_drop, !drop_app, drop_drop, length_drop.
  f_equal; f_equal; lia.
Qed.

Lemma take_last_snoc {A} n (l : list A) x :
  n ≤ length l → 0 < n → take_last n (l ++ [x]) = drop 1 (take_last n l) ++ [x].
Proof.
  intros. unfold take_last. rewrite length_app, drop_app, drop_drop. simpl.
  replace (length l + 1 - n - length l) with 0 by lia.
  by replace (length l + 1 - n) with (length l - n + 1) by lia.
Qed.

Lemma forallb_Permutation {A} (f : A → bool) l1 l2 :
  l1 ≡ₚ l2 → forallb f l1 = forallb f l2.
Proof. induction 1; simpl; [done|congruence| |congruence]. destruct (f _), (f _); done. Qed.

Lemma existsb_Permutation {A} (f : A → bool) l1 l2 :
  l1 ≡ₚ l2 → existsb f l1 = existsb f l2.
Proof. induction 1; simpl; [done|congruence| |congruence]. destruct (f _), (f _); done. Qed.

Lemma forallb_true {A} (f : A → bool) l : forallb f l = true ↔ ∀ x, x ∈ l → f x = true.
Proof. rewrite forallb_forall. by setoid_rewrite list_elem_of_In. Qed.

(** A commutative fold does not see the order of its list. *)
Lemma foldl_Permutation {A B} (f : B → A → B) :
  (∀ b x y, f (f b x) y = f (f b y) x) →
  ∀ l1 l2, l1 ≡ₚ l2 → ∀ b, foldl f b l1 = foldl f b l2.
Proof.
  intros Hf l1 l2 Hp. induction Hp as [|x l1 l2 _ IH|x y l|l1 l2 l3 _ IH1 _ IH2]; intros b; simpl.
  - done.
  - apply IH.
  - by rewrite Hf.
  - by rewrite IH1.
Qed.
