(* ===== verification/GoFloat.v ===== *)
(** * Go's float64

    The IEEE 754 binary64 operations the daemon performs, on the
    specification floats of the standard library ([SpecFloat]) at precision
    53 and exponent bound 1024: each operation rounds once, to nearest even.
    That is Go's arithmetic on amd64; Go allows other targets to fuse a
    multiplication and an addition, which the model does not. Rationals are
    the canonical rationals [Qc], as [big.Rat] keeps its values in lowest
    terms. *)
From Stdlib Require Import Floats.SpecFloat QArith.QArith QArith.Qcanon.
From S2P Require Import Prelude.

Abbreviation float64 := spec_float.

Definition f64_prec : Z := 53.
Definition f64_emax : Z := 1024.

Definition f64_zero : float64 := S754_zero false.
Definition f64_nan : float64 := S754_nan.
Definition f64_of_Z (z : Z) : float64 := binary_normalize f64_prec f64_emax z 0 false.
Definition f64_add (x y : float64) : float64 := SFadd f64_prec f64_emax x y.
Definition f64_sub (x y : float64) : float64 := SFsub f64_prec f64_emax x y.
Definition f64_mul (x y : float64) : float64 := SFmul f64_prec f64_emax x y.
Definition f64_div (x y : float64) : float64 := SFdiv f64_prec f64_emax x y.
Definition f64_sqrt (x : float64) : float64 := SFsqrt f64_prec f64_emax x.

(** [float64(b)] of a boolean gauge. *)
Definition f64_one : float64 := f64_of_Z 1.

(** The integer part of a finite float, rounded toward zero. *)
Definition f64_trunc (x : float64) : option Z :=
  match x with
  | S754_zero _ => Some 0%Z
  | S754_finite s m e =>
      let v := if (0 <=? e)%Z then Z.shiftl (Zpos m) e else Z.shiftr (Zpos m) (- e) in
      Some (if s then (- v)%Z else v)
  | _ => None
  end.

(** [uint64(x)]. Outside the range of [uint64] Go leaves the result to the
    implementation; the model takes 2^63, the value of the amd64 compiler. *)
Definition u64_of_f64 (x : float64) : Z :=
  match f64_trunc x with
  | Some z => if ((0 <=? z) && (z <? two64))%Z then z else two63
  | None => two63
  end.

(** [Float64] of a [big.Rat]: the float64 nearest a rational. *)
Definition f64_of_rat (q : Qc) : float64 :=
  match Qnum (this q) with
  | 0%Z => f64_zero
  | n => let '(mz, ez, lz) := SFdiv_core_binary f64_prec f64_emax (Z.abs n) 0 (Zpos (Qden (this q))) 0 in
         binary_round_aux f64_prec f64_emax (n <? 0)%Z mz ez lz
  end.

Lemma u64_of_f64_range x : (0 ≤ u64_of_f64 x < two64)%Z.
Proof.
  unfold u64_of_f64. destruct (f64_trunc x) as [z|]; [|done].
  destruct (_ && _) eqn:E; [|done]. apply andb_prop in E as [??]. bool_to_Prop. lia.
Qed.

(** A float minus itself is a zero, unless it is infinite or not a number. *)
Definition f64_finite (x : float64) : bool :=
  match x with S754_zero _ | S754_finite _ _ _ => true | _ => false end.

Definition f64_is_zero (x : float64) : bool :=
  match x with S754_zero _ => true | _ => false end.

Lemma f64_sub_self x : f64_finite x = true → f64_is_zero (f64_sub x x) = true.
Proof.
  destruct x as [[]| | |s m e]; try done. intros _. unfold f64_sub, SFsub.
  by rewrite Z.sub_diag.
Qed.

Lemma f64_mul_zero x y : f64_is_zero x = true → f64_is_zero y = true → f64_is_zero (f64_mul x y) = true.
Proof. by destruct x, y. Qed.

Lemma f64_add_zero x y : f64_is_zero x = true → f64_is_zero y = true → f64_is_zero (f64_add x y) = true.
Proof. destruct x as [[]| | |], y as [[]| | |]; done. Qed.

Lemma f64_div_zero x y : f64_is_zero x = true → f64_finite y = true → f64_is_zero y = false →
  f64_is_zero (f64_div x y) = true.
Proof. destruct x as [[]| | |], y as [[]| | |]; done. Qed.

Lemma f64_sqrt_zero x : f64_is_zero x = true → u64_of_f64 (f64_sqrt x) = 0%Z.
Proof. by destruct x as [[]| | |]. Qed.

(** ** Conversion of integers never overflows *)

Section finite.
Local Open Scope Z_scope.

Lemma shr_1_bound B mrs : 0 ≤ shr_m mrs ≤ B → 0 ≤ shr_m (shr_1 mrs) ≤ B.
Proof. destruct mrs as [[|[p|p|]|[p|p|]] r s]; simpl; lia. Qed.

Lemma iter_shr_bound B n : ∀ mrs,
  0 ≤ shr_m mrs ≤ B → 0 ≤ shr_m (SpecFloat.iter_pos shr_1 n mrs) ≤ B.
Proof.
  induction n as [n IH|n IH|]; intros mrs Hm; simpl.
  - by apply IH, IH, shr_1_bound.
  - by apply IH, IH.
  - by apply shr_1_bound.
Qed.

Lemma pow2_pos_lt p k : Zpos p < 2 ^ k → 0 < k.
Proof.
  intros H. destruct k as [|k|k]; [change (2 ^ 0) with 1 in H|..|change (2 ^ Zneg k) with 0 in H]; lia.
Qed.

Lemma digits2_pos_bound p : ∀ k, Zpos p < 2 ^ k → Zpos (digits2_pos p) ≤ k.
Proof.
  induction p as [p IH|p IH|]; intros k Hk; pose proof (pow2_pos_lt _ _ Hk).
  1,2: replace k with (Z.succ (k - 1)) in Hk by lia;
    rewrite Z.pow_succ_r in Hk by lia; specialize (IH (k - 1)); simpl; lia.
  simpl. lia.
Qed.

Lemma Zdigits2_bound z k : 0 ≤ k → 0 ≤ z < 2 ^ k → 0 ≤ Zdigits2 z ≤ k.
Proof.
  intros Hk [Hz Hlt]. destruct z as [|p|p]; simpl; [lia| |lia].
  pose proof (digits2_pos_bound p k Hlt). lia.
Qed.

(** Shifting to the exponent of the format keeps the mantissa and bounds
    the exponent. *)
Lemma shr_fexp_bound m e l k : 0 ≤ k → 0 ≤ m < 2 ^ k →
  let '(mrs, e') := shr_fexp f64_prec f64_emax m e l in
  0 ≤ shr_m mrs ≤ m ∧ e' ≤ Z.max e (Z.max (k + e - 53) (-1074)).
Proof.
  intros Hk Hm. pose proof (Zdigits2_bound m k Hk Hm) as Hd.
  assert (shr_m (shr_record_of_loc m l) = m) as Hrec by (by destruct l as [|[]]).
  unfold shr_fexp, shr, fexp, emin, f64_prec, f64_emax.
  destruct (Z.max _ _ - e) as [|n|n] eqn:E; rewrite ?Hrec; [lia| |lia].
  split; [apply iter_shr_bound; rewrite Hrec; lia|lia].
Qed.

Lemma round_nearest_even_bound m l : 0 ≤ m → 0 ≤ round_nearest_even m l ≤ m + 1.
Proof. intros. destruct l as [|[]]; simpl; [lia| |lia|lia]. case_match; lia. Qed.

Lemma binary_round_aux_finite s m e l k : 0 ≤ k → 0 ≤ m < 2 ^ k - 1 → e ≤ 100 → k ≤ 300 →
  f64_finite (binary_round_aux f64_prec f64_emax s m e l) = true.
Proof.
  intros Hk Hm He Hk4. unfold binary_round_aux.
  pose proof (shr_fexp_bound m e l k Hk ltac:(lia)) as H1.
  destruct (shr_fexp _ _ m e l) as [mrs e1]. destruct H1 as [Hm1 He1].
  pose proof (round_nearest_even_bound (shr_m mrs) (loc_of_shr_record mrs) ltac:(lia)) as H2.
  pose proof (shr_fexp_bound (round_nearest_even (shr_m mrs) (loc_of_shr_record mrs)) e1
    loc_Exact k Hk ltac:(lia)) as H3.
  destruct (shr_fexp _ _ _ e1 loc_Exact) as [mrs2 e2]. destruct H3 as [Hm2 He2].
  destruct (shr_m mrs2); simpl; [done| |lia].
  by rewrite (proj2 (Z.leb_le e2 (f64_emax - f64_prec))) by (unfold f64_emax, f64_prec; lia).
Qed.

Lemma Zshiftl_pos_iter p n : Z.shiftl (Zpos p) (Zpos n) = Zpos (Pos.iter xO p n).
Proof.
  unfold Z.shiftl. induction n as [|n IH] using Pos.peano_ind; [done|].
  by rewrite !Pos.iter_succ, IH.
Qed.

Lemma f64_of_Z_finite z : 0 ≤ z < two64 → f64_finite (f64_of_Z z) = true.
Proof.
  intros Hz. unfold f64_of_Z, binary_normalize, binary_round. destruct z as [|p|p]; [done| |lia].
  unfold shl_align, fexp, emin.
  pose proof (digits2_pos_bound p 64 ltac:(unfold two64 in Hz; lia)) as Hd.
  destruct (Z.max _ _ - 0) as [|n|n] eqn:E; simpl.
  - apply (binary_round_aux_finite _ _ _ _ 65); unfold two64 in Hz; lia.
  - apply (binary_round_aux_finite _ _ _ _ 65); unfold two64 in Hz; lia.
  - unfold f64_prec, f64_emax in *.
    assert (Zneg n >= -53) as Hn by lia.
    apply (binary_round_aux_finite _ _ _ _ 200); [lia| |lia|lia].
    assert (Zpos (Pos.iter xO p n) = Zpos p * 2 ^ Zpos n) as ->.
    { by rewrite <- Zshiftl_pos_iter, Z.shiftl_mul_pow2. }
    assert (2 ^ Zpos n ≤ 2 ^ 53) by (apply Z.pow_le_mono_r; lia).
    assert (0 < 2 ^ Zpos n) by (apply Z.pow_pos_nonneg; lia).
    unfold two64 in Hz.
    assert (Zpos p * 2 ^ Zpos n ≤ 2 ^ 64 * 2 ^ 53) by (apply Z.mul_le_mono_nonneg; lia).
    lia.
Qed.
Lemma digits2_pos_iter p n : Zpos (digits2_pos (Pos.iter xO p n)) = Zpos (digits2_pos p) + Zpos n.
Proof.
  induction n as [|n IH] using Pos.peano_ind; [simpl; lia|].
  rewrite Pos.iter_succ. simpl. lia.
Qed.

(** Small integers convert without rounding to zero. *)
Lemma f64_of_Z_nonzero z : 0 < z < 2 ^ 53 → f64_is_zero (f64_of_Z z) = false.
Proof.
  intros Hz. unfold f64_of_Z, binary_normalize, binary_round. destruct z as [|p|p]; [lia| |lia].
  pose proof (digits2_pos_bound p 53 ltac:(lia)) as Hd.
  assert (∃ m e, shl_align p 0 (fexp f64_prec f64_emax (Zpos (digits2_pos p) + 0)) = (m, e)
    ∧ fexp f64_prec f64_emax (Zpos (digits2_pos m) + e) - e = 0) as (m & e & -> & He).
  { unfold shl_align, fexp, emin, f64_prec, f64_emax.
    destruct (Z.max _ _ - 0) as [|n|n] eqn:E.
    - exists p, 0. split; [done|lia].
    - lia.
    - eexists _, _. split; [done|]. rewrite digits2_pos_iter. lia. }
  unfold binary_round_aux, shr_fexp. simpl. rewrite He. simpl. rewrite He. simpl. by case_match.
Qed.
End finite.

(** The nearest float64 of decimal-looking rationals, as the Go tests read them. *)
Example f64_of_rat_tenth :
  f64_of_rat (Q2Qc (3 # 30)) = S754_finite false 7205759403792794 (-56).
Proof. vm_compute. reflexivity. Qed.
