(* ===== verification/Window.v ===== *)
(** * The sliding Window of probe Samples

    Models [daemon/internal/probe/stats.go]: the ring buffer [WindowStats],
    its accessors, and the statistics they report. Reading or writing the
    slice out of range panics in Go; [None] in the outer option is that
    panic, and [Push_total] and [forEach_total] show that a Window built by
    [NewWindow] never reaches it. The abstract Window is the list of the last
    [capacity] Samples pushed, oldest first. *)
From S2P Require Import Prelude GoFloat.
Local Open Scope Z_scope.

(** daemon/internal/probe/stats.go:19-38 (Sample): one probe attempt's outcome. *)
Record Sample := mkSample { RTTMicros : Z; Lost : bool }.

(** daemon/internal/probe/stats.go:40-54 (WindowStats): the ring buffer. *)
Record WindowStats := mkWindowStats {
  w_capacity : Z;
  w_samples : list Sample;
  w_head : Z;
  w_filled : bool }.

(** The zero value [make] gives every slot. *)
Definition zeroSample : Sample := mkSample 0 false.

(** daemon/internal/probe/stats.go:56-69 (NewWindow): [None] is the error. *)
Definition NewWindow (capacity : Z) : option WindowStats :=
  if capacity <=? 0 then None
  else Some (mkWindowStats capacity (replicate (Z.to_nat capacity) zeroSample) 0 false).

(** Reading a slice at an index, with the bounds check of Go. *)
Definition slice_get {A} (l : list A) (i : Z) : option A :=
  if i <? 0 then None else l !! Z.to_nat i.

(** Writing a slice at an index, with the bounds check of Go. *)
Definition slice_set {A} (l : list A) (i : Z) (x : A) : option (list A) :=
  if (i <? 0) || (Z.of_nat (length l) <=? i) then None else Some (<[Z.to_nat i := x]> l).

(** daemon/internal/probe/stats.go:71-78 (WindowStats.Push): records a Sample
    over the oldest slot. *)
Definition Push (w : WindowStats) (s : Sample) : option WindowStats :=
  samples ← slice_set (w_samples w) (w_head w) s;
  let head := (w_head w + 1) mod w_capacity w in
  Some (mkWindowStats (w_capacity w) samples head (if head =? 0 then true else w_filled w)).

(** daemon/internal/probe/stats.go:80-81 (WindowStats.Capacity) *)
Definition Capacity (w : WindowStats) : Z := w_capacity w.

(** daemon/internal/probe/stats.go:83-90 (WindowStats.Len) *)
Definition Len (w : WindowStats) : Z := if w_filled w then w_capacity w else w_head w.

(** daemon/internal/probe/stats.go:92-99 (WindowStats.Filled) *)
Definition Filled (w : WindowStats) : bool := w_filled w.

(** daemon/internal/probe/stats.go:152-166 (WindowStats.forEach): the Samples
    in the order the callback sees them. *)
Definition forEach (w : WindowStats) : option (list Sample) :=
  if w_filled w then
    mapM (λ i, slice_get (w_samples w) ((w_head w + Z.of_nat i) mod w_capacity w))
      (seq 0 (Z.to_nat (w_capacity w)))
  else mapM (λ i, slice_get (w_samples w) (Z.of_nat i)) (seq 0 (Z.to_nat (w_head w))).

(** daemon/internal/probe/stats.go:101-111 (WindowStats.LossCounts): lost and
    total Samples. *)
Definition LossCounts (w : WindowStats) : option (Z * Z) :=
  ss ← forEach w;
  Some (foldl (λ lost s, if Lost s then lost + 1 else lost) 0 ss, Len w).

(** daemon/internal/probe/stats.go:118-123 (WindowStats.MeanRTT): the callback
    accumulating the [uint64] sum and count. *)
Definition mean_step '(sum, n) (s : Sample) : Z * Z :=
  if Lost s then (sum, n) else (u64 (sum + RTTMicros s), u64 (n + 1)).

(** daemon/internal/probe/stats.go:113-128 (WindowStats.MeanRTT): the inner
    option is the [ok] result. *)
Definition MeanRTT (w : WindowStats) : option (option Z) :=
  ss ← forEach w;
  let '(sum, n) := foldl mean_step (0, 0) ss in
  Some (if n =? 0 then None else Some (sum / n)).

(** daemon/internal/probe/stats.go:141-147 (WindowStats.JitterMicros): the
    callback accumulating the float64 sum of squares. *)
Definition jitter_step (mean : Z) '(sumSq, n) (s : Sample) : float64 * Z :=
  if Lost s then (sumSq, n)
  else let d := f64_sub (f64_of_Z (RTTMicros s)) (f64_of_Z mean) in
       (f64_add sumSq (f64_mul d d), u64 (n + 1)).

(** daemon/internal/probe/stats.go:130-150 (WindowStats.JitterMicros): the
    population standard deviation, in float64. *)
Definition JitterMicros (w : WindowStats) : option (option Z) :=
  mean ← MeanRTT w;
  match mean with
  | None => Some None
  | Some mean =>
      ss ← forEach w;
      let '(sumSq, n) := foldl (jitter_step mean) (f64_zero, 0) ss in
      Some (Some (u64_of_f64 (f64_sqrt (f64_div sumSq (f64_of_Z n)))))
  end.

(** ** Well-formedness and the abstract Window *)

Record wf (w : WindowStats) : Prop := mkWf {
  wf_capacity : 0 < w_capacity w;
  wf_samples : Z.of_nat (length (w_samples w)) = w_capacity w;
  wf_head : 0 ≤ w_head w < w_capacity w }.

(** The Samples the ring holds, oldest first. *)
Definition contents (w : WindowStats) : list Sample :=
  let h := Z.to_nat (w_head w) in
  if w_filled w then drop h (w_samples w) ++ take h (w_samples w) else take h (w_samples w).

(** Pushing a sequence of Samples. *)
Definition PushAll (w : WindowStats) (l : list Sample) : option WindowStats :=
  foldl (λ ow s, w ← ow; Push w s) (Some w) l.

Lemma NewWindow_wf c w : NewWindow c = Some w → wf w ∧ contents w = [] ∧ w_capacity w = c.
Proof.
  unfold NewWindow. destruct (c <=? 0) eqn:E; [done|]. intros [= <-]. bool_to_Prop.
  split; [|done]. split; simpl; [lia| |lia]. rewrite length_replicate. lia.
Qed.

Lemma slice_set_ok {A} (l : list A) i x :
  0 ≤ i < Z.of_nat (length l) → slice_set l i x = Some (<[Z.to_nat i := x]> l).
Proof.
  intros. unfold slice_set.
  rewrite (proj2 (Z.ltb_ge i 0)), (proj2 (Z.leb_gt _ i)) by lia. done.
Qed.

Lemma Push_ok w s : wf w →
  ∃ w', Push w s = Some w' ∧ wf w' ∧ w_capacity w' = w_capacity w ∧
    w_samples w' = <[Z.to_nat (w_head w) := s]> (w_samples w) ∧
    w_head w' = (w_head w + 1) mod w_capacity w ∧
    w_filled w' = (if w_head w' =? 0 then true else w_filled w).
Proof.
  intros [Hc Hl Hh]. unfold Push. rewrite slice_set_ok by lia. simpl.
  eexists. split_and!; [done| |done..]. split; simpl; [done| |].
  - by rewrite length_insert.
  - apply Z.mod_pos_bound. lia.
Qed.

Lemma slice_get_ok {A} (l : list A) i : 0 ≤ i → slice_get l i = l !! Z.to_nat i.
Proof. intros. unfold slice_get. by rewrite (proj2 (Z.ltb_ge i 0)). Qed.

(** Reading a slice along a range of indices. *)
Lemma mapM_slice_get {A} (l r : list A) (f : nat → Z) :
  (∀ i, (i < length r)%nat → 0 ≤ f i ∧ l !! Z.to_nat (f i) = r !! i) →
  mapM (λ i, slice_get l (f i)) (seq 0 (length r)) = Some r.
Proof.
  intros Hf. apply mapM_Some, Forall2_same_length_lookup. split; [apply length_seq|].
  intros i x y [-> Hi]%lookup_seq Hy. destruct (Hf i Hi) as [? Heq].
  simpl. rewrite slice_get_ok by done. congruence.
Qed.

(** Every accessor sees the abstract Window. *)
Lemma forEach_contents w : wf w → forEach w = Some (contents w).
Proof.
  intros [Hc Hl Hh]. unfold forEach, contents. set (h := Z.to_nat (w_head w)).
  destruct (w_filled w).
  - assert (Z.to_nat (w_capacity w) = length (drop h (w_samples w) ++ take h (w_samples w))) as ->.
    { rewrite length_app, length_drop, length_take. lia. }
    apply mapM_slice_get. intros i Hi.
    rewrite length_app, length_drop, length_take in Hi.
    split; [apply Z.mod_pos_bound; lia|].
    destruct (decide (w_head w + Z.of_nat i < w_capacity w)).
    + rewrite Z.mod_small, lookup_app_l, lookup_drop by (rewrite ?length_drop; lia).
      f_equal. lia.
    + rewrite lookup_app_r, length_drop by (rewrite length_drop; lia).
      rewrite lookup_take_lt by lia. f_equal.
      rewrite <- (Z.mod_unique _ (w_capacity w) 1 (w_head w + Z.of_nat i - w_capacity w)); lia.
  - assert (h = length (take h (w_samples w))) as Hlen.
    { rewrite length_take. lia. }
    rewrite Hlen at 1. apply mapM_slice_get. intros i Hi. rewrite <- Hlen in Hi.
    split; [lia|]. by rewrite Nat2Z.id, lookup_take_lt by lia.
Qed.

Lemma length_contents w : wf w → Z.of_nat (length (contents w)) = Len w.
Proof.
  intros [Hc Hl Hh]. unfold contents, Len. destruct (w_filled w);
    rewrite ?length_app, ?length_drop, length_take; lia.
Qed.

Lemma Len_bounds w : wf w → 0 ≤ Len w ≤ Capacity w.
Proof. intros [Hc Hl Hh]. unfold Len, Capacity. destruct (w_filled w); lia. Qed.

(** A Window is filled exactly when it holds as many Samples as it can. *)
Lemma Filled_Len w : wf w → Filled w = (Len w =? Capacity w).
Proof.
  intros [Hc Hl Hh]. unfold Filled, Len, Capacity.
  destruct (w_filled w); symmetry; [by apply Z.eqb_refl|apply Z.eqb_neq; lia].
Qed.

(** The ring around its head. *)
Lemma ring_split w : wf w → ∃ pre x post,
  w_samples w = pre ++ x :: post ∧ Z.to_nat (w_head w) = length pre ∧
  w_head w = Z.of_nat (length pre) ∧
  w_capacity w = Z.of_nat (length pre + S (length post)).
Proof.
  intros [Hc Hl Hh]. set (h := Z.to_nat (w_head w)).
  destruct (w_samples w !! h) as [x|] eqn:Hx; [|apply lookup_ge_None in Hx; lia].
  assert (length (take h (w_samples w)) = h) as Hlen by (rewrite length_take; lia).
  exists (take h (w_samples w)), x, (drop (S h) (w_samples w)).
  rewrite Hlen, length_drop. split_and!; [|lia..]. by rewrite take_drop_middle.
Qed.

(** One push slides the abstract Window by one Sample. *)
Lemma Push_contents w s w' : wf w → Push w s = Some w' →
  wf w' ∧ w_capacity w' = w_capacity w ∧
  contents w' = take_last (Z.to_nat (w_capacity w)) (contents w ++ [s]) ∧
  Filled w' = (Filled w || (Len w + 1 =? w_capacity w)).
Proof.
  intros Hwf HP. destruct (Push_ok w s Hwf) as (w2 & HP2 & Hwf' & Hc' & Hs' & Hh' & Hf').
  rewrite HP in HP2. injection HP2 as <-.
  destruct (ring_split w Hwf) as (pre & x & post & Hpre & Hhn & Hh & Hcap).
  assert (<[Z.to_nat (w_head w) := s]> (w_samples w) = pre ++ s :: post) as Hins.
  { rewrite Hpre, Hhn, insert_app_r_alt, Nat.sub_diag by lia. done. }
  rewrite Hins in Hs'.
  assert (Hold : contents w = if w_filled w then x :: post ++ pre else pre).
  { unfold contents. rewrite Hpre, Hhn, drop_app_length, take_app_length. done. }
  split_and!; [done..| |].
  - rewrite Hold. unfold contents. rewrite Hs', Hf', Hh', Hh, Hcap.
    destruct post as [|y post].
    + replace (Z.of_nat (length pre) + 1) with (Z.of_nat (length pre + 1)) by lia.
      rewrite Z.mod_same by lia. simpl. rewrite app_nil_r.
      destruct (w_filled w); unfold take_last; simpl; rewrite length_app; simpl.
      * by replace (S (length pre + 1) - Z.to_nat (Z.of_nat (length pre + 1)))%nat with 1%nat by lia.
      * by replace (length pre + 1 - Z.to_nat (Z.of_nat (length pre + 1)))%nat with 0%nat by lia.
    + rewrite Z.mod_small by (simpl; lia).
      rewrite (proj2 (Z.eqb_neq _ 0)) by lia.
      replace (Z.to_nat (Z.of_nat (length pre) + 1)) with (length (pre ++ [s]))
        by (rewrite length_app; simpl; lia).
      replace (pre ++ s :: y :: post) with ((pre ++ [s]) ++ y :: post) by (by rewrite <- app_assoc).
      rewrite drop_app_length, take_app_length. rewrite Nat2Z.id.
      destruct (w_filled w); unfold take_last; simpl; rewrite !length_app; simpl.
      * replace (S (S (length post + length pre + 1)) - (length pre + S (S (length post))))%nat
          with 1%nat by lia.
        simpl. by rewrite <- app_assoc.
      * by replace (length pre + 1 - (length pre + S (S (length post))))%nat with 0%nat by lia.
  - unfold Filled, Len. rewrite Hf', Hh', Hh, Hcap. destruct post as [|y post].
    + replace (Z.of_nat (length pre) + 1) with (Z.of_nat (length pre + 1)) by lia.
      rewrite Z.mod_same by lia. simpl. destruct (w_filled w); [done|].
      symmetry. apply Z.eqb_eq. lia.
    + rewrite Z.mod_small by (simpl; lia). rewrite (proj2 (Z.eqb_neq _ 0)) by lia.
      destruct (w_filled w); [done|]. symmetry. apply Z.eqb_neq. simpl. lia.
Qed.

(** ** Statistics of the abstract Window *)

(** The RTTs of the Samples that succeeded. *)
Definition rtts (l : list Sample) : list Z := RTTMicros <$> filter (λ s, Lost s = false) l.

Definition zsum (l : list Z) : Z := foldr Z.add 0 l.

Definition losses (l : list Sample) : Z := Z.of_nat (length (filter (λ s, Lost s = true) l)).

(** The mean over the RTTs, none without a successful Sample. *)
Definition mean_of (l : list Z) : option Z :=
  match l with
  | [] => None
  | _ => Some (u64 (zsum l) / u64 (Z.of_nat (length l)))
  end.

Lemma foldl_losses l : ∀ a,
  foldl (λ lost s, if Lost s then lost + 1 else lost) a l = a + losses l.
Proof.
  unfold losses. induction l as [|s l IH]; intros a; simpl; [lia|].
  rewrite IH, filter_cons. destruct (Lost s) eqn:E.
  - rewrite decide_True by done. simpl. lia.
  - rewrite decide_False by congruence. lia.
Qed.

Lemma rtts_cons s l : rtts (s :: l) = if Lost s then rtts l else RTTMicros s :: rtts l.
Proof.
  unfold rtts. rewrite filter_cons. destruct (Lost s) eqn:E.
  - by rewrite decide_False by congruence.
  - by rewrite decide_True by done.
Qed.

Lemma foldl_mean_step l : ∀ a n,
  foldl mean_step (u64 a, u64 n) l
  = (u64 (a + zsum (rtts l)), u64 (n + Z.of_nat (length (rtts l)))).
Proof.
  induction l as [|s l IH]; intros a n; simpl.
  { by rewrite !Z.add_0_r. }
  rewrite rtts_cons. destruct (Lost s); [apply IH|].
  rewrite !u64_add_l, IH. csimpl. f_equal; f_equal; lia.
Qed.

Lemma LossCounts_contents w : wf w → LossCounts w = Some (losses (contents w), Len w).
Proof. intros Hwf. unfold LossCounts. by rewrite forEach_contents; simpl; rewrite ?foldl_losses. Qed.

Lemma losses_bounds l : 0 ≤ losses l ≤ Z.of_nat (length l).
Proof. unfold losses. pose proof (length_filter (λ s, Lost s = true) l). lia. Qed.

Lemma length_rtts_le l : (length (rtts l) ≤ length l)%nat.
Proof. unfold rtts. rewrite length_fmap. apply length_filter. Qed.

Lemma MeanRTT_contents w : wf w → Capacity w < two64 →
  MeanRTT w = Some (mean_of (rtts (contents w))).
Proof.
  intros Hwf Hcap. unfold MeanRTT. rewrite forEach_contents by done. simpl.
  rewrite (foldl_mean_step _ 0 0 : foldl _ (0, 0) _ = _), !Z.add_0_l.
  pose proof (length_rtts_le (contents w)). pose proof (length_contents w Hwf).
  pose proof (Len_bounds w Hwf).
  destruct (rtts (contents w)) as [|r l] eqn:E; [done|].
  unfold mean_of. rewrite (proj2 (Z.eqb_neq _ 0)); [done|].
  rewrite u64_small; simpl in *; lia.
Qed.

(** The mean lies between the least and the greatest RTT, unless the
    [uint64] sum overflows. *)
Lemma zsum_bounds l lo hi : (∀ x, x ∈ l → lo ≤ x ≤ hi) →
  lo * Z.of_nat (length l) ≤ zsum l ≤ hi * Z.of_nat (length l).
Proof.
  induction l as [|x l IH]; intros Hl; simpl; [lia|].
  pose proof (Hl x ltac:(left)). specialize (IH ltac:(intros; apply Hl; by right)). lia.
Qed.

Lemma mean_of_bounds l m lo hi : mean_of l = Some m →
  0 ≤ lo → zsum l < two64 → Z.of_nat (length l) < two64 →
  (∀ x, x ∈ l → lo ≤ x ≤ hi) → lo ≤ m ≤ hi.
Proof.
  unfold mean_of. destruct l as [|r l]; [done|]. intros [= <-] Hlo Hsum Hlen Hl.
  pose proof (zsum_bounds _ _ _ Hl) as Hb.
  set (n := Z.of_nat (length (r :: l))) in *.
  assert (0 < n) by (unfold n; simpl; lia).
  change (r + zsum l) with (zsum (r :: l)). change (Z.of_nat (S (length l))) with n.
  rewrite !u64_small by nia. split.
  - apply Z.div_le_lower_bound; lia.
  - apply Z.div_le_upper_bound; lia.
Qed.

(** A constant RTT has a zero sum of squares. *)
Lemma foldl_jitter_zero r l : 0 ≤ r < two64 → (∀ x, x ∈ rtts l → x = r) →
  ∀ a n, f64_is_zero a = true →
  ∃ sumSq, foldl (jitter_step r) (a, u64 n) l = (sumSq, u64 (n + Z.of_nat (length (rtts l))))
    ∧ f64_is_zero sumSq = true.
Proof.
  intros Hr. induction l as [|s l IH]; intros Hl a n Ha; simpl.
  { exists a. by rewrite Z.add_0_r. }
  rewrite rtts_cons in Hl |- *. destruct (Lost s) eqn:E; [by apply IH|].
  rewrite (Hl (RTTMicros s) ltac:(left)), u64_add_l. csimpl.
  replace (n + Z.of_nat (S (length (rtts l)))) with (n + 1 + Z.of_nat (length (rtts l))) by lia.
  apply IH; [intros; apply Hl; by right|]. apply f64_add_zero; [done|].
  assert (f64_is_zero (f64_sub (f64_of_Z r) (f64_of_Z r)) = true)
    by (by apply f64_sub_self, f64_of_Z_finite).
  by apply f64_mul_zero.
Qed.

Lemma rtts_nil l : rtts l = [] ↔ ∀ s, s ∈ l → Lost s = true.
Proof.
  induction l as [|s l IH]; [by split; [intros _ s ?%not_elem_of_nil|]|].
  rewrite rtts_cons. destruct (Lost s) eqn:E.
  - rewrite IH. split; [by intros Hl s' [->|]%elem_of_cons; [|apply Hl]|].
    intros Hl s' Hs'. apply Hl. by right.
  - split; [done|]. intros Hl. specialize (Hl s ltac:(left)). congruence.
Qed.

(** The jitter on the abstract Window. *)
Lemma JitterMicros_contents w : wf w → Capacity w < 2 ^ 53 →
  ∃ jitter, JitterMicros w = Some jitter ∧
    (jitter = None ↔ mean_of (rtts (contents w)) = None) ∧
    (∀ m, mean_of (rtts (contents w)) = Some m → 0 ≤ m < two64 →
       (∀ x, x ∈ rtts (contents w) → x = m) → jitter = Some 0).
Proof.
  intros Hwf Hcap. unfold JitterMicros. assert (2 ^ 53 < two64) by done.
  rewrite MeanRTT_contents by (done || lia). simpl.
  destruct (mean_of (rtts (contents w))) as [m|] eqn:Em; [|by exists None].
  rewrite forEach_contents by done. simpl.
  destruct (foldl (jitter_step m) (f64_zero, 0) (contents w)) as [sumSq n] eqn:Ef.
  eexists. split_and!; [done..|]. intros m' [= <-] Hm Hall.
  destruct (foldl_jitter_zero m (contents w) Hm Hall f64_zero 0 eq_refl) as (sq & Hfold & Hz).
  rewrite (Hfold : foldl _ (f64_zero, 0) _ = _), Z.add_0_l in Ef. injection Ef as <- <-. f_equal.
  pose proof (length_rtts_le (contents w)). pose proof (length_contents w Hwf).
  pose proof (Len_bounds w Hwf).
  assert (0 < length (rtts (contents w)))%nat.
  { destruct (rtts (contents w)); [done|simpl; lia]. }
  rewrite u64_small by lia.
  apply f64_sqrt_zero, f64_div_zero; [done|apply f64_of_Z_finite; lia|apply f64_of_Z_nonzero; lia].
Qed.

(** ** Properties *)

(** C36. The ring buffer refines a sliding window: after any sequence of
    pushes onto a new Window, the accessors see exactly the last [capacity]
    Samples in push order, [Len] counts them, [Filled] holds from the
    [capacity]-th push on, and no access is out of range. *)
Theorem window_refines_sliding c w0 l : NewWindow c = Some w0 →
  ∃ w, PushAll w0 l = Some w ∧ wf w ∧
    forEach w = Some (take_last (Z.to_nat c) l) ∧
    Len w = Z.min c (Z.of_nat (length l)) ∧
    Filled w = (c <=? Z.of_nat (length l)).
Proof.
  intros Hnew. destruct (NewWindow_wf _ _ Hnew) as (Hwf0 & Hc0 & Hcap0).
  assert (∃ w, PushAll w0 l = Some w ∧ wf w ∧ w_capacity w = c ∧
    contents w = take_last (Z.to_nat c) l) as (w & HP & Hwf & Hcap & Hcon).
  { unfold PushAll. induction l as [|s l IH] using rev_ind; [by exists w0|].
    destruct IH as (w & HP & Hwf & Hcap & Hcon).
    rewrite foldl_snoc, HP. simpl.
    destruct (Push_ok w s Hwf) as (w' & HPs & _). rewrite HPs. exists w'.
    destruct (Push_contents w s w' Hwf HPs) as (Hwf' & Hcap' & Hcon' & _).
    split_and!; [done..|congruence|]. rewrite Hcon', Hcon, Hcap.
    apply take_last_app_take_last. }
  exists w. pose proof (length_contents w Hwf) as Hlen.
  rewrite Hcon, length_take_last in Hlen. pose proof (wf_capacity w Hwf).
  split_and!; [done..|by rewrite forEach_contents, Hcon|lia|].
  rewrite Filled_Len by done. unfold Capacity. rewrite Hcap.
  destruct (c <=? _) eqn:E; bool_to_Prop; [apply Z.eqb_eq|apply Z.eqb_neq]; lia.
Qed.

Lemma window_refines_sliding_witness :
  ∃ w0, NewWindow 2 = Some w0 ∧ ∃ w,
    PushAll w0 [mkSample 5 false; mkSample 0 true; mkSample 7 false] = Some w ∧ wf w ∧
    forEach w = Some [mkSample 0 true; mkSample 7 false] ∧ Len w = 2 ∧ Filled w = true.
Proof.
  eexists. split; [reflexivity|].
  exact (window_refines_sliding 2 _ [mkSample 5 false; mkSample 0 true; mkSample 7 false] eq_refl).
Defined.

(** The statistics of a Window of successful Samples within bounds: the
    loss is counted exactly; the mean RTT and the jitter have data exactly
    when some Sample succeeded; the mean lies between the least and the
    greatest successful RTT as long as their sum fits in [uint64]; and
    Samples with one common RTT have that mean and a jitter of 0. *)
Theorem window_statistics w lo hi : wf w → Capacity w < 2 ^ 53 →
  (∀ x, x ∈ rtts (contents w) → 0 ≤ lo ≤ x ∧ x ≤ hi) → zsum (rtts (contents w)) < two64 →
  ∃ mean jitter,
    LossCounts w = Some (losses (contents w), Len w) ∧
    MeanRTT w = Some mean ∧ JitterMicros w = Some jitter ∧
    (mean = None ↔ ∀ s, s ∈ contents w → Lost s = true) ∧
    (jitter = None ↔ mean = None) ∧
    (∀ m, mean = Some m → lo ≤ m ≤ hi) ∧
    (lo = hi → mean ≠ None → mean = Some lo ∧ jitter = Some 0).
Proof.
  intros Hwf Hcap Hrange Hsum.
  pose proof (length_rtts_le (contents w)) as Hle. pose proof (length_contents w Hwf) as Hlen.
  pose proof (Len_bounds w Hwf) as Hb. assert (2 ^ 53 < two64) by done.
  pose proof (MeanRTT_contents w Hwf ltac:(lia)) as Hmean.
  destruct (JitterMicros_contents w Hwf ltac:(lia)) as (jitter & Hj & Hjn & Hjc).
  exists (mean_of (rtts (contents w))), jitter.
  assert (Hmb : ∀ m, mean_of (rtts (contents w)) = Some m → lo ≤ m ≤ hi).
  { intros m Hm. destruct (rtts (contents w)) as [|r l] eqn:E; [done|].
    pose proof (Hrange r ltac:(left)).
    eapply mean_of_bounds; [done|lia|lia|lia|]. intros x Hx. specialize (Hrange x Hx). lia. }
  split_and!; [by apply LossCounts_contents|done..| |done|done|].
  - rewrite <- rtts_nil. by destruct (rtts (contents w)).
  - intros -> Hm. destruct (mean_of (rtts (contents w))) as [m|] eqn:Em; [|done].
    pose proof (Hmb m eq_refl). assert (m = hi) as -> by lia.
    assert (∀ x, x ∈ rtts (contents w) → hi ≤ x ≤ hi) as Heq.
    { intros x Hx. specialize (Hrange x Hx). lia. }
    pose proof (zsum_bounds _ _ _ Heq) as Hz.
    assert (0 ≤ hi < two64).
    { destruct (rtts (contents w)) as [|r l]; [done|].
      specialize (Hrange r ltac:(left)). simpl length in Hz. nia. }
    split; [done|]. apply (Hjc hi); [done..|].
    intros x Hx. specialize (Heq x Hx). lia.
Qed.

Lemma window_statistics_witness :
  ∃ mean jitter,
    LossCounts (mkWindowStats 2 [mkSample 4 false; mkSample 0 true] 0 true) = Some (1, 2) ∧
    MeanRTT (mkWindowStats 2 [mkSample 4 false; mkSample 0 true] 0 true) = Some mean ∧
    JitterMicros (mkWindowStats 2 [mkSample 4 false; mkSample 0 true] 0 true) = Some jitter ∧
    (∀ m, mean = Some m → 4 ≤ m ≤ 4).
Proof.
  destruct (window_statistics (mkWindowStats 2 [mkSample 4 false; mkSample 0 true] 0 true) 4 4)
    as (mean & jitter & H1 & H2 & H3 & _ & _ & H4 & _).
  - split; simpl; lia.
  - reflexivity.
  - intros x Hx. apply (list_elem_of_singleton x 4) in Hx. lia.
  - reflexivity.
  - exists mean, jitter. exact (conj H1 (conj H2 (conj H3 H4))).
Defined.
