(* ===== verification/Icmp.v ===== *)
(** * The ICMP echo wire format

    Models [daemon/internal/probe/icmp.go]: [Family], the echo-request
    builder, the echo-reply parser and the RFC 1071 checksum. A byte is a [Z]
    below 256 and [uint16] arithmetic wraps. *)
From stdpp Require Import pretty.
From S2P Require Import Prelude.
Local Open Scope Z_scope.

(** daemon/internal/probe/icmp.go:36-39 (Family): the Go type is an [int]
    whose two named values are the kernel's address families; every value of
    it reaches the daemon through these constants or a cast from
    [rtnl.RouteFamily], so other integers are kept as [FamilyOther]. *)
Inductive Family := FamilyV4 | FamilyV6 | FamilyOther (n : Z).

#[export] Instance Family_eq_dec : EqDecision Family.
Proof. solve_decision. Defined.

(** [unix.AF_INET] and [unix.AF_INET6] on Linux. *)
Definition AF_INET : Z := 2.
Definition AF_INET6 : Z := 10.

(** daemon/internal/probe/icmp.go:41-46 (FamilyV4, FamilyV6): the integer of a Family. *)
Definition Family_int (f : Family) : Z :=
  match f with FamilyV4 => AF_INET | FamilyV6 => AF_INET6 | FamilyOther n => n end.

(** The Family of an integer, the cast [probe.Family(n)]. *)
Definition Family_of_int (n : Z) : Family :=
  if n =? AF_INET then FamilyV4 else if n =? AF_INET6 then FamilyV6 else FamilyOther n.

#[export] Instance Family_countable : Countable Family.
Proof.
  refine (inj_countable'
    (λ f, match f with FamilyV4 => inl false | FamilyV6 => inl true | FamilyOther n => inr n end)
    (λ s : bool + Z, match s with inl false => FamilyV4 | inl true => FamilyV6 | inr n => FamilyOther n end)
    _).
  by intros [].
Defined.

(** daemon/internal/probe/icmp.go:48-51 (AllFamilies) *)
Definition AllFamilies : list Family := [FamilyV4; FamilyV6].

(** daemon/internal/probe/icmp.go:53-64 (Family.String) *)
Definition Family_String (f : Family) : string :=
  match f with
  | FamilyV4 => "v4"
  | FamilyV6 => "v6"
  | FamilyOther n => "Family(" +:+ pretty n +:+ ")"
  end.

(** daemon/internal/probe/icmp.go:66-72 (icmpv4EchoRequest and the other message types) *)
Definition icmpv4EchoRequest : Z := 8.
Definition icmpv4EchoReply : Z := 0.
Definition icmpv6EchoRequest : Z := 128.
Definition icmpv6EchoReply : Z := 129.

(** [binary.BigEndian.Uint16] of two bytes, and [PutUint16]. *)
Definition be16 (hi lo : Z) : Z := Z.lor (Z.shiftl hi 8) lo.
Definition be16_bytes (v : Z) : list Z := [u8 (Z.shiftr v 8); u8 v].

(** daemon/internal/probe/icmp.go:141-148 (internetChecksum): the [uint32] sum
    of the 16-bit words, an odd last byte in the high half. *)
Fixpoint checksum_sum (b : list Z) (sum : Z) : Z :=
  match b with
  | hi :: lo :: b' => checksum_sum b' ((sum + be16 hi lo) mod 2 ^ 32)
  | [last] => (sum + Z.shiftl last 8) mod 2 ^ 32
  | [] => sum
  end.

(** daemon/internal/probe/icmp.go:149-151 (internetChecksum): the carry fold.
    [fuel] bounds the loop; [fold_carry_spec] shows that two rounds are
    enough for every [uint32]. *)
Fixpoint fold_carry (fuel : nat) (sum : Z) : option Z :=
  if Z.shiftr sum 16 =? 0 then Some sum
  else match fuel with
       | O => None
       | S fuel => fold_carry fuel (Z.land sum 65535 + Z.shiftr sum 16)
       end.

(** daemon/internal/probe/icmp.go:136-154 (internetChecksum) *)
Definition internetChecksum (b : list Z) : option Z :=
  sum ← fold_carry 2 (checksum_sum b 0);
  Some (Z.lxor 65535 (u16 sum)).

(** daemon/internal/probe/icmp.go:74-101 (EchoRequestBytes) *)
Definition EchoRequestBytes (family : Family) (ident seq : Z) (payload : list Z) : option (list Z) :=
  let msgType := if decide (family = FamilyV6) then icmpv6EchoRequest else icmpv4EchoRequest in
  let message (cs : list Z) := [msgType; 0] ++ cs ++ be16_bytes ident ++ be16_bytes seq ++ payload in
  let b := message [0; 0] in
  if decide (family = FamilyV4) then
    c ← internetChecksum b;
    Some (message (be16_bytes c))
  else Some b.

(** daemon/internal/probe/icmp.go:103-111 (ErrReplyTooShort, ErrUnexpectedType) *)
Inductive ParseError := ErrReplyTooShort | ErrUnexpectedType.

(** daemon/internal/probe/icmp.go:113-134 (ParseEchoReply): the identifier and
    the sequence number of a reply. *)
Definition ParseEchoReply (family : Family) (data : list Z) : ParseError + Z * Z :=
  match data with
  | t :: _ :: _ :: _ :: i1 :: i0 :: s1 :: s0 :: _ =>
      let expected := if decide (family = FamilyV6) then icmpv6EchoReply else icmpv4EchoReply in
      if t =? expected then inr (be16 i1 i0, be16 s1 s0) else inl ErrUnexpectedType
  | _ => inl ErrReplyTooShort
  end.

(** ** The one's-complement sum *)

Definition is_byte (z : Z) : Prop := 0 ≤ z < 256.

Lemma be16_eq hi lo : is_byte lo → be16 hi lo = hi * 256 + lo.
Proof.
  intros Hlo. unfold be16. rewrite Z.shiftl_mul_pow2 by lia. change (2 ^ 8) with 256.
  assert (Z.land (hi * 256) lo = 0) as Hland.
  { apply Z.bits_inj'. intros n Hn. rewrite Z.land_spec, Z.bits_0.
    change 256 with (2 ^ 8). destruct (Z.lt_ge_cases n 8).
    - by rewrite Z.mul_pow2_bits_low.
    - rewrite <- (Z.mod_small lo (2 ^ 8)) by done.
      by rewrite Z.mod_pow2_bits_high, andb_false_r by lia. }
  pose proof (Z.add_lor_land (hi * 256) lo). lia.
Qed.

Lemma be16_bytes_eq v : 0 ≤ v < 65536 → be16_bytes v = [v / 256; v mod 256].
Proof.
  intros Hv. unfold be16_bytes, u8. rewrite Z.shiftr_div_pow2 by lia. change (2 ^ 8) with 256.
  rewrite (Z.mod_small (v / 256)); [done|]. split; [apply Z.div_pos; lia|].
  apply Z.div_lt_upper_bound; lia.
Qed.

Lemma be16_bytes_byte v : Forall is_byte (be16_bytes v).
Proof. repeat constructor; apply u8_range. Qed.

(** Reading back two bytes written by [PutUint16]. *)
Lemma be16_be16_bytes v : 0 ≤ v < 65536 → be16 (u8 (Z.shiftr v 8)) (u8 v) = v.
Proof.
  intros Hv. pose proof (be16_bytes_eq v Hv) as Hb. injection Hb as Hhi.
  rewrite Hhi, be16_eq by apply u8_range. unfold u8. pose proof (Z.div_mod v 256). lia.
Qed.

(** The exact sum of the 16-bit words. *)
Fixpoint word_sum (b : list Z) : Z :=
  match b with
  | hi :: lo :: b' => hi * 256 + lo + word_sum b'
  | [last] => last * 256
  | [] => 0
  end.

(** Induction two bytes at a time. *)
Lemma list_ind2 {A} (P : list A → Prop) :
  P [] → (∀ x, P [x]) → (∀ x y l, P l → P (x :: y :: l)) → ∀ l, P l.
Proof.
  intros H0 H1 H2 l. enough (P l ∧ ∀ x, P (x :: l)) by tauto.
  induction l as [|x l [IH1 IH2]]; [by split|]. split; [apply IH2|]. intros y. by apply H2.
Qed.

Lemma word_sum_bounds b : Forall is_byte b →
  0 ≤ word_sum b ≤ 65535 * Z.of_nat (length b).
Proof.
  induction b as [|x|x y b IH] using list_ind2; intros Hb; simpl.
  - lia.
  - inv Hb. unfold is_byte in *. lia.
  - inv Hb. match goal with H : Forall _ (_ :: _) |- _ => inv H end.
    unfold is_byte in *. specialize (IH ltac:(done)). lia.
Qed.

(** Short messages do not overflow the [uint32] sum. *)
Lemma checksum_sum_eq b : Forall is_byte b → ∀ sum,
  0 ≤ sum → sum + word_sum b < 2 ^ 32 → checksum_sum b sum = sum + word_sum b.
Proof.
  induction b as [|x|x y b IH] using list_ind2; intros Hb sum Hs Hlt; simpl in *.
  - lia.
  - inv Hb. rewrite Z.shiftl_mul_pow2 by lia. unfold is_byte in *.
    rewrite Z.mod_small by lia. lia.
  - inv Hb. match goal with H : Forall _ (_ :: _) |- _ => inv H end.
    rewrite be16_eq by done. pose proof (word_sum_bounds b ltac:(done)).
    unfold is_byte in *. rewrite Z.mod_small by lia. rewrite IH by (done || lia). lia.
Qed.

(** One carry fold keeps the sum modulo 65535. *)
Lemma fold_round s : 0 ≤ s →
  Z.land s 65535 = s mod 65536 ∧ Z.shiftr s 16 = s / 65536 ∧ s = 65536 * (s / 65536) + s mod 65536.
Proof.
  intros. split_and!.
  - change 65535 with (Z.ones 16). by rewrite Z.land_ones by lia.
  - by rewrite Z.shiftr_div_pow2 by lia.
  - apply Z.div_mod. lia.
Qed.

(** The fold ends within two rounds with the residue of the sum in [0..65535],
    which is 0 only for the sum 0. *)
Lemma fold_carry_spec fuel s : 0 ≤ s →
  (s < 65536 ∨ (1 ≤ fuel)%nat ∧ s ≤ 131070 ∨ (2 ≤ fuel)%nat ∧ s < 2 ^ 32) →
  ∃ f, fold_carry fuel s = Some f ∧ 0 ≤ f < 65536 ∧ (∃ k, s = f + 65535 * k) ∧ (f = 0 → s = 0).
Proof.
  revert s. induction fuel as [|fuel IH]; intros s Hs Hb;
    destruct (fold_round s Hs) as (Hland & Hshr & Hdm); simpl; rewrite Hshr;
    pose proof (Z.mod_pos_bound s 65536 ltac:(lia)) as Hm;
    pose proof (Z.div_pos s 65536 Hs ltac:(lia)) as Hd;
    destruct (s / 65536 =? 0) eqn:E; bool_to_Prop.
  1,3: exists s; split_and!; [done|lia|lia|exists 0; lia|lia].
  - exfalso. lia.
  - rewrite Hland. destruct (IH (s mod 65536 + s / 65536)) as (f & Hf & Hr & [k Hk] & H0);
      [lia|lia|].
    exists f. split_and!; [done|lia|lia|exists (k + s / 65536); lia|]. lia.
Qed.

Lemma internetChecksum_spec b : Forall is_byte b → Z.of_nat (length b) ≤ 65536 →
  ∃ c, internetChecksum b = Some c ∧ 0 ≤ c < 65536 ∧
    (∃ k, word_sum b + c = 65535 * k) ∧ (c = 65535 → word_sum b = 0).
Proof.
  intros Hb Hlen. pose proof (word_sum_bounds b Hb) as Hw.
  unfold internetChecksum. rewrite checksum_sum_eq by (done || lia). rewrite Z.add_0_l.
  destruct (fold_carry_spec 2 (word_sum b)) as (f & -> & Hf & [k Hk] & H0); [lia|lia|].
  simpl. rewrite u16_small by done.
  assert (Z.lxor 65535 f = 65535 - f) as ->.
  { pose proof (Z.sub_nocarry_ldiff 65535 f) as Hsub. rewrite Hsub.
    - apply Z.bits_inj'. intros n Hn. rewrite Z.lxor_spec, Z.ldiff_spec.
      change 65535 with (Z.ones 16). destruct (Z.lt_ge_cases n 16).
      + by rewrite Z.ones_spec_low by lia; destruct (Z.testbit f n).
      + rewrite Z.ones_spec_high by lia. rewrite <- (Z.mod_small f (2 ^ 16)) by lia.
        by rewrite Z.mod_pow2_bits_high by lia.
    - apply Z.bits_inj'. intros n Hn. rewrite Z.ldiff_spec, Z.bits_0.
      change 65535 with (Z.ones 16). destruct (Z.lt_ge_cases n 16).
      + rewrite Z.ones_spec_low by lia. apply andb_false_r.
      + rewrite <- (Z.mod_small f (2 ^ 16)) by lia. by rewrite Z.mod_pow2_bits_high by lia. }
  exists (65535 - f). split_and!; [done|lia|lia|exists (k + 1); lia|]. intros. apply H0. lia.
Qed.

(** ** The request *)

Definition requestType (f : Family) : Z :=
  if decide (f = FamilyV6) then icmpv6EchoRequest else icmpv4EchoRequest.

Definition replyType (f : Family) : Z :=
  if decide (f = FamilyV6) then icmpv6EchoReply else icmpv4EchoReply.

(** The bytes of a request with a given checksum field. *)
Definition echo_message (f : Family) (ident seq : Z) (payload cs : list Z) : list Z :=
  [requestType f; 0] ++ cs ++ be16_bytes ident ++ be16_bytes seq ++ payload.

Lemma echo_message_bytes f ident seq payload cs :
  Forall is_byte payload → Forall is_byte cs → Forall is_byte (echo_message f ident seq payload cs).
Proof.
  intros. unfold echo_message. rewrite !Forall_app. split_and!; try done; try apply be16_bytes_byte.
  unfold requestType, is_byte. by case_decide; repeat constructor.
Qed.

(** The checksum field adds its value to the sum of the words. *)
Lemma word_sum_message f ident seq payload c : 0 ≤ c < 65536 →
  word_sum (echo_message f ident seq payload (be16_bytes c))
  = c + word_sum (echo_message f ident seq payload [0; 0]).
Proof. intros Hc. unfold echo_message. rewrite (be16_bytes_eq c) by done. simpl. pose proof (Z.div_mod c 256). lia. Qed.

Lemma word_sum_request ident seq payload : Forall is_byte payload →
  0 < word_sum (echo_message FamilyV4 ident seq payload [0; 0]).
Proof.
  intros Hp. assert (Forall is_byte (be16_bytes ident ++ be16_bytes seq ++ payload)) as Hb.
  { rewrite !Forall_app. auto using be16_bytes_byte. }
  apply word_sum_bounds in Hb. unfold echo_message. change (requestType FamilyV4) with 8. simpl in *. lia.
Qed.

(** Every Family but v4 leaves the checksum field zero; v4 fills it so that
    the whole message sums to zero. *)
Lemma EchoRequestBytes_spec f ident seq payload :
  Forall is_byte payload → Z.of_nat (length payload) ≤ 65528 →
  ∃ c, 0 ≤ c < 65536 ∧
    EchoRequestBytes f ident seq payload = Some (echo_message f ident seq payload (be16_bytes c)) ∧
    (f ≠ FamilyV4 → c = 0) ∧
    (f = FamilyV4 → internetChecksum (echo_message f ident seq payload (be16_bytes c)) = Some 0).
Proof.
  intros Hp Hlen. set (m cs := echo_message f ident seq payload cs).
  assert (∀ v, Z.of_nat (length (m (be16_bytes v))) ≤ 65536) as Hl by (intros; simpl in *; lia).
  assert (EchoRequestBytes f ident seq payload = if decide (f = FamilyV4)
    then c ← internetChecksum (m [0; 0]); Some (m (be16_bytes c)) else Some (m [0; 0])) as ->
    by reflexivity.
  case_decide as Hf; [|by exists 0].
  destruct (internetChecksum_spec (m [0; 0])) as (c & Hc & Hr & [k Hk] & H65).
  { by apply echo_message_bytes; [|repeat constructor]. }
  { apply (Hl 0). }
  exists c. rewrite Hc. split_and!; [lia..|done|done|].
  intros _. fold (m (be16_bytes c)).
  destruct (internetChecksum_spec (m (be16_bytes c))) as (c' & Hc' & Hr' & [k' Hk'] & H65').
  { by apply echo_message_bytes, be16_bytes_byte. }
  { apply Hl. }
  rewrite Hc'. f_equal. unfold m in *. rewrite word_sum_message in Hk', H65' by done.
  assert (c' = 0 ∨ c' = 65535) as [-> | ->] by lia; [done|].
  exfalso. specialize (H65' eq_refl). subst f.
  pose proof (word_sum_request ident seq payload Hp). lia.
Qed.

(** ** Properties *)

(** A reply to a request: the responder replaces the type, may rewrite the
    checksum field, and echoes the rest. *)
Definition reply_to (f : Family) (c1 c0 : Z) (request : list Z) : list Z :=
  replyType f :: 0 :: c1 :: c0 :: drop 4 request.

(** C39. Echo round trip: for both Families and every 16-bit identifier and
    sequence number, the built request has the 8-byte header and the payload,
    every element is a byte, and parsing a reply that echoes it returns that
    identifier and sequence number, whatever the reply's checksum field;
    the request itself is never taken for a reply. *)
Theorem echo_roundtrip f ident seq payload c1 c0 :
  0 ≤ ident < 65536 → 0 ≤ seq < 65536 →
  Forall is_byte payload → Z.of_nat (length payload) ≤ 65528 →
  ∃ req, EchoRequestBytes f ident seq payload = Some req ∧
    length req = (8 + length payload)%nat ∧ Forall is_byte req ∧
    drop 8 req = payload ∧
    ParseEchoReply f (reply_to f c1 c0 req) = inr (ident, seq) ∧
    ParseEchoReply f req = inl ErrUnexpectedType.
Proof.
  intros Hi Hs Hp Hlen.
  destruct (EchoRequestBytes_spec f ident seq payload Hp Hlen) as (c & Hc & Hreq & _).
  exists (echo_message f ident seq payload (be16_bytes c)).
  split_and!; [done|done| |done| |].
  - apply echo_message_bytes; [done|apply be16_bytes_byte].
  - unfold reply_to, echo_message, ParseEchoReply, be16_bytes. simpl.
    unfold replyType. rewrite Z.eqb_refl. by rewrite !be16_be16_bytes.
  - unfold echo_message, ParseEchoReply, be16_bytes, requestType. simpl. by case_decide.
Qed.

Lemma echo_roundtrip_witness :
  ∃ req, EchoRequestBytes FamilyV4 4660 65535 [] = Some req ∧
    ParseEchoReply FamilyV4 (reply_to FamilyV4 0 0 req) = inr (4660, 65535).
Proof.
  destruct (echo_roundtrip FamilyV4 4660 65535 [] 0 0) as (req & H1 & _ & _ & _ & H2 & _);
    [lia|lia|constructor|simpl; lia|].
  exists req. exact (conj H1 H2).
Defined.

(** C40. The v4 request carries a valid Internet checksum: summing the whole
    message, checksum included, gives 0, as a receiver checks; the other
    Families leave the checksum field zero for the kernel to fill. *)
Theorem echo_checksum f ident seq payload :
  Forall is_byte payload → Z.of_nat (length payload) ≤ 65528 →
  ∃ req, EchoRequestBytes f ident seq payload = Some req ∧
    (f = FamilyV4 → internetChecksum req = Some 0) ∧
    (f ≠ FamilyV4 → take 2 (drop 2 req) = [0; 0]).
Proof.
  intros Hp Hlen.
  destruct (EchoRequestBytes_spec f ident seq payload Hp Hlen) as (c & Hc & Hreq & H6 & H4).
  exists (echo_message f ident seq payload (be16_bytes c)). split_and!; [done..|].
  intros Hf. by rewrite (H6 Hf).
Qed.

Lemma echo_checksum_witness :
  ∃ req, EchoRequestBytes FamilyV4 1 2 [97; 98; 99] = Some req ∧ internetChecksum req = Some 0.
Proof.
  destruct (echo_checksum FamilyV4 1 2 [97; 98; 99]) as (req & H1 & H2 & _);
    [repeat constructor; unfold is_byte; lia|simpl; lia|].
  exists req. exact (conj H1 (H2 eq_refl)).
Defined.

(** The parser's error cases are exactly these. *)
Lemma ParseEchoReply_errors f data :
  (ParseEchoReply f data = inl ErrReplyTooShort ↔ (length data < 8)%nat) ∧
  (ParseEchoReply f data = inl ErrUnexpectedType ↔
     (8 ≤ length data)%nat ∧ data !! 0%nat ≠ Some (replyType f)).
Proof.
  destruct data as [|t [|? [|? [|? [|i1 [|i0 [|s1 [|s0 rest]]]]]]]]; simpl.
  1-8: split; split; [intros _; lia|done|done|intros []; lia].
  unfold replyType. destruct (t =? _) eqn:E; bool_to_Prop.
  - subst. split; split; [done|intros; lia|done|intros []; congruence].
  - split; split; [done|intros; lia|intros _; split; [lia|congruence]|done].
Qed.
