(* ===== verification/Aggregate.v ===== *)
(** * Aggregating the Windows of a Family

    Models [daemon/internal/probe/result.go]: the result types and
    [Aggregate], which reduces the per-Target Windows to one [FamilyStats].
    The Go function ranges over a map, whose order is unspecified: the model
    takes the map's entries as a list in some iteration order, and
    [aggregate_order_independent] shows the order does not matter. [big.Rat]
    values are canonical rationals [Qc]; the integer means wrap as [uint64]. *)
From Stdlib Require Import QArith.QArith QArith.Qcanon.
From S2P Require Import Prelude GoFloat Window Icmp.
Local Open Scope Z_scope.

(** daemon/internal/probe/result.go:10-24 (TargetStats) *)
Record TargetStats := mkTargetStats {
  ts_Target : string;
  ts_RTTMicros : option Z;
  ts_JitterMicros : option Z;
  ts_ExactLoss : option Qc;
  ts_LossRatio : option float64 }.

(** daemon/internal/probe/result.go:26-55 (FamilyStats) *)
Record FamilyStats := mkFamilyStats {
  fs_RTTMicros : option Z;
  fs_JitterMicros : option Z;
  fs_ExactLoss : option Qc;
  fs_LossRatio : option float64;
  fs_WindowFilled : bool;
  fs_PerTarget : list TargetStats }.

(** The zero value [FamilyStats{}]. *)
Definition zeroFamilyStats : FamilyStats := mkFamilyStats None None None None false [].

(** daemon/internal/probe/result.go:57-68 (ProbeResult): what a Pinger emits
    after each cycle; [Time] is in nanoseconds. *)
Record ProbeResult := mkProbeResult {
  pr_Wan : string;
  pr_Family : Family;
  pr_Stats : FamilyStats;
  pr_Time : Z }.

(** daemon/internal/probe/result.go:127-131 (intMean) *)
Record intMean := mkIntMean { im_sum : Z; im_n : Z }.

(** daemon/internal/probe/result.go:133-136 (intMean.add) *)
Definition intMean_add (m : intMean) (v : Z) : intMean :=
  mkIntMean (u64 (im_sum m + v)) (u64 (im_n m + 1)).

(** daemon/internal/probe/result.go:138-145 (intMean.mean) *)
Definition intMean_mean (m : intMean) : option Z :=
  if im_n m =? 0 then None else Some (im_sum m / im_n m).

(** daemon/internal/probe/result.go:147-152 (ratMean) *)
Record ratMean := mkRatMean { rm_sum : Qc; rm_n : Z }.

(** daemon/internal/probe/result.go:154-157 (ratMean.add) *)
Definition ratMean_add (m : ratMean) (r : Qc) : ratMean :=
  mkRatMean (rm_sum m + r)%Qc (int_wrap (rm_n m + 1)).

(** [big.NewRat(a, b)] for a positive denominator. *)
Definition NewRat (a b : Z) : Qc := Q2Qc (a # Z.to_pos b).

(** daemon/internal/probe/result.go:159-165 (ratMean.mean) *)
Definition ratMean_mean (m : ratMean) : option Qc :=
  if rm_n m =? 0 then None else Some (rm_sum m / NewRat (rm_n m) 1)%Qc.

(** daemon/internal/probe/result.go:167-174 (nearest) *)
Definition nearest (r : option Qc) : option float64 := f64_of_rat <$> r.

(** The variables of the loop of [Aggregate]. *)
Record acc := mkAcc {
  a_per : list TargetStats;
  a_rtt : intMean;
  a_jitter : intMean;
  a_loss : ratMean;
  a_allFilled : bool }.

(** Adding an optional statistic to a mean: no data stays out of it. *)
Definition add_opt {A M} (add : M → A → M) (m : M) (o : option A) : M :=
  match o with Some v => add m v | None => m end.

(** daemon/internal/probe/result.go:95-114 (Aggregate): one round of the loop;
    [None] is a panic of a malformed Window. *)
Definition aggregate_step (a : acc) '(name, w) : option acc :=
  rtt ← MeanRTT w;
  jitter ← JitterMicros w;
  '(lost, total) ← LossCounts w;
  let exact := if 0 <? total then Some (NewRat lost total) else None in
  Some (mkAcc
    (a_per a ++ [mkTargetStats name rtt jitter exact (nearest exact)])
    (add_opt intMean_add (a_rtt a) rtt)
    (add_opt intMean_add (a_jitter a) jitter)
    (add_opt ratMean_add (a_loss a) exact)
    (if Filled w then a_allFilled a else false)).

Fixpoint aggregate_loop (a : acc) (entries : list (string * WindowStats)) : option acc :=
  match entries with
  | [] => Some a
  | e :: entries => a' ← aggregate_step a e; aggregate_loop a' entries
  end.

(** daemon/internal/probe/result.go:70-125 (Aggregate): [entries] lists the
    [targets] map in the order the loop ranges over it. *)
Definition Aggregate (entries : list (string * WindowStats)) : option FamilyStats :=
  if decide (entries = []) then Some zeroFamilyStats
  else
    a ← aggregate_loop (mkAcc [] (mkIntMean 0 0) (mkIntMean 0 0) (mkRatMean 0%Qc 0) true) entries;
    let exact := ratMean_mean (a_loss a) in
    Some (mkFamilyStats (intMean_mean (a_rtt a)) (intMean_mean (a_jitter a))
      exact (nearest exact) (a_allFilled a)
      (merge_sort (by_key String.le ts_Target) (a_per a))).

(** ** The loop in closed form *)

(** The statistics of one well-formed Window. *)
Definition target_stats '(name, w) : option TargetStats :=
  rtt ← MeanRTT w;
  jitter ← JitterMicros w;
  '(lost, total) ← LossCounts w;
  let exact := if 0 <? total then Some (NewRat lost total) else None in
  Some (mkTargetStats name rtt jitter exact (nearest exact)).

Definition qsum (l : list Qc) : Qc := foldr Qcplus 0%Qc l.

(** The accumulator after the given per-Target statistics. *)
Definition acc_of (per : list TargetStats) (filled : bool) : acc :=
  mkAcc per
    (mkIntMean (u64 (zsum (omap ts_RTTMicros per))) (u64 (Z.of_nat (length (omap ts_RTTMicros per)))))
    (mkIntMean (u64 (zsum (omap ts_JitterMicros per))) (u64 (Z.of_nat (length (omap ts_JitterMicros per)))))
    (mkRatMean (qsum (omap ts_ExactLoss per)) (int_wrap (Z.of_nat (length (omap ts_ExactLoss per)))))
    filled.

Lemma zsum_app l k : zsum (l ++ k) = zsum l + zsum k.
Proof. unfold zsum. induction l; simpl; lia. Qed.

Lemma qsum_app l k : qsum (l ++ k) = (qsum l + qsum k)%Qc.
Proof. unfold qsum. induction l as [|x l IH]; simpl; [ring|]. rewrite IH. ring. Qed.

Lemma add_opt_int (l : list Z) o :
  add_opt intMean_add (mkIntMean (u64 (zsum l)) (u64 (Z.of_nat (length l)))) o =
  mkIntMean (u64 (zsum (l ++ option_list o))) (u64 (Z.of_nat (length (l ++ option_list o)))).
Proof.
  destruct o as [v|]; simpl; [|by rewrite app_nil_r].
  unfold intMean_add. simpl. rewrite !u64_add_l, zsum_app, length_app. simpl.
  f_equal; f_equal; lia.
Qed.

Lemma add_opt_rat (l : list Qc) o :
  add_opt ratMean_add (mkRatMean (qsum l) (int_wrap (Z.of_nat (length l)))) o =
  mkRatMean (qsum (l ++ option_list o)) (int_wrap (Z.of_nat (length (l ++ option_list o)))).
Proof.
  destruct o as [v|]; simpl; [|by rewrite app_nil_r].
  unfold ratMean_add. simpl. rewrite int_wrap_add_l, qsum_app, length_app. simpl.
  f_equal; [ring|f_equal; lia].
Qed.

Lemma omap_cons' {A B} (f : A → option B) x l : omap f (x :: l) = option_list (f x) ++ omap f l.
Proof. cbn. by destruct (f x). Qed.

Lemma omap_snoc {A B} (f : A → option B) l x : omap f (l ++ [x]) = omap f l ++ option_list (f x).
Proof. by rewrite omap_app. Qed.

Lemma aggregate_step_acc_of per filled e ts : target_stats e = Some ts →
  aggregate_step (acc_of per filled) e =
  Some (acc_of (per ++ [ts]) (filled && Filled e.2)).
Proof.
  destruct e as [name w]. unfold target_stats, aggregate_step. intros Hts.
  destruct (MeanRTT w) as [rtt|]; simpl in *; [|done].
  destruct (JitterMicros w) as [jitter|]; simpl in *; [|done].
  destruct (LossCounts w) as [[lost total]|]; simpl in *; [|done].
  injection Hts as <-. unfold acc_of. rewrite !omap_snoc. simpl.
  rewrite !add_opt_int, !add_opt_rat. by destruct (Filled w), filled.
Qed.

Lemma aggregate_loop_spec entries tss : mapM target_stats entries = Some tss →
  ∀ per filled, aggregate_loop (acc_of per filled) entries =
    Some (acc_of (per ++ tss) (filled && forallb (λ e, Filled e.2) entries)).
Proof.
  revert tss. induction entries as [|e entries IH]; intros tss HM per filled.
  - injection HM as <-. by rewrite app_nil_r, andb_true_r.
  - simpl in HM. destruct (target_stats e) as [ts|] eqn:Hts; [|done]. simpl in HM.
    destruct (mapM target_stats entries) as [tss'|]; [|done]. injection HM as <-.
    cbn [aggregate_loop]. rewrite (aggregate_step_acc_of _ _ _ _ Hts). simpl.
    rewrite (IH tss' eq_refl), <- app_assoc. f_equal. f_equal. simpl.
    by destruct filled, (Filled e.2).
Qed.

(** The result from the per-Target statistics. *)
Definition family_stats (tss : list TargetStats) (filled : bool) : FamilyStats :=
  let a := acc_of tss filled in
  mkFamilyStats (intMean_mean (a_rtt a)) (intMean_mean (a_jitter a))
    (ratMean_mean (a_loss a)) (nearest (ratMean_mean (a_loss a))) filled
    (merge_sort (by_key String.le ts_Target) tss).

Lemma Aggregate_spec entries tss : mapM target_stats entries = Some tss → entries ≠ [] →
  Aggregate entries = Some (family_stats tss (forallb (λ e, Filled e.2) entries)).
Proof.
  intros HM Hne. unfold Aggregate. rewrite decide_False by done.
  change (mkAcc [] _ _ _ true) with (acc_of [] true).
  by rewrite (aggregate_loop_spec entries tss HM [] true).
Qed.

(** ** Order independence *)

Lemma omap_Permutation {A B} (f : A → option B) l1 l2 : l1 ≡ₚ l2 → omap f l1 ≡ₚ omap f l2.
Proof.
  induction 1 as [|x l1 l2 _ IH|x y l|l1 l2 l3 _ IH1 _ IH2]; simpl.
  - done.
  - destruct (f x); [by constructor|done].
  - destruct (f x), (f y); try done. by constructor.
  - by etrans.
Qed.

Lemma mapM_Permutation {A B} (f : A → option B) l1 l2 k1 : l1 ≡ₚ l2 → mapM f l1 = Some k1 →
  ∃ k2, mapM f l2 = Some k2 ∧ k1 ≡ₚ k2.
Proof.
  intros Hp. revert k1. induction Hp as [|x l1 l2 _ IH|x y l|l1 l2 l3 _ IH1 _ IH2]; intros k1 Hk.
  - by exists k1.
  - simpl in Hk. destruct (f x) as [b|] eqn:Hx; [|done]. simpl in Hk.
    destruct (mapM f l1) as [k|]; [|done]. injection Hk as <-.
    destruct (IH k eq_refl) as (k2 & Hk2 & Hp2).
    exists (b :: k2). simpl. rewrite Hx, Hk2. split; [done|by constructor].
  - simpl in *. destruct (f y) as [b|], (f x) as [c|], (mapM f l) as [k|]; simpl in *; try done.
    injection Hk as <-. eexists. split; [done|]. by constructor.
  - destruct (IH1 k1 Hk) as (k2 & Hk2 & Hp2). destruct (IH2 k2 Hk2) as (k3 & Hk3 & Hp3).
    exists k3. split; [done|by etrans].
Qed.

#[export] Instance zsum_proper : Proper ((≡ₚ) ==> (=)) zsum.
Proof. intros l1 l2 Hp. unfold zsum. induction Hp; simpl; lia. Qed.

#[export] Instance qsum_proper : Proper ((≡ₚ) ==> (=)) qsum.
Proof.
  intros l1 l2 Hp. unfold qsum.
  induction Hp as [|x l1 l2 _ IH|x y l|l1 l2 l3 _ IH1 _ IH2]; simpl; [done|by rewrite IH|ring|by rewrite IH1].
Qed.

Lemma acc_of_Permutation tss1 tss2 filled : tss1 ≡ₚ tss2 →
  a_rtt (acc_of tss1 filled) = a_rtt (acc_of tss2 filled) ∧
  a_jitter (acc_of tss1 filled) = a_jitter (acc_of tss2 filled) ∧
  a_loss (acc_of tss1 filled) = a_loss (acc_of tss2 filled).
Proof.
  intros Hp. unfold acc_of. simpl.
  pose proof (omap_Permutation ts_RTTMicros _ _ Hp) as H1.
  pose proof (omap_Permutation ts_JitterMicros _ _ Hp) as H2.
  pose proof (omap_Permutation ts_ExactLoss _ _ Hp) as H3.
  by rewrite H1, H2, H3.
Qed.

Lemma target_stats_Target entries tss : mapM target_stats entries = Some tss →
  ts_Target <$> tss = entries.*1.
Proof.
  revert tss. induction entries as [|[name w] entries IH]; intros tss HM.
  - by injection HM as <-.
  - cbn [mapM] in HM. destruct (target_stats (name, w)) as [ts|] eqn:Hts; [|done]. simpl in HM.
    destruct (mapM target_stats entries) as [tss'|]; [|done]. injection HM as <-.
    csimpl. f_equal; [|by apply IH]. unfold target_stats in Hts.
    destruct (MeanRTT w), (JitterMicros w), (LossCounts w) as [[]|]; simpl in Hts; try done.
    by injection Hts as <-.
Qed.

Lemma family_stats_Permutation tss1 tss2 filled : tss1 ≡ₚ tss2 → NoDup (ts_Target <$> tss1) →
  family_stats tss1 filled = family_stats tss2 filled.
Proof.
  intros Hp Hnd. unfold family_stats.
  destruct (acc_of_Permutation tss1 tss2 filled Hp) as (-> & -> & ->).
  f_equal. apply (sort_by_key_unique String.le ts_Target); [by apply NoDup_key_inj|done].
Qed.

(** ** The loss mean *)

Lemma NewRat_bounds lost total : 0 ≤ lost ≤ total → 0 < total →
  (0 <= NewRat lost total)%Qc ∧ (NewRat lost total <= 1)%Qc.
Proof.
  intros Hl Ht. unfold NewRat, Qcle. simpl.
  split; rewrite !Qred_correct; unfold Qle; simpl; rewrite ?Z2Pos.id by lia; lia.
Qed.

Lemma qsum_bounds l : (∀ q, q ∈ l → (0 <= q)%Qc ∧ (q <= 1)%Qc) →
  (0 <= qsum l)%Qc ∧ (qsum l <= NewRat (Z.of_nat (length l)) 1)%Qc.
Proof.
  induction l as [|q l IH]; intros Hl; [done|].
  destruct (Hl q ltac:(left)) as [Hq0 Hq1]. destruct IH as [H0 H1].
  { intros. apply Hl. by right. }
  simpl. split.
  - rewrite <- (Qcplus_0_l 0). by apply Qcplus_le_compat.
  - replace (NewRat (Z.of_nat (S (length l))) 1)
      with (1 + NewRat (Z.of_nat (length l)) 1)%Qc.
    { by apply Qcplus_le_compat. }
    apply Qc_is_canon. unfold NewRat. simpl. rewrite !Qred_correct.
    unfold Qeq. cbn -[Z.of_nat]. lia.
Qed.

Lemma ratMean_bounds l : Z.of_nat (length l) < two63 →
  (∀ q, q ∈ l → (0 <= q)%Qc ∧ (q <= 1)%Qc) →
  ∀ m, ratMean_mean (mkRatMean (qsum l) (int_wrap (Z.of_nat (length l)))) = Some m →
    l ≠ [] ∧ m = (qsum l / NewRat (Z.of_nat (length l)) 1)%Qc ∧ (0 <= m)%Qc ∧ (m <= 1)%Qc.
Proof.
  intros Hlen Hl m. unfold ratMean_mean. simpl. rewrite int_wrap_small by (unfold two63 in *; lia).
  destruct (Z.of_nat (length l) =? 0) eqn:E; [done|]. intros [= <-]. bool_to_Prop.
  destruct (qsum_bounds l Hl) as [H0 H1]. set (n := NewRat (Z.of_nat (length l)) 1) in *.
  assert (0 < n)%Qc as Hn.
  { unfold n, NewRat, Qclt. simpl. rewrite !Qred_correct. unfold Qlt. simpl. lia. }
  assert (n ≠ 0%Qc) as Hn0 by (intros Hz; rewrite Hz in Hn; by apply Qclt_not_le in Hn).
  assert (qsum l = (qsum l / n * n))%Qc as Hmul by (by rewrite Qcmult_comm, Qcmult_div_r).
  split_and!; [by intros ->|done| |].
  - apply (Qcmult_lt_0_le_reg_r _ _ n Hn). rewrite <- Hmul. by rewrite Qcmult_0_l.
  - apply (Qcmult_lt_0_le_reg_r _ _ n Hn). rewrite <- Hmul. by rewrite Qcmult_1_l.
Qed.

(** What one well-formed Window contributes. *)
Lemma target_stats_wf name w : wf w → Capacity w < 2 ^ 53 →
  ∃ jitter, target_stats (name, w) = Some (mkTargetStats name
      (mean_of (rtts (contents w))) jitter
      (if 0 <? Len w then Some (NewRat (losses (contents w)) (Len w)) else None)
      (nearest (if 0 <? Len w then Some (NewRat (losses (contents w)) (Len w)) else None))) ∧
    (jitter = None ↔ mean_of (rtts (contents w)) = None).
Proof.
  intros Hwf Hcap. assert (2 ^ 53 < two64) by done. unfold target_stats.
  destruct (JitterMicros_contents w Hwf Hcap) as (jitter & Hj & Hjn & _).
  rewrite MeanRTT_contents, Hj, LossCounts_contents by (done || lia). by exists jitter.
Qed.

Lemma target_stats_total entries :
  (∀ e, e ∈ entries → wf e.2 ∧ Capacity e.2 < 2 ^ 53) →
  ∃ tss, mapM target_stats entries = Some tss ∧
    Forall2 (λ e ts, target_stats e = Some ts) entries tss.
Proof.
  induction entries as [|[name w] entries IH]; intros Hwf; [by exists []|].
  destruct IH as (tss & HM & HF); [intros; apply Hwf; by right|].
  destruct (Hwf (name, w) ltac:(left)) as [Hw Hc].
  destruct (target_stats_wf name w Hw Hc) as (j & Hts & _).
  eexists (_ :: tss). cbn [mapM]. rewrite Hts, HM. split; [done|]. by constructor.
Qed.

Lemma intMean_None l : Z.of_nat (length l) < two64 →
  intMean_mean (mkIntMean (u64 (zsum l)) (u64 (Z.of_nat (length l)))) = None ↔ l = [].
Proof.
  intros Hlen. unfold intMean_mean. simpl. rewrite u64_small by lia.
  destruct l as [|x l]; [done|]. by rewrite (proj2 (Z.eqb_neq _ 0)) by (simpl; lia).
Qed.

Lemma omap_nil {A B} (f : A → option B) l : omap f l = [] ↔ ∀ x, x ∈ l → f x = None.
Proof.
  induction l as [|x l IH]; simpl; [by split; [intros _ x ?%not_elem_of_nil|]|].
  split.
  - destruct (f x) eqn:E; [done|]. intros H. pose proof (proj1 IH H) as Hl.
    by intros y [->|]%elem_of_cons; [|apply Hl].
  - intros H. rewrite (H x ltac:(left)). apply IH. intros. apply H. by right.
Qed.

Lemma length_omap {A B} (f : A → option B) l : (length (omap f l) ≤ length l)%nat.
Proof. induction l as [|x l IH]; simpl; [done|]. destruct (f x); simpl; [by apply le_n_S|by apply Nat.le_le_succ_r]. Qed.

(** A property of every per-Target entry is one of every Window. *)
Lemma Forall2_entries (P : TargetStats → Prop) (Q : string * WindowStats → Prop) entries tss :
  Forall2 (λ e ts, target_stats e = Some ts) entries tss →
  (∀ e ts, e ∈ entries → target_stats e = Some ts → P ts ↔ Q e) →
  (∀ ts, ts ∈ tss → P ts) ↔ (∀ e, e ∈ entries → Q e).
Proof.
  induction 1 as [|e ts entries tss Hts HF IH]; intros HPQ.
  { by split; intros _ ? ?%not_elem_of_nil. }
  pose proof (HPQ e ts ltac:(left) Hts) as Hh.
  specialize (IH ltac:(intros ??? ?; apply HPQ; [by right|done])).
  split; intros H x [->|Hx]%elem_of_cons.
  - apply Hh, H. left.
  - apply IH; [|done]. intros ??. apply H. by right.
  - apply Hh, H. left.
  - apply IH; [|done]. intros ??. apply H. by right.
Qed.

(** A panic of one Window is a panic of the loop. *)
Lemma aggregate_step_None a e : target_stats e = None → aggregate_step a e = None.
Proof.
  destruct e as [name w]. unfold target_stats, aggregate_step.
  by destruct (MeanRTT w), (JitterMicros w), (LossCounts w) as [[]|].
Qed.

Lemma aggregate_loop_None entries : mapM target_stats entries = None →
  ∀ a, aggregate_loop a entries = None.
Proof.
  induction entries as [|e entries IH]; intros HM a; [done|].
  cbn [mapM aggregate_loop] in *. destruct (target_stats e) as [ts|] eqn:Hts; simpl in HM.
  - destruct (mapM target_stats entries); [done|].
    destruct (aggregate_step a e); simpl; [by apply IH|done].
  - by rewrite aggregate_step_None.
Qed.

Section family.
Context (entries : list (string * WindowStats)) (tss : list TargetStats).
Context (Hwf : ∀ e, e ∈ entries → wf e.2 ∧ Capacity e.2 < 2 ^ 53).
Context (HF : Forall2 (λ e ts, target_stats e = Some ts) entries tss).

(** Windows have jitter data exactly when they have RTT data. *)
Lemma family_jitter_RTT :
  (∀ ts, ts ∈ tss → ts_JitterMicros ts = None) ↔ (∀ ts, ts ∈ tss → ts_RTTMicros ts = None).
Proof using All.
  rewrite (Forall2_entries (λ ts, ts_RTTMicros ts = None)
    (λ e, mean_of (rtts (contents e.2)) = None) _ _ HF);
  [apply (Forall2_entries _ _ _ _ HF)|];
  intros [name w] ts He Hts; destruct (Hwf _ He) as [Hw Hc];
  destruct (target_stats_wf name w Hw Hc) as (j & Hts' & Hj);
  rewrite Hts in Hts'; injection Hts' as ->; done.
Qed.

Lemma family_loss_None :
  (∀ ts, ts ∈ tss → ts_ExactLoss ts = None) ↔ (∀ e, e ∈ entries → Len e.2 = 0).
Proof using All.
  apply (Forall2_entries _ _ _ _ HF). intros [name w] ts He Hts.
  destruct (Hwf _ He) as [Hw Hc]. destruct (target_stats_wf name w Hw Hc) as (j & Hts' & _).
  rewrite Hts in Hts'. injection Hts' as ->. simpl. pose proof (Len_bounds w Hw).
  destruct (0 <? Len w) eqn:E; bool_to_Prop; split; (done || lia).
Qed.

(** The loss ratio one entry contributes. *)
Definition entry_loss (e : string * WindowStats) : option Qc :=
  if 0 <? Len e.2 then Some (NewRat (losses (contents e.2)) (Len e.2)) else None.

Lemma family_losses : omap ts_ExactLoss tss = omap entry_loss entries.
Proof using All.
  clear -Hwf HF. induction HF as [|[name w] ts entries' tss' Hts _ IH]; [done|].
  destruct (Hwf (name, w) ltac:(left)) as [Hw Hc].
  destruct (target_stats_wf name w Hw Hc) as (j & Hts' & _).
  rewrite Hts in Hts'. injection Hts' as ->.
  rewrite !omap_cons', IH; [done|intros; apply Hwf; by right|by inv HF].
Qed.

Lemma entry_loss_bounds e q : e ∈ entries → entry_loss e = Some q → (0 <= q)%Qc ∧ (q <= 1)%Qc.
Proof using Hwf.
  intros He. unfold entry_loss. destruct (0 <? Len e.2) eqn:E; [|done]. intros [= <-].
  bool_to_Prop. destruct (Hwf e He) as [Hw _].
  pose proof (losses_bounds (contents e.2)). pose proof (length_contents e.2 Hw).
  apply NewRat_bounds; lia.
Qed.
End family.

(** ** Properties *)

(** Two Windows of one Sample each, one successful and one lost. *)
Definition example_entries : list (string * WindowStats) :=
  [("b.example"%string, mkWindowStats 1 [mkSample 4 false] 0 true);
   ("a.example"%string, mkWindowStats 1 [mkSample 0 true] 0 true)].


(** C37. [Aggregate] does not depend on the order in which it ranges over the
    map: any two listings of the same Windows give the same [FamilyStats],
    floats included. *)
Theorem aggregate_order_independent entries1 entries2 fs :
  entries1 ≡ₚ entries2 → NoDup entries1.*1 →
  Aggregate entries1 = Some fs → Aggregate entries2 = Some fs.
Proof.
  intros Hp Hnd. destruct (decide (entries1 = [])) as [->|Hne].
  { apply Permutation_nil in Hp. by subst. }
  assert (entries2 ≠ []) as Hne2 by (intros ->; by apply Permutation_nil_r in Hp).
  intros HA. destruct (mapM target_stats entries1) as [tss1|] eqn:HM1.
  - destruct (mapM_Permutation target_stats _ _ _ Hp HM1) as (tss2 & HM2 & Hpt).
    rewrite (Aggregate_spec _ _ HM1 Hne) in HA. rewrite (Aggregate_spec _ _ HM2 Hne2), <- HA.
    f_equal. rewrite (forallb_Permutation _ _ _ Hp). symmetry.
    apply family_stats_Permutation; [done|]. by rewrite (target_stats_Target _ _ HM1).
  - exfalso. unfold Aggregate in HA. rewrite decide_False in HA by done.
    by rewrite aggregate_loop_None in HA.
Qed.

Lemma aggregate_order_independent_witness :
  ∃ fs, Aggregate example_entries = Some fs ∧ Aggregate (reverse example_entries) = Some fs.
Proof.
  eexists. split; [reflexivity|].
  apply (aggregate_order_independent example_entries).
  - by rewrite reverse_Permutation.
  - by apply (bool_decide_unpack _); vm_compute.
  - reflexivity.
Defined.

(** C38. The aggregate of well-formed Windows: [Aggregate] never panics; a
    statistic has no data exactly when no Window has data for it; the loss is
    the exact mean of lost / total over the Windows that hold Samples, within
    [0, 1], and the reported ratio is the float64 nearest it; the Family is
    filled exactly when it has Windows and each of them is; and every Target
    appears, sorted by name. *)
Theorem aggregate_statistics entries :
  (∀ e, e ∈ entries → wf e.2 ∧ Capacity e.2 < 2 ^ 53) → Z.of_nat (length entries) < two63 →
  ∃ fs, Aggregate entries = Some fs ∧
    (fs_RTTMicros fs = None ↔ ∀ e, e ∈ entries → ∀ s, s ∈ contents e.2 → Lost s = true) ∧
    (fs_JitterMicros fs = None ↔ fs_RTTMicros fs = None) ∧
    (fs_ExactLoss fs = None ↔ ∀ e, e ∈ entries → Len e.2 = 0) ∧
    (∀ q, fs_ExactLoss fs = Some q →
       let ratios := omap entry_loss entries in
       q = (qsum ratios / NewRat (Z.of_nat (length ratios)) 1)%Qc ∧ (0 <= q)%Qc ∧ (q <= 1)%Qc) ∧
    fs_LossRatio fs = nearest (fs_ExactLoss fs) ∧
    (fs_WindowFilled fs = true ↔ entries ≠ [] ∧ ∀ e, e ∈ entries → Filled e.2 = true) ∧
    ts_Target <$> fs_PerTarget fs ≡ₚ entries.*1 ∧
    Sorted String.le (ts_Target <$> fs_PerTarget fs).
Proof.
  intros Hwf Hlen. destruct (decide (entries = [])) as [->|Hne].
  { exists zeroFamilyStats. split_and!; try done; try (split; try done; by intros _ ? ?%not_elem_of_nil).
    split; [done|by intros []]. }
  destruct (target_stats_total entries Hwf) as (tss & HM & HF).
  exists (family_stats tss (forallb (λ e, Filled e.2) entries)).
  pose proof (Forall2_length _ _ _ HF) as HlenF.
  assert (∀ {A} (f : TargetStats → option A), Z.of_nat (length (omap f tss)) < two63) as HlenZ.
  { intros A f. pose proof (length_omap f tss). lia. }
  assert (∀ f : TargetStats → option Z, Z.of_nat (length (omap f tss)) < two64) as HlenZ'.
  { intros f. specialize (HlenZ Z f). unfold two63, two64 in *. lia. }
  split_and!; [by apply Aggregate_spec|..]; unfold family_stats; simpl.
  - rewrite intMean_None, omap_nil by done.
    apply (Forall2_entries _ _ _ _ HF). intros [name w] ts He Hts. simpl.
    destruct (Hwf _ He) as [Hw Hc]. destruct (target_stats_wf name w Hw Hc) as (j & Hts' & _).
    rewrite Hts in Hts'. injection Hts' as ->. simpl. rewrite <- rtts_nil.
    by destruct (rtts (contents w)).
  - rewrite !intMean_None, !omap_nil by done.
    by apply family_jitter_RTT with entries.
  - rewrite <- (family_loss_None entries tss), <- omap_nil by done.
    unfold ratMean_mean. simpl. rewrite int_wrap_small by (pose proof (HlenZ _ ts_ExactLoss); unfold two63 in *; lia).
    destruct (omap ts_ExactLoss tss); [done|]. by rewrite (proj2 (Z.eqb_neq _ 0)) by (simpl; lia).
  - intros q Hq. rewrite <- (family_losses entries tss) by done.
    apply ratMean_bounds in Hq as (_ & Hq & H0 & H1); [done|apply HlenZ|].
    intros r. rewrite (family_losses entries tss) by done.
    intros (e & He & Hr)%list_elem_of_omap. by eapply entry_loss_bounds.
  - done.
  - rewrite forallb_true. by split; [|intros [??]].
  - rewrite merge_sort_Permutation. by rewrite (target_stats_Target _ _ HM).
  - apply Sorted_fmap with (by_key String.le ts_Target); [done|]. apply (Sorted_merge_sort _).
Qed.

Lemma aggregate_statistics_witness :
  ∃ fs, Aggregate example_entries = Some fs ∧ fs_WindowFilled fs = true ∧ fs_RTTMicros fs ≠ None.
Proof.
  destruct (aggregate_statistics example_entries) as (fs & HA & HR & _ & _ & _ & _ & HW & _).
  - intros e [->|[->|[]%not_elem_of_nil]%elem_of_cons]%elem_of_cons;
      (split; [split; simpl; lia|done]).
  - reflexivity.
  - exists fs. split; [exact HA|]. split.
    + apply HW. split; [done|]. by intros e [->|[->|[]%not_elem_of_nil]%elem_of_cons]%elem_of_cons.
    + rewrite HR. intros Hl. by specialize (Hl _ ltac:(left) (mkSample 4 false) ltac:(left)).
Defined.
