(* ===== verification/Hysteresis.v ===== *)
(** * Hysteresis of a Family's verdict

    Models [daemon/internal/health/hysteresis.go]: the state machine that
    flips the externally visible verdict only after a run of consecutive
    observations. The methods mutate the receiver; here they return the new
    state, and the verdict they return is the state's [h_healthy]. The
    counters are Go [int]s and wrap. *)
From S2P Require Import Prelude.
Local Open Scope Z_scope.

(** daemon/internal/health/hysteresis.go:3-28 (hysteresis) *)
Record hysteresis := mkHysteresis {
  h_healthyCount : Z;
  h_unhealthyCount : Z;
  h_healthy : bool;
  h_consecutiveUp : Z;
  h_consecutiveDown : Z }.

(** daemon/internal/health/hysteresis.go:30-46 (newHysteresis): thresholds
    below 1 are clamped to 1. *)
Definition newHysteresis (consecutiveUp consecutiveDown : Z) : hysteresis :=
  mkHysteresis 0 0 false
    (if consecutiveUp <? 1 then 1 else consecutiveUp)
    (if consecutiveDown <? 1 then 1 else consecutiveDown).

(** daemon/internal/health/hysteresis.go:48-67 (hysteresis.observe) *)
Definition observe (h : hysteresis) (observedHealthy : bool) : hysteresis :=
  if observedHealthy then
    let healthyCount := int_wrap (h_healthyCount h + 1) in
    mkHysteresis healthyCount 0
      (if negb (h_healthy h) && (h_consecutiveUp h <=? healthyCount) then true else h_healthy h)
      (h_consecutiveUp h) (h_consecutiveDown h)
  else
    let unhealthyCount := int_wrap (h_unhealthyCount h + 1) in
    mkHysteresis 0 unhealthyCount
      (if h_healthy h && (h_consecutiveDown h <=? unhealthyCount) then false else h_healthy h)
      (h_consecutiveUp h) (h_consecutiveDown h).

(** daemon/internal/health/hysteresis.go:69-81 (hysteresis.seed) *)
Definition seed (h : hysteresis) (observedHealthy : bool) : hysteresis :=
  mkHysteresis 0 0 observedHealthy (h_consecutiveUp h) (h_consecutiveDown h).

(** ** Runs *)

(** The length of the run of [b] at the end of [l]. *)
Definition trailing_run (b : bool) (l : list bool) : Z :=
  foldl (λ n x, if Bool.eqb x b then n + 1 else 0) 0 l.

Lemma trailing_run_snoc b l x :
  trailing_run b (l ++ [x]) = if Bool.eqb x b then trailing_run b l + 1 else 0.
Proof. unfold trailing_run. by rewrite foldl_snoc. Qed.

Lemma trailing_run_bounds b l : 0 ≤ trailing_run b l ≤ Z.of_nat (length l).
Proof.
  induction l as [|x l IH] using rev_ind; [done|].
  rewrite trailing_run_snoc, length_app. simpl. destruct (Bool.eqb x b); lia.
Qed.

(** A trailing run of at least [n] means the last [n] observations were [b]. *)
Lemma trailing_run_suffix b n l : (Z.of_nat n ≤ trailing_run b l) ↔ ∃ l', l = l' ++ replicate n b.
Proof.
  revert n. induction l as [|x l IH] using rev_ind; intros n.
  - split.
    + intros Hn. exists []. unfold trailing_run in Hn. simpl in Hn. by replace n with 0%nat by lia.
    + intros [l' Hl]. symmetry in Hl. apply app_nil in Hl as [_ Hr].
      destruct n; [done|discriminate].
  - rewrite trailing_run_snoc. split.
    + intros Hn. destruct n as [|n]; [by exists (l ++ [x]); rewrite app_nil_r|].
      destruct (Bool.eqb x b) eqn:E; [|lia]. apply eqb_prop in E as ->.
      destruct (proj1 (IH n)) as [l' ->]; [lia|].
      exists l'. by rewrite replicate_S_end, app_assoc.
    + intros [l' Hl]. destruct n as [|n].
      { pose proof (trailing_run_bounds b l). destruct (Bool.eqb x b); lia. }
      rewrite replicate_S_end, app_assoc in Hl. apply app_inj_tail in Hl as [-> ->].
      rewrite eqb_reflx. pose proof (proj2 (IH n) (ex_intro _ l' eq_refl)). lia.
Qed.

(** ** The verdict after a sequence of observations *)

(** The verdict a specification keeps: it takes the newest observation when
    the run of that observation reached its threshold, and holds otherwise. *)
Fixpoint verdict (up down : Z) (b : bool) (seen rest : list bool) : bool :=
  match rest with
  | [] => b
  | x :: rest =>
      let seen' := seen ++ [x] in
      let b' := if x then (if up <=? trailing_run true seen' then true else b)
                else (if down <=? trailing_run false seen' then false else b) in
      verdict up down b' seen' rest
  end.

(** The state that tracks the runs of [l]. *)
Definition tracks (h : hysteresis) (l : list bool) : Prop :=
  h_healthyCount h = trailing_run true l ∧ h_unhealthyCount h = trailing_run false l.

Lemma observe_tracks h l x : tracks h l → Z.of_nat (length l) + 1 < two63 →
  tracks (observe h x) (l ++ [x]) ∧
  h_healthy (observe h x) =
    (if x then (if h_consecutiveUp h <=? trailing_run true (l ++ [x]) then true else h_healthy h)
     else (if h_consecutiveDown h <=? trailing_run false (l ++ [x]) then false else h_healthy h)).
Proof.
  intros [H1 H2] Hlen. unfold tracks, observe.
  pose proof (trailing_run_bounds true l). pose proof (trailing_run_bounds false l).
  rewrite !trailing_run_snoc, H1, H2.
  destruct x; simpl; rewrite int_wrap_small by (unfold two63 in *; lia);
    (split; [done|]); by destruct (h_healthy h), (_ <=? _).
Qed.

Lemma observe_thresholds h x :
  h_consecutiveUp (observe h x) = h_consecutiveUp h ∧
  h_consecutiveDown (observe h x) = h_consecutiveDown h.
Proof. by destruct x. Qed.

Lemma foldl_observe_verdict l : ∀ h seen, tracks h seen →
  Z.of_nat (length (seen ++ l)) < two63 →
  h_healthy (foldl observe h l) =
    verdict (h_consecutiveUp h) (h_consecutiveDown h) (h_healthy h) seen l.
Proof.
  induction l as [|x l IH]; intros h seen Ht Hlen; [done|].
  rewrite length_app in Hlen. cbn [length] in Hlen.
  destruct (observe_tracks h seen x Ht ltac:(lia)) as [Ht' Hh].
  destruct (observe_thresholds h x) as [Hu Hd].
  cbn [foldl]. rewrite (IH _ _ Ht') by (rewrite !length_app; simpl; lia).
  rewrite Hh, Hu, Hd. done.
Qed.

Lemma newHysteresis_thresholds up down :
  h_consecutiveUp (newHysteresis up down) = Z.max 1 up ∧
  h_consecutiveDown (newHysteresis up down) = Z.max 1 down.
Proof. unfold newHysteresis. simpl. split; case_match; bool_to_Prop; lia. Qed.

(** ** Properties *)

(** C33. Seeded Hysteresis implements its specification: after a seed [b] and
    any sequence of observations, the verdict is [b] revised by each run of
    consecutive observations that reached its (clamped) threshold, and the
    verdict of the last step changes only if the last [up] (or [down])
    observations since the seed all agree with the new verdict. *)
Theorem hysteresis_verdict up down b l x :
  Z.of_nat (length l) + 1 < two63 →
  let h := foldl observe (seed (newHysteresis up down) b) l in
  h_healthy h = verdict (Z.max 1 up) (Z.max 1 down) b [] l ∧
  (h_healthy (observe h x) ≠ h_healthy h →
    h_healthy (observe h x) = x ∧
    ∃ l', l ++ [x] = l' ++ replicate (Z.to_nat (Z.max 1 (if x then up else down))) x).
Proof.
  intros Hlen h. destruct (newHysteresis_thresholds up down) as [Hu Hd].
  set (h0 := seed (newHysteresis up down) b) in *.
  assert (tracks h0 []) as Ht0 by done.
  split; [unfold h; rewrite (foldl_observe_verdict l h0 []) by (done || (simpl; lia)); by rewrite <- Hu, <- Hd|].
  assert (Hall : tracks h l ∧ h_consecutiveUp h = Z.max 1 up ∧ h_consecutiveDown h = Z.max 1 down).
  { unfold h. clear h x. induction l as [|x l IH] using rev_ind; [by rewrite <- Hu, <- Hd|].
    rewrite length_app in Hlen. simpl in Hlen. destruct IH as (Ht & Hu' & Hd'); [lia|].
    rewrite foldl_snoc. destruct (observe_thresholds (foldl observe h0 l) x) as [-> ->].
    split; [|done]. apply observe_tracks; [done|lia]. }
  destruct Hall as (Ht & Hu' & Hd').
  destruct (observe_tracks h l x Ht Hlen) as [_ Hh]. rewrite Hh, Hu', Hd'.
  destruct x.
  - destruct (Z.max 1 up <=? trailing_run true (l ++ [true])) eqn:E; intros Hne; [|by destruct Hne].
    bool_to_Prop. split; [done|]. apply trailing_run_suffix; simpl; lia.
  - destruct (Z.max 1 down <=? trailing_run false (l ++ [false])) eqn:E; intros Hne; [|by destruct Hne].
    bool_to_Prop. split; [done|]. apply trailing_run_suffix; simpl; lia.
Qed.

Lemma hysteresis_verdict_witness :
  h_healthy (foldl observe (seed (newHysteresis 3 2) false) [true; true]) = false ∧
  ∃ l', [true; true] ++ [true] = l' ++ replicate 3 true.
Proof.
  destruct (hysteresis_verdict 3 2 false [true; true] true eq_refl) as [H1 H2].
  split; [exact H1|]. apply H2. vm_compute. discriminate.
Defined.

(** No flapping: whatever came before, observations in which no run is
    as long as its threshold never change the verdict. *)
Theorem hysteresis_no_flap up down b l :
  Z.of_nat (length l) < two63 →
  (∀ l1 l2, l = l1 ++ l2 →
     trailing_run true l1 < Z.max 1 up ∧ trailing_run false l1 < Z.max 1 down) →
  h_healthy (foldl observe (seed (newHysteresis up down) b) l) = b.
Proof.
  intros Hlen Hshort. destruct (newHysteresis_thresholds up down) as [Hu Hd].
  rewrite (foldl_observe_verdict l _ []) by done. change (verdict (h_consecutiveUp (newHysteresis up down)) (h_consecutiveDown (newHysteresis up down)) b [] l = b). rewrite Hu, Hd.
  assert (∀ rest seen, l = seen ++ rest → verdict (Z.max 1 up) (Z.max 1 down) b seen rest = b) as Hv.
  { induction rest as [|x rest IH]; intros seen Hl; simpl; [done|].
    destruct (Hshort (seen ++ [x]) rest) as [H1 H2]; [by rewrite <- app_assoc|].
    rewrite (proj2 (Z.leb_gt _ _) H1), (proj2 (Z.leb_gt _ _) H2).
    destruct x; (apply IH; by rewrite <- app_assoc). }
  by apply Hv.
Qed.

Lemma hysteresis_no_flap_witness :
  h_healthy (foldl observe (seed (newHysteresis 2 2) true) [false; true; false]) = true.
Proof.
  apply hysteresis_no_flap; [reflexivity|]. intros l1 l2 Hl.
  destruct l1 as [|x1 [|x2 [|x3 [|x4 l1]]]]; simpl in Hl; simplify_eq; split; reflexivity.
Defined.
