(* ===== verification/NetIP.v ===== *)
(** * IP addresses of the Go standard library

    [net.IP] and [netip.ParseAddr] as the daemon uses them: the byte-slice
    representation with its nil value and its two lengths, the classification
    methods, canonical text and the literal parser. The standard library is
    not part of the repository, so nothing here is mapped to a source line; the
    definitions follow Go's [net/ip.go] and [net/netip/netip.go]. *)
From Stdlib Require Import Ascii.
From stdpp Require Import pretty.
From S2P Require Import Prelude.

#[local] Open Scope Z_scope.

(** ** [net.IP] *)

(** A byte slice, nil as [None]. *)
Definition IP : Type := option (list Z).

Definition IP_bytes (ip : IP) : list Z := default [] ip.

Definition v4InV6Prefix : list Z := [0;0;0;0;0;0;0;0;0;0;255;255].

Definition IPv4zero : IP := Some (v4InV6Prefix ++ [0;0;0;0]).
Definition IPv4bcast : IP := Some (v4InV6Prefix ++ [255;255;255;255]).
Definition IPv6unspecified : IP := Some (replicate 16 0).
Definition IPv6loopback : IP := Some (replicate 15 0 ++ [1]).

(** [ip.To4()]: the 4-byte form of an IPv4 address, nil otherwise. *)
Definition To4 (ip : IP) : IP :=
  let b := IP_bytes ip in
  if decide (length b = 4%nat) then ip
  else if decide (length b = 16%nat ∧ take 12 b = v4InV6Prefix) then Some (drop 12 b)
  else None.

(** [ip.Equal(x)]: an IPv4 address equals its IPv4-mapped IPv6 form. *)
Definition IP_Equal (ip x : IP) : bool :=
  let a := IP_bytes ip in
  let b := IP_bytes x in
  if decide (length a = length b) then bool_decide (a = b)
  else if decide (length a = 4%nat ∧ length b = 16%nat) then
    bool_decide (take 12 b = v4InV6Prefix ∧ a = drop 12 b)
  else if decide (length a = 16%nat ∧ length b = 4%nat) then
    bool_decide (take 12 a = v4InV6Prefix ∧ drop 12 a = b)
  else false.

Definition IP_IsUnspecified (ip : IP) : bool :=
  IP_Equal ip IPv4zero || IP_Equal ip IPv6unspecified.

Definition IP_IsLoopback (ip : IP) : bool :=
  match To4 ip with
  | Some (a :: _) => a =? 127
  | _ => IP_Equal ip IPv6loopback
  end.

Definition IP_IsMulticast (ip : IP) : bool :=
  match To4 ip with
  | Some (a :: _) => Z.land a 240 =? 224
  | _ => match IP_bytes ip with
         | a :: _ => bool_decide (length (IP_bytes ip) = 16%nat) && (a =? 255)
         | [] => false
         end
  end.

Definition IP_IsLinkLocalUnicast (ip : IP) : bool :=
  match To4 ip with
  | Some (a :: b :: _) => (a =? 169) && (b =? 254)
  | _ => match IP_bytes ip with
         | a :: b :: _ =>
             bool_decide (length (IP_bytes ip) = 16%nat) && (a =? 254) && (Z.land b 192 =? 128)
         | _ => false
         end
  end.

Definition IP_IsGlobalUnicast (ip : IP) : bool :=
  bool_decide (length (IP_bytes ip) = 4%nat ∨ length (IP_bytes ip) = 16%nat) &&
  negb (IP_Equal ip IPv4bcast) && negb (IP_IsUnspecified ip) && negb (IP_IsLoopback ip) &&
  negb (IP_IsMulticast ip) && negb (IP_IsLinkLocalUnicast ip).

(** ** Canonical text *)

Definition hex_digit (d : Z) : ascii :=
  ascii_of_N (Z.to_N (if d <? 10 then 48 + d else 87 + d)).

(** The hexadecimal digits of a 16-bit group without leading zeros. *)
Definition group_text (g : Z) : string :=
  let d i := String (hex_digit (Z.land (Z.shiftr g i) 15)) "" in
  if g <? 16 then d 0
  else if g <? 256 then d 4 +:+ d 0
  else if g <? 4096 then d 8 +:+ d 4 +:+ d 0
  else d 12 +:+ d 8 +:+ d 4 +:+ d 0.

Fixpoint groups_of (b : list Z) : list Z :=
  match b with
  | hi :: lo :: rest => (hi * 256 + lo) :: groups_of rest
  | _ => []
  end.

Fixpoint zero_run (g : list Z) : nat :=
  match g with
  | 0 :: rest => S (zero_run rest)
  | _ => 0%nat
  end.

(** The first longest run of at least two zero groups: start and length. *)
Fixpoint longest_zeros (i : nat) (g : list Z) (best : nat * nat) : nat * nat :=
  match g with
  | [] => best
  | _ :: rest =>
      let l := zero_run g in
      longest_zeros (S i) rest
        (if bool_decide (2 ≤ l ∧ best.2 < l)%nat then (i, l) else best)
  end.

Fixpoint join (sep : string) (l : list string) : string :=
  match l with
  | [] => ""
  | [s] => s
  | s :: rest => s +:+ sep +:+ join sep rest
  end.

Definition v6_text (b : list Z) : string :=
  let g := groups_of b in
  let '(start, len) := longest_zeros 0 g (0%nat, 0%nat) in
  if decide (len = 0%nat) then join ":" (group_text <$> g)
  else join ":" (group_text <$> take start g) +:+ "::" +:+
       join ":" (group_text <$> drop (start + len) g).

Definition v4_text (b : list Z) : string := join "." (pretty <$> b).

(** [ip.String()] of a nil, 4-byte or 16-byte slice; any other length is
    printed as a question mark and the bytes in hexadecimal. *)
Definition IP_String (ip : IP) : string :=
  let b := IP_bytes ip in
  if decide (length b = 0%nat) then "<nil>"
  else match To4 ip with
       | Some b4 => v4_text b4
       | None =>
           if decide (length b = 16%nat) then v6_text b
           else "?" +:+ join "" ((λ x, String (hex_digit (Z.shiftr x 4))
                                         (String (hex_digit (Z.land x 15)) "")) <$> b)
       end.

(** ** [netip.ParseAddr] *)

(** [netip.Addr]: 4 bytes, or 16 bytes and a zone. *)
Inductive Addr :=
| Addr4 (b : list Z)
| Addr6 (b : list Z) (zone : string).

#[export] Instance Addr_eq_dec : EqDecision Addr.
Proof. solve_decision. Defined.

#[export] Instance Addr_countable : Countable Addr.
Proof.
  refine (inj_countable'
    (λ a, match a with Addr4 b => (b, None) | Addr6 b z => (b, Some z) end)
    (λ p, match p.2 with None => Addr4 p.1 | Some z => Addr6 p.1 z end) _).
  by intros [].
Defined.

Definition Addr_Zone (a : Addr) : string := match a with Addr4 _ => "" | Addr6 _ z => z end.
Definition Addr_Is4 (a : Addr) : bool := match a with Addr4 _ => true | Addr6 _ _ => false end.
Definition Addr_Is6 (a : Addr) : bool := negb (Addr_Is4 a).
Definition Addr_Is4In6 (a : Addr) : bool :=
  match a with Addr4 _ => false | Addr6 b _ => bool_decide (take 12 b = v4InV6Prefix) end.

Fixpoint chars (s : string) : list Z :=
  match s with
  | EmptyString => []
  | String a s' => Z.of_N (N_of_ascii a) :: chars s'
  end.

Definition is_digit (c : Z) : bool := (48 <=? c) && (c <=? 57).

Definition hex_value (c : Z) : option Z :=
  if is_digit c then Some (c - 48)
  else if (97 <=? c) && (c <=? 102) then Some (c - 87)
  else if (65 <=? c) && (c <=? 70) then Some (c - 55)
  else None.

(** The loop of [parseIPv4Fields]: [val] and [digLen] of the current field,
    the fields already stored. A dot needs a digit before it and a character
    after it; a digit after a lone zero is a leading zero. *)
Fixpoint v4_fields (s : list Z) (val : Z) (digLen : nat) (fields : list Z) : option (list Z) :=
  match s with
  | [] => if decide (length fields = 3%nat) then Some (fields ++ [val]) else None
  | c :: s' =>
      if is_digit c then
        if bool_decide (digLen = 1%nat ∧ val = 0) then None
        else let val' := val * 10 + (c - 48) in
             if 255 <? val' then None else v4_fields s' val' (S digLen) fields
      else if c =? 46 then
        if bool_decide (digLen = 0%nat ∨ s' = [] ∨ length fields = 3%nat) then None
        else v4_fields s' 0 0 (fields ++ [val])
      else None
  end.

Definition parseIPv4Fields (s : list Z) : option (list Z) := v4_fields s 0 0 [].

(** One hexadecimal group: its value, its digits and the rest of the text;
    [None] on a fifth digit. Four digits never exceed 16 bits. *)
Fixpoint hex_group (s : list Z) (acc : Z) (off : nat) : option (Z * nat * list Z) :=
  match s with
  | c :: s' =>
      match hex_value c with
      | Some d => if bool_decide (3 < off)%nat then None
                  else hex_group s' (Z.shiftl acc 4 + d) (S off)
      | None => Some (acc, off, s)
      end
  | [] => Some (acc, off, [])
  end.

(** The loop of [parseIPv6]: the bytes stored so far and where the ellipsis
    stands among them. [fuel] is at most 8: each turn stores two bytes. *)
Fixpoint v6_loop (fuel : nat) (s : list Z) (ip : list Z) (ellipsis : option nat)
    : option (list Z * option nat) :=
  match fuel with
  | O => if decide (s = []) then Some (ip, ellipsis) else None
  | S fuel =>
      match hex_group s 0 0 with
      | None | Some (_, O, _) => None
      | Some (_, _, 46 :: _) =>
          if bool_decide ((ellipsis = None ∧ length ip ≠ 12%nat) ∨ 16 < length ip + 4)%nat then None
          else b4 ← parseIPv4Fields s; Some (ip ++ b4, ellipsis)
      | Some (acc, _, rest) =>
          let ip := ip ++ [Z.shiftr acc 8; Z.land acc 255] in
          match rest with
          | [] => Some (ip, ellipsis)
          | 58 :: c :: rest' =>
              if c =? 58 then
                match ellipsis with
                | Some _ => None
                | None => if decide (rest' = []) then Some (ip, Some (length ip))
                          else v6_loop fuel rest' ip (Some (length ip))
                end
              else v6_loop fuel (c :: rest') ip ellipsis
          | _ => None
          end
      end
  end.

(** Fill the ellipsis, which stands for at least one group. *)
Definition expand_ellipsis (ip : list Z) (ellipsis : option nat) : option (list Z) :=
  if decide (length ip < 16)%nat then
    e ← ellipsis; Some (take e ip ++ replicate (16 - length ip) 0 ++ drop e ip)
  else match ellipsis with None => Some ip | Some _ => None end.

Fixpoint split_zone (s : string) : string * option string :=
  match s with
  | EmptyString => ("", None)
  | String a s' =>
      if decide (a = "%"%char) then ("", Some s')
      else let '(h, z) := split_zone s' in (String a h, z)
  end.

Definition parseIPv6 (input : string) : option Addr :=
  let '(text, zone) := split_zone input in
  if decide (zone = Some "") then None
  else
    let z := default "" zone in
    match chars text with
    | [58; 58] => Some (Addr6 (replicate 16 0) z)
    | 58 :: 58 :: rest =>
        '(ip, e) ← v6_loop 8 rest [] (Some 0%nat); b ← expand_ellipsis ip e; Some (Addr6 b z)
    | s => '(ip, e) ← v6_loop 8 s [] None; b ← expand_ellipsis ip e; Some (Addr6 b z)
    end.

(** The first dot, colon or percent sign decides the Family. *)
Fixpoint first_mark (s : list Z) : option Z :=
  match s with
  | [] => None
  | c :: s' => if (c =? 46) || (c =? 58) || (c =? 37) then Some c else first_mark s'
  end.

Definition ParseAddr (s : string) : option Addr :=
  match first_mark (chars s) with
  | Some 46 => Addr4 <$> parseIPv4Fields (chars s)
  | Some 58 => parseIPv6 s
  | _ => None
  end.

(** [net.ParseIP]: the 16-byte form; a zone is an error. *)
Definition ParseIP (s : string) : IP :=
  match ParseAddr s with
  | Some (Addr4 b) => Some (v4InV6Prefix ++ b)
  | Some (Addr6 b "") => Some b
  | _ => None
  end.

(** ** Lengths of parsed addresses *)

Lemma v4_fields_length s : ∀ val d fields l, v4_fields s val d fields = Some l → length l = 4%nat.
Proof.
  induction s as [|c s IH]; intros val d fields l; cbn [v4_fields].
  - destruct (decide _) as [Hl|]; [|done]. intros [= <-]. rewrite length_app, Hl. done.
  - destruct (is_digit c).
    + destruct (bool_decide _); [done|]. destruct (255 <? _); [done|]. apply IH.
    + destruct (c =? 46); [|done]. destruct (bool_decide _); [done|]. apply IH.
Qed.

Lemma expand_ellipsis_length ip e b : expand_ellipsis ip e = Some b → (16 ≤ length b)%nat.
Proof.
  unfold expand_ellipsis. destruct (decide _) as [Hl|Hl].
  - destruct e as [e|]; [|done]. intros [= <-]. rewrite !length_app, length_replicate, length_take, length_drop. lia.
  - destruct e; [done|]. intros [= <-]. lia.
Qed.

Lemma parseIPv6_length s a : parseIPv6 s = Some a → ∃ b z, a = Addr6 b z ∧ (16 ≤ length b)%nat.
Proof.
  assert (Hloop : ∀ z r, ('(ip, e) ← r : option (list Z * option nat); b ← expand_ellipsis ip e; Some (Addr6 b z)) = Some a →
    ∃ b z, a = Addr6 b z ∧ (16 ≤ length b)%nat).
  { intros z [[ip e]|]; [|done]. cbn. destruct (expand_ellipsis ip e) as [b|] eqn:He; [|done].
    intros [= <-]. exists b, z. split; [done|]. by eapply expand_ellipsis_length. }
  unfold parseIPv6. destruct (split_zone s) as [text zone]. destruct (decide _); [done|]. cbv zeta.
  repeat (case_match; try (by apply Hloop)). intros [= <-]. do 2 eexists. split; [done|]. cbn. lia.
Qed.

(** [To4] tells the two kinds of parsed address apart. *)
Lemma ParseIP_To4 s a : ParseAddr s = Some a → Addr_Zone a = "" →
  is_Some (ParseIP s) ∧ (is_Some (To4 (ParseIP s)) ↔ Addr_Is4 a = true ∨ Addr_Is4In6 a = true ∧ ∃ b z, a = Addr6 b z ∧ length b = 16%nat).
Proof.
  intros Ha Hz. unfold ParseIP. rewrite Ha. destruct a as [b|b z]; cbn in Hz.
  - split; [by eexists|]. split; [by left|]. intros _. unfold To4, IP_bytes. cbn [default from_option].
    unfold ParseAddr in Ha. destruct (first_mark _) as [m|]; [|done].
    assert (Hb : length b = 4%nat).
    { revert Ha. repeat (case_match; try done); intros Ha.
      - destruct (parseIPv4Fields _) as [b'|] eqn:Hp; [|done]. injection Ha as <-. by eapply v4_fields_length.
      - destruct (parseIPv6_length _ _ Ha) as (? & ? & ? & _). done. }
    rewrite decide_False by (cbn; by rewrite Hb). rewrite decide_True; [by eexists|].
    split; [cbn; by rewrite Hb|done].
  - subst z. split; [by eexists|].
    assert (Hl : (16 ≤ length b)%nat).
    { revert Ha. unfold ParseAddr. repeat (case_match; try done); intros Ha.
      - by destruct (parseIPv4Fields _).
      - destruct (parseIPv6_length _ _ Ha) as (? & ? & [= <- <-] & ?). done. }
    unfold To4, IP_bytes. cbn [from_option id Addr_Is4 Addr_Is4In6]. rewrite decide_False by (cbn; lia).
    destruct (decide _) as [[H1 H2]|H].
    + split; [|by eexists]. intros _. right. split; [by apply bool_decide_eq_true|]. by exists b, "".
    + split; [intros []; done|]. intros [|[Hb (? & ? & [= <- <-] & ?)]]; [done|].
      apply bool_decide_eq_true in Hb. by destruct H.
Qed.
