(* ===== verification/Runtime.v ===== *)
(** * The runtime the Go code runs on

    What a handler sees besides its own state: the wall clock, the
    cancellation of its context, the iteration order of maps, the environment
    its calls act on (the kernel, the file system) and the effects it emits.
    A computation is a state transformer over a [World]; its nondeterminism
    is a [Schedule], fixed in advance and indexed by a step counter, so every
    definition is executable and a theorem over all worlds covers every clock,
    every moment of cancellation and every map order. *)
From S2P Require Import Prelude.

(** ** Errors

    A Go error as the tree [errors.Is] walks: sentinels, kernel error
    numbers, wrapped or plain formatted messages, and joined errors. A message
    is the constant part of its format. *)
Inductive error :=
| ErrCanceled
| ErrSentinel (name : string)
| Errno (n : Z)
| Errorf (msg : string)
| Wrapf (msg : string) (cause : error)
| Joined (err1 err2 : error).

#[export] Instance error_eq_dec : EqDecision error.
Proof. solve_decision. Defined.

(** [errors.Is] *)
Fixpoint Is (err target : error) : bool :=
  bool_decide (err = target) ||
  match err with
  | Wrapf _ cause => Is cause target
  | Joined err1 err2 => Is err1 target || Is err2 target
  | _ => false
  end.

(** [errors.Join] of two: nil errors are dropped, and a single one is wrapped
    without a text of its own. *)
Definition errors_Join (err1 err2 : option error) : option error :=
  match err1, err2 with
  | None, None => None
  | Some err, None | None, Some err => Some (Wrapf "" err)
  | Some err1, Some err2 => Some (Joined err1 err2)
  end.

(** ** Time

    [time.Time] with its zero value; [time.Now] is never the zero value. *)
Definition Time : Type := N.
Definition zero_time : Time := 0%N.
Definition IsZero (t : Time) : bool := bool_decide (t = zero_time).

(** ** Schedules *)

Record Schedule := mkSchedule {
  sch_cancel : option nat;          (* the step the context is cancelled at *)
  sch_clock : nat → positive;       (* the wall clock at a step *)
  sch_order : nat → nat → nat       (* the map order drawn at a step *)
}.

(** [l] rearranged by [code], which gives each element the position it is
    inserted at among the elements after it. *)
Fixpoint insert_at {A} (i : nat) (x : A) (l : list A) : list A :=
  match i, l with
  | S i, y :: l => y :: insert_at i x l
  | _, _ => x :: l
  end.

Fixpoint shuffle {A} (code : nat → nat) (l : list A) : list A :=
  match l with
  | [] => []
  | x :: l => insert_at (code (length l)) x (shuffle code l)
  end.

Lemma insert_at_Permutation {A} i (x : A) l : insert_at i x l ≡ₚ x :: l.
Proof.
  revert i. induction l as [|y l IH]; intros [|i]; simpl; [done..|].
  rewrite IH. apply Permutation_swap.
Qed.

Lemma shuffle_Permutation {A} code (l : list A) : shuffle code l ≡ₚ l.
Proof. induction l as [|x l IH]; simpl; [done|]. by rewrite insert_at_Permutation, IH. Qed.

Lemma insert_at_app {A} (x : A) l1 l2 : insert_at (length l1) x (l1 ++ l2) = l1 ++ x :: l2.
Proof. induction l1 as [|y l1 IH]; simpl; [by destruct l2|]. by rewrite IH. Qed.

Lemma shuffle_ext {A} c c' (l : list A) :
  (∀ i, i < length l → c i = c' i) → shuffle c l = shuffle c' l.
Proof.
  induction l as [|x l IH]; intros H; simpl; [done|].
  rewrite (H (length l)) by (simpl; lia). f_equal. apply IH. intros i Hi. apply H. simpl. lia.
Qed.

(** No order is excluded: every arrangement of a list is drawn by some code. *)
Lemma shuffle_complete {A} (l l' : list A) : l ≡ₚ l' → ∃ code, shuffle code l = l'.
Proof.
  revert l'. induction l as [|x l IH]; intros l' Hp.
  - exists (λ _, 0). by apply Permutation_nil in Hp.
  - destruct (Permutation_cons_inv_l _ _ _ Hp) as (l1 & l2 & -> & Hp').
    destruct (IH _ Hp') as [code Hc].
    exists (λ i, if decide (i = length l) then length l1 else code i). simpl.
    rewrite decide_True by done.
    rewrite (shuffle_ext _ code), Hc by (intros i Hi; rewrite decide_False; [done|lia]).
    apply insert_at_app.
Qed.

(** Filling a map in any iteration order gives the map back. *)
Lemma list_to_map_ranged {K A} `{Countable K} (l : list (K * A)) (m : gmap K A) :
  l ≡ₚ map_to_list m → list_to_map (reverse l) = m.
Proof.
  intros Hp. rewrite <- (list_to_map_to_list m). apply list_to_map_proper.
  - rewrite reverse_Permutation, Hp. apply NoDup_fst_map_to_list.
  - by rewrite reverse_Permutation.
Qed.

(** ** Computations *)

Record World (E Ev : Type) := mkWorld {
  w_sched : Schedule;
  w_tick : nat;
  w_env : E;
  w_log : list Ev
}.
Arguments mkWorld {_ _}.
Arguments w_sched {_ _}.
Arguments w_tick {_ _}.
Arguments w_env {_ _}.
Arguments w_log {_ _}.

Definition M (E Ev A : Type) : Type := World E Ev → A * World E Ev.

#[export] Instance M_ret {E Ev} : MRet (M E Ev) := λ A x w, (x, w).
#[export] Instance M_bind {E Ev} : MBind (M E Ev) := λ A B f m w, let '(x, w') := m w in f x w'.

Section primitives.
Context {E Ev : Type}.

(** One step of the schedule. *)
Definition step (w : World E Ev) : World E Ev :=
  mkWorld (w_sched w) (S (w_tick w)) (w_env w) (w_log w).

(** [time.Now().UTC()] *)
Definition now : M E Ev Time := λ w, (Npos (sch_clock (w_sched w) (w_tick w)), step w).

(** The context is cancelled by step [n]. *)
Definition cancelled_by (w : World E Ev) (n : nat) : bool :=
  match sch_cancel (w_sched w) with
  | None => false
  | Some k => bool_decide (k ≤ n)
  end.

Definition cancelled (w : World E Ev) : bool := cancelled_by w (w_tick w).

(** [ctx.Err()]: once cancelled, always cancelled. *)
Definition ctx_Err : M E Ev (option error) :=
  λ w, (if cancelled w then Some ErrCanceled else None, step w).

(** [range m]: the entries of a map in some order. *)
Definition range {K A} `{Countable K} (m : gmap K A) : M E Ev (list (K * A)) :=
  λ w, (shuffle (sch_order (w_sched w) (w_tick w)) (map_to_list m), step w).

(** A call into the environment. *)
Definition call {A} (f : E → A * E) : M E Ev A :=
  λ w, let '(x, e) := f (w_env w) in (x, mkWorld (w_sched w) (S (w_tick w)) e (w_log w)).

(** An effect recorded in program order. *)
Definition emit (ev : Ev) : M E Ev unit :=
  λ w, ((), mkWorld (w_sched w) (w_tick w) (w_env w) (w_log w ++ [ev])).

Fixpoint foldM {A B} (f : B → A → M E Ev B) (b : B) (l : list A) : M E Ev B :=
  match l with
  | [] => mret b
  | x :: l => b' ← f b x; foldM f b' l
  end.

Definition forM {A} (l : list A) (f : A → M E Ev unit) : M E Ev unit :=
  foldM (λ _, f) () l.

(** ** Reasoning *)

Definition wp {A} (m : M E Ev A) (Q : A → World E Ev → Prop) (w : World E Ev) : Prop :=
  Q (m w).1 (m w).2.

Lemma wp_ret {A} (x : A) Q w : Q x w → wp (mret x) Q w.
Proof. done. Qed.

Lemma wp_bind {A B} (m : M E Ev A) (f : A → M E Ev B) Q w :
  wp m (λ x, wp (f x) Q) w → wp (x ← m; f x) Q w.
Proof. unfold wp, mbind, M_bind. by destruct (m w). Qed.

Lemma wp_mono {A} (m : M E Ev A) (Q Q' : A → World E Ev → Prop) w :
  wp m Q w → (∀ x w', Q x w' → Q' x w') → wp m Q' w.
Proof. unfold wp. auto. Qed.

Lemma wp_conj {A} (m : M E Ev A) (Q Q' : A → World E Ev → Prop) w :
  Q (m w).1 (m w).2 → wp m Q' w → wp m (λ x w', Q x w' ∧ Q' x w') w.
Proof. done. Qed.

(** A computation whose outcome does not matter. *)
Lemma wp_any {A} (m : M E Ev A) (Q : A → World E Ev → Prop) w :
  (∀ x w', Q x w') → wp m Q w.
Proof. unfold wp. auto. Qed.

(** A loop keeps an invariant over the elements already visited. *)
Lemma wp_foldM {A B} (f : B → A → M E Ev B) (Q : B → World E Ev → Prop)
    (I : list A → B → World E Ev → Prop) l b w :
  I [] b w →
  (∀ done x rest b w, l = done ++ x :: rest → I done b w →
     wp (f b x) (I (done ++ [x])) w) →
  (∀ b w, I l b w → Q b w) →
  wp (foldM f b l) Q w.
Proof.
  intros H0 Hstep HQ.
  assert (∀ rest done b w, l = done ++ rest → I done b w → wp (foldM f b rest) Q w) as Hg;
    [|by apply (Hg l [])].
  clear H0 b w. induction rest as [|x rest IH]; intros dn b w Hl HI; cbn [foldM].
  - apply wp_ret, HQ. rewrite Hl. by rewrite app_nil_r.
  - apply wp_bind. eapply wp_mono; [by eapply Hstep|].
    intros b' w' HI'. apply (IH (dn ++ [x])); [by rewrite <- app_assoc|done].
Qed.

(** ** Extension: what every computation preserves *)

Definition extends (w w' : World E Ev) : Prop :=
  w_sched w' = w_sched w ∧ w_tick w ≤ w_tick w' ∧ ∃ l, w_log w' = w_log w ++ l.

#[export] Instance extends_preorder : PreOrder extends.
Proof.
  split.
  - intros w. split; [done|]. split; [done|]. exists []. by rewrite app_nil_r.
  - intros w1 w2 w3 (H1 & H2 & l & H3) (H4 & H5 & l' & H6). split; [congruence|].
    split; [lia|]. exists (l ++ l'). by rewrite H6, H3, app_assoc.
Qed.

Lemma extends_cancelled w w' : extends w w' → cancelled w = true → cancelled w' = true.
Proof.
  unfold cancelled, cancelled_by. intros (-> & Ht & _). destruct (sch_cancel _); [|done].
  rewrite !bool_decide_eq_true. lia.
Qed.

Lemma extends_step w : extends w (step w).
Proof. split; [done|]. split; [simpl; lia|]. exists []. by rewrite app_nil_r. Qed.

Lemma cancelled_step w : cancelled w = true → cancelled (step w) = true.
Proof. apply extends_cancelled, extends_step. Qed.

End primitives.

#[export] Hint Resolve extends_step : wanwatch.

(** A computation that only moves the world forward. *)
Class Extending {E Ev A} (m : M E Ev A) := extending w : extends w (m w).2.

#[export] Instance extending_ret {E Ev A} (x : A) : Extending (mret (M:=M E Ev) x).
Proof. by intros w. Qed.

#[export] Instance extending_bind {E Ev A B} (m : M E Ev A) (f : A → M E Ev B) :
  Extending m → (∀ x, Extending (f x)) → Extending (x ← m; f x).
Proof.
  intros Hm Hf w. unfold mbind, M_bind. specialize (Hm w). destruct (m w) as [x w'].
  etransitivity; [exact Hm|apply Hf].
Qed.

#[export] Instance extending_now {E Ev} : Extending (now (E:=E) (Ev:=Ev)).
Proof. intros w. apply extends_step. Qed.

#[export] Instance extending_ctx_Err {E Ev} : Extending (ctx_Err (E:=E) (Ev:=Ev)).
Proof. intros w. apply extends_step. Qed.

#[export] Instance extending_range {E Ev A} {K} `{Countable K} (m : gmap K A) :
  Extending (range (E:=E) (Ev:=Ev) m).
Proof. intros w. apply extends_step. Qed.

#[export] Instance extending_call {E Ev A} (f : E → A * E) : Extending (call (Ev:=Ev) f).
Proof.
  intros w. unfold call. destruct (f _). split; [done|]. split; [simpl; lia|].
  exists []. by rewrite app_nil_r.
Qed.

#[export] Instance extending_emit {E Ev} (ev : Ev) : Extending (emit (E:=E) ev).
Proof. intros w. split; [done|]. split; [done|]. by exists [ev]. Qed.

#[export] Instance extending_foldM {E Ev A B} (f : B → A → M E Ev B) b l :
  (∀ b x, Extending (f b x)) → Extending (foldM f b l).
Proof.
  intros Hf. revert b. induction l as [|x l IH]; intros b; cbn [foldM]; [apply _|].
  apply extending_bind; [apply Hf|apply IH].
Qed.

#[export] Instance extending_forM {E Ev A} (f : A → M E Ev unit) l :
  (∀ x, Extending (f x)) → Extending (forM l f).
Proof. intros Hf. by apply extending_foldM. Qed.

#[export] Instance extending_if {E Ev A} (b : bool) (m n : M E Ev A) :
  Extending m → Extending n → Extending (if b then m else n).
Proof. by destruct b. Qed.

(** A computation that makes no call into the environment. *)
Class Quiet {E Ev A} (m : M E Ev A) := quiet w : w_env (m w).2 = w_env w.

#[export] Instance quiet_ret {E Ev A} (x : A) : Quiet (mret (M:=M E Ev) x).
Proof. by intros w. Qed.

#[export] Instance quiet_bind {E Ev A B} (m : M E Ev A) (f : A → M E Ev B) :
  Quiet m → (∀ x, Quiet (f x)) → Quiet (x ← m; f x).
Proof.
  intros Hm Hf w. unfold mbind, M_bind. specialize (Hm w). destruct (m w) as [x w'].
  rewrite <- Hm. apply Hf.
Qed.

#[export] Instance quiet_now {E Ev} : Quiet (now (E:=E) (Ev:=Ev)).
Proof. by intros w. Qed.

#[export] Instance quiet_ctx_Err {E Ev} : Quiet (ctx_Err (E:=E) (Ev:=Ev)).
Proof. by intros w. Qed.

#[export] Instance quiet_range {E Ev A} {K} `{Countable K} (m : gmap K A) :
  Quiet (range (E:=E) (Ev:=Ev) m).
Proof. by intros w. Qed.

#[export] Instance quiet_emit {E Ev} (ev : Ev) : Quiet (emit (E:=E) ev).
Proof. by intros w. Qed.

#[export] Instance quiet_foldM {E Ev A B} (f : B → A → M E Ev B) b l :
  (∀ b x, Quiet (f b x)) → Quiet (foldM f b l).
Proof.
  intros Hf. revert b. induction l as [|x l IH]; intros b; cbn [foldM]; [apply _|].
  apply quiet_bind; [apply Hf|apply IH].
Qed.

#[export] Instance quiet_forM {E Ev A} (f : A → M E Ev unit) l :
  (∀ x, Quiet (f x)) → Quiet (forM l f).
Proof. intros Hf. by apply quiet_foldM. Qed.

Lemma wp_quiet {E Ev A} (m : M E Ev A) `{!Quiet m} (Q : A → World E Ev → Prop) w :
  (∀ x w', w_env w' = w_env w → Q x w') → wp m Q w.
Proof. intros H. apply H, quiet. Qed.

(** A computation that emits nothing. *)
Class Silent {E Ev A} (m : M E Ev A) := silent w : w_log (m w).2 = w_log w.

(** A computation whose effects all satisfy [P]. *)
Class Emits {E Ev A} (P : Ev → Prop) (m : M E Ev A) :=
  emits w : ∃ l, w_log (m w).2 = w_log w ++ l ∧ Forall P l.

Section emits.
Context {E Ev : Type} (P : Ev → Prop).

Lemma emits_silent {A} (m : M E Ev A) : Silent m → Emits P m.
Proof. intros Hm w. exists []. by rewrite app_nil_r, Hm. Qed.

Lemma emits_ret {A} (x : A) : Emits P (mret (M:=M E Ev) x).
Proof. by apply emits_silent. Qed.

Lemma emits_bind {A B} (m : M E Ev A) (f : A → M E Ev B) :
  Emits P m → (∀ x, Emits P (f x)) → Emits P (x ← m; f x).
Proof.
  intros Hm Hf w. unfold mbind, M_bind. destruct (Hm w) as (l1 & H1 & HP1).
  destruct (m w) as [x w']. destruct (Hf x w') as (l2 & H2 & HP2). cbn [fst snd] in *.
  exists (l1 ++ l2). rewrite H2, H1, <- app_assoc. split; [done|]. by apply Forall_app.
Qed.

Lemma emits_emit (ev : Ev) : P ev → Emits P (emit (E:=E) ev).
Proof. intros HP w. exists [ev]. split; [done|]. by constructor. Qed.

Lemma emits_foldM {A B} (f : B → A → M E Ev B) b l :
  (∀ b x, x ∈ l → Emits P (f b x)) → Emits P (foldM f b l).
Proof.
  intros Hf. revert b. induction l as [|x l IH]; intros b; cbn [foldM]; [apply emits_ret|].
  apply emits_bind; [apply Hf, list_elem_of_here|]. intros b'. apply IH. intros b2 y Hy.
  by apply Hf, list_elem_of_further.
Qed.

Lemma wp_emits {A} (m : M E Ev A) (Q : A → World E Ev → Prop) w :
  Emits P m → (∀ x w' l, w_log w' = w_log w ++ l → Forall P l → Q x w') → wp m Q w.
Proof. intros Hm HQ. destruct (Hm w) as (l & Hl & HP). by eapply HQ. Qed.
End emits.

(** Reasoning about the effects a computation appends. *)
Section wlog.
Context {E Ev : Type}.

Definition wlog {A} (m : M E Ev A) (Q : A → list Ev → World E Ev → Prop) (w : World E Ev) : Prop :=
  wp m (λ x w', ∃ l, w_log w' = w_log w ++ l ∧ Q x l w') w.

Lemma wlog_ret {A} (x : A) (Q : A → list Ev → World E Ev → Prop) w : Q x [] w → wlog (mret x) Q w.
Proof. intros HQ. exists []. by rewrite app_nil_r. Qed.

Lemma wlog_bind {A B} (m : M E Ev A) (f : A → M E Ev B) (Q : B → list Ev → World E Ev → Prop) w :
  wlog m (λ x l w', wlog (f x) (λ y l', Q y (l ++ l')) w') w → wlog (x ← m; f x) Q w.
Proof.
  intros H. unfold wlog at 1 in H. apply wp_bind. apply (wp_mono _ _ _ _ H). intros x w1 (l & Hl & Hf).
  unfold wlog in Hf. apply (wp_mono _ _ _ _ Hf). intros y w2 (l' & Hl' & HQ). exists (l ++ l').
  by rewrite Hl', Hl, app_assoc.
Qed.

Lemma wlog_mono {A} (m : M E Ev A) (Q Q' : A → list Ev → World E Ev → Prop) w :
  wlog m Q w → (∀ x l w', Q x l w' → Q' x l w') → wlog m Q' w.
Proof. unfold wlog. intros H HQ. apply (wp_mono _ _ _ _ H). intros x w' (l & Hl & ?). exists l. auto. Qed.

Lemma wlog_silent {A} (m : M E Ev A) (Q : A → list Ev → World E Ev → Prop) w :
  Silent m → (∀ x w', Q x [] w') → wlog m Q w.
Proof. intros Hs HQ. exists []. rewrite app_nil_r. split; [apply Hs|apply HQ]. Qed.

Lemma wlog_silent_wp {A} (m : M E Ev A) (Q : A → list Ev → World E Ev → Prop) w :
  Silent m → wp m (λ x w', Q x [] w') w → wlog m Q w.
Proof. intros Hs HQ. exists []. rewrite app_nil_r. split; [apply Hs|exact HQ]. Qed.

Lemma wlog_emit (ev : Ev) (Q : unit → list Ev → World E Ev → Prop) w :
  (∀ w', cancelled w' = cancelled w → Q () [ev] w') → wlog (emit ev) Q w.
Proof. intros HQ. exists [ev]. split; [done|]. by apply HQ. Qed.

Lemma wlog_ctx_Err (Q : option error → list Ev → World E Ev → Prop) w :
  (cancelled w = true → ∀ w', cancelled w' = true → Q (Some ErrCanceled) [] w') →
  (cancelled w = false → Q None [] (step w)) → wlog ctx_Err Q w.
Proof.
  intros H1 H2. exists []. rewrite app_nil_r. split; [done|]. unfold ctx_Err. cbn [fst snd].
  destruct (cancelled w) eqn:Hc; [|by apply H2]. apply H1; [done|]. by apply cancelled_step.
Qed.

Lemma wlog_emits {A} (P : Ev → Prop) (m : M E Ev A) (Q : A → list Ev → World E Ev → Prop) w :
  Emits P m → (∀ x l w', Forall P l → Q x l w') → wlog m Q w.
Proof. intros Hm HQ. destruct (Hm w) as (l & Hl & HP). exists l. split; [done|]. by apply HQ. Qed.

Lemma wlog_and_emits {A} (P : Ev → Prop) (m : M E Ev A) (Q : A → list Ev → World E Ev → Prop) w :
  Emits P m → wlog m Q w → wlog m (λ x l w', Q x l w' ∧ Forall P l) w.
Proof.
  intros Hm H. destruct (Hm w) as (l & Hl & HP). destruct H as (l' & Hl' & HQ). rewrite Hl in Hl'.
  apply app_inv_head in Hl' as <-. by exists l.
Qed.

Lemma wlog_foldM {A B} (f : B → A → M E Ev B) (Q : B → list Ev → World E Ev → Prop)
    (I : list A → B → list Ev → World E Ev → Prop) l b w :
  I [] b [] w →
  (∀ dn x rest b lg w, l = dn ++ x :: rest → I dn b lg w →
     wlog (f b x) (λ b' lg' w', I (dn ++ [x]) b' (lg ++ lg') w') w) →
  (∀ b lg w, I l b lg w → Q b lg w) →
  wlog (foldM f b l) Q w.
Proof.
  intros Hinit Hstep HQ. apply (wp_foldM _ _ (λ dn b w', ∃ lg, w_log w' = w_log w ++ lg ∧ I dn b lg w')).
  - exists []. by rewrite app_nil_r.
  - intros dn x rest b' w' Hl (lg & Hlg & HI).
    pose proof (Hstep _ _ _ _ _ _ Hl HI) as Hs. unfold wlog in Hs. apply (wp_mono _ _ _ _ Hs).
    intros b2 w2 (lg' & Hlg' & HI'). exists (lg ++ lg'). by rewrite Hlg', Hlg, app_assoc.
  - intros b' w' (lg & Hlg & HI). exists lg. auto.
Qed.
End wlog.

#[export] Instance silent_ret {E Ev A} (x : A) : Silent (mret (M:=M E Ev) x).
Proof. by intros w. Qed.
#[export] Instance silent_bind {E Ev A B} (m : M E Ev A) (f : A → M E Ev B) :
  Silent m → (∀ x, Silent (f x)) → Silent (x ← m; f x).
Proof.
  intros Hm Hf w. unfold mbind, M_bind. specialize (Hm w). destruct (m w) as [x w'].
  rewrite <- Hm. apply Hf.
Qed.
#[export] Instance silent_now {E Ev} : Silent (now (E:=E) (Ev:=Ev)).
Proof. by intros w. Qed.
#[export] Instance silent_ctx_Err {E Ev} : Silent (ctx_Err (E:=E) (Ev:=Ev)).
Proof. by intros w. Qed.
#[export] Instance silent_range {E Ev A} {K} `{Countable K} (m : gmap K A) :
  Silent (range (E:=E) (Ev:=Ev) m).
Proof. by intros w. Qed.
#[export] Instance silent_call {E Ev A} (f : E → A * E) : Silent (call (Ev:=Ev) f).
Proof. intros w. unfold call. by destruct (f _). Qed.

#[export] Instance silent_foldM {E Ev A B} (f : B → A → M E Ev B) b l :
  (∀ b x, Silent (f b x)) → Silent (foldM f b l).
Proof. intros Hf. revert b. induction l as [|x l IH]; intros b; cbn [foldM]; apply _. Qed.

(** Follow a computation's structure down to its primitives. *)
Ltac emitting :=
  repeat first
    [ progress intros
    | apply emits_ret
    | apply emits_bind
    | apply emits_foldM
    | apply emits_emit; done
    | case_match
    | apply emits_silent; typeclasses eauto
    | typeclasses eauto ].

Ltac extending_by :=
  repeat first
    [ progress intros
    | typeclasses eauto
    | apply extending_bind
    | apply extending_foldM
    | case_match ].

Ltac quiet_by :=
  repeat first
    [ progress intros
    | typeclasses eauto
    | apply quiet_bind
    | apply quiet_foldM
    | case_match ].

Lemma wp_extends {E Ev A} (m : M E Ev A) `{!Extending m} (Q : A → World E Ev → Prop) w :
  (∀ x w', extends w w' → Q x w') → wp m Q w.
Proof. intros HQ. apply HQ, extending. Qed.

(** Both a postcondition and the extension. *)
Lemma wp_and_extends {E Ev A} (m : M E Ev A) `{!Extending m} (Q : A → World E Ev → Prop) w :
  wp m Q w → wp m (λ x w', Q x w' ∧ extends w w') w.
Proof. intros HQ. split; [exact HQ|apply extending]. Qed.

(** A step of a computation whose outcome is known. *)
Lemma wp_bind_eq {E Ev A B} (m : M E Ev A) (f : A → M E Ev B) (Q : B → World E Ev → Prop) w x w' :
  m w = (x, w') → wp (f x) Q w' → wp (m ≫= f) Q w.
Proof. intros Hm HQ. apply wp_bind. unfold wp at 1. by rewrite Hm. Qed.

Lemma silent_eq {E Ev A} (m : M E Ev A) `{!Silent m} w x w' : m w = (x, w') → w_log w' = w_log w.
Proof. intros Hm. pose proof (silent (m:=m) w) as Hs. by rewrite Hm in Hs. Qed.

(** A computation that leaves a view of the environment as it was. *)
Class Keeps {E Ev A X} (f : E → X) (m : M E Ev A) := keeps w : f (w_env (m w).2) = f (w_env w).

#[export] Instance keeps_quiet {E Ev A X} (f : E → X) (m : M E Ev A) : Quiet m → Keeps f m.
Proof. intros Hm w. by rewrite Hm. Qed.

#[export] Instance keeps_bind {E Ev A B X} (f : E → X) (m : M E Ev A) (k : A → M E Ev B) :
  Keeps f m → (∀ x, Keeps f (k x)) → Keeps f (x ← m; k x).
Proof.
  intros Hm Hk w. unfold mbind, M_bind. specialize (Hm w). destruct (m w) as [x w'].
  rewrite <- Hm. apply Hk.
Qed.

#[export] Instance keeps_foldM {E Ev A B X} (f : E → X) (k : B → A → M E Ev B) b l :
  (∀ b x, Keeps f (k b x)) → Keeps f (foldM k b l).
Proof. intros Hk. revert b. induction l as [|x l IH]; intros b; cbn [foldM]; apply _. Qed.

#[export] Instance keeps_forM {E Ev A X} (f : E → X) (k : A → M E Ev unit) l :
  (∀ x, Keeps f (k x)) → Keeps f (forM l k).
Proof. intros Hk. by apply keeps_foldM. Qed.

Lemma keeps_call {E Ev A X} (f : E → X) (g : E → A * E) :
  (∀ e, f (g e).2 = f e) → Keeps f (call (Ev:=Ev) g).
Proof. intros Hg w. unfold call. specialize (Hg (w_env w)). by destruct (g (w_env w)). Qed.

Lemma wp_keeps {E Ev A X} (f : E → X) (m : M E Ev A) `{!Keeps f m} (Q : A → World E Ev → Prop) w :
  (∀ x w', f (w_env w') = f (w_env w) → Q x w') → wp m Q w.
Proof. intros HQ. apply HQ, keeps. Qed.

Ltac silent_by :=
  repeat first
    [ progress intros
    | typeclasses eauto
    | apply silent_bind
    | apply silent_foldM
    | case_match ].

Ltac keeps_by :=
  repeat first
    [ progress intros
    | typeclasses eauto
    | apply keeps_bind
    | apply keeps_foldM
    | case_match ].
