(* ===== verification/Metrics.v ===== *)
(** * The metric catalog ([metrics.go])

    The metrics by their field of [Registry], each with its kind, name and
    label names, and the operations the daemon performs on them. The
    Prometheus library and the exposition endpoint are outside the model; a
    metric operation is an effect of the run. *)
From S2P Require Import Prelude GoFloat Runtime.

(** daemon/internal/metrics/metrics.go:33-67 (Registry): one constructor per
    metric field *)
Inductive Metric :=
| ProbeRTT | ProbeJitter | ProbeLoss | ProbeTargetRTT
| WanCarrier | WanOperstate | WanFamilyHealthy | WanHealthy | WanCarrierChanges
| GroupSelected | GroupDecisions
| ApplyRouteDuration | ApplyRouteErrors | ApplyOpErrors
| StatePublications | HookInvocations | BuildInfo.

#[export] Instance Metric_eq_dec : EqDecision Metric.
Proof. solve_decision. Defined.

Inductive Kind := Gauge | Counter | Histogram.

#[export] Instance Kind_eq_dec : EqDecision Kind.
Proof. solve_decision. Defined.

(** Kind, subsystem, name and label names; the help text has no behaviour. *)
Record Opts := mkOpts {
  o_kind : Kind; o_subsystem : string; o_name : string; o_labels : list string
}.

(** daemon/internal/metrics/metrics.go:69-204 (New): the options of every
    metric *)
Definition catalog (m : Metric) : Opts :=
  match m with
  | ProbeRTT => mkOpts Gauge "probe" "rtt_seconds" ["wan"; "family"]
  | ProbeJitter => mkOpts Gauge "probe" "jitter_seconds" ["wan"; "family"]
  | ProbeLoss => mkOpts Gauge "probe" "loss_ratio" ["wan"; "family"]
  | ProbeTargetRTT => mkOpts Gauge "probe" "target_rtt_seconds" ["wan"; "family"; "target"]
  | WanCarrier => mkOpts Gauge "wan" "carrier" ["wan"]
  | WanOperstate => mkOpts Gauge "wan" "operstate" ["wan"; "state"]
  | WanFamilyHealthy => mkOpts Gauge "wan" "family_healthy" ["wan"; "family"]
  | WanHealthy => mkOpts Gauge "wan" "healthy" ["wan"]
  | WanCarrierChanges => mkOpts Counter "wan" "carrier_changes_total" ["wan"]
  | GroupSelected => mkOpts Gauge "group" "selected" ["group"; "wan"]
  | GroupDecisions => mkOpts Counter "group" "decisions_total" ["group"; "reason"]
  | ApplyRouteDuration => mkOpts Histogram "apply" "route_duration_seconds" ["group"; "family"]
  | ApplyRouteErrors => mkOpts Counter "apply" "route_errors_total" ["group"; "family"]
  | ApplyOpErrors => mkOpts Counter "apply" "op_errors_total" ["group"; "op"]
  | StatePublications => mkOpts Counter "state" "publications_total" []
  | HookInvocations => mkOpts Counter "hook" "invocations_total" ["group"; "event"; "result"]
  | BuildInfo => mkOpts Gauge "" "build_info" ["version"; "revision"; "goversion"]
  end.

(** daemon/internal/metrics/metrics.go:196-202 (New): the metrics registered
    with [MustRegister] *)
Definition registered : list Metric :=
  [ProbeRTT; ProbeJitter; ProbeLoss; ProbeTargetRTT;
   WanCarrier; WanOperstate; WanFamilyHealthy; WanHealthy; WanCarrierChanges;
   GroupSelected; GroupDecisions;
   ApplyRouteDuration; ApplyRouteErrors; ApplyOpErrors;
   StatePublications; HookInvocations; BuildInfo].

(** An operation on one series: the metric, the values of its labels in
    order, and the value. *)
Inductive MetricOp :=
| MSet (m : Metric) (labels : list string) (v : float64)
| MInc (m : Metric) (labels : list string)
| MObserve (m : Metric) (labels : list string) (nanos : N).

(** daemon/internal/metrics/metrics.go:206-214 (SetBuildInfo): the one series
    of build_info *)
Definition SetBuildInfo (version revision goversion : string) : MetricOp :=
  MSet BuildInfo [version; revision; goversion] f64_one.

(** Prometheus panics on a series of the wrong arity or kind; a well-formed
    operation names one label value per label and fits the metric's kind. *)
Definition op_ok (op : MetricOp) : bool :=
  let fits k m labels := bool_decide (o_kind (catalog m) = k) &&
                         bool_decide (length labels = length (o_labels (catalog m))) in
  match op with
  | MSet m labels _ => fits Gauge m labels
  | MInc m labels => fits Counter m labels
  | MObserve m labels _ => fits Histogram m labels
  end.

(** How a component reports its metric operations among a run's effects. *)
Class MetricSink (Ev : Type) := metric_event : MetricOp → Ev.

#[export] Instance MetricSink_op : MetricSink MetricOp := λ op, op.

Section ops.
Context {E Ev : Type} `{MetricSink Ev}.

Definition Set_ (m : Metric) (labels : list string) (v : float64) : M E Ev unit :=
  emit (metric_event (MSet m labels v)).
Definition Inc (m : Metric) (labels : list string) : M E Ev unit :=
  emit (metric_event (MInc m labels)).
Definition Observe (m : Metric) (labels : list string) (nanos : N) : M E Ev unit :=
  emit (metric_event (MObserve m labels nanos)).

#[export] Instance extending_Set m labels v : Extending (Set_ m labels v).
Proof. apply _. Qed.
#[export] Instance extending_Inc m labels : Extending (Inc m labels).
Proof. apply _. Qed.
#[export] Instance extending_Observe m labels n : Extending (Observe m labels n).
Proof. apply _. Qed.

End ops.

(** Every metric is registered once and no two share a subsystem and name, so
    registration cannot collide. *)
Lemma catalog_names_distinct :
  NoDup registered ∧ (∀ m, m ∈ registered) ∧
  NoDup ((λ m, (o_subsystem (catalog m), o_name (catalog m))) <$> registered).
Proof.
  split; [|split].
  - apply (bool_decide_eq_true_1 (NoDup registered)). by vm_compute.
  - intros m. apply (bool_decide_eq_true_1 (m ∈ registered)). by destruct m; vm_compute.
  - by apply (bool_decide_eq_true_1 (NoDup _)); vm_compute.
Qed.
