(* ===== verification/MetricsServer.v ===== *)
(** * The metrics endpoint ([metrics/server.go])

    One run of the HTTP server on a Unix socket. The file system, the listener
    and the HTTP server are an interface; every call is recorded. *)
From S2P Require Import Prelude Runtime.

#[local] Open Scope Z_scope.

(** [http.ErrServerClosed] *)
Definition ErrServerClosed : error := ErrSentinel "http: Server closed".

(** The host: [os.Remove], [net.Listen] on a Unix socket, [os.Chmod], the close
    of the listener, [http.Server.Serve] until it returns, and
    [http.Server.Shutdown] with a deadline in nanoseconds. *)
Class Host (E : Type) := {
  host_Remove : string → E → option error * E;
  host_Listen : string → E → option error * E;
  host_Chmod : string → Z → E → option error * E;
  host_Close : E → option error * E;
  http_Serve : E → error * E;
  http_Shutdown : Z → E → option error * E
}.

(** The calls, in order. [http.Server.Serve] closes its listener when it returns. *)
Inductive server_event :=
| VRemove (path : string)
| VListen (path : string)
| VChmod (path : string) (mode : Z)
| VClose
| VServe
| VShutdown (timeout : Z)
| VServed.

(** daemon/internal/metrics/server.go:13-17 (DefaultSocketMode): rw-rw---- *)
Definition DefaultSocketMode : Z := 432.

(** daemon/internal/metrics/server.go:19-22 (shutdownTimeout): five seconds *)
Definition shutdownTimeout : Z := 5000000000.

(** daemon/internal/metrics/server.go:24-37 (Server): fields; the handler is set
    or nil *)
Record Server := mkServer { sv_Socket : string; sv_Mode : Z; sv_Handler : bool }.

Section server.
Context {E : Type} `{HH : Host E}.

Abbreviation M := (M E server_event).

Definition op {A} (ev : server_event) (f : E → A * E) : M A := _ ← emit ev; call f.

(** daemon/internal/metrics/server.go:77-83 (Serve): the goroutine's result; an
    orderly close is none *)
Definition serve_result : M (option error) :=
  err ← call http_Serve;
  _ ← emit VServed;
  mret (if Is err ErrServerClosed then None else Some err).

(** daemon/internal/metrics/server.go:85-95 (Serve): the cancellation, [true], or
    the server's own end *)
Definition serve_until (cancelled : bool) : M (option error) :=
  if cancelled then
    _ ← op (VShutdown shutdownTimeout) (http_Shutdown shutdownTimeout);
    err ← serve_result;
    mret (errors_Join (Some ErrCanceled) err)
  else serve_result.

(** daemon/internal/metrics/server.go:39-96 (Serve): remove a stale socket, bind,
    set the mode, serve *)
Definition Serve (s : Server) (cancelled : bool) : M (option error) :=
  if decide (sv_Socket s = "") then mret (Some (Errorf "metrics: Socket is empty"))
  else if negb (sv_Handler s) then mret (Some (Errorf "metrics: Handler is nil"))
  else
    let mode := if sv_Mode s =? 0 then DefaultSocketMode else sv_Mode s in
    _ ← op (VRemove (sv_Socket s)) (host_Remove (sv_Socket s));
    err ← op (VListen (sv_Socket s)) (host_Listen (sv_Socket s));
    match err with
    | Some err => mret (Some (Wrapf "metrics: listen" err))
    | None =>
        err ← op (VChmod (sv_Socket s) mode) (host_Chmod (sv_Socket s) mode);
        match err with
        | Some err => _ ← op VClose host_Close; mret (Some (Wrapf "metrics: chmod" err))
        | None => _ ← emit VServe; serve_until cancelled
        end
    end.

End server.

(** ** Properties *)

(** One run of the metrics server, step by step. Without a socket or a handler
    nothing is done. Else a stale socket is removed, whatever that returns, before
    the bind; the socket gets its mode before anything is served on it; a run
    that cannot listen or set the mode reports why, and no listener is left
    open. A server that ends by itself reports its error, none after an orderly
    close. Once cancelled, it is shut down with five seconds for requests in
    flight, its end is awaited, and the result reads as a cancellation and keeps
    the server's error. *)
Theorem metrics_serve {E} `{HH : Host E} s stop (w : World E server_event) :
  let '(err, w') := Serve s stop w in
  let path := sv_Socket s in
  let mode := if sv_Mode s =? 0 then 432 else sv_Mode s in
  ∃ l, w_log w' = w_log w ++ l ∧
  ((path = "" ∨ sv_Handler s = false) ∧ l = [] ∧ is_Some err ∨
   path ≠ "" ∧ sv_Handler s = true ∧
   ((∃ e, err = Some (Wrapf "metrics: listen" e) ∧ l = [VRemove path; VListen path]) ∨
    (∃ e, err = Some (Wrapf "metrics: chmod" e) ∧ l = [VRemove path; VListen path; VChmod path mode; VClose]) ∨
    (∃ (served : error) e, e = (if Is served ErrServerClosed then None else Some served) ∧
       if stop then
         l = [VRemove path; VListen path; VChmod path mode; VServe; VShutdown 5000000000; VServed] ∧
         ∃ joined, err = Some joined ∧ Is joined ErrCanceled = true ∧
           ∀ e0 target, e = Some e0 → Is e0 target = true → Is joined target = true
       else l = [VRemove path; VListen path; VChmod path mode; VServe; VServed] ∧ err = e))).
Proof.
  assert (H : wlog (Serve s stop) (λ err l _,
    let path := sv_Socket s in
    let mode := if sv_Mode s =? 0 then 432 else sv_Mode s in
    (path = "" ∨ sv_Handler s = false) ∧ l = [] ∧ is_Some err ∨
    path ≠ "" ∧ sv_Handler s = true ∧
    ((∃ e, err = Some (Wrapf "metrics: listen" e) ∧ l = [VRemove path; VListen path]) ∨
     (∃ e, err = Some (Wrapf "metrics: chmod" e) ∧ l = [VRemove path; VListen path; VChmod path mode; VClose]) ∨
     (∃ (served : error) e, e = (if Is served ErrServerClosed then None else Some served) ∧
       if stop then
         l = [VRemove path; VListen path; VChmod path mode; VServe; VShutdown 5000000000; VServed] ∧
         ∃ joined, err = Some joined ∧ Is joined ErrCanceled = true ∧
           ∀ e0 target, e = Some e0 → Is e0 target = true → Is joined target = true
       else l = [VRemove path; VListen path; VChmod path mode; VServe; VServed] ∧ err = e))) w).
  2: { unfold wlog, wp in H. by destruct (Serve s stop w). }
  unfold Serve. case_decide as Hp; [apply wlog_ret; left; auto|].
  destruct (sv_Handler s); cbn [negb]; [|apply wlog_ret; left; auto].
  unfold op. apply wlog_bind, wlog_bind, wlog_emit. intros w1 _. apply wlog_silent; [apply _|]. intros _ w2.
  apply wlog_bind, wlog_bind, wlog_emit. intros w3 _. apply wlog_silent; [apply _|]. intros [err|] w4.
  { apply wlog_ret. right. split; [done|]. split; [done|]. left. by exists err. }
  apply wlog_bind, wlog_bind, wlog_emit. intros w5 _. apply wlog_silent; [apply _|]. intros [err|] w6.
  { apply wlog_bind, wlog_bind, wlog_emit. intros w7 _. apply wlog_silent; [apply _|]. intros _ w8.
    apply wlog_ret. right. split; [done|]. split; [done|]. right. left. by exists err. }
  apply wlog_bind, wlog_emit. intros w7 _. unfold serve_until, serve_result, op. destruct stop.
  - apply wlog_bind, wlog_bind, wlog_emit. intros w8 _. apply wlog_silent; [apply _|]. intros _ w9.
    apply wlog_bind, wlog_bind, wlog_silent; [apply _|]. intros served w10.
    apply wlog_bind, wlog_emit. intros w11 _. apply wlog_ret, wlog_ret. right. split; [done|]. split; [done|].
    right. right. eexists served, _. split; [done|]. split; [done|]. destruct (Is served ErrServerClosed); eexists;
      (split; [done|]); (split; [done|]); [done|]. intros e0 target [= <-] Ht. cbn. by rewrite Ht, !orb_true_r.
  - apply wlog_bind, wlog_silent; [apply _|]. intros served w8. apply wlog_bind, wlog_emit. intros w9 _.
    apply wlog_ret. right. split; [done|]. split; [done|]. right. right. eexists served, _. by split.
Qed.
