(* ===== verification/Selector.v ===== *)
(** * Selecting a Group's Member ([selector.go], [primarybackup.go])

    The data of a Group, the strategy registry and the [primary-backup]
    strategy. The specification is [best]: the healthy Member that
    precedes every other healthy Member by (priority, WAN name). *)
From S2P Require Import Prelude.

#[local] Open Scope Z_scope.

(** daemon/internal/selector/selector.go:43-46 (Member): fields *)
Record Member := mkMember { m_wan : string; m_priority : Z }.

#[export] Instance Member_eq_dec : EqDecision Member.
Proof. solve_decision. Defined.

(** daemon/internal/selector/selector.go:29-40 (Group): the JSON tags
    select the keys of the configuration file and carry no behaviour *)
Record Group := mkGroup {
  g_name : string;
  g_strategy : string;
  g_table : Z;
  g_mark : Z;
  g_members : gmap string Member
}.

(** daemon/internal/selector/selector.go:48-54 (MemberHealth): fields *)
Record MemberHealth := mkMemberHealth { mh_member : Member; mh_healthy : bool }.

#[export] Instance MemberHealth_eq_dec : EqDecision MemberHealth.
Proof. solve_decision. Defined.

(** daemon/internal/selector/selector.go:66-73 (Active): a comparable struct *)
Record Active := mkActive { a_wan : string; a_has : bool }.

(** daemon/internal/selector/selector.go:66-73 (Active): Go's [==] *)
#[export] Instance Active_eq_dec : EqDecision Active.
Proof. solve_decision. Defined.

(** daemon/internal/selector/selector.go:75-78 (NoActive): the zero value *)
Definition NoActive : Active := mkActive "" false.

(** daemon/internal/selector/selector.go:56-64 (Selection): fields *)
Record Selection := mkSelection { s_group : string; s_active : Active }.

(** daemon/internal/selector/selector.go:24-27 (ErrUnknownStrategy): the
    sentinel, with the strategy and the Group of its message *)
Inductive SelectError := ErrUnknownStrategy (strategy group : string).

(** ** primary-backup *)

(** daemon/internal/selector/primarybackup.go:28-38 (healthyMembers): the
    healthy subset, in order *)
Fixpoint healthyMembers (members : list MemberHealth) : list MemberHealth :=
  match members with
  | [] => []
  | m :: rest => if mh_healthy m then m :: healthyMembers rest else healthyMembers rest
  end.

(** daemon/internal/selector/primarybackup.go:18-23 (primaryBackup): the
    comparison passed to [slices.SortFunc], [cmp a b <= 0]: priority first,
    then the bytes of the WAN name *)
Definition member_le (a b : MemberHealth) : Prop :=
  m_priority (mh_member a) < m_priority (mh_member b) ∨
  (m_priority (mh_member a) = m_priority (mh_member b) ∧
   String.le (m_wan (mh_member a)) (m_wan (mh_member b))).

#[export] Instance member_le_dec : ∀ a b, Decision (member_le a b).
Proof. intros a b. unfold member_le. apply _. Defined.

(** daemon/internal/selector/primarybackup.go:8-26 (primaryBackup): the
    least healthy Member, [NoActive] when there is none *)
Definition primaryBackup (g : Group) (members : list MemberHealth) : Selection :=
  match merge_sort member_le (healthyMembers members) with
  | [] => mkSelection (g_name g) NoActive
  | first :: _ => mkSelection (g_name g) (mkActive (m_wan (mh_member first)) true)
  end.

(** ** The registry *)

(** daemon/internal/selector/selector.go:80-83 (Strategy): the strategy type *)
Definition Strategy : Type := Group → list MemberHealth → Selection.

(** daemon/internal/selector/selector.go:85-90 (strategies): the registry *)
Definition strategies : gmap string Strategy := {[ "primary-backup" := primaryBackup ]}.

(** daemon/internal/selector/selector.go:92-107 (Select): run the named
    strategy *)
Definition Select (g : Group) (members : list MemberHealth) : SelectError + Selection :=
  match strategies !! g_strategy g with
  | None => inl (ErrUnknownStrategy (g_strategy g) (g_name g))
  | Some s => inr (s g members)
  end.

(** daemon/internal/selector/selector.go:109-119 (KnownStrategies): the
    registered names, in some order *)
Definition KnownStrategies : list string := (map_to_list strategies).*1.

(** ** Lemmas *)

#[export] Instance member_le_trans : Transitive member_le.
Proof.
  intros a b c. unfold member_le.
  intros [?|[? H1]] [?|[? H2]]; try (left; lia).
  right. split; [lia|]. by transitivity (m_wan (mh_member b)).
Qed.

#[export] Instance member_le_total : Total member_le.
Proof.
  intros a b. unfold member_le.
  destruct (Z.lt_trichotomy (m_priority (mh_member a)) (m_priority (mh_member b)))
    as [?|[He|?]]; [by left; left| |by right; left].
  destruct (total String.le (m_wan (mh_member a)) (m_wan (mh_member b))).
  - left. right. by split.
  - right. right. by split.
Qed.

(** Members that compare equal agree on what the Selection is made of. *)
Lemma member_le_antisymm a b :
  member_le a b → member_le b a → mh_member a = mh_member b.
Proof.
  unfold member_le. destruct a as [[wa pa] ha], b as [[wb pb] hb]. simpl.
  intros [?|[-> H1]] [?|[? H2]]; try lia. f_equal. by apply (anti_symm String.le).
Qed.

Lemma elem_of_healthyMembers m ms :
  m ∈ healthyMembers ms ↔ m ∈ ms ∧ mh_healthy m = true.
Proof.
  induction ms as [|m' ms IH]; simpl; [rewrite !elem_of_nil; tauto|].
  assert (m = m' → mh_healthy m = mh_healthy m') by congruence.
  destruct (mh_healthy m') eqn:E; rewrite !elem_of_cons, IH; [tauto|].
  split; [tauto|]. intros [[->|?] ?]; [congruence|tauto].
Qed.

(** What a Selection must be: the least healthy Member's WAN. *)
Definition best (members : list MemberHealth) (a : Active) : Prop :=
  if a_has a then
    ∃ m, m ∈ members ∧ mh_healthy m = true ∧ a_wan a = m_wan (mh_member m) ∧
      ∀ m', m' ∈ members → mh_healthy m' = true → member_le m m'
  else a = NoActive ∧ ∀ m, m ∈ members → mh_healthy m = false.

(** At most one Active is the best of a list, and the list's order is
    irrelevant to it. *)
Lemma best_unique ms a b : best ms a → best ms b → a = b.
Proof.
  unfold best. destruct a as [wa []], b as [wb []]; simpl.
  - intros (m & Hm & Hh & -> & Hmin) (m' & Hm' & Hh' & -> & Hmin'). f_equal. f_equal.
    apply member_le_antisymm; auto.
  - intros (m & Hm & Hh & _) [_ Hnone]. rewrite (Hnone m Hm) in Hh. done.
  - intros [_ Hnone] (m & Hm & Hh & _). rewrite (Hnone m Hm) in Hh. done.
  - intros [-> _] [-> _]. done.
Qed.

Lemma best_Permutation ms ms' a : ms ≡ₚ ms' → best ms a → best ms' a.
Proof.
  intros Hp. assert (Hin : ∀ m, m ∈ ms ↔ m ∈ ms') by (intros m; by rewrite Hp).
  unfold best. destruct (a_has a).
  - intros (m & Hm & Hh & Hw & Hmin). exists m. split; [by apply Hin|].
    do 2 (split; [done|]). intros m' Hm'. by apply Hmin, Hin.
  - intros [Ha Hnone]. split; [done|]. intros m Hm. by apply Hnone, Hin.
Qed.

(** The head of any sorted arrangement of the healthy Members is best. *)
Lemma sorted_head_best ms l :
  l ≡ₚ healthyMembers ms → Sorted member_le l →
  best ms (match l with
           | [] => NoActive
           | first :: _ => mkActive (m_wan (mh_member first)) true
           end).
Proof.
  intros Hp Hs%(Sorted_StronglySorted _). unfold best. destruct l as [|m l]; simpl.
  - split; [done|]. intros m Hm. destruct (mh_healthy m) eqn:E; [|done].
    assert (m ∈ healthyMembers ms) as Hin by (by apply elem_of_healthyMembers).
    rewrite <- Hp in Hin. by apply not_elem_of_nil in Hin.
  - assert (Hin : ∀ m', m' ∈ m :: l ↔ m' ∈ ms ∧ mh_healthy m' = true).
    { intros m'. rewrite Hp. apply elem_of_healthyMembers. }
    destruct (proj1 (Hin m) (list_elem_of_here _ _)) as [H1 H2].
    exists m. do 3 (split; [done|]). intros m' Hm' Hh'.
    assert (m' ∈ m :: l) as [->|Hl]%elem_of_cons by (by apply Hin).
    + by destruct (total member_le m m).
    + inv Hs. by eapply Forall_forall in Hl.
Qed.

Lemma primaryBackup_best g ms : best ms (s_active (primaryBackup g ms)).
Proof.
  unfold primaryBackup.
  pose proof (sorted_head_best ms (merge_sort member_le (healthyMembers ms))
    (merge_sort_Permutation _ _) (Sorted_merge_sort _ _)) as H.
  by destruct (merge_sort _ _).
Qed.

Lemma Select_known g ms :
  g_strategy g = "primary-backup" → Select g ms = inr (primaryBackup g ms).
Proof. unfold Select. by intros ->. Qed.

Lemma Select_unknown g ms :
  g_strategy g ≠ "primary-backup" →
  Select g ms = inl (ErrUnknownStrategy (g_strategy g) (g_name g)).
Proof. unfold Select, strategies. intros H. by rewrite lookup_singleton_ne. Qed.

Lemma KnownStrategies_eq : KnownStrategies = ["primary-backup"].
Proof. unfold KnownStrategies, strategies. by rewrite map_to_list_singleton. Qed.

Lemma Select_Permutation g ms ms' : ms ≡ₚ ms' → Select g ms = Select g ms'.
Proof.
  intros Hp. destruct (decide (g_strategy g = "primary-backup")) as [He|Hne].
  - rewrite !Select_known by done. f_equal.
    assert (s_group (primaryBackup g ms) = s_group (primaryBackup g ms')) as Hg.
    { unfold primaryBackup. by destruct (merge_sort _ _), (merge_sort _ _). }
    assert (s_active (primaryBackup g ms) = s_active (primaryBackup g ms')) as Ha.
    { apply (best_unique ms'); [|apply primaryBackup_best].
      by apply (best_Permutation ms), primaryBackup_best. }
    destruct (primaryBackup g ms), (primaryBackup g ms'). simpl in *. congruence.
  - by rewrite !Select_unknown.
Qed.

(** ** Properties *)

(** C22. Selection: with a known strategy the Group's Selection is the healthy
    Member that precedes every healthy Member by (priority, WAN name), and
    none exactly when no Member is healthy; it is the only such Active, so
    neither the order the Members are listed in nor the instability of
    [slices.SortFunc] can change it; an unknown strategy is
    [ErrUnknownStrategy] whatever the Members. *)
Theorem select_best g ms ms' :
  ms ≡ₚ ms' →
  match Select g ms with
  | inr sel =>
      g_strategy g ∈ KnownStrategies ∧ s_group sel = g_name g ∧
      (∀ a, best ms a ↔ a = s_active sel) ∧ Select g ms' = inr sel ∧
      (∀ l, l ≡ₚ healthyMembers ms → Sorted member_le l →
         s_active sel = match head l with
                        | None => NoActive
                        | Some first => mkActive (m_wan (mh_member first)) true
                        end)
  | inl err => err = ErrUnknownStrategy (g_strategy g) (g_name g) ∧
      g_strategy g ∉ KnownStrategies
  end.
Proof.
  intros Hp. destruct (decide (g_strategy g = "primary-backup")) as [He|Hne].
  - rewrite (Select_known g ms) by done. split; [by rewrite He, KnownStrategies_eq, list_elem_of_singleton|].
    split; [by unfold primaryBackup; destruct (merge_sort _ _)|].
    split; [|split].
    + intros a. split; [|intros ->; apply primaryBackup_best].
      intros Ha. apply (best_unique ms); [done|apply primaryBackup_best].
    + by rewrite <- (Select_Permutation g ms ms'), Select_known.
    + intros l Hl Hs. apply (best_unique ms); [apply primaryBackup_best|].
      pose proof (sorted_head_best ms l Hl Hs). by destruct l.
  - rewrite Select_unknown by done. split; [done|].
    by rewrite KnownStrategies_eq, list_elem_of_singleton.
Qed.

Lemma select_best_witness :
  let g := mkGroup "home" "primary-backup" 100 200 ∅ in
  let m w p h := mkMemberHealth (mkMember w p) h in
  ∃ sel, Select g [m "lte" 2 true; m "fiber" 1 false; m "cable" 2 true] = inr sel ∧
    s_active sel = mkActive "cable" true.
Proof.
  intros g m.
  pose proof (select_best g [m "lte" 2 true; m "fiber" 1 false; m "cable" 2 true]
    [m "cable" 2 true; m "lte" 2 true; m "fiber" 1 false]
    ltac:(by apply (Permutation_app_comm [m "lte" 2 true; m "fiber" 1 false] [_]))) as H.
  rewrite (Select_known g) in H by done.
  exists (primaryBackup g [m "lte" 2 true; m "fiber" 1 false; m "cable" 2 true]).
  split; [by apply Select_known|]. destruct H as (_ & _ & H & _). symmetry. apply H.
  exists (m "cable" 2 true). repeat split.
  - by apply list_elem_of_further, list_elem_of_further, list_elem_of_here.
  - intros m'. rewrite !elem_of_cons, elem_of_nil. unfold member_le.
    intros [->|[->|[->|[]]]]; simpl; [intros _; right; by split|done|intros _; right; by split].
Defined.
