(* ===== verification/State.v ===== *)
(** * The externalized State and the Hook context ([state.go], [hooks.go])

    The data of state.json and of a Hook's environment, and the sinks the
    daemon hands them to. *)
From S2P Require Import Prelude GoFloat Runtime.

(** daemon/internal/state/state.go:22-27 (SchemaVersion): constant *)
Definition SchemaVersion : Z := 1.

(** daemon/internal/state/state.go:50-61 (Gateways): nil is JSON null *)
Record Gateways := mkGateways { gw_V4 : option string; gw_V6 : option string }.

(** daemon/internal/state/state.go:63-76 (FamilyHealth): nil is JSON null *)
Record FamilyHealth := mkFamilyHealth {
  fh_Healthy : bool;
  fh_RTTSeconds : option float64;
  fh_JitterSeconds : option float64;
  fh_LossRatio : option float64;
  fh_Targets : list string
}.

(** daemon/internal/state/state.go:40-48 (Wan): fields *)
Record SWan := mkSWan {
  sw_Interface : string; sw_Carrier : string; sw_Operstate : string; sw_Healthy : bool;
  sw_Gateways : Gateways; sw_Families : gmap string FamilyHealth
}.

(** daemon/internal/state/state.go:78-84 (Group): fields *)
Record SGroup := mkSGroup {
  sg_Selection : option string; sg_SelectionSince : option Time;
  sg_DecisionsTotal : Z; sg_Strategy : string
}.

(** daemon/internal/state/state.go:29-38 (State): the schema is filled in by
    the writer *)
Record State := mkState {
  st_Schema : Z; st_Version : string; st_StartedAt : Time; st_UpdatedAt : Time;
  st_Wans : gmap string SWan; st_Groups : gmap string SGroup
}.

(** daemon/internal/state/hooks.go:17-28 (Event): the three events; the empty
    event is [None] where it can occur *)
Inductive Event := EventUp | EventDown | EventSwitch.

(** daemon/internal/state/hooks.go:17-28 (Event): Go's [==] *)
#[export] Instance Event_eq_dec : EqDecision Event.
Proof. solve_decision. Defined.

(** daemon/internal/state/hooks.go:24-28 (Event): the constants' text *)
Definition Event_String (e : Event) : string :=
  match e with EventUp => "up" | EventDown => "down" | EventSwitch => "switch" end.

(** daemon/internal/state/hooks.go:30-49 (HookContext): fields *)
Record HookContext := mkHookContext {
  hc_Event : Event; hc_Group : string; hc_WanOld : string; hc_WanNew : string;
  hc_InterfaceOld : string; hc_InterfaceNew : string;
  hc_GatewayV4Old : string; hc_GatewayV4New : string;
  hc_GatewayV6Old : string; hc_GatewayV6New : string;
  hc_FamiliesOld : list string; hc_FamiliesNew : list string;
  hc_Table : Z; hc_Mark : Z; hc_Timestamp : Time
}.

(** What the daemon sees of [Writer.Write]: nil or an error. *)
Class StateSink (E : Type) := Write : State → E → option error * E.

(** What the daemon sees of [HookNotifier.Notify]: accepted or not. *)
Class HookSink (E : Type) := Notify : HookContext → E → bool * E.
