(* ===== verification/Config.v ===== *)
(** * The daemon configuration ([config.go])

    The decoded configuration and its validation. [Valid] restates the
    constraints declaratively; [config_validate_sound] shows that validation
    accepts exactly the valid configurations, in whatever order the maps are
    iterated. JSON decoding is the standard library's and enters as a
    parameter of [Parse]. *)
From S2P Require Import Prelude NetIP Icmp Runtime Selector.

#[local] Open Scope Z_scope.

(** ** Data *)

(** daemon/internal/config/config.go:26-30 (SupportedSchema): constant *)
Definition SupportedSchema : Z := 1.

(** daemon/internal/config/config.go:32-36 (ErrSchemaMismatch): sentinel *)
Definition ErrSchemaMismatch : error := ErrSentinel "config: schema mismatch".
(** daemon/internal/config/config.go:38-41 (ErrInvalidConfig): sentinel *)
Definition ErrInvalidConfig : error := ErrSentinel "config: invalid".

(** daemon/internal/config/config.go:51-59 (Global): fields *)
Record Global := mkGlobal {
  StatePath : string; HooksDir : string; MetricsSocket : string;
  LogLevel : string; HookTimeoutMs : Z
}.

(** daemon/internal/config/config.go:129-135 (Thresholds): fields *)
Record Thresholds := mkThresholds {
  LossPctDown : Z; LossPctUp : Z; RttMsDown : Z; RttMsUp : Z
}.

(** daemon/internal/config/config.go:137-141 (Hysteresis): fields *)
Record HysteresisCfg := mkHysteresisCfg { ConsecutiveDown : Z; ConsecutiveUp : Z }.

(** daemon/internal/config/config.go:89-99 (Targets): one bucket per Family *)
Record Targets := mkTargets { V4 : list string; V6 : list string }.

(** daemon/internal/config/config.go:77-87 (Probe): fields *)
Record Probe := mkProbe {
  Method : string; p_Targets : Targets; IntervalMs : Z; TimeoutMs : Z; WindowSize : Z;
  p_Thresholds : Thresholds; p_Hysteresis : HysteresisCfg; FamilyHealthPolicy : string
}.

(** daemon/internal/config/config.go:61-75 (Wan): fields *)
Record Wan := mkWan {
  w_Name : string; w_Interface : string; w_PointToPoint : bool; w_Probe : Probe
}.

(** daemon/internal/config/config.go:43-49 (Config): the root *)
Record Config := mkConfig {
  c_Schema : Z; c_Global : Global; c_Wans : gmap string Wan; c_Groups : gmap string Group
}.

(** daemon/internal/config/config.go:101-114 (Targets.Families): the Families
    with a Target, v4 first *)
Definition Families (t : Targets) : list Family :=
  match V4 t with [] => [] | _ => [FamilyV4] end ++
  match V6 t with [] => [] | _ => [FamilyV6] end.

(** daemon/internal/config/config.go:116-127 (Targets.For): one bucket, nil for
    a value that is not a Family *)
Definition For_ (t : Targets) (family : Family) : list string :=
  match family with FamilyV4 => V4 t | FamilyV6 => V6 t | FamilyOther _ => [] end.

(** ** Validation *)

(** daemon/internal/config/config.go:385-390 (invalidf): wrap the sentinel *)
Definition invalidf (msg : string) : option error := Some (Wrapf msg ErrInvalidConfig).

(** The first failure of two checks. *)
Definition andThen (a b : option error) : option error :=
  match a with Some err => Some err | None => b end.

Definition guard (bad : bool) (msg : string) : option error :=
  if bad then invalidf msg else None.

Declare Scope check_scope.
Delimit Scope check_scope with check.
Infix ";;" := andThen : check_scope.

(** daemon/internal/config/config.go:279-285 (targetFamily): the bucket's
    address test *)
Record targetFamily := mkTargetFamily { tf_bucket : string; tf_name : string; tf_holds : Addr → bool }.

(** daemon/internal/config/config.go:287-288 (targetFamilyV4): IPv4 *)
Definition targetFamilyV4 : targetFamily := mkTargetFamily "v4" "IPv4" Addr_Is4.
(** daemon/internal/config/config.go:289-290 (targetFamilyV6): IPv6 *)
Definition targetFamilyV6 : targetFamily := mkTargetFamily "v6" "IPv6" Addr_Is6.

(** daemon/internal/config/config.go:296-317 (validateTargetBucket): the loop,
    with the addresses seen so far and their index *)
Fixpoint validateTargets_from (family : targetFamily) (seen : gmap Addr nat) (i : nat)
    (targets : list string) : option error :=
  match targets with
  | [] => None
  | target :: targets =>
      match ParseAddr target with
      | None => invalidf "target is not an IP address"
      | Some addr =>
          if negb (bool_decide (Addr_Zone addr = "")) then invalidf "target has a zone"
          else if negb (tf_holds family addr) then invalidf "target is not of the family"
          else if Addr_Is4In6 addr then invalidf "target is an IPv4-mapped address"
          else match seen !! addr with
               | Some _ => invalidf "target duplicates another"
               | None => validateTargets_from family (<[addr := i]> seen) (S i) targets
               end
      end
  end.

(** daemon/internal/config/config.go:292-318 (validateTargetBucket): one bucket *)
Definition validateTargetBucket (family : targetFamily) (targets : list string) : option error :=
  validateTargets_from family ∅ 0 targets.

(** daemon/internal/config/config.go:268-277 (validateTargets): both buckets *)
Definition validateTargets (t : Targets) : option error :=
  (validateTargetBucket targetFamilyV4 (V4 t) ;;
   validateTargetBucket targetFamilyV6 (V6 t))%check.

(** daemon/internal/config/config.go:320-340 (validateThresholds): ranges and
    ordering *)
Definition validateThresholds (t : Thresholds) : option error :=
  (guard ((LossPctDown t <? 0) || (100 <? LossPctDown t)) "lossPctDown, want 0..100" ;;
   guard ((LossPctUp t <? 0) || (100 <? LossPctUp t)) "lossPctUp, want 0..100" ;;
   guard (LossPctDown t <=? LossPctUp t) "lossPctUp must be below lossPctDown" ;;
   guard ((RttMsUp t <=? 0) || (RttMsDown t <=? 0)) "rttMs values must be > 0" ;;
   guard (RttMsDown t <=? RttMsUp t) "rttMsUp must be below rttMsDown")%check.

(** daemon/internal/config/config.go:342-353 (validateHysteresis): positive *)
Definition validateHysteresis (h : HysteresisCfg) : option error :=
  (guard (ConsecutiveUp h <? 1) "consecutiveUp, want >= 1" ;;
   guard (ConsecutiveDown h <? 1) "consecutiveDown, want >= 1")%check.

(** daemon/internal/config/config.go:234-266 (validateProbe): the probe *)
Definition validateProbe (p : Probe) : option error :=
  (guard (negb (bool_decide (Method p = "icmp"))) "probe.method, want icmp" ;;
   guard (bool_decide (V4 (p_Targets p) = [] ∧ V6 (p_Targets p) = [])) "no targets" ;;
   validateTargets (p_Targets p) ;;
   guard (IntervalMs p <=? 0) "intervalMs, want > 0" ;;
   guard (TimeoutMs p <=? 0) "timeoutMs, want > 0" ;;
   guard (WindowSize p <=? 0) "windowSize, want > 0" ;;
   guard (negb (bool_decide (FamilyHealthPolicy p = "all" ∨ FamilyHealthPolicy p = "any")))
     "familyHealthPolicy, want all or any" ;;
   validateThresholds (p_Thresholds p) ;;
   validateHysteresis (p_Hysteresis p))%check.

(** daemon/internal/config/config.go:223-232 (validateWan): one WAN *)
Definition validateWan (key : string) (w : Wan) : option error :=
  (guard (negb (bool_decide (w_Name w = key))) "wan name mismatch" ;;
   guard (bool_decide (w_Interface w = "")) "interface is empty" ;;
   validateProbe (w_Probe w))%check.

Section validate.
Context {E Ev : Type}.

(** The first failing entry of a map, in the order it is iterated. *)
Definition first_failure {A} (check : string → A → option error) (m : gmap string A)
    : M E Ev (option error) :=
  entries ← range m;
  mret (foldr (λ '(k, x) rest, andThen (check k x) rest) None entries).

(** daemon/internal/config/config.go:374-381 (validateGroup): one Member *)
Definition validateMember (wans : gmap string Wan) (wan : string) (m : Member) : option error :=
  (guard (negb (bool_decide (m_wan m = wan))) "member wan mismatch" ;;
   guard (negb (bool_decide (is_Some (wans !! wan)))) "member is not declared in wans")%check.

(** daemon/internal/config/config.go:355-383 (validateGroup): one Group *)
Definition validateGroup (wans : gmap string Wan) (key : string) (g : Group) : M E Ev (option error) :=
  match (guard (negb (bool_decide (g_name g = key))) "group name mismatch" ;;
         guard (negb (bool_decide (g_strategy g ∈ KnownStrategies))) "unknown strategy" ;;
         guard (g_table g <=? 0) "table, want > 0" ;;
         guard (g_mark g <=? 0) "mark, want > 0" ;;
         guard (bool_decide (g_members g = ∅)) "group has no members")%check with
  | Some err => mret (Some err)
  | None => first_failure (validateMember wans) (g_members g)
  end.

(** daemon/internal/config/config.go:215-219 (Validate): the Groups in the
    order they are iterated *)
Definition validateGroups (c : Config) : M E Ev (option error) :=
  entries ← range (c_Groups c);
  foldM (λ acc '(key, g),
    match acc with
    | Some err => mret (Some err)
    | None => validateGroup (c_Wans c) key g
    end) None entries.

(** daemon/internal/config/config.go:196-208 (Validate): the paths and the
    timeout *)
Definition validateGlobal (g : Global) : option error :=
  (guard (bool_decide (StatePath g = "")) "global.statePath is empty" ;;
   guard (bool_decide (HooksDir g = "")) "global.hooksDir is empty" ;;
   guard (bool_decide (MetricsSocket g = "")) "global.metricsSocket is empty" ;;
   guard (HookTimeoutMs g <=? 0) "global.hookTimeoutMs, want > 0")%check.

(** daemon/internal/config/config.go:184-221 (Validate): the first failure *)
Definition Validate (c : Config) : M E Ev (option error) :=
  match validateGlobal (c_Global c) with
  | Some err => mret (Some err)
  | None =>
      r ← first_failure validateWan (c_Wans c);
      match r with
      | Some err => mret (Some err)
      | None => validateGroups c
      end
  end.

(** [json.Decoder.Decode] with unknown fields disallowed: a Config and the
    remaining input. [trailing] decodes the remainder; [None] is [io.EOF]. *)
Context (decode : list Z → error + Config * list Z).
Context (trailing : list Z → option error).

(** daemon/internal/config/config.go:156-182 (Parse): decode, reject trailing
    data, check the schema, validate *)
Definition Parse (data : list Z) : M E Ev (error + Config) :=
  match decode data with
  | inl err => mret (inl (Wrapf "config: parsing JSON" err))
  | inr (cfg, rest) =>
      match trailing rest with
      | Some _ => mret (inl (Errorf "config: parsing JSON: unexpected trailing data"))
      | None =>
          if negb (c_Schema cfg =? SupportedSchema) then
            mret (inl (Wrapf "got schema, want" ErrSchemaMismatch))
          else
            r ← Validate cfg;
            mret match r with Some err => inl err | None => inr cfg end
      end
  end.

End validate.

(** ** What a valid configuration is *)

(** Distinct, unzoned literals of the Family, none IPv4-mapped. *)
Definition valid_bucket (family : targetFamily) (targets : list string) : Prop :=
  ∃ addrs, mapM ParseAddr targets = Some addrs ∧ NoDup addrs ∧
    Forall (λ a, Addr_Zone a = "" ∧ tf_holds family a = true ∧ Addr_Is4In6 a = false) addrs.

Record valid_thresholds (t : Thresholds) : Prop := {
  vt_loss : 0 ≤ LossPctUp t < LossPctDown t;
  vt_pct : LossPctDown t ≤ 100;
  vt_rtt : 0 < RttMsUp t < RttMsDown t
}.

Record valid_probe (p : Probe) : Prop := {
  vp_method : Method p = "icmp";
  vp_some : Families (p_Targets p) ≠ [];
  vp_v4 : valid_bucket targetFamilyV4 (V4 (p_Targets p));
  vp_v6 : valid_bucket targetFamilyV6 (V6 (p_Targets p));
  vp_interval : 0 < IntervalMs p;
  vp_timeout : 0 < TimeoutMs p;
  vp_window : 0 < WindowSize p;
  vp_policy : FamilyHealthPolicy p = "all" ∨ FamilyHealthPolicy p = "any";
  vp_thresholds : valid_thresholds (p_Thresholds p);
  vp_up : 1 ≤ ConsecutiveUp (p_Hysteresis p);
  vp_down : 1 ≤ ConsecutiveDown (p_Hysteresis p)
}.

Record valid_wan (key : string) (w : Wan) : Prop := {
  vw_name : w_Name w = key;
  vw_interface : w_Interface w ≠ "";
  vw_probe : valid_probe (w_Probe w)
}.

Record valid_group (wans : gmap string Wan) (key : string) (g : Group) : Prop := {
  vg_name : g_name g = key;
  vg_strategy : g_strategy g = "primary-backup";
  vg_table : 0 < g_table g;
  vg_mark : 0 < g_mark g;
  vg_members : g_members g ≠ ∅;
  vg_member : map_Forall (λ k m, m_wan m = k ∧ is_Some (wans !! k)) (g_members g)
}.

Record Valid (c : Config) : Prop := {
  v_state : StatePath (c_Global c) ≠ "";
  v_hooks : HooksDir (c_Global c) ≠ "";
  v_metrics : MetricsSocket (c_Global c) ≠ "";
  v_timeout : 0 < HookTimeoutMs (c_Global c);
  v_wans : map_Forall valid_wan (c_Wans c);
  v_groups : map_Forall (valid_group (c_Wans c)) (c_Groups c)
}.

(** ** Lemmas *)

Lemma andThen_None a b : andThen a b = None ↔ a = None ∧ b = None.
Proof. destruct a; naive_solver. Qed.

Lemma guard_None b msg : guard b msg = None ↔ b = false.
Proof. by destruct b. Qed.

(** Every failure is the sentinel's. *)
Definition invalid (r : option error) : Prop := ∀ err, r = Some err → Is err ErrInvalidConfig = true.

Lemma invalid_None : invalid None.
Proof. done. Qed.

Lemma invalid_invalidf msg : invalid (invalidf msg).
Proof. by intros err [= <-]. Qed.

Lemma invalid_guard b msg : invalid (guard b msg).
Proof. destruct b; [apply invalid_invalidf|done]. Qed.

Lemma invalid_andThen a b : invalid a → invalid b → invalid (andThen a b).
Proof. by destruct a. Qed.

Create HintDb config.
#[export] Hint Resolve invalid_None invalid_invalidf invalid_guard invalid_andThen : config.

Lemma validateTargets_from_spec family targets : ∀ seen i,
  invalid (validateTargets_from family seen i targets) ∧
  (validateTargets_from family seen i targets = None ↔
   ∃ addrs, mapM ParseAddr targets = Some addrs ∧ NoDup addrs ∧
     Forall (λ a, seen !! a = None ∧
       Addr_Zone a = "" ∧ tf_holds family a = true ∧ Addr_Is4In6 a = false) addrs).
Proof.
  induction targets as [|t targets IH]; intros seen i; cbn [validateTargets_from mapM].
  { split; [done|]. split; [|done]. intros _. exists []. split; [done|]. split; [constructor|done]. }
  destruct (ParseAddr t) as [a|]; cbn [mbind option_bind];
    [|split; [eauto with config|split; [done|intros (? & ? & _); done]]].
  assert (Hbad : ∀ msg, ¬ (seen !! a = None ∧ Addr_Zone a = "" ∧ tf_holds family a = true ∧ Addr_Is4In6 a = false) →
    invalid (invalidf msg) ∧ (invalidf msg = None ↔
    ∃ addrs, (k ← mapM ParseAddr targets; mret (a :: k)) = Some addrs ∧ NoDup addrs ∧
     Forall (λ a, seen !! a = None ∧
       Addr_Zone a = "" ∧ tf_holds family a = true ∧ Addr_Is4In6 a = false) addrs)).
  { intros msg Hn. split; [eauto with config|]. split; [done|]. intros (addrs & Hm & _ & Hall).
    destruct (mapM ParseAddr targets); [|done]. change (Some (a :: l) = Some addrs) in Hm. injection Hm as <-. inv Hall. by destruct Hn. }
  case_bool_decide as Hz; cbn [negb]; [|apply Hbad; naive_solver].
  destruct (tf_holds family a) eqn:Hh; cbn [negb]; [|apply Hbad; naive_solver].
  destruct (Addr_Is4In6 a) eqn:H46; [apply Hbad; naive_solver|].
  destruct (seen !! a) eqn:Hs; [apply Hbad; naive_solver|].
  destruct (IH (<[a:=i]> seen) (S i)) as [Hi ->]. split; [done|].
  destruct (mapM ParseAddr targets) as [k|]; cbn [mbind option_bind mret option_ret];
    [|split; intros (? & ? & _); done].
  split; intros (addrs & [= <-] & Hnd & Hall).
  - exists (a :: k). split; [done|]. split.
    + constructor; [|done]. intros Hin. rewrite Forall_forall in Hall.
      destruct (Hall a Hin) as [Hn _]. by rewrite lookup_insert_eq in Hn.
    + constructor; [done|]. eapply Forall_impl; [exact Hall|]. intros x (Hn & Hr).
      apply lookup_insert_None in Hn as [? _]. done.
  - exists k. inv Hnd. inv Hall. split; [done|]. split; [done|].
    rewrite Forall_forall in *. intros x Hx. match goal with H : ∀ _, _ |- _ => specialize (H x Hx) end.
    destruct_and?. rewrite lookup_insert_ne by congruence. done.
Qed.

Lemma validateTargetBucket_spec family targets :
  invalid (validateTargetBucket family targets) ∧
  (validateTargetBucket family targets = None ↔ valid_bucket family targets).
Proof.
  destruct (validateTargets_from_spec family targets ∅ 0) as [Hi Hs]. split; [done|].
  unfold validateTargetBucket, valid_bucket. rewrite Hs.
  split; intros (addrs & ? & ? & Hall); exists addrs; (split; [done|]); (split; [done|]);
    eapply Forall_impl; try exact Hall; naive_solver.
Qed.

Lemma validateTargets_invalid t : invalid (validateTargets t).
Proof. apply invalid_andThen; apply validateTargetBucket_spec. Qed.
#[export] Hint Resolve validateTargets_invalid : config.

Lemma validateThresholds_spec t : validateThresholds t = None ↔ valid_thresholds t.
Proof.
  unfold validateThresholds. rewrite !andThen_None, !guard_None. split.
  - intros (? & ? & ? & ? & ?). bool_to_Prop. by split.
  - intros [? ? ?]. repeat split; rewrite ?orb_false_iff; lia.
Qed.

Lemma validateProbe_spec p : validateProbe p = None ↔ valid_probe p.
Proof.
  unfold validateProbe, validateTargets, validateHysteresis.
  rewrite !andThen_None, !guard_None, validateThresholds_spec.
  rewrite (proj2 (validateTargetBucket_spec targetFamilyV4 _)).
  rewrite (proj2 (validateTargetBucket_spec targetFamilyV6 _)).
  rewrite !negb_false_iff, !bool_decide_eq_true, bool_decide_eq_false.
  assert (¬ (V4 (p_Targets p) = [] ∧ V6 (p_Targets p) = []) ↔ Families (p_Targets p) ≠ []) as ->.
  { unfold Families. destruct (V4 _), (V6 _); naive_solver. }
  split.
  - intros (? & ? & [? ?] & ? & ? & ? & ? & ? & ? & ?). split; try done; bool_to_Prop; lia.
  - intros []. repeat (split; [first [done|lia]|]). lia.
Qed.

Lemma validateWan_spec key w : validateWan key w = None ↔ valid_wan key w.
Proof.
  unfold validateWan. rewrite !andThen_None, !guard_None, validateProbe_spec,
    negb_false_iff, bool_decide_eq_true, bool_decide_eq_false.
  split; [intros (? & ? & ?)|intros []]; by split_and?.
Qed.

Lemma validateWan_invalid key w : invalid (validateWan key w).
Proof.
  unfold validateWan, validateProbe, validateHysteresis, validateThresholds. eauto 30 with config.
Qed.

Lemma map_Forall_iff {A} (P Q : string → A → Prop) (m : gmap string A) :
  (∀ k x, P k x ↔ Q k x) → map_Forall P m ↔ map_Forall Q m.
Proof. intros H. split; intros Hm k x Hk; by apply H, Hm. Qed.

Lemma first_failure_spec {E Ev A} (check : string → A → option error) m (w : World E Ev) :
  (∀ k x, invalid (check k x)) →
  wp (first_failure check m) (λ r _, invalid r ∧
    (r = None ↔ map_Forall (λ k x, check k x = None) m)) w.
Proof.
  intros Hinv. unfold first_failure. apply wp_bind. unfold wp at 1, range. cbn [fst snd].
  apply wp_ret.
  set (l := shuffle _ _). assert (l ≡ₚ map_to_list m) as Hp by apply shuffle_Permutation.
  assert (map_Forall (λ k x, check k x = None) m ↔ Forall (λ '(k, x), check k x = None) l) as ->.
  { rewrite Hp, map_Forall_to_list. apply Forall_iff; by intros []. }
  clearbody l. clear Hp. induction l as [|[k x] l [IH1 IH2]]; cbn [foldr].
  - split; [done|]. split; [constructor|done].
  - split; [auto with config|]. rewrite andThen_None, IH2, Forall_cons. done.
Qed.

Lemma validateGroup_spec {E Ev} wans key g (w : World E Ev) :
  wp (validateGroup wans key g) (λ r _, invalid r ∧ (r = None ↔ valid_group wans key g)) w.
Proof.
  unfold validateGroup.
  set (chk := andThen _ _). assert (Hi : invalid chk) by (unfold chk; eauto 20 with config).
  assert (Hc : chk = None ↔ g_name g = key ∧ g_strategy g = "primary-backup" ∧ 0 < g_table g ∧
    0 < g_mark g ∧ g_members g ≠ ∅).
  { unfold chk. rewrite !andThen_None, !guard_None, !negb_false_iff, !bool_decide_eq_true,
      bool_decide_eq_false, KnownStrategies_eq, list_elem_of_singleton, !Z.leb_gt. done. }
  clearbody chk. destruct chk as [err|].
  - apply wp_ret. split; [done|]. split; [done|]. intros []. by assert (Some err = None) by (by apply Hc).
  - eapply wp_mono; [apply first_failure_spec|].
    + intros k m. unfold validateMember. eauto with config.
    + intros r w' [Hinv ->]. split; [done|].
      assert (map_Forall (λ k m, validateMember wans k m = None) (g_members g) ↔
              map_Forall (λ k m, m_wan m = k ∧ is_Some (wans !! k)) (g_members g)) as ->.
      { apply map_Forall_iff. intros k m. unfold validateMember.
        by rewrite andThen_None, !guard_None, !negb_false_iff, !bool_decide_eq_true. }
      destruct (proj1 Hc eq_refl) as (? & ? & ? & ? & ?).
      split; [intros; by split|by intros []].
Qed.

Lemma validateGroups_spec {E Ev} c (w : World E Ev) :
  wp (validateGroups c) (λ r _, invalid r ∧
    (r = None ↔ map_Forall (valid_group (c_Wans c)) (c_Groups c))) w.
Proof.
  unfold validateGroups. apply wp_bind. unfold wp at 1, range. cbn [fst snd].
  set (l := shuffle _ _).
  assert (l ≡ₚ map_to_list (c_Groups c)) as Hp by apply shuffle_Permutation.
  apply (wp_foldM _ _ (λ dn r _, invalid r ∧
    (r = None ↔ Forall (λ '(k, g), valid_group (c_Wans c) k g) dn))).
  - split; [done|]. split; [constructor|done].
  - intros dn [k g] rest acc w1 _ [Hinv Hacc]. destruct acc as [err|].
    + apply wp_ret. split; [done|]. rewrite Forall_app. split; [done|].
      intros [H _]. by apply Hacc in H.
    + eapply wp_mono; [apply validateGroup_spec|]. intros r w2 [Hi Hr]. split; [done|].
      rewrite Forall_app, Forall_singleton, <- Hacc, Hr. naive_solver.
  - intros r w1 [Hi Hr]. split; [done|]. rewrite Hr, Hp, map_Forall_to_list.
    apply Forall_iff; by intros [].
Qed.

Lemma Validate_spec {E Ev} c (w : World E Ev) :
  wp (Validate c) (λ r _, invalid r ∧ (r = None ↔ Valid c)) w.
Proof.
  unfold Validate. set (chk := validateGlobal _).
  assert (Hi : invalid chk) by (unfold chk, validateGlobal; eauto 20 with config).
  assert (Hc : chk = None ↔ StatePath (c_Global c) ≠ "" ∧ HooksDir (c_Global c) ≠ "" ∧
    MetricsSocket (c_Global c) ≠ "" ∧ 0 < HookTimeoutMs (c_Global c)).
  { unfold chk, validateGlobal. rewrite !andThen_None, !guard_None, !bool_decide_eq_false, Z.leb_gt. done. }
  clearbody chk. destruct chk as [err|].
  { apply wp_ret. split; [done|]. split; [done|]. intros []. by assert (Some err = None) by (by apply Hc). }
  destruct (proj1 Hc eq_refl) as (? & ? & ? & ?).
  apply wp_bind. eapply wp_mono; [apply first_failure_spec, validateWan_invalid|].
  assert (Hw : map_Forall (λ k x, validateWan k x = None) (c_Wans c) ↔ map_Forall valid_wan (c_Wans c)).
  { apply map_Forall_iff. intros k x. apply validateWan_spec. }
  intros [err|] w1 [Hinv Hr]; rewrite Hw in Hr.
  - apply wp_ret. split; [done|]. split; [done|]. intros []. by assert (Some err = None) by (by apply Hr).
  - eapply wp_mono; [apply validateGroups_spec|]. intros r w2 [Hi2 ->]. split; [done|].
    split; [intros; split; try done; by apply Hr|by intros []].
Qed.

(** ** Properties *)

(** C26. Parsing the configuration: it succeeds exactly when the text decodes
    with nothing after it, the schema is the supported one and the
    configuration is valid, in whatever order the maps are iterated; any
    failure is told apart by its sentinel, [ErrSchemaMismatch] for the schema
    and [ErrInvalidConfig] for a configuration that breaks a constraint. A
    valid configuration has only Groups with a known strategy whose Members are
    declared WANs keyed by their own name, and only Targets that are distinct
    address literals of their Family, with Up below Down in both bands. *)
Theorem config_parse {E Ev} decode trailing data (w : World E Ev) :
  match (Parse decode trailing data w).1 with
  | inr cfg => ∃ rest, decode data = inr (cfg, rest) ∧ trailing rest = None ∧
      c_Schema cfg = SupportedSchema ∧ Valid cfg
  | inl err =>
      (∃ e, decode data = inl e) ∨
      ∃ cfg rest, decode data = inr (cfg, rest) ∧
        (trailing rest ≠ None ∨
         (c_Schema cfg ≠ SupportedSchema ∧ Is err ErrSchemaMismatch = true ∧
          Is err ErrInvalidConfig = false) ∨
         (c_Schema cfg = SupportedSchema ∧ ¬ Valid cfg ∧ Is err ErrInvalidConfig = true))
  end.
Proof.
  unfold Parse. destruct (decode data) as [e|[cfg rest]] eqn:Hd; [left; by exists e|].
  destruct (trailing rest) eqn:Ht.
  { right. exists cfg, rest. split; [done|]. left. by rewrite Ht. }
  destruct (c_Schema cfg =? SupportedSchema) eqn:Hs; cbn [negb]; bool_to_Prop.
  - unfold mbind, M_bind. pose proof (Validate_spec cfg w) as H. unfold wp in H.
    destruct (Validate cfg w) as [[err|] w']; cbn [fst snd mret M_ret] in *; destruct H as [Hi Hv].
    + right. exists cfg, rest. split; [done|]. right. right. split; [done|].
      split; [|by apply Hi]. intros HV. by apply Hv in HV.
    + exists rest. split; [done|]. split; [done|]. split; [done|]. by apply Hv.
  - right. exists cfg, rest. split; [done|]. right. left. done.
Qed.

(** ** An example *)

Definition example_probe : Probe :=
  mkProbe "icmp" (mkTargets ["192.0.2.1"; "198.51.100.7"] ["2001:db8::1"]) 500 1000 4
    (mkThresholds 30 10 200 100) (mkHysteresisCfg 2 3) "any".

Definition example_group : Group :=
  mkGroup "home" "primary-backup" 100 200
    {[ "fiber" := mkMember "fiber" 1; "lte" := mkMember "lte" 2 ]}.

Definition example_config : Config :=
  mkConfig 1 (mkGlobal "/run/wanwatch/state.json" "/etc/wanwatch/hooks" "/run/wanwatch/m.sock" "info" 5000)
    {[ "fiber" := mkWan "fiber" "eth0" false example_probe;
       "lte" := mkWan "lte" "wwan0" true
         (mkProbe "icmp" (mkTargets ["192.0.2.1"] []) 500 1000 2
            (mkThresholds 30 10 200 100) (mkHysteresisCfg 1 1) "all") ]}
    {[ "home" := example_group ]}.

Lemma example_config_valid : Valid example_config.
Proof.
  pose proof (Validate_spec (E:=unit) (Ev:=unit) example_config
    (mkWorld (mkSchedule None (λ _, 1%positive) (λ _ _, 0%nat)) 0 () [])) as [_ H].
  apply H. by vm_compute.
Qed.
