(* ===== verification/Rtnl.v ===== *)
(** * Link and route events ([event.go]) and the link subscriber ([subscriber.go])

    The link subscriber reads the current state of a link after every
    notification and emits an event when it differs from the last observation.
    [link_events_track] relates the emitted events to the subscriber's state:
    a consumer that keeps the last event of each interface knows the state of
    every link the subscriber has seen. *)
From stdpp Require Import pretty.
From S2P Require Import Prelude NetIP Icmp Runtime.

#[local] Open Scope Z_scope.

(** ** Event data *)

(** daemon/internal/rtnl/event.go:20-35 (Carrier): the three values *)
Inductive Carrier := CarrierUnknown | CarrierDown | CarrierUp.

(** daemon/internal/rtnl/event.go:20-35 (Carrier): Go's [==] *)
#[export] Instance Carrier_eq_dec : EqDecision Carrier.
Proof. solve_decision. Defined.

(** daemon/internal/rtnl/event.go:37-48 (Carrier.String): text *)
Definition Carrier_String (c : Carrier) : string :=
  match c with CarrierUp => "up" | CarrierDown => "down" | CarrierUnknown => "unknown" end.

(** daemon/internal/rtnl/event.go:50-53 (Operstate): the kernel's number *)
Definition Operstate : Type := Z.

(** daemon/internal/rtnl/event.go:58-59 (OperstateUnknown): IF_OPER_UNKNOWN *)
Definition OperstateUnknown : Operstate := 0.
(** daemon/internal/rtnl/event.go:60-60 (OperstateNotPresent): IF_OPER_NOTPRESENT *)
Definition OperstateNotPresent : Operstate := 1.
(** daemon/internal/rtnl/event.go:61-61 (OperstateDown): IF_OPER_DOWN *)
Definition OperstateDown : Operstate := 2.
(** daemon/internal/rtnl/event.go:62-62 (OperstateLowerLayerDown): IF_OPER_LOWERLAYERDOWN *)
Definition OperstateLowerLayerDown : Operstate := 3.
(** daemon/internal/rtnl/event.go:63-63 (OperstateTesting): IF_OPER_TESTING *)
Definition OperstateTesting : Operstate := 4.
(** daemon/internal/rtnl/event.go:64-64 (OperstateDormant): IF_OPER_DORMANT *)
Definition OperstateDormant : Operstate := 5.
(** daemon/internal/rtnl/event.go:65-66 (OperstateUp): IF_OPER_UP *)
Definition OperstateUp : Operstate := 6.

(** daemon/internal/rtnl/event.go:68-91 (Operstate.String): text, out-of-range
    values with their number *)
Definition Operstate_String (o : Operstate) : string :=
  if o =? OperstateUnknown then "unknown"
  else if o =? OperstateNotPresent then "notpresent"
  else if o =? OperstateDown then "down"
  else if o =? OperstateLowerLayerDown then "lowerlayerdown"
  else if o =? OperstateTesting then "testing"
  else if o =? OperstateDormant then "dormant"
  else if o =? OperstateUp then "up"
  else "operstate(" +:+ pretty o +:+ ")".

(** daemon/internal/rtnl/event.go:93-99 (LinkState): per-interface snapshot *)
Record LinkState := mkLinkState {
  ls_name : string; ls_carrier : Carrier; ls_operstate : Operstate
}.

(** daemon/internal/rtnl/event.go:101-109 (LinkEvent): a transition *)
Record LinkEvent := mkLinkEvent {
  le_name : string; le_carrier : Carrier; le_operstate : Operstate; le_time : Time
}.

(** daemon/internal/rtnl/event.go:111-121 (RouteFamily): AF_INET or AF_INET6 *)
Definition RouteFamily : Type := Z.
(** daemon/internal/rtnl/event.go:118-119 (RouteFamilyV4): AF_INET *)
Definition RouteFamilyV4 : RouteFamily := 2.
(** daemon/internal/rtnl/event.go:120-121 (RouteFamilyV6): AF_INET6 *)
Definition RouteFamilyV6 : RouteFamily := 10.

(** daemon/internal/rtnl/event.go:123-130 (RouteFamily.String): text *)
Definition RouteFamily_String (f : RouteFamily) : string :=
  if f =? RouteFamilyV6 then "v6" else "v4".

(** daemon/internal/rtnl/event.go:132-140 (RouteEventOp): add or del *)
Inductive RouteEventOp := RouteEventAdd | RouteEventDel.

(** daemon/internal/rtnl/event.go:132-140 (RouteEventOp): Go's [==] *)
#[export] Instance RouteEventOp_eq_dec : EqDecision RouteEventOp.
Proof. solve_decision. Defined.

(** daemon/internal/rtnl/event.go:142-148 (RouteEventOp.String): text *)
Definition RouteEventOp_String (o : RouteEventOp) : string :=
  match o with RouteEventDel => "del" | RouteEventAdd => "add" end.

(** daemon/internal/rtnl/event.go:150-163 (RouteEvent): an observation of the
    main table's default route; a nil Gateway is a scope-link route *)
Record RouteEvent := mkRouteEvent {
  re_op : RouteEventOp; re_iface : string; re_family : RouteFamily;
  re_gateway : IP; re_time : Time
}.

(** ** The netlink library's data

    The fields of [netlink.Link] and [netlink.LinkUpdate] the subscriber
    reads, and the message types of the kernel's headers. *)
Record Link := mkLink { l_name : string; l_rawflags : Z; l_operstate : Z }.

Record LinkUpdate := mkLinkUpdate { lu_type : Z; lu_flags : Z; lu_link : Link }.

Definition RTM_NEWLINK : Z := 16.
Definition RTM_DELLINK : Z := 17.
Definition IFF_LOWER_UP : Z := 65536.

(** The outcomes of [netlink.LinkByName] that [errors.As] distinguishes. *)
Inductive LinkByName_result :=
| FoundLink (l : Link)
| LinkNotFoundError
| LinkByNameError (e : error).

(** ** The link subscriber *)

(** daemon/internal/rtnl/subscriber.go:14-20 (LinkSubscriber): the watched
    set, nil for every interface *)
Record LinkSubscriber := mkLinkSubscriber { Interfaces : option (gset string) }.

(** daemon/internal/rtnl/subscriber.go:29-35 (errSubscriptionClosed): sentinel *)
Definition errSubscriptionClosed : error := ErrSentinel "rtnl: subscription channel closed".

(** daemon/internal/rtnl/subscriber.go:49-65 (translateSubClose): the library's
    cause replaces the sentinel *)
Definition translateSubClose (err : error) (subErr : option error) (label : string) : error :=
  if Is err errSubscriptionClosed then
    match subErr with
    | Some cause => Wrapf ("rtnl: " +:+ label +:+ " subscription ended") cause
    | None => err
    end
  else err.

(** daemon/internal/rtnl/subscriber.go:224-232 (watches): membership *)
Definition watches (s : LinkSubscriber) (name : string) : bool :=
  match Interfaces s with None => true | Some names => bool_decide (name ∈ names) end.

(** daemon/internal/rtnl/subscriber.go:294-303 (carrierFromFlags): LOWER_UP *)
Definition carrierFromFlags (flags : Z) : Carrier :=
  if Z.land flags IFF_LOWER_UP =? 0 then CarrierDown else CarrierUp.

(** daemon/internal/rtnl/subscriber.go:210-222 (linkUpdateFromLink): a read as
    an update *)
Definition linkUpdateFromLink (link : Link) : LinkUpdate :=
  mkLinkUpdate RTM_NEWLINK (l_rawflags link) link.

Section subscriber.
Context {E Ev : Type} (s : LinkSubscriber).

(** daemon/internal/rtnl/subscriber.go:247-292 (handleUpdate): fold one update
    into the state map and return the event to emit, if any *)
Definition handleUpdate (state : gmap string LinkState) (upd : LinkUpdate)
    : M E Ev (gmap string LinkState * option LinkEvent) :=
  let name := l_name (lu_link upd) in
  if negb (watches s name) then mret (state, None) else
  let deleted := lu_type upd =? RTM_DELLINK in
  let carrier := if deleted then CarrierDown else carrierFromFlags (lu_flags upd) in
  let operstate := if deleted then OperstateNotPresent else l_operstate (lu_link upd) in
  let unchanged := match state !! name with
                   | Some prev => bool_decide (ls_carrier prev = carrier) &&
                                  (ls_operstate prev =? operstate)
                   | None => false
                   end in
  if deleted && negb (bool_decide (is_Some (state !! name))) then mret (state, None) else
  let state' := if deleted then delete name state
                else if negb unchanged then <[name := mkLinkState name carrier operstate]> state
                else state in
  if unchanged then mret (state', None)
  else t ← now; mret (state', Some (mkLinkEvent name carrier operstate t)).

(** daemon/internal/rtnl/subscriber.go:137-152 (readSnapshot): one event per
    watched link of a completed dump *)
Definition readSnapshot (dump : M E Ev (error + list Link))
    : M E Ev (error + gmap string LinkState * list LinkEvent) :=
  links ← dump;
  match links with
  | inl err => mret (inl (Wrapf "rtnl: LinkList" err))
  | inr links =>
      acc ← foldM (λ acc link,
               '(state, ev) ← handleUpdate acc.1 (linkUpdateFromLink link);
               mret (state, acc.2 ++ option_list ev)) (∅, []) links;
      mret (inr acc)
  end.

(** daemon/internal/rtnl/subscriber.go:188-208 (reconcileVia): the current
    state of a link; a missing link reads as deleted *)
Definition reconcileVia (getFn : string → M E Ev LinkByName_result) (name : string)
    : M E Ev (error + LinkUpdate) :=
  err ← ctx_Err;
  match err with
  | Some err => mret (inl err)
  | None =>
      link ← getFn name;
      mret match link with
           | LinkNotFoundError => inr (mkLinkUpdate RTM_DELLINK 0 (mkLink name 0 0))
           | LinkByNameError err => inl (Wrapf "rtnl: LinkByName" err)
           | FoundLink link => inr (linkUpdateFromLink link)
           end
  end.

(** What one turn of the subscriber's [select] received, and whether its send
    won over a cancellation. *)
Inductive turn := TurnDone | TurnClosed | TurnUpdate (upd : LinkUpdate) (sent : bool).

(** daemon/internal/rtnl/subscriber.go:154-186 (runLoop): each update of a
    watched interface is an invalidation answered by a read; the loop ends with
    an error, after the events it delivered *)
Fixpoint runLoop (getFn : string → M E Ev LinkByName_result) (state : gmap string LinkState)
    (turns : list turn) : M E Ev (list LinkEvent * gmap string LinkState * option error) :=
  match turns with
  | [] => mret ([], state, None)
  | TurnDone :: _ => mret ([], state, Some ErrCanceled)
  | TurnClosed :: _ => mret ([], state, Some errSubscriptionClosed)
  | TurnUpdate upd sent :: turns =>
      let name := l_name (lu_link upd) in
      if negb (watches s name) then runLoop getFn state turns else
      current ← reconcileVia getFn name;
      match current with
      | inl err => mret ([], state, Some err)
      | inr current =>
          '(state, ev) ← handleUpdate state current;
          match ev with
          | None => runLoop getFn state turns
          | Some ev =>
              if sent : bool then
                '(evs, state, err) ← runLoop getFn state turns; mret (ev :: evs, state, err)
              else mret ([], state, Some ErrCanceled)
          end
      end
  end.

End subscriber.

(** ** What a consumer knows *)

(** The last event of an interface. *)
Fixpoint last_event (name : string) (evs : list LinkEvent) : option LinkEvent :=
  match evs with
  | [] => None
  | e :: evs => match last_event name evs with
                | Some e' => Some e'
                | None => if bool_decide (le_name e = name) then Some e else None
                end
  end.

Lemma last_event_snoc name evs e :
  last_event name (evs ++ [e]) =
    if bool_decide (le_name e = name) then Some e else last_event name evs.
Proof.
  induction evs as [|e' evs IH]; simpl; [done|]. rewrite IH. by case_bool_decide.
Qed.

(** The events seen so far tell the state of every link in the map; a link
    absent from it was never reported or was last reported gone. *)
Definition tracks (s : LinkSubscriber) (state : gmap string LinkState) (evs : list LinkEvent) : Prop :=
  (∀ name, match state !! name with
           | Some ls => ls_name ls = name ∧ watches s name = true ∧
               ∃ e, last_event name evs = Some e ∧ le_carrier e = ls_carrier ls ∧
                    le_operstate e = ls_operstate ls
           | None => ∀ e, last_event name evs = Some e →
               le_carrier e = CarrierDown ∧ le_operstate e = OperstateNotPresent
           end).

Lemma tracks_empty s : tracks s ∅ [].
Proof. intros name. by rewrite lookup_empty. Qed.

Lemma handleUpdate_tracks {E Ev} s state evs upd (w : World E Ev) :
  tracks s state evs →
  wp (handleUpdate s state upd) (λ r _, tracks s r.1 (evs ++ option_list r.2) ∧
    (∀ e, r.2 = Some e → watches s (le_name e) = true ∧
       ∀ ls, state !! le_name e = Some ls →
         le_carrier e ≠ ls_carrier ls ∨ le_operstate e ≠ ls_operstate ls)) w.
Proof.
  intros Ht. unfold handleUpdate. set (name := l_name (lu_link upd)).
  destruct (watches s name) eqn:Hw; cbn [negb];
    [|apply wp_ret; rewrite app_nil_r; done].
  pose proof (Ht name) as Hname. unfold OperstateNotPresent, Operstate in *.
  destruct (lu_type upd =? RTM_DELLINK) eqn:Hdel; cbn [andb];
    destruct (state !! name) as [ls|] eqn:Hs.
  2: rewrite bool_decide_eq_false_2 by (by intros []).
  1: rewrite bool_decide_eq_true_2 by done.
  all: cbn [negb]; try (by apply wp_ret; rewrite app_nil_r; split).
  - destruct (bool_decide (ls_carrier ls = CarrierDown) && (ls_operstate ls =? 1)) eqn:Hun.
    + apply wp_ret. rewrite app_nil_r. split; [|done]. apply andb_prop in Hun as [Hc Ho].
      apply bool_decide_eq_true in Hc. bool_to_Prop. intros n. simpl.
      destruct (decide (n = name)) as [->|Hne]; [|rewrite lookup_delete_ne by done; apply Ht].
      rewrite lookup_delete_eq. intros e He. destruct Hname as (_ & _ & e' & He' & ? & ?).
      unfold OperstateNotPresent. split; congruence.
    + unfold wp. simpl. split.
      * intros n. rewrite last_event_snoc. simpl.
        destruct (decide (n = name)) as [->|Hne].
        { rewrite lookup_delete_eq, bool_decide_eq_true_2 by done. intros e [= <-]. done. }
        rewrite lookup_delete_ne, bool_decide_eq_false_2 by done. apply Ht.
      * intros e [= <-]. simpl. split; [done|]. rewrite Hs. intros ? [= <-].
        apply andb_false_iff in Hun as [Hc|Ho]; [apply bool_decide_eq_false in Hc; left; congruence|].
        bool_to_Prop. right. congruence.
  - match goal with |- context [if ?b then _ else _] => destruct b eqn:Hun end; cbn [negb].
    + apply wp_ret. rewrite app_nil_r. done.
    + unfold wp. simpl. split.
      * intros n. rewrite last_event_snoc. simpl.
        destruct (decide (n = name)) as [->|Hne].
        { rewrite lookup_insert_eq, bool_decide_eq_true_2 by done. eauto 10. }
        rewrite lookup_insert_ne, bool_decide_eq_false_2 by done. apply Ht.
      * intros e [= <-]. simpl. split; [done|]. rewrite Hs. intros ? [= <-].
        apply andb_false_iff in Hun as [Hc|Ho]; [apply bool_decide_eq_false in Hc; left; congruence|].
        bool_to_Prop. right. congruence.
  - unfold wp. simpl. split.
    + intros n. rewrite last_event_snoc. simpl.
      destruct (decide (n = name)) as [->|Hne].
      { rewrite lookup_insert_eq, bool_decide_eq_true_2 by done. eauto 10. }
      rewrite lookup_insert_ne, bool_decide_eq_false_2 by done. apply Ht.
    + intros e [= <-]. simpl. rewrite Hs. done.
Qed.

Lemma readSnapshot_tracks {E Ev} s dump (w : World E Ev) :
  wp (readSnapshot s dump) (λ r _, ∀ state evs, r = inr (state, evs) → tracks s state evs) w.
Proof.
  unfold readSnapshot. apply wp_bind. unfold wp at 1. destruct (dump w) as [[err|links] w']; simpl.
  - by apply wp_ret.
  - apply wp_bind. apply (wp_foldM _ _ (λ _ acc _, tracks s acc.1 acc.2)).
    + apply tracks_empty.
    + intros dn link rest [state evs] w1 _ Ht. apply wp_bind.
      eapply wp_mono; [by apply handleUpdate_tracks|].
      intros [state' ev] w2 [Ht' _]. by apply wp_ret.
    + intros [state evs] w1 Ht. apply wp_ret. intros. by simplify_eq.
Qed.

(** The loop delivers what it folded, except an event lost to cancellation,
    after which it has ended. *)
Lemma runLoop_tracks {E Ev} s getFn turns : ∀ state evs (w : World E Ev),
  tracks s state evs →
  wp (runLoop s getFn state turns) (λ r _, let '(out, state', err) := r in
    err = Some ErrCanceled ∨ tracks s state' (evs ++ out)) w.
Proof.
  induction turns as [|[| |upd sent] turns IH]; intros state evs w Ht; cbn [runLoop].
  - apply wp_ret. right. by rewrite app_nil_r.
  - apply wp_ret. by left.
  - apply wp_ret. right. by rewrite app_nil_r.
  - destruct (negb _); [by apply IH|]. apply wp_bind. unfold wp at 1.
    destruct (reconcileVia _ _ w) as [[err|current] w1]; simpl.
    { apply wp_ret. right. by rewrite app_nil_r. }
    apply wp_bind. eapply wp_mono; [by apply handleUpdate_tracks|].
    intros [state' [ev|]] w2 [Ht' _]; cbn [option_list fst snd] in *.
    + destruct sent; [|apply wp_ret; by left]. apply wp_bind.
      eapply wp_mono; [by apply (IH _ (evs ++ [ev]))|].
      intros [[out st] err] w3 H. apply wp_ret. destruct H as [H|H]; [by left|right].
      by rewrite <- app_assoc in H.
    + rewrite app_nil_r in Ht'. by apply IH.
Qed.

(** ** Properties *)

(** The link subscriber: whatever the kernel reports and in whatever order
    its notifications arrive, the snapshot followed by the delivered events
    tell the exact carrier and operstate of every watched link the subscriber
    holds, and a link it no longer holds was last reported down and not
    present or never reported; only an event that loses its send to a
    cancellation is missing. A single update emits an event only for a watched
    interface and only when it differs from the last observation. *)
Theorem link_events_track {E Ev} s dump getFn turns upd (w w1 w2 w3 : World E Ev)
    state evs out state' err r :
  readSnapshot s dump w = (inr (state, evs), w1) →
  runLoop s getFn state turns w1 = (out, state', err, w2) →
  handleUpdate s state' upd w2 = (r, w3) →
  err ≠ Some ErrCanceled →
  tracks s state' (evs ++ out) ∧
  (∀ e, r.2 = Some e → watches s (le_name e) = true ∧
     ∀ ls, state' !! le_name e = Some ls →
       le_carrier e ≠ ls_carrier ls ∨ le_operstate e ≠ ls_operstate ls).
Proof.
  intros Hsnap Hrun Hupd Herr.
  pose proof (readSnapshot_tracks s dump w) as Ht. unfold wp in Ht. rewrite Hsnap in Ht.
  specialize (Ht state evs eq_refl).
  pose proof (runLoop_tracks s getFn turns state evs w1 Ht) as Ht'. unfold wp in Ht'.
  rewrite Hrun in Ht'. destruct Ht' as [|Ht']; [done|]. split; [done|].
  pose proof (handleUpdate_tracks s state' (evs ++ out) upd w2 Ht') as [_ H].
  by rewrite Hupd in H.
Qed.

Lemma link_events_track_witness :
  let s := mkLinkSubscriber (Some {["ppp0"]}) in
  let w := mkWorld (Ev:=unit) (mkSchedule None (λ _, 1%positive) (λ _ _, 0%nat)) 0 () [] in
  let dump : M unit unit (error + list Link) :=
    mret (inr [mkLink "ppp0" IFF_LOWER_UP 0; mkLink "lo" IFF_LOWER_UP 0]) in
  let turns := [TurnUpdate (mkLinkUpdate RTM_NEWLINK 0 (mkLink "ppp0" 0 0)) true; TurnClosed] in
  ∃ state evs out state' err w1 w2,
    readSnapshot s dump w = (inr (state, evs), w1) ∧
    runLoop s (λ _, mret LinkNotFoundError) state turns w1 = (out, state', err, w2) ∧
    tracks s state' (evs ++ out) ∧ length evs = 1%nat ∧ length out = 1%nat.
Proof.
  intros s w dump turns.
  destruct (readSnapshot s dump w) as [[?|[state evs]] w1] eqn:Hsnap; [done|].
  destruct (runLoop s (λ _, mret LinkNotFoundError) state turns w1) as [[[out state'] err] w2] eqn:Hrun.
  exists state, evs, out, state', err, w1, w2. split; [done|]. split; [done|].
  destruct (handleUpdate s state' (mkLinkUpdate RTM_DELLINK 0 (mkLink "ppp0" 0 0)) w2) as [r w3] eqn:Hu.
  assert (err = Some errSubscriptionClosed ∧ length evs = 1%nat ∧ length out = 1%nat) as (He & ? & ?).
  { vm_compute in Hsnap. simplify_eq. vm_compute in Hrun. simplify_eq. done. }
  destruct (link_events_track s dump _ turns _ w w1 w2 w3 state evs out state' err r Hsnap Hrun Hu)
    as [Ht _]; [by rewrite He|]. done.
Defined.
