(* ===== verification/Routes.v ===== *)
(** * The route subscriber ([rtnl/route.go], [rtnl/dump.go])

    A default route of the main table is an observation of the Gateway of one
    interface and Family. The subscriber answers every notification with a
    dump of the Family's routes and reports the preferred default of the
    interface it touches: the lowest metric, ties to the first listed. *)
From S2P Require Import Prelude NetIP Icmp Runtime Rtnl.

#[local] Open Scope Z_scope.

(** ** The netlink library's data

    The fields of [netlink.Route] the daemon reads or writes. *)

(** [net.IPNet] *)
Record IPNet := mkIPNet { ipn_IP : IP; ipn_Mask : list Z }.

Fixpoint mask_bits (mask : list Z) : list bool :=
  match mask with
  | [] => []
  | b :: mask => ((λ i, Z.testbit b i) <$> [7;6;5;4;3;2;1;0]) ++ mask_bits mask
  end.

Fixpoint leading_ones (bits : list bool) : nat * list bool :=
  match bits with
  | true :: bits => let '(n, rest) := leading_ones bits in (S n, rest)
  | _ => (0%nat, bits)
  end.

(** [mask.Size()], the number of leading ones; 0 for a mask with a one after
    a zero. *)
Definition mask_ones (mask : list Z) : nat :=
  let '(n, rest) := leading_ones (mask_bits mask) in
  if existsb id rest then 0%nat else n.

Record NexthopInfo := mkNexthopInfo { nh_LinkIndex : Z; nh_Hops : Z; nh_Gw : IP }.

Record Route := mkRoute {
  r_Family : Z; r_Table : Z; r_LinkIndex : Z; r_Scope : Z;
  r_Dst : option IPNet; r_Gw : IP; r_Tos : Z; r_Priority : Z;
  r_MultiPath : list NexthopInfo
}.

Record RouteUpdate := mkRouteUpdate { ru_Type : Z; ru_Route : Route }.

Definition RTM_NEWROUTE : Z := 24.
Definition RTM_DELROUTE : Z := 25.
Definition RT_TABLE_MAIN : Z := 254.

Definition ErrDumpInterrupted : error := ErrSentinel "netlink: dump interrupted".

(** ** Dumps *)

(** daemon/internal/rtnl/dump.go:11-15 (dumpAttempts): reads of one dump *)
Definition dumpAttempts : nat := 4.

Section dump.
Context {E Ev A : Type}.

(** daemon/internal/rtnl/dump.go:21-35 (retryDump): the loop, with the
    attempts that are left *)
Fixpoint retryDump_loop (tries : nat) (dump : M E Ev (error + A)) : M E Ev (error + A) :=
  r ← dump;
  match r with
  | inr v => mret (inr v)
  | inl err =>
      if negb (Is err ErrDumpInterrupted) then mret (inl err)
      else match tries with
           | O | S O => mret (inl (Wrapf "dump interrupted on all attempts" err))
           | S tries =>
               cerr ← ctx_Err;
               match cerr with
               | Some cerr => mret (inl cerr)
               | None => retryDump_loop tries dump
               end
           end
  end.

(** daemon/internal/rtnl/dump.go:17-35 (retryDump): up to [dumpAttempts] calls *)
Definition retryDump (dump : M E Ev (error + A)) : M E Ev (error + A) :=
  retryDump_loop dumpAttempts dump.

End dump.

(** ** Candidates *)

(** daemon/internal/rtnl/route.go:243-247 (routeKey): interface and Family *)
Definition routeKey : Type := string * RouteFamily.

(** daemon/internal/rtnl/route.go:249-254 (routeCandidate): one default's
    next-hop on one interface, with its metric *)
Record routeCandidate := mkCandidate { rc_event : RouteEvent; rc_metric : Z }.

Definition event_key (e : RouteEvent) : routeKey := (re_iface e, re_family e).

(** daemon/internal/rtnl/route.go:256-256 (key): the key of a candidate *)
Definition rc_key (c : routeCandidate) : routeKey := event_key (rc_event c).

(** daemon/internal/rtnl/route.go:342-355 (isDefaultRoute): both encodings of
    the default destination *)
Definition isDefaultRoute (r : Route) : bool :=
  match r_Dst r with
  | None => true
  | Some dst =>
      match ipn_IP dst with
      | None => true
      | Some _ => bool_decide (mask_ones (ipn_Mask dst) = 0%nat) && IP_IsUnspecified (ipn_IP dst)
      end
  end.

(** daemon/internal/rtnl/route.go:357-367 (routeFamilyFromAF): v4 by default *)
Definition routeFamilyFromAF (family : Z) : RouteFamily :=
  if family =? AF_INET6 then RouteFamilyV6 else RouteFamilyV4.

Definition nexthop_eqb (x y : NexthopInfo) : bool :=
  (nh_LinkIndex x =? nh_LinkIndex y) && (nh_Hops x =? nh_Hops y) && IP_Equal (nh_Gw x) (nh_Gw y).

Fixpoint EqualFunc {A} (eq : A → A → bool) (a b : list A) : bool :=
  match a, b with
  | [], [] => true
  | x :: a, y :: b => eq x y && EqualFunc eq a b
  | _, _ => false
  end.

(** daemon/internal/rtnl/route.go:229-241 (sameDefaultRoute): equality on the
    fields that identify a route to the kernel *)
Definition sameDefaultRoute (a b : Route) : bool :=
  isDefaultRoute a && isDefaultRoute b &&
  (r_Family a =? r_Family b) && (r_Table a =? r_Table b) && (r_Tos a =? r_Tos b) &&
  (r_Priority a =? r_Priority b) && (r_LinkIndex a =? r_LinkIndex b) &&
  IP_Equal (r_Gw a) (r_Gw b) && EqualFunc nexthop_eqb (r_MultiPath a) (r_MultiPath b).

(** Remove the first element that satisfies [f], if any. *)
Fixpoint remove_first {A} (f : A → bool) (l : list A) : list A :=
  match l with
  | [] => []
  | x :: l => if f x then l else x :: remove_first f l
  end.

Section subscriber.
Context {E Ev : Type}.
(** The interface lookup ([ifaceLookup]) and the watched set. *)
Context (ifaceLookup : Z → M E Ev (error + string)) (watched : option (gset string)).

Abbreviation cache := (gmap Z string).

(** daemon/internal/rtnl/route.go:323-340 (resolveIface): the cached or the
    looked-up name; a failed lookup is not cached *)
Definition resolveIface (ifaceCache : cache) (idx : Z) : M E Ev (cache * option string) :=
  match ifaceCache !! idx with
  | Some name => mret (ifaceCache, Some name)
  | None =>
      r ← ifaceLookup idx;
      mret match r with
           | inl _ => (ifaceCache, None)
           | inr name => (<[idx := name]> ifaceCache, Some name)
           end
  end.

(** daemon/internal/rtnl/route.go:258-321 (handleUpdate): the candidates of one
    update, at most one per watched interface *)
Definition handleUpdate (ifaceCache : cache) (upd : RouteUpdate)
    : M E Ev (cache * list routeCandidate) :=
  let r := ru_Route upd in
  if negb (ru_Type upd =? RTM_NEWROUTE) && negb (ru_Type upd =? RTM_DELROUTE) then
    mret (ifaceCache, [])
  else if negb (r_Table r =? RT_TABLE_MAIN) then mret (ifaceCache, [])
  else if negb (isDefaultRoute r) then mret (ifaceCache, [])
  else
    let op := if ru_Type upd =? RTM_DELROUTE then RouteEventDel else RouteEventAdd in
    let nexthops := match r_MultiPath r with
                    | [] => [mkNexthopInfo (r_LinkIndex r) 0 (r_Gw r)]
                    | mp => mp
                    end in
    t ← now;
    foldM (λ acc nh,
      let '(ifaceCache, candidates) := acc in
      '(ifaceCache, name) ← resolveIface ifaceCache (nh_LinkIndex nh);
      mret match name with
           | None => (ifaceCache, candidates)
           | Some name =>
               if match watched with Some w => negb (bool_decide (name ∈ w)) | None => false end
               then (ifaceCache, candidates)
               else if existsb (λ prev, bool_decide (re_iface (rc_event prev) = name)) candidates
               then (ifaceCache, candidates)
               else (ifaceCache, candidates ++
                      [mkCandidate (mkRouteEvent op name (routeFamilyFromAF (r_Family r))
                                      (nh_Gw nh) t) (r_Priority r)])
           end) (ifaceCache, []) nexthops.

(** daemon/internal/rtnl/route.go:133-136 (selectDefaults): the locals of the
    loop: the selected events, and per key its metric and its position *)
Record selecting := mkSelecting {
  sel_selected : list RouteEvent;
  sel_metrics : gmap routeKey Z;
  sel_index : gmap routeKey nat
}.

(** daemon/internal/rtnl/route.go:139-149 (selectDefaults): one candidate *)
Definition select_step (st : selecting) (c : routeCandidate) : selecting :=
  let key := rc_key c in
  match sel_index st !! key with
  | None => mkSelecting (sel_selected st ++ [rc_event c])
              (<[key := rc_metric c]> (sel_metrics st))
              (<[key := length (sel_selected st)]> (sel_index st))
  | Some i =>
      if rc_metric c <? default 0 (sel_metrics st !! key)
      then mkSelecting (<[i := rc_event c]> (sel_selected st))
             (<[key := rc_metric c]> (sel_metrics st)) (sel_index st)
      else st
  end.

Definition select_candidates (cs : list routeCandidate) : list RouteEvent :=
  sel_selected (foldl select_step (mkSelecting [] ∅ ∅) cs).

(** daemon/internal/rtnl/route.go:137-138 (selectDefaults): the candidates of
    every route of a dump, in order *)
Definition candidates (ifaceCache : cache) (routes : list Route)
    : M E Ev (cache * list routeCandidate) :=
  foldM (λ acc route,
    '(ifaceCache, cs) ← handleUpdate acc.1 (mkRouteUpdate RTM_NEWROUTE route);
    mret (ifaceCache, acc.2 ++ cs)) (ifaceCache, []) routes.

(** daemon/internal/rtnl/route.go:128-153 (selectDefaults): one Add per
    interface and Family *)
Definition selectDefaults (ifaceCache : cache) (routes : list Route)
    : M E Ev (cache * list RouteEvent) :=
  '(ifaceCache, cs) ← candidates ifaceCache routes;
  mret (ifaceCache, select_candidates cs).

(** The route dump of one Family ([netlink.RouteList]). *)
Context (listFn : Z → M E Ev (error + list Route)).

(** daemon/internal/rtnl/route.go:109-126 (readSnapshot): both Families *)
Definition readSnapshot (ifaceCache : cache) : M E Ev (error + cache * list RouteEvent) :=
  foldM (λ acc family,
    match acc with
    | inl err => mret (inl err)
    | inr (ifaceCache, snapshot) =>
        routes ← retryDump (listFn family);
        match routes with
        | inl err => mret (inl (Wrapf "rtnl: RouteList" err))
        | inr routes =>
            '(ifaceCache, evs) ← selectDefaults ifaceCache routes;
            mret (inr (ifaceCache, snapshot ++ evs))
        end
    end) (inr (ifaceCache, [])) [AF_INET; AF_INET6].

(** daemon/internal/rtnl/route.go:212-227 (reconcileVia): the observation of
    one interface and Family in a dump, without one listing of the deleted
    route *)
Definition observe_dump (ifaceCache : cache) (ev : RouteEvent) (deleted : option Route)
    (routes : list Route) : M E Ev (cache * RouteEvent) :=
  let routes := match deleted with
                | None => routes
                | Some d => remove_first (λ r, sameDefaultRoute r d) routes
                end in
  '(ifaceCache, selected) ← selectDefaults ifaceCache routes;
  t ← now;
  let found := List.find (λ current, bool_decide (re_iface current = re_iface ev) &&
                                     (re_family current =? re_family ev)) selected in
  let ev := default (mkRouteEvent RouteEventDel (re_iface ev) (re_family ev)
                       (re_gateway ev) (re_time ev)) found in
  mret (ifaceCache, mkRouteEvent (re_op ev) (re_iface ev) (re_family ev) (re_gateway ev) t).

(** daemon/internal/rtnl/route.go:188-227 (reconcileVia): read the current
    routes and return the observation, or the error that ends the loop *)
Definition reconcileVia (ifaceCache : cache) (ev : RouteEvent) (deleted : option Route)
    : M E Ev (error + cache * RouteEvent) :=
  cerr ← ctx_Err;
  match cerr with
  | Some cerr => mret (inl cerr)
  | None =>
      routes ← retryDump (listFn (re_family ev));
      match routes with
      | inl err => mret (inl (Wrapf "rtnl: RouteList" err))
      | inr routes => r ← observe_dump ifaceCache ev deleted routes; mret (inr r)
      end
  end.

End subscriber.

(** ** The preferred default *)

(** [c] is preferred among [cs]: no candidate of its key has a lower metric,
    and none listed before it an equal one. *)
Definition preferred (cs : list routeCandidate) (c : routeCandidate) : Prop :=
  ∃ l1 l2, cs = l1 ++ c :: l2 ∧
    (∀ c', c' ∈ l1 → rc_key c' = rc_key c → rc_metric c < rc_metric c') ∧
    (∀ c', c' ∈ l2 → rc_key c' = rc_key c → rc_metric c ≤ rc_metric c').

Lemma preferred_elem cs c : preferred cs c → c ∈ cs.
Proof. intros (l1 & l2 & -> & _). apply elem_of_app. right. apply list_elem_of_here. Qed.

Lemma preferred_snoc_new cs c :
  (∀ c', c' ∈ cs → rc_key c' = rc_key c → rc_metric c < rc_metric c') → preferred (cs ++ [c]) c.
Proof. intros H. exists cs, []. split; [done|]. split; [done|]. by intros c' ?%elem_of_nil. Qed.

Lemma preferred_snoc_keep cs c c' :
  preferred cs c → (rc_key c' = rc_key c → rc_metric c ≤ rc_metric c') → preferred (cs ++ [c']) c.
Proof.
  intros (l1 & l2 & -> & H1 & H2) Hle. exists l1, (l2 ++ [c']).
  split; [by rewrite <- app_assoc|]. split; [done|].
  intros c2 [?| ->%list_elem_of_singleton]%elem_of_app; auto.
Qed.

Lemma preferred_min cs c c' :
  preferred cs c → c' ∈ cs → rc_key c' = rc_key c → rc_metric c ≤ rc_metric c'.
Proof.
  intros (l1 & l2 & -> & H1 & H2) [Hin|[-> |Hin]%elem_of_cons]%elem_of_app Hk; [|lia|auto].
  specialize (H1 _ Hin Hk). lia.
Qed.

(** The loop's locals against the candidates seen so far. *)
Record select_inv (cs : list routeCandidate) (st : selecting) : Prop := {
  si_some k i : sel_index st !! k = Some i → ∃ c, sel_selected st !! i = Some (rc_event c) ∧
    rc_key c = k ∧ sel_metrics st !! k = Some (rc_metric c) ∧ preferred cs c;
  si_none k : sel_index st !! k = None → ∀ c, c ∈ cs → rc_key c ≠ k;
  si_index i e : sel_selected st !! i = Some e → sel_index st !! event_key e = Some i
}.

Lemma select_step_inv cs st c : select_inv cs st → select_inv (cs ++ [c]) (select_step st c).
Proof.
  intros [Hsome Hnone Hidx]. unfold select_step.
  destruct (sel_index st !! rc_key c) as [i|] eqn:Hk.
  - destruct (Hsome _ _ Hk) as (c0 & Hi & Hk0 & Hm & Hp). rewrite Hm. cbn [from_option id].
    assert (Hother : ∀ c', rc_key c' ≠ rc_key c → preferred cs c' → preferred (cs ++ [c]) c').
    { intros c' Hne Hp'. apply preferred_snoc_keep; [done|]. congruence. }
    destruct (rc_metric c <? rc_metric c0) eqn:Hlt; bool_to_Prop; split; cbn.
    + intros k j Hj. destruct (decide (k = rc_key c)) as [-> |Hne].
      * assert (j = i) as -> by congruence. exists c.
        split; [apply list_lookup_insert_eq; by eapply lookup_lt_Some|]. split; [done|].
        split; [by rewrite lookup_insert_eq|]. apply preferred_snoc_new.
        intros c' Hin Hkey. rewrite <- Hk0 in Hkey.
        pose proof (preferred_min _ _ _ Hp Hin Hkey). lia.
      * destruct (Hsome _ _ Hj) as (c1 & Hi1 & Hk1 & Hm1 & Hp1). exists c1.
        assert (j ≠ i) by (intros ->; rewrite Hi in Hi1; injection Hi1 as He;
          apply Hne; rewrite <- Hk1, <- Hk0; unfold rc_key; by rewrite He).
        rewrite list_lookup_insert_ne, lookup_insert_ne by done.
        split; [done|]. split; [done|]. split; [done|]. apply Hother; [congruence|done].
    + intros k Hn c' [Hin| ->%list_elem_of_singleton]%elem_of_app; [by eapply Hnone|intros Heq; by rewrite <- Heq, Hk in Hn].
    + intros j e He. destruct (decide (j = i)) as [-> |Hne].
      * rewrite list_lookup_insert_eq in He by (by eapply lookup_lt_Some). by injection He as <-.
      * rewrite list_lookup_insert_ne in He by done. by apply Hidx.
    + intros k j Hj. destruct (Hsome _ _ Hj) as (c1 & Hi1 & Hk1 & Hm1 & Hp1). exists c1.
      split; [done|]. split; [done|]. split; [done|]. apply preferred_snoc_keep; [done|].
      intros Heq. assert (rc_metric c1 = rc_metric c0) as ->; [|lia].
      rewrite Heq, Hk1 in Hm. congruence.
    + intros k Hn c' [Hin| ->%list_elem_of_singleton]%elem_of_app; [by eapply Hnone|intros Heq; by rewrite <- Heq, Hk in Hn].
    + done.
  - split; cbn.
    + intros k i Hi. destruct (decide (k = rc_key c)) as [-> |Hne].
      * rewrite lookup_insert_eq in Hi. injection Hi as <-. exists c.
        split; [by rewrite lookup_app_r, Nat.sub_diag by lia|]. split; [done|].
        split; [by rewrite lookup_insert_eq|]. apply preferred_snoc_new.
        intros c' Hin Hkey. by destruct (Hnone _ Hk c' Hin).
      * rewrite lookup_insert_ne in Hi by done.
        destruct (Hsome _ _ Hi) as (c1 & Hi1 & Hk1 & Hm1 & Hp1). exists c1.
        rewrite lookup_insert_ne by done.
        split; [apply lookup_app_l_Some, Hi1|]. split; [done|]. split; [done|].
        apply preferred_snoc_keep; [done|].
        intros Heq. by destruct (Hne (eq_trans (eq_sym Hk1) (eq_sym Heq))).
    + intros k Hn c' [Hin| ->%list_elem_of_singleton]%elem_of_app.
      * apply lookup_insert_None in Hn as [Hn _]. by eapply Hnone.
      * apply lookup_insert_None in Hn as [_ Hn]. done.
    + intros i e He. apply lookup_app_Some in He as [He|[Hlen He]].
      * pose proof (Hidx _ _ He) as Hi. rewrite lookup_insert_ne; [done|]. intros Heq.
        by rewrite <- Heq, Hk in Hi.
      * apply list_lookup_singleton_Some in He as [Hi <-]. rewrite lookup_insert_eq. f_equal. lia.
Qed.

Lemma select_fold_inv cs : select_inv cs (foldl select_step (mkSelecting [] ∅ ∅) cs).
Proof.
  induction cs as [|c cs IH] using rev_ind.
  - split; cbn; try done. by intros k _ c ?%elem_of_nil.
  - rewrite foldl_snoc. by apply select_step_inv.
Qed.

(** One event per key: the preferred candidate's. *)
Lemma select_candidates_find cs iface family :
  match List.find (λ e, bool_decide (re_iface e = iface) && (re_family e =? family))
          (select_candidates cs) with
  | Some e => ∃ c, preferred cs c ∧ rc_key c = (iface, family) ∧ rc_event c = e
  | None => ∀ c, c ∈ cs → rc_key c ≠ (iface, family)
  end.
Proof.
  pose proof (select_fold_inv cs) as [Hsome Hnone Hidx]. unfold select_candidates.
  destruct (List.find _ _) as [e|] eqn:Hf.
  - apply find_some in Hf as [Hin%list_elem_of_In Hk].
    apply andb_prop in Hk as [Hi%bool_decide_eq_true Hfam]. bool_to_Prop.
    apply list_elem_of_lookup in Hin as [i Hlk]. pose proof (Hidx _ _ Hlk) as Hix.
    destruct (Hsome _ _ Hix) as (c & Hc & Hkey & _ & Hp). exists c. split; [done|].
    split; [rewrite Hkey; unfold event_key; by subst|congruence].
  - intros c Hin Hkey. destruct (sel_index (foldl select_step (mkSelecting [] ∅ ∅) cs) !! (iface, family))
      as [i|] eqn:Hi; [|by eapply Hnone].
    destruct (Hsome _ _ Hi) as (c' & Hlk & Hk' & _).
    apply list_elem_of_lookup_2, list_elem_of_In in Hlk.
    pose proof (find_none _ _ Hf _ Hlk) as Hb. unfold rc_key, event_key in Hk'.
    injection Hk' as <- <-. simpl in Hb. rewrite bool_decide_eq_true_2, Z.eqb_refl in Hb by done. done.
Qed.

(** ** The candidates of a dump *)

Section observation.
Context {E Ev : Type}.
Context (ifaceLookup : Z → M E Ev (error + string)) (watched : option (gset string)).

(** What a candidate says of the route it comes from. *)
Definition candidate_of (route : Route) (c : routeCandidate) : Prop :=
  r_Table route = RT_TABLE_MAIN ∧ isDefaultRoute route = true ∧
  rc_metric c = r_Priority route ∧ re_op (rc_event c) = RouteEventAdd ∧
  re_family (rc_event c) = routeFamilyFromAF (r_Family route) ∧
  (∀ names, watched = Some names → re_iface (rc_event c) ∈ names) ∧
  (re_gateway (rc_event c) = r_Gw route ∨
   ∃ nh, nh ∈ r_MultiPath route ∧ re_gateway (rc_event c) = nh_Gw nh).

Lemma handleUpdate_candidates cache route (w : World E Ev) :
  wp (handleUpdate ifaceLookup watched cache (mkRouteUpdate RTM_NEWROUTE route))
    (λ r _, ∀ c, c ∈ r.2 → candidate_of route c) w.
Proof.
  unfold handleUpdate. simpl. destruct (r_Table route =? RT_TABLE_MAIN) eqn:Ht; simpl;
    [|apply wp_ret; by intros c ?%elem_of_nil].
  destruct (isDefaultRoute route) eqn:Hd; simpl; [|apply wp_ret; by intros c ?%elem_of_nil].
  bool_to_Prop. apply wp_bind. unfold wp at 1. simpl.
  apply (wp_foldM _ _ (λ _ acc _, ∀ c, c ∈ acc.2 → candidate_of route c)); [by intros c ?%elem_of_nil| |done].
  intros dn nh rest [ca cs] w1 Hl HI. apply wp_bind. unfold wp at 1.
  destruct (resolveIface ifaceLookup ca (nh_LinkIndex nh) w1) as [[ca' [name|]] w2]; simpl; [|done].
  destruct (match watched with Some _ => _ | None => _ end) eqn:Hw; [done|].
  destruct (existsb _ _); [done|]. apply wp_ret. simpl.
  intros c [Hin| ->%list_elem_of_singleton]%elem_of_app; [by apply HI|].
  do 5 (split; [done|]). split.
  - intros names ->. by apply negb_false_iff, bool_decide_eq_true in Hw.
  - simpl. destruct (r_MultiPath route) as [|nh0 mp].
    + left. destruct dn as [|? [|]]; simplify_eq/=; done.
    + right. exists nh. split; [|done]. rewrite Hl. apply elem_of_app. right. apply list_elem_of_here.
Qed.

Lemma candidates_of cache routes (w : World E Ev) :
  wp (candidates ifaceLookup watched cache routes)
    (λ r _, ∀ c, c ∈ r.2 → ∃ route, route ∈ routes ∧ candidate_of route c) w.
Proof.
  unfold candidates.
  apply (wp_foldM _ _ (λ dn acc _, ∀ c, c ∈ acc.2 → ∃ route, route ∈ dn ∧ candidate_of route c));
    [by intros c ?%elem_of_nil| |done].
  intros dn route rest [ca cs] w1 _ HI. apply wp_bind.
  eapply wp_mono; [apply handleUpdate_candidates|]. intros [ca' cs'] w2 Hc. apply wp_ret. simpl in *.
  intros c [Hin|Hin]%elem_of_app.
  - destruct (HI c Hin) as (r & Hr & ?). exists r. split; [|done]. apply elem_of_app. by left.
  - exists route. split; [|by apply Hc]. apply elem_of_app. right. apply list_elem_of_here.
Qed.

Lemma retryDump_loop_completed {A} tries : ∀ (dump : M E Ev (error + A)) v w w',
  retryDump_loop tries dump w = (inr v, w') → ∃ w1, dump w1 = (inr v, w').
Proof.
  induction tries as [|tries IH]; intros dump v w w' H; cbn [retryDump_loop] in H;
    unfold mbind, M_bind in H; destruct (dump w) as [[err|v'] w1] eqn:Hd.
  1,3: destruct (negb (Is err ErrDumpInterrupted)); try done.
  - destruct tries; [done|]. destruct (ctx_Err w1) as [[cerr|] w2]; [done|]. by eapply IH.
  - exists w. rewrite Hd. by injection H as -> ->.
  - exists w. rewrite Hd. by injection H as -> ->.
Qed.

Context (listFn : Z → M E Ev (error + list Route)).


End observation.

Definition main_default (linkIndex metric : Z) (gw : IP) : Route :=
  mkRoute AF_INET RT_TABLE_MAIN linkIndex 0 None gw 0 metric [].


(** A dump that answers from a script. *)
Definition scripted {Ev A} : M (list (error + A)) Ev (error + A) :=
  call (λ script, match script with
                  | [] => (inl (ErrSentinel "end of script"), [])
                  | o :: script => (o, script)
                  end).

Lemma retryDump_loop_attempts {Ev A} errs (o : error + A) rest : ∀ tries (w : World _ Ev),
  Forall (λ e, Is e ErrDumpInterrupted = true) errs →
  (∀ e, o = inl e → Is e ErrDumpInterrupted = false) →
  sch_cancel (w_sched w) = None →
  w_env w = (inl <$> errs) ++ o :: rest →
  wp (retryDump_loop (S tries) scripted) (λ r w',
    if decide (length errs < S tries)%nat then r = o ∧ w_env w' = rest
    else (∃ e, r = inl e ∧ Is e ErrDumpInterrupted = true) ∧
         w_env w' = drop (S tries) (w_env w)) w.
Proof.
  induction errs as [|e errs IH]; intros tries w Hall Ho Hc Hw.
  - cbn [retryDump_loop]. apply wp_bind. unfold wp, scripted, call. rewrite Hw. simpl.
    destruct o as [e|v]; [|done]. by rewrite (Ho e eq_refl).
  - apply Forall_cons in Hall as [He Hall]. cbn [retryDump_loop]. apply wp_bind.
    assert (scripted (Ev:=Ev) w = (inl e, mkWorld (w_sched w) (S (w_tick w))
      ((inl <$> errs) ++ o :: rest) (w_log w))) as Hs by (unfold scripted, call; by rewrite Hw).
    unfold wp at 1. rewrite Hs, Hw. cbn [fst snd]. rewrite He. cbn [negb]. destruct tries as [|tries].
    + apply wp_ret. rewrite decide_False by (simpl; lia). split; [|done].
      eexists. split; [done|]. by cbn [Is]; rewrite He, orb_true_r.
    + apply wp_bind. unfold wp at 1. unfold ctx_Err, cancelled, cancelled_by. cbn [w_sched]. rewrite Hc.
      cbn [fst snd].
      match goal with |- wp _ _ ?w1 => pose proof (IH tries w1 Hall Ho Hc eq_refl) as H end.
      eapply wp_mono; [exact H|]. intros r w' Hr. cbn [w_env step] in Hr.
      destruct (decide (length errs < S tries)%nat).
      * by rewrite decide_True by (simpl; lia).
      * rewrite decide_False by (simpl; lia). done.
Qed.

(** Interrupted dumps: a dump that is interrupted fewer than four times
    yields the outcome of its first uninterrupted call, whose partial
    predecessors are discarded; one interrupted four times fails with an error
    that still is [ErrDumpInterrupted], and no fifth call is made. *)
Theorem retry_dump_attempts {Ev A} errs (o : error + A) rest (w : World _ Ev) :
  Forall (λ e, Is e ErrDumpInterrupted = true) errs →
  (∀ e, o = inl e → Is e ErrDumpInterrupted = false) →
  sch_cancel (w_sched w) = None →
  w_env w = (inl <$> errs) ++ o :: rest →
  let '(r, w') := retryDump scripted w in
  if decide (length errs < 4)%nat then r = o ∧ w_env w' = rest
  else (∃ e, r = inl e ∧ Is e ErrDumpInterrupted = true) ∧ w_env w' = drop 4 (w_env w).
Proof.
  intros Hall Ho Hc Hw.
  pose proof (retryDump_loop_attempts errs o rest 3 w Hall Ho Hc Hw) as H.
  unfold wp in H. unfold retryDump, dumpAttempts. by destruct (retryDump_loop 4 scripted w).
Qed.

Lemma retry_dump_attempts_witness :
  let w := mkWorld (Ev:=unit) (mkSchedule None (λ _, 1%positive) (λ _ _, 0%nat)) 0
    [inl ErrDumpInterrupted; inl ErrDumpInterrupted; inr 7; inr 8] [] in
  ∃ r w', retryDump scripted w = (r, w') ∧ r = inr 7 ∧ w_env w' = [inr 8].
Proof.
  intros w.
  pose proof (retry_dump_attempts [ErrDumpInterrupted; ErrDumpInterrupted] (inr 7) [inr 8] w
    ltac:(by repeat constructor) ltac:(done) eq_refl eq_refl) as H.
  destruct (retryDump scripted w) as [r w'] eqn:Hr. exists r, w'. split; [done|exact H].
Defined.
