(* ===== verification/Subscribers.v ===== *)
(** * The life of a subscription ([rtnl/subscriber.go], [rtnl/route.go])

    Subscribe, read a snapshot, reconcile notifications until the end, stop. The
    netlink socket is an interface whose calls are recorded with the deliveries.
    Then the link subscriber next to a kernel whose links change at any moment:
    a step relation, with the theorem that it catches up. *)
From S2P Require Import Prelude NetIP Icmp Runtime Rtnl Routes.

#[local] Open Scope Z_scope.

(** ** The socket *)

(** daemon/internal/rtnl/subscriber.go:37-47 (netlinkRcvBufBytes): 1 MiB *)
Definition netlinkRcvBufBytes : Z := Z.shiftl 1 20.

(** The options the daemon sets ([LinkSubscribeOptions] and
    [RouteSubscribeOptions] have them in common). *)
Record SubscribeOptions := mkSubscribeOptions {
  ListExisting : bool; ReceiveBufferSize : Z; ReceiveBufferForceSize : bool
}.

(** The library: open the socket with the options, and the error its receiver
    reported, if any. *)
Class Subscription (E : Type) := {
  subscribe : SubscribeOptions → E → option error * E;
  subErr : E → option error
}.

(** What a subscriber does to the outside, in order: the subscription, the close
    of [done], the receipt of an update that nobody reads, an event sent to the
    daemon, and the terminal error. *)
Inductive sub_event (A : Type) :=
| SubOpen (opts : SubscribeOptions)
| SubClose
| SubDrop
| SubSend (a : A)
| SubExit (err : error).
Arguments SubOpen {_}.
Arguments SubClose {_}.
Arguments SubDrop {_}.
Arguments SubSend {_}.
Arguments SubExit {_}.

Section life.
Context {E A : Type} `{HS : Subscription E}.

Abbreviation M := (M E (sub_event A)).

(** daemon/internal/rtnl/subscriber.go:240-244 (closeAndDrain): receive until the
    channel is closed; [recv] are the receipts, [false] the closed channel. [true]
    when it was seen closed *)
Fixpoint drain (recv : list bool) : M bool :=
  match recv with
  | [] => mret false
  | true :: recv => _ ← emit SubDrop; drain recv
  | false :: _ => mret true
  end.

(** daemon/internal/rtnl/subscriber.go:234-245 (closeAndDrain): close [done],
    then drain *)
Definition closeAndDrain (recv : list bool) : M bool :=
  _ ← emit SubClose; drain recv.

(** daemon/internal/rtnl/subscriber.go:97-117 (StartWith): subscribe, read, and
    give up the subscription when the read fails or the context is cancelled *)
Definition open_and_read {S} (label : string) (read : M (error + S)) (recv : list bool) : M (error + S) :=
  let opts := mkSubscribeOptions false netlinkRcvBufBytes true in
  _ ← emit (SubOpen opts);
  err ← call (subscribe opts);
  match err with
  | Some err => _ ← emit SubClose; mret (inl (Wrapf label err))
  | None =>
      r ← read;
      r ← match r with
          | inl err => mret (inl err)
          | inr s => cerr ← ctx_Err; mret match cerr with Some err => inl err | None => inr s end
          end;
      match r with
      | inl err => _ ← closeAndDrain recv; mret (inl err)
      | inr s => mret (inr s)
      end
  end.

(** daemon/internal/rtnl/subscriber.go:119-124 (StartWith): the goroutine's end:
    the loop's error with the library's cause, after the subscription is gone *)
Definition finish (label : string) (loop : M error) (recv : list bool) : M unit :=
  err ← loop;
  cause ← call (λ e, (subErr e, e));
  _ ← closeAndDrain recv;
  emit (SubExit (translateSubClose err cause label)).

End life.

(** ** Links *)

Section links.
Context {E : Type} `{HS : Subscription E} (s : LinkSubscriber).
Context (listFn : M E (sub_event LinkEvent) (error + list Link)).
Context (getFn : string → M E (sub_event LinkEvent) LinkByName_result).

(** daemon/internal/rtnl/subscriber.go:137-152 (readSnapshot): the dump, read
    again when interrupted *)
Definition link_snapshot : M E (sub_event LinkEvent) (error + gmap string LinkState * list LinkEvent) :=
  Rtnl.readSnapshot s (retryDump listFn).

(** daemon/internal/rtnl/subscriber.go:158-186 (runLoop): the loop with its sends;
    its error, [None] while it still runs *)
Definition link_loop (state : gmap string LinkState) (turns : list Rtnl.turn)
    : M E (sub_event LinkEvent) (option error) :=
  '(evs, _, err) ← Rtnl.runLoop s getFn state turns;
  _ ← forM evs (λ ev, emit (SubSend ev));
  mret err.

(** daemon/internal/rtnl/subscriber.go:87-126 (StartWith): the snapshot, or the
    error that prevented it; then the goroutine, to its end if the loop's turns
    reach one *)
Definition link_StartWith (turns : list Rtnl.turn) (recv : list bool)
    : M E (sub_event LinkEvent) (error + list LinkEvent) :=
  r ← open_and_read "rtnl: LinkSubscribe" link_snapshot recv;
  match r with
  | inl err => mret (inl err)
  | inr (state, snapshot) =>
      err ← link_loop state turns;
      _ ← match err with
          | None => mret ()
          | Some err => finish "link" (mret err) recv
          end;
      mret (inr snapshot)
  end.

End links.

(** ** Routes *)

(** What one turn of the route loop received, and the number of its sends that
    win over a cancellation, all of them when [None]. *)
Inductive rturn := RTurnDone | RTurnClosed | RTurnUpdate (upd : RouteUpdate) (sends : option nat).

(** daemon/internal/rtnl/route.go:369-378 (interfaceNameByIndex): the name of the
    interface that package net finds *)
Definition interfaceNameByIndex {E Ev} (InterfaceByIndex : Z → E → (error + string) * E) (idx : Z)
    : M E Ev (error + string) :=
  link ← call (InterfaceByIndex idx);
  mret match link with inl err => inl err | inr name => inr name end.

Section routes.
Context {E : Type} `{HS : Subscription E}.
Context (ifaceLookup : Z → M E (sub_event RouteEvent) (error + string)) (watched : option (gset string)).
Context (listFn : Z → M E (sub_event RouteEvent) (error + list Route)).

(** daemon/internal/rtnl/route.go:173-183 (runLoop): the observation of every
    interface an update touches, sent in order *)
Fixpoint observe_all (cache : gmap Z string) (deleted : option Route) (sends : option nat)
    (cs : list routeCandidate) : M E (sub_event RouteEvent) (gmap Z string * option error) :=
  match cs with
  | [] => mret (cache, None)
  | c :: cs =>
      r ← Routes.reconcileVia ifaceLookup watched listFn cache (rc_event c) deleted;
      match r with
      | inl err => mret (cache, Some err)
      | inr (cache, ev) =>
          match sends with
          | Some O => mret (cache, Some ErrCanceled)
          | _ => _ ← emit (SubSend ev); observe_all cache deleted (Nat.pred <$> sends) cs
          end
      end
  end.

(** daemon/internal/rtnl/route.go:155-186 (runLoop): each matching update is an
    invalidation; the loop ends with an error *)
Fixpoint route_loop (cache : gmap Z string) (turns : list rturn)
    : M E (sub_event RouteEvent) (option error) :=
  match turns with
  | [] => mret None
  | RTurnDone :: _ => mret (Some ErrCanceled)
  | RTurnClosed :: _ => mret (Some errSubscriptionClosed)
  | RTurnUpdate upd sends :: turns =>
      let deleted := if ru_Type upd =? RTM_DELROUTE then Some (ru_Route upd) else None in
      '(cache, cs) ← Routes.handleUpdate ifaceLookup watched cache upd;
      '(cache, err) ← observe_all cache deleted sends cs;
      match err with
      | Some err => mret (Some err)
      | None => route_loop cache turns
      end
  end.

(** daemon/internal/rtnl/route.go:65-101 (StartWith): as for links *)
Definition route_StartWith (turns : list rturn) (recv : list bool)
    : M E (sub_event RouteEvent) (error + list RouteEvent) :=
  r ← open_and_read "rtnl: RouteSubscribe" (Routes.readSnapshot ifaceLookup watched listFn ∅) recv;
  match r with
  | inl err => mret (inl err)
  | inr (cache, snapshot) =>
      err ← route_loop cache turns;
      _ ← match err with
          | None => mret ()
          | Some err => finish "route" (mret err) recv
          end;
      mret (inr snapshot)
  end.

End routes.

(** ** Lemmas *)

Section trace.
Context {E A : Type} `{HS : Subscription E}.

(** The trace of a start that failed, of a subscription that runs, and of one
    that ended. *)
Definition failed (n : nat) : list (sub_event A) :=
  SubOpen (mkSubscribeOptions false netlinkRcvBufBytes true) :: SubClose :: replicate n SubDrop.

Definition running (evs : list A) : list (sub_event A) :=
  SubOpen (mkSubscribeOptions false netlinkRcvBufBytes true) :: (SubSend <$> evs).

Definition ended (evs : list A) (n : nat) (err : error) : list (sub_event A) :=
  running evs ++ SubClose :: replicate n SubDrop ++ [SubExit err].

(** The updates received before the channel is seen closed. *)
Fixpoint dropped (recv : list bool) : nat :=
  match recv with true :: recv => S (dropped recv) | _ => 0%nat end.

Lemma closeAndDrain_log recv (w : World E (sub_event A)) :
  wlog (closeAndDrain recv) (λ closed l _, l = SubClose :: replicate (dropped recv) SubDrop ∧
    (false ∈ recv → closed = true)) w.
Proof.
  unfold closeAndDrain. apply wlog_bind, wlog_emit. intros w1 _.
  apply (wlog_mono _ (λ closed l _, l = replicate (dropped recv) SubDrop ∧ (false ∈ recv → closed = true))).
  2: { by intros closed l w2 [-> H]. }
  revert w1. induction recv as [|[] recv IH]; intros w1; cbn [drain dropped replicate].
  - apply wlog_ret. split; [done|]. by intros ?%elem_of_nil.
  - apply wlog_bind, wlog_emit. intros w2 _. eapply wlog_mono; [apply IH|]. intros closed l w3 [-> H].
    split; [done|]. intros [?|?]%elem_of_cons; [done|by apply H].
  - by apply wlog_ret.
Qed.

Lemma open_and_read_log {S} label (read : M E (sub_event A) (error + S)) `{!Silent read} recv (w : World E (sub_event A)) :
  wlog (open_and_read label read recv) (λ r l _, match r with
    | inl _ => l = failed 0 ∨ l = failed (dropped recv)
    | inr _ => l = running []
    end) w.
Proof.
  unfold open_and_read. cbv zeta. apply wlog_bind, wlog_emit. intros w1 _.
  apply wlog_bind, wlog_silent; [apply _|]. intros [err|] w2; cbn [app].
  { apply wlog_bind, wlog_emit. intros w3 _. apply wlog_ret. by left. }
  apply wlog_bind, wlog_silent; [done|]. intros r w3. apply wlog_bind.
  apply (wlog_mono _ (λ _ l _, l = [])).
  { destruct r as [err|s]; [by apply wlog_ret|]. apply wlog_bind, wlog_silent; [apply _|].
    intros [err|] w4; by apply wlog_ret. }
  intros [err|s] l w4 ->; [|by apply wlog_ret].
  apply wlog_bind. eapply wlog_mono; [apply closeAndDrain_log|]. intros b l w5 [-> _].
  apply wlog_ret. right. by rewrite app_nil_r.
Qed.

Lemma finish_log label err recv (w : World E (sub_event A)) :
  wlog (finish label (mret err) recv) (λ _ l _,
    l = SubClose :: replicate (dropped recv) SubDrop ++ [SubExit (translateSubClose err (subErr (w_env w)) label)]) w.
Proof.
  unfold finish. apply wlog_bind, wlog_ret. apply wlog_bind. unfold wlog at 1, wp, call. cbn [fst snd w_log].
  exists []. rewrite app_nil_r. split; [done|].
  apply wlog_bind. eapply wlog_mono; [apply closeAndDrain_log|]. intros b l w1 [-> _]. apply wlog_emit. done.
Qed.

Lemma sends_log (evs : list A) (w : World E (sub_event A)) :
  wlog (forM evs (λ ev, emit (SubSend ev))) (λ _ l _, l = SubSend <$> evs) w.
Proof.
  apply (wlog_foldM _ _ (λ dn _ l _, l = SubSend <$> dn)); [done| |done].
  intros dn ev rest [] lg w1 _ ->. apply wlog_emit. intros w2 _. by rewrite fmap_app.
Qed.
End trace.

#[local] Instance silent_retryDump {E Ev A} (dump : M E Ev (error + A)) : Silent dump → Silent (retryDump dump).
Proof.
  intros Hd. unfold retryDump. induction dumpAttempts as [|n IH]; cbn [retryDump_loop];
    (apply silent_bind; [done|]); intros [err|x]; try apply _; (destruct (negb _); [apply _|]); [apply _|].
  destruct n; [apply _|]. apply silent_bind; [apply _|]. intros [err'|]; [apply _|apply IH].
Qed.

#[local] Instance silent_link_handleUpdate {E Ev} s st upd : Silent (Rtnl.handleUpdate (E:=E) (Ev:=Ev) s st upd).
Proof. unfold Rtnl.handleUpdate. silent_by. Qed.
#[local] Instance silent_link_readSnapshot {E Ev} s dump : Silent dump → Silent (Rtnl.readSnapshot (E:=E) (Ev:=Ev) s dump).
Proof. intros Hd. unfold Rtnl.readSnapshot. silent_by. Qed.
#[local] Instance silent_link_runLoop {E Ev} s getFn turns :
  (∀ n, Silent (getFn n)) → ∀ st, Silent (Rtnl.runLoop (E:=E) (Ev:=Ev) s getFn st turns).
Proof.
  intros Hg. induction turns as [|[| |upd sent] turns IH]; intros st; cbn [Rtnl.runLoop]; unfold Rtnl.reconcileVia;
    silent_by; apply IH.
Qed.

Section route_silent.
Context {E Ev : Type} (lk : Z → M E Ev (error + string)) (watched : option (gset string)).
Context (listFn : Z → M E Ev (error + list Route)).
Context (Hlk : ∀ i, Silent (lk i)) (Hls : ∀ f, Silent (listFn f)).

#[local] Instance silent_route_handleUpdate cache upd : Silent (Routes.handleUpdate lk watched cache upd).
Proof. unfold Routes.handleUpdate, resolveIface. silent_by. Qed.
#[local] Instance silent_selectDefaults cache routes : Silent (selectDefaults lk watched cache routes).
Proof. unfold selectDefaults, candidates. silent_by. Qed.
Lemma silent_route_readSnapshot cache : Silent (Routes.readSnapshot lk watched listFn cache).
Proof. unfold Routes.readSnapshot. silent_by. Qed.
Lemma silent_route_reconcileVia cache ev deleted : Silent (Routes.reconcileVia lk watched listFn cache ev deleted).
Proof. unfold Routes.reconcileVia, observe_dump. silent_by. Qed.
End route_silent.

(** The trace of a whole life: the daemon got a snapshot, and then the
    subscription still runs, which it does not once its loop is [over], or has
    ended; or it did not. *)
Definition life_trace {S A} (over : bool) (r : error + S) (recv : list bool) (l : list (sub_event A)) : Prop :=
  match r with
  | inl _ => l = failed 0 ∨ l = failed (dropped recv)
  | inr _ => ∃ evs, l = running evs ∧ over = false ∨ ∃ err, l = ended evs (dropped recv) err
  end.

(** A loop that sends, and returns its error when it is over. *)
Definition sends_then {E A} (over : bool) (loop : M E (sub_event A) (option error)) : Prop :=
  ∀ w, wlog loop (λ err l _, (∃ evs, l = SubSend <$> evs) ∧ (over = true → err ≠ None)) w.

(** A turn that ends the loop is among those it takes. *)
Definition link_over (turns : list Rtnl.turn) : bool :=
  existsb (λ t, match t with TurnDone | TurnClosed => true | _ => false end) turns.
Definition route_over (turns : list rturn) : bool :=
  existsb (λ t, match t with RTurnDone | RTurnClosed => true | _ => false end) turns.

Lemma loop_then_finish {E A S} `{HS : Subscription E} over (loop : M E (sub_event A) (option error)) label recv (s : S)
    (w : World E (sub_event A)) :
  sends_then over loop →
  wlog (err ← loop; _ ← match err with None => mret () | Some err => finish label (mret err) recv end; mret (inr s))
    (λ r l _, life_trace over (r : error + S) recv (running [] ++ l)) w.
Proof.
  intros Hl. apply wlog_bind. eapply wlog_mono; [apply Hl|]. intros [err|] l w1 [[evs ->] Ho]; apply wlog_bind.
  - eapply wlog_mono; [apply finish_log|]. intros [] l w2 ->. apply wlog_ret. exists evs. right. eexists.
    unfold ended, running. cbn [fmap list_fmap app]. by rewrite app_nil_r.
  - apply wlog_ret, wlog_ret. exists evs. left. unfold running. rewrite !app_nil_r. split; [done|].
    destruct over; [by destruct Ho|done].
Qed.

Section lives.
Context {E : Type} `{HS : Subscription E}.

Lemma link_loop_over s getFn turns : ∀ state (w : World E (sub_event LinkEvent)),
  wp (Rtnl.runLoop s getFn state turns) (λ r _, link_over turns = true → r.2 ≠ None) w.
Proof.
  induction turns as [|[| |upd sent] turns IH]; intros state w; cbn [Rtnl.runLoop link_over existsb orb];
    try (by apply wp_ret).
  destruct (negb _); [apply IH|]. apply wp_bind, wp_any. intros [err|current] w1; [by apply wp_ret|].
  apply wp_bind, wp_any. intros [state' [ev|]] w2; [|apply IH]. destruct sent; [|by apply wp_ret].
  apply wp_bind. eapply wp_mono; [apply IH|]. intros [[evs st] err] w3 H. by apply wp_ret.
Qed.

Lemma link_loop_sends s getFn state turns :
  (∀ n, Silent (getFn n)) → sends_then (link_over turns) (link_loop (E:=E) s getFn state turns).
Proof.
  intros Hg w. unfold link_loop. apply wlog_bind, wlog_silent_wp; [apply _|].
  eapply wp_mono; [apply link_loop_over|]. intros [[evs st] err] w1 Ho. cbn [app].
  apply wlog_bind. eapply wlog_mono; [apply sends_log|]. intros [] l w2 ->. apply wlog_ret.
  split; [|done]. exists evs. by rewrite app_nil_r.
Qed.

Lemma observe_all_sends lk watched listFn deleted cs :
  (∀ i, Silent (lk i)) → (∀ f, Silent (listFn f)) → ∀ cache sends (w : World E (sub_event RouteEvent)),
  wlog (observe_all lk watched listFn cache deleted sends cs) (λ _ l _, ∃ evs, l = SubSend <$> evs) w.
Proof.
  intros Hlk Hls. induction cs as [|c cs IH]; intros cache sends w; cbn [observe_all].
  { apply wlog_ret. by exists []. }
  apply wlog_bind, wlog_silent; [by apply silent_route_reconcileVia|]. intros [err|[cache' ev]] w1.
  { apply wlog_ret. by exists []. }
  assert (Hgo : wlog (_ ← emit (SubSend ev); observe_all lk watched listFn cache' deleted (Nat.pred <$> sends) cs)
    (λ _ l _, ∃ evs, l = SubSend <$> evs) w1).
  { apply wlog_bind, wlog_emit. intros w2 _. eapply wlog_mono; [apply IH|]. intros r l w3 [evs ->].
    by exists (ev :: evs). }
  destruct sends as [[|n]|]; [|done..]. apply wlog_ret. by exists [].
Qed.

Lemma route_loop_sends lk watched listFn turns :
  (∀ i, Silent (lk i)) → (∀ f, Silent (listFn f)) → ∀ cache,
  sends_then (route_over turns) (route_loop (E:=E) lk watched listFn cache turns).
Proof.
  intros Hlk Hls. induction turns as [|[| |upd sends] turns IH]; intros cache w; cbn [route_loop];
    try (apply wlog_ret; split; [by exists []|done]).
  cbv zeta. apply wlog_bind, wlog_silent; [by apply silent_route_handleUpdate|]. intros [cache1 cs] w1.
  apply wlog_bind. eapply wlog_mono; [by apply observe_all_sends|]. intros [cache2 err] l w2 [evs ->].
  destruct err as [err|]; [apply wlog_ret; split; [exists evs; by rewrite app_nil_r|done]|].
  eapply wlog_mono; [apply IH|]. intros r l w3 [[evs' ->] Ho]. split; [|done].
  exists (evs ++ evs'). by rewrite fmap_app.
Qed.

(** A subscription starts with one open and is closed at most once: when
    start-up fails, or after the last event and before the terminal error. *)
Lemma link_life_trace s listFn getFn turns recv (w : World E (sub_event LinkEvent)) :
  Silent listFn → (∀ n, Silent (getFn n)) →
  wlog (link_StartWith s listFn getFn turns recv) (λ r l _, life_trace (link_over turns) r recv l) w.
Proof.
  intros Hl Hg. unfold link_StartWith. apply wlog_bind. unfold link_snapshot.
  eapply wlog_mono; [apply (open_and_read_log _ _ _ _)|]. intros [err|[state snapshot]] l w1 Hr.
  - apply wlog_ret. by rewrite app_nil_r.
  - subst l. by apply loop_then_finish, link_loop_sends.
Qed.

Lemma route_life_trace lk watched listFn turns recv (w : World E (sub_event RouteEvent)) :
  (∀ i, Silent (lk i)) → (∀ f, Silent (listFn f)) →
  wlog (route_StartWith lk watched listFn turns recv) (λ r l _, life_trace (route_over turns) r recv l) w.
Proof.
  intros Hlk Hls. unfold route_StartWith. apply wlog_bind.
  eapply wlog_mono; [apply open_and_read_log; by apply silent_route_readSnapshot|].
  intros [err|[cache snapshot]] l w1 Hr.
  - apply wlog_ret. by rewrite app_nil_r.
  - subst l. by apply loop_then_finish, route_loop_sends.
Qed.
End lives.

(** ** The link subscriber next to the kernel

    Links change at any moment, between any two steps of the subscriber; every
    change queues a notification, whose content need not be current when it is
    read. The steps of the subscriber are the model's functions. *)

Inductive pc :=
| Starting
| Dumping (ls : list Link)
| Idle
| Reading (name : string)
| Folding (name : string) (current : LinkUpdate).

Record sys := mkSys {
  y_links : gmap string Link;
  y_queue : list LinkUpdate;
  y_pc : pc;
  y_state : gmap string LinkState;
  y_events : list LinkEvent
}.

(** Just subscribed. *)
Definition subscribed (links : gmap string Link) : sys := mkSys links [] Starting ∅ [].

Definition lu_name (upd : LinkUpdate) : string := l_name (lu_link upd).

(** The kernel: a link appears, changes or goes. *)
Inductive kernel_step : sys → sys → Prop :=
| kernel_set l upd links q p st evs :
    lu_name upd = l_name l →
    kernel_step (mkSys links q p st evs) (mkSys (<[l_name l := l]> links) (q ++ [upd]) p st evs)
| kernel_del name upd links q p st evs :
    lu_name upd = name →
    kernel_step (mkSys links q p st evs) (mkSys (delete name links) (q ++ [upd]) p st evs).

(** [netlink.LinkByName] now. *)
Definition lookup_link (links : gmap string Link) (name : string) : M unit unit LinkByName_result :=
  mret match links !! name with Some l => FoundLink l | None => LinkNotFoundError end.

(** The subscriber: dump, fold the dump, then take, read and fold. *)
Inductive subscriber_step (s : LinkSubscriber) : sys → sys → Prop :=
| step_dump links q st evs l :
    l ≡ₚ map_to_list links →
    subscriber_step s (mkSys links q Starting st evs) (mkSys links q (Dumping l.*2) st evs)
| step_snapshot links q st evs ls w w' st' evs' :
    Rtnl.readSnapshot (E:=unit) (Ev:=unit) s (mret (inr ls)) w = (inr (st', evs'), w') →
    subscriber_step s (mkSys links q (Dumping ls) st evs) (mkSys links q Idle st' evs')
| step_skip links upd q st evs :
    watches s (lu_name upd) = false →
    subscriber_step s (mkSys links (upd :: q) Idle st evs) (mkSys links q Idle st evs)
| step_take links upd q st evs :
    watches s (lu_name upd) = true →
    subscriber_step s (mkSys links (upd :: q) Idle st evs) (mkSys links q (Reading (lu_name upd)) st evs)
| step_read links q st evs name upd w w' :
    Rtnl.reconcileVia (lookup_link links) name w = (inr upd, w') →
    subscriber_step s (mkSys links q (Reading name) st evs) (mkSys links q (Folding name upd) st evs)
| step_fold links q st evs name upd w w' st' ev :
    Rtnl.handleUpdate (E:=unit) (Ev:=unit) s st upd w = ((st', ev), w') →
    subscriber_step s (mkSys links q (Folding name upd) st evs) (mkSys links q Idle st' (evs ++ option_list ev)).

Definition sys_step (s : LinkSubscriber) (y y' : sys) : Prop := kernel_step y y' ∨ subscriber_step s y y'.

(** What the state map holds for a link. *)
Definition link_state (name : string) (l : option Link) : option LinkState :=
  (λ l, mkLinkState name (carrierFromFlags (l_rawflags l)) (l_operstate l)) <$> l.

(** What a read of a link returns. *)
Definition current_of (name : string) (l : option Link) : LinkUpdate :=
  match l with Some l => linkUpdateFromLink l | None => mkLinkUpdate RTM_DELLINK 0 (mkLink name 0 0) end.

Definition named (links : gmap string Link) : Prop := map_Forall (λ name l, l_name l = name) links.

(** A notification of the link is still queued. *)
Definition queued (q : list LinkUpdate) (name : string) : Prop := ∃ upd, upd ∈ q ∧ lu_name upd = name.

(** A dump as a map; a link listed again replaces the earlier one. *)
Definition dumped (ls : list Link) : gmap string Link := list_to_map (reverse ((λ l, (l_name l, l)) <$> ls)).

Lemma dumped_snoc ls l : dumped (ls ++ [l]) = <[l_name l := l]> (dumped ls).
Proof. unfold dumped. by rewrite fmap_app, reverse_app. Qed.

(** What the subscriber is known to hold of a watched link that no queued
    notification is about. *)
Definition up_to_date (y : sys) (name : string) : Prop :=
  match y_pc y with
  | Starting => True
  | Dumping ls => dumped ls !! name = y_links y !! name
  | Idle => y_state y !! name = link_state name (y_links y !! name)
  | Reading name' => name' = name ∨ y_state y !! name = link_state name (y_links y !! name)
  | Folding name' upd =>
      if decide (name' = name) then upd = current_of name (y_links y !! name)
      else y_state y !! name = link_state name (y_links y !! name)
  end.

Record sys_inv (s : LinkSubscriber) (y : sys) : Prop := {
  yi_named : named (y_links y);
  yi_tracks : tracks s (y_state y) (y_events y);
  yi_pc : match y_pc y with
          | Reading name => watches s name = true
          | Folding name upd => watches s name = true ∧ lu_name upd = name ∧
              ∃ l, upd = current_of name l
          | Starting => y_state y = ∅ ∧ y_events y = []
          | Dumping ls => y_state y = ∅ ∧ y_events y = []
          | Idle => True
          end;
  yi_known name : watches s name = true → queued (y_queue y) name ∨ up_to_date y name
}.

Lemma named_insert links l : named links → named (<[l_name l := l]> links).
Proof. intros Hn. by apply map_Forall_insert_2. Qed.

Lemma queued_app q upd name : queued q name → queued (q ++ [upd]) name.
Proof. intros (u & Hu & Hn). exists u. split; [apply elem_of_app; by left|done]. Qed.

Lemma queued_last q upd : queued (q ++ [upd]) (lu_name upd).
Proof. exists upd. split; [apply elem_of_app; right; apply list_elem_of_here|done]. Qed.

Lemma kernel_step_inv s y y' : kernel_step y y' → sys_inv s y → sys_inv s y'.
Proof.
  assert (Hgo : ∀ name upd links links' q p st evs, lu_name upd = name → named links' →
    (∀ n, n ≠ name → links' !! n = links !! n) →
    sys_inv s (mkSys links q p st evs) → sys_inv s (mkSys links' (q ++ [upd]) p st evs)).
  { intros name upd links links' q p st evs Hu Hn Heq [H1 H2 H3 H4]. split; [done|done|done|].
    intros n Hw. cbn [y_queue]. destruct (decide (n = name)) as [-> |Hne].
    - left. rewrite <- Hu. apply queued_last.
    - destruct (H4 n Hw) as [Hq|Hup]; [left; by apply queued_app|right].
      unfold up_to_date in *. cbn [y_pc y_links y_state] in *. by rewrite Heq. }
  intros [l upd links q p st evs Hu|name upd links q p st evs Hu] Hi.
  - eapply Hgo; [exact Hu| | |exact Hi]; [by apply named_insert, Hi|].
    intros n Hne. by apply lookup_insert_ne.
  - eapply Hgo; [exact Hu| | |exact Hi]; [by apply map_Forall_delete, Hi|].
    intros n Hne. by apply lookup_delete_ne.
Qed.

(** Folding a read leaves exactly what was read. *)
Lemma handleUpdate_current {E Ev} s st evs name l (w : World E Ev) :
  tracks s st evs → watches s name = true → (∀ k, l = Some k → l_name k = name) →
  wp (Rtnl.handleUpdate s st (current_of name l)) (λ r _, ∀ n,
    r.1 !! n = if decide (n = name) then link_state name l else st !! n) w.
Proof.
  intros Ht Hw Hn. unfold Rtnl.handleUpdate.
  assert (Hname : l_name (lu_link (current_of name l)) = name) by (destruct l as [k|]; [by apply Hn|done]).
  rewrite Hname, Hw. cbn [negb]. specialize (Ht name). destruct l as [k|]; cbn [current_of link_state fmap option_fmap option_map].
  - unfold linkUpdateFromLink. cbn [lu_type lu_flags lu_link]. change (RTM_NEWLINK =? RTM_DELLINK) with false.
    cbn [andb negb]. destruct (st !! name) as [ls|] eqn:Hs.
    + case_match eqn:Hun; cbn [negb].
      * apply wp_ret. intros n. cbn [fst]. destruct (decide (n = name)) as [-> |Hne]; [|done]. rewrite Hs.
        apply andb_prop in Hun as [Hc%bool_decide_eq_true Ho%Z.eqb_eq]. destruct Ht as (Hl & _). destruct ls; cbn in *.
        by subst.
      * apply wp_bind, wp_any. intros t w1. apply wp_ret. intros n. cbn [fst].
        destruct (decide (n = name)) as [-> |Hne]; [by rewrite lookup_insert_eq|by rewrite lookup_insert_ne].
    + apply wp_bind, wp_any. intros t w1. apply wp_ret. intros n. cbn [fst negb].
      destruct (decide (n = name)) as [-> |Hne]; [by rewrite lookup_insert_eq|by rewrite lookup_insert_ne].
  - cbn [lu_type lu_flags lu_link]. change (RTM_DELLINK =? RTM_DELLINK) with true. cbn [andb].
    case_bool_decide as Hs; cbn [negb].
    + match goal with |- wp (if ?b then _ else _) _ _ => destruct b end;
        [apply wp_ret|apply wp_bind, wp_any; intros t w1; apply wp_ret]; intros n; cbn [fst];
        (destruct (decide (n = name)) as [-> |Hne]; [by rewrite lookup_delete_eq|by rewrite lookup_delete_ne]).
    + apply wp_ret. intros n. cbn [fst]. destruct (decide (n = name)) as [-> |Hne]; [|done]. by apply eq_None_not_Some.
Qed.

(** Folding a dump leaves the dump. *)
Lemma readSnapshot_current {E Ev} s (ls : list Link) (w : World E Ev) :
  wp (Rtnl.readSnapshot s (mret (inr ls))) (λ r _, ∃ st evs, r = inr (st, evs) ∧ tracks s st evs ∧
    ∀ n, watches s n = true →
      st !! n = link_state n (dumped ls !! n)) w.
Proof.
  unfold Rtnl.readSnapshot. apply wp_bind, wp_ret, wp_bind.
  apply (wp_foldM _ _ (λ dn '(st, evs) _, tracks s st evs ∧ ∀ n, watches s n = true →
    st !! n = link_state n (dumped dn !! n))).
  - split; [apply tracks_empty|]. done.
  - intros dn l rest [st evs] w1 _ [Ht Hs]. cbn [fst snd]. apply wp_bind.
    destruct (watches s (l_name l)) eqn:Hw.
    2: { unfold Rtnl.handleUpdate. cbn [linkUpdateFromLink lu_link]. rewrite Hw. cbn [negb]. apply wp_ret, wp_ret.
         cbn [option_list]. rewrite app_nil_r. split; [done|]. intros n Hn. rewrite Hs, dumped_snoc by done.
         by rewrite lookup_insert_ne by congruence. }
    assert (H1 := handleUpdate_tracks s st evs (linkUpdateFromLink l) w1 Ht).
    assert (H2 := handleUpdate_current s st evs (l_name l) (Some l) w1 Ht Hw ltac:(by intros k [= <-])).
    unfold wp in H1, H2 |- *. cbn [current_of] in H2.
    destruct (Rtnl.handleUpdate s st (linkUpdateFromLink l) w1) as [[st' ev] w2]. cbn [fst snd mret M_ret] in *.
    split; [apply H1|]. intros n Hn. rewrite H2, dumped_snoc. destruct (decide (n = l_name l)) as [-> |Hne]; [by rewrite lookup_insert_eq|].
    by rewrite lookup_insert_ne, Hs.
  - intros [st evs] w1 [Ht Hs]. apply wp_ret. by exists st, evs.
Qed.

Lemma dumped_all links l : named links → l ≡ₚ map_to_list links → dumped l.*2 = links.
Proof.
  intros Hn Hp. unfold dumped. rewrite <- list_fmap_compose.
  assert ((λ p : string * Link, (l_name p.2, p.2)) <$> l = l) as He.
  { rewrite <- (list_fmap_id l) at 2. apply list_fmap_ext. intros i [k v] Hi. cbn. f_equal.
    apply Hn, elem_of_map_to_list. rewrite <- Hp. by apply list_elem_of_lookup_2 in Hi. }
  unfold compose. cbn. rewrite He. by apply list_to_map_ranged.
Qed.

Lemma subscriber_step_inv s y y' : subscriber_step s y y' → sys_inv s y → sys_inv s y'.
Proof.
  destruct 1 as [links q st evs l Hp|links q st evs ls w w' st' evs' Hr|links upd q st evs Hw|links upd q st evs Hw|
    links q st evs name upd w w' Hr|links q st evs name upd w w' st' ev Hr]; intros [H1 H2 H3 H4]; cbn in *.
  - split; [done|done|done|]. intros n Hn. right. unfold up_to_date. cbn. by rewrite (dumped_all links).
  - pose proof (readSnapshot_current s ls w) as H. unfold wp in H. rewrite Hr in H. cbn in H.
    destruct H as (? & ? & [= <- <-] & Ht & Hs). split; [done|done|done|]. intros n Hn.
    destruct (H4 n Hn) as [?|Hup]; [by left|right]. unfold up_to_date in *. cbn in *. by rewrite Hs, Hup.
  - split; [done|done|done|]. intros n Hn. destruct (H4 n Hn) as [(u & Hu & Hun)|?]; [|by right].
    apply elem_of_cons in Hu as [-> |Hu]; [congruence|]. left. by exists u.
  - split; [done|done|done|]. intros n Hn. unfold up_to_date in *. cbn in *.
    destruct (H4 n Hn) as [(u & Hu & Hun)|?]; [|right; by right].
    apply elem_of_cons in Hu as [-> |Hu]; [right; by left|]. left. by exists u.
  - assert (upd = current_of name (links !! name)) as ->.
    { unfold Rtnl.reconcileVia, lookup_link, mbind, M_bind, ctx_Err, mret, M_ret in Hr.
      destruct (cancelled w), (links !! name); cbn in *; congruence. }
    split; [done|done| |].
    + cbn. split; [done|]. split; [|by eexists]. unfold lu_name. destruct (links !! name) as [l|] eqn:Hl; [|done].
      by apply H1.
    + intros n Hn. destruct (H4 n Hn) as [?|Hup]; [by left|right]. unfold up_to_date in *. cbn in *.
      destruct (decide (name = n)) as [-> |Hne]; [done|]. by destruct Hup.
  - destruct H3 as (Hw & Hname & l & ->).
    assert (Hl : ∀ k, l = Some k → l_name k = name) by (by intros k ->).
    pose proof (handleUpdate_tracks s st evs (current_of name l) w H2) as Ht.
    pose proof (handleUpdate_current s st evs name l w H2 Hw Hl) as Hs.
    unfold wp in Ht, Hs. rewrite Hr in Ht, Hs. cbn in Ht, Hs. destruct Ht as [Ht _].
    split; [done|done|done|]. intros n Hn. destruct (H4 n Hn) as [?|Hup]; [by left|right].
    unfold up_to_date in *. cbn in *. rewrite Hs. destruct (decide (n = name)) as [-> |Hne].
    + rewrite decide_True in Hup by done. destruct l as [k|], (links !! name) as [k'|]; cbn in *; try done.
      by injection Hup as Hf <-.
    + by rewrite decide_False in Hup.
Qed.

Lemma sys_step_inv s y y' : sys_step s y y' → sys_inv s y → sys_inv s y'.
Proof. intros [H|H]; [by apply kernel_step_inv|by apply subscriber_step_inv]. Qed.

Lemma subscribed_inv s links : named links → sys_inv s (subscribed links).
Proof. intros Hn. split; [done|apply tracks_empty|done|]. intros n _. by right. Qed.

(** Steps the subscriber has left when the kernel is quiet. *)
Definition work (y : sys) : nat :=
  3 * length (y_queue y) + match y_pc y with Starting => 2 | Dumping _ => 1 | Idle => 0 | Reading _ => 2 | Folding _ _ => 1 end.

Lemma subscriber_step_work s y y' : subscriber_step s y y' → (work y' < work y)%nat.
Proof. destruct 1; unfold work; cbn; lia. Qed.

Lemma subscriber_step_links s y y' : subscriber_step s y y' → y_links y' = y_links y.
Proof. by destruct 1. Qed.

Definition live_world : World unit unit := mkWorld (mkSchedule None (λ _, 1%positive) (λ _ _, 0%nat)) 0 () [].

Lemma subscriber_progress s y : (0 < work y)%nat → ∃ y', subscriber_step s y y'.
Proof.
  destruct y as [links q [|ls| |name|name upd] st evs]; unfold work; cbn; intros Hw.
  - eexists. by apply step_dump.
  - pose proof (readSnapshot_current s ls live_world) as H. unfold wp in H.
    destruct (Rtnl.readSnapshot s (mret (inr ls)) live_world) as [r w'] eqn:Hr. cbn in H.
    destruct H as (st' & evs' & -> & _). eexists. by eapply step_snapshot.
  - destruct q as [|upd q]; [cbn in Hw; lia|].
    destruct (watches s (lu_name upd)) eqn:Hn; eexists; [by apply step_take|by apply step_skip].
  - destruct (Rtnl.reconcileVia (lookup_link links) name live_world) as [[err|upd] w'] eqn:Hr.
    + unfold Rtnl.reconcileVia, lookup_link, mbind, M_bind, ctx_Err, mret, M_ret in Hr. cbn in Hr.
      by destruct (links !! name).
    + eexists. by eapply step_read.
  - destruct (Rtnl.handleUpdate s st upd live_world) as [[st' ev] w'] eqn:Hr. eexists. by eapply step_fold.
Qed.

(** ** Properties *)

(** C30. The link subscriber catches up. However the kernel's changes fall between
    its steps, also during the start-up dump and between a notification and the
    read it causes: whenever the subscriber is idle with no notification queued,
    it holds exactly the carrier and operstate that every watched link has in
    the kernel, and the last event it reported of the link says just that, or
    that it is down and not present if there is no such link. Once the kernel
    is quiet it gets there within three steps per queued notification and two
    more, and never stops before. *)
Theorem link_subscriber_catches_up s links y :
  map_Forall (λ name l, l_name l = name) links → rtc (sys_step s) (subscribed links) y →
  (y_pc y = Idle → y_queue y = [] → ∀ name, watches s name = true →
     y_state y !! name = (λ l, mkLinkState name (carrierFromFlags (l_rawflags l)) (l_operstate l)) <$> y_links y !! name ∧
     match y_links y !! name with
     | Some l => ∃ e, last_event name (y_events y) = Some e ∧
         le_carrier e = carrierFromFlags (l_rawflags l) ∧ le_operstate e = l_operstate l
     | None => ∀ e, last_event name (y_events y) = Some e →
         le_carrier e = CarrierDown ∧ le_operstate e = OperstateNotPresent
     end) ∧
  (∀ n y', nsteps (subscriber_step s) n y y' → (n ≤ 3 * length (y_queue y) + 2)%nat ∧ y_links y' = y_links y ∧
     ((∀ y2, ¬ subscriber_step s y' y2) → y_pc y' = Idle ∧ y_queue y' = [])).
Proof.
  intros Hn Hrun.
  assert (Hi : sys_inv s y).
  { pose proof (subscribed_inv s links Hn) as H. clear Hn. revert H.
    induction Hrun as [|y1 y2 y3 H12 _ IH]; [done|]. intros H. by apply IH, (sys_step_inv s y1). }
  split.
  - intros Hpc Hq name Hw. destruct (yi_known _ _ Hi name Hw) as [(u & Hu & _)|Hup].
    { rewrite Hq in Hu. by apply elem_of_nil in Hu. }
    unfold up_to_date in Hup. rewrite Hpc in Hup. split; [exact Hup|].
    pose proof (yi_tracks _ _ Hi name) as Ht. rewrite Hup in Ht.
    destruct (y_links y !! name) as [l|]; cbn in Ht; [|exact Ht]. by destruct Ht as (_ & _ & Ht).
  - assert (Hw : ∀ n y', nsteps (subscriber_step s) n y y' → (n + work y' ≤ work y)%nat ∧ y_links y' = y_links y).
    { intros n y'. clear Hi Hrun. induction 1 as [|n y1 y2 y3 H12 _ IH]; [done|].
      pose proof (subscriber_step_work _ _ _ H12). rewrite <- (subscriber_step_links _ _ _ H12).
      destruct IH as [IH ->]. split; [lia|done]. }
    intros n y' Hs. destruct (Hw n y' Hs) as [Hle Hl]. split; [|split; [done|]].
    + unfold work in Hle. destruct (y_pc y); lia.
    + intros Hstuck. destruct (Nat.eq_0_gt_0_cases (work y')) as [H0|H0].
      * unfold work in H0. destruct (y_pc y'), (y_queue y'); cbn in H0; try lia; done.
      * destruct (subscriber_progress s y' H0) as [y2 H2]. by destruct (Hstuck y2).
Qed.

(** A link that is up in the dump and loses its carrier before the subscriber
    reads it. *)
Lemma link_subscriber_catches_up_witness :
  let s := mkLinkSubscriber (Some {["ppp0"]}) in
  let up := mkLink "ppp0" IFF_LOWER_UP 6 in
  let down := mkLink "ppp0" 0 2 in
  ∃ y, rtc (sys_step s) (subscribed {[ "ppp0" := up ]}) y ∧ length (y_events y) = 2%nat ∧
    ∃ e, last_event "ppp0" (y_events y) = Some e ∧ le_carrier e = CarrierDown ∧ le_operstate e = 2.
Proof.
  intros s up down.
  assert (∃ y, rtc (sys_step s) (subscribed {[ "ppp0" := up ]}) y ∧ length (y_events y) = 2%nat ∧
    y_pc y = Idle ∧ y_queue y = [] ∧ y_links y = <["ppp0" := down]> {[ "ppp0" := up ]}) as (y & Hr & Hlen & Hp & Hq & Hl).
  { eexists. split.
    - eapply rtc_l; [right; apply (step_dump _ _ _ _ _ [("ppp0", up)]); by rewrite map_to_list_singleton|].
      eapply rtc_l; [right; eapply (step_snapshot _ _ _ _ _ _ live_world); by vm_compute|].
      eapply rtc_l; [left; by apply (kernel_set down (mkLinkUpdate RTM_NEWLINK 0 down))|].
      eapply rtc_l; [right; by apply step_take|].
      eapply rtc_l; [right; eapply (step_read _ _ _ _ _ _ _ live_world); by vm_compute|].
      eapply rtc_l; [right; eapply (step_fold _ _ _ _ _ _ _ live_world); by vm_compute|]. apply rtc_refl.
    - by vm_compute. }
  exists y. split; [done|]. split; [done|].
  destruct (link_subscriber_catches_up s {[ "ppp0" := up ]} y) as [H _]; [by apply map_Forall_singleton|done|].
  destruct (H Hp Hq "ppp0") as [_ He]; [by vm_compute|]. rewrite Hl, lookup_insert_eq in He. exact He.
Defined.


