(* ===== verification/Health.v ===== *)
(** * WAN Health ([health.go])

    Each WAN's Health from two event streams: the ProbeResults of its
    Families, through thresholds and Hysteresis, and the LinkEvents of its
    interface. The maps of pointers become maps of values, written back where
    the code mutates through the pointer. Metric operations are effects.

    The specification [health_spec] computes a WAN's Health from the history
    of events alone; [health_refines_history] shows that the incremental state
    agrees with it after any sequence of events. *)
From Stdlib Require Import QArith.QArith QArith.Qcanon.
From S2P Require Import Prelude GoFloat Icmp Aggregate Hysteresis Runtime Metrics Rtnl Selector State Config.

#[local] Open Scope Z_scope.

(** daemon/internal/health/health.go:21-29 (Change): fields *)
Record Change := mkChange { ch_Flipped : list string; ch_Republish : bool }.

(** The zero Change. *)
Definition noChange : Change := mkChange [] false.

(** daemon/internal/health/health.go:47-59 (family): one (WAN, Family) slice *)
Record family := mkFamily {
  f_targets : list string; f_stats : FamilyStats; f_hyst : hysteresis;
  f_healthy : bool; f_cooked : bool
}.

(** daemon/internal/health/health.go:39-45 (wan): fields *)
Record wan := mkWanHealth {
  wn_name : string; wn_cfg : Wan; wn_carrier : Carrier; wn_operstate : Operstate;
  wn_families : gmap Family family
}.

(** The WANs by name ([Wans] of daemon/internal/health/health.go, lines 31 to
    37); its metrics registry is the effect log *)
Abbreviation Wans := (gmap string wan).

Definition set_family (ws : wan) (fam : Family) (fs : family) : wan :=
  mkWanHealth (wn_name ws) (wn_cfg ws) (wn_carrier ws) (wn_operstate ws)
    (<[fam := fs]> (wn_families ws)).

Definition set_link (ws : wan) (c : Carrier) (o : Operstate) : wan :=
  mkWanHealth (wn_name ws) (wn_cfg ws) c o (wn_families ws).

(** ** Verdicts *)

(** daemon/internal/health/health.go:393-399 (orZero): no data as 0 *)
Definition orZero (v : option Z) : Z := default 0 v.

(** daemon/internal/health/health.go:401-406 (boolToFloat): 0 or 1 *)
Definition boolToFloat (b : bool) : float64 := if b then f64_one else f64_zero.

(** daemon/internal/health/health.go:359-362 (comparePct): exact comparison of
    a ratio with a percentage *)
Definition comparePct (r : Qc) (pct : Z) : comparison := (r ?= NewRat pct 100)%Qc.

(** daemon/internal/health/health.go:364-369 (msToMicros): a negative threshold
    counts as 0; the product wraps *)
Definition msToMicros (ms : Z) : Z := u64 (Z.max ms 0 * 1000).

(** daemon/internal/health/health.go:336-357 (evaluateThresholds): the
    two-threshold band-pass *)
Definition evaluateThresholds (prev : bool) (stats : FamilyStats) (t : Thresholds) : bool :=
  let loss := default 0%Qc (fs_ExactLoss stats) in
  let rttMicros := orZero (fs_RTTMicros stats) in
  if prev then
    match comparePct loss (LossPctDown t) with Lt => true | _ => false end &&
    (rttMicros <? msToMicros (RttMsDown t))
  else
    match comparePct loss (LossPctUp t) with Gt => false | _ => true end &&
    (rttMicros <=? msToMicros (RttMsUp t)).

(** daemon/internal/health/health.go:371-391 (carrierUp): carrier or operstate
    up, unless either is down *)
Definition carrierUp (c : Carrier) (o : Operstate) : bool :=
  if decide (c = CarrierDown) then false
  else if (o =? OperstateDown) || (o =? OperstateLowerLayerDown) || (o =? OperstateNotPresent) then false
  else bool_decide (c = CarrierUp) || (o =? OperstateUp).

(** daemon/internal/health/health.go:311-313 (familyPolicyAny): literal *)
Definition familyPolicyAny : string := "any".

(** daemon/internal/health/health.go:326-328 (combineFamilies): a Family's vote *)
Definition votes_healthy (f : family) : bool := negb (f_cooked f) || f_healthy f.

(** daemon/internal/health/health.go:324-329 (combineFamilies): the count; it
    does not depend on the map's order *)
Definition count_votes (fams : gmap Family family) : Z :=
  foldr (λ f n, if votes_healthy f then n + 1 else n) 0 (map_to_list fams).*2.

(** daemon/internal/health/health.go:315-334 (combineFamilies): the Families
    under the policy *)
Definition combineFamilies (ws : wan) : bool :=
  if decide (wn_families ws = ∅) then false
  else
    let healthy := count_votes (wn_families ws) in
    if decide (FamilyHealthPolicy (w_Probe (wn_cfg ws)) = familyPolicyAny) then 0 <? healthy
    else healthy =? Z.of_nat (size (wn_families ws)).

(** daemon/internal/health/health.go:304-309 (wan.healthy): derived on demand *)
Definition wan_healthy (ws : wan) : bool :=
  carrierUp (wn_carrier ws) (wn_operstate ws) && combineFamilies ws.

(** daemon/internal/health/health.go:254-258 (Healthy): an unknown WAN is
    unhealthy *)
Definition Healthy (w : Wans) (name : string) : bool :=
  match w !! name with Some ws => wan_healthy ws | None => false end.

(** ** Gauges *)

(** daemon/internal/health/health.go:161-169 (seconds): nil stays nil *)
Definition seconds (micros : option Z) : option float64 :=
  (λ m, f64_div (f64_of_Z m) (f64_of_Z 1000000)) <$> micros.

(** daemon/internal/health/health.go:171-178 (gaugeValue): NaN for no data *)
Definition gaugeValue (v : option float64) : float64 := default f64_nan v.

(** daemon/internal/health/health.go:209-219 (operstates): the state-set *)
Definition operstates : list Operstate :=
  [OperstateUp; OperstateDown; OperstateDormant; OperstateLowerLayerDown;
   OperstateNotPresent; OperstateTesting; OperstateUnknown].

(** daemon/internal/health/health.go:221-228 (knownOperstate): unknown outside
    the state-set *)
Definition knownOperstate (o : Operstate) : Operstate :=
  if existsb (Z.eqb o) operstates then o else OperstateUnknown.

(** daemon/internal/health/health.go:242-252 (carrierValue): 1, 0 or -1 *)
Definition carrierValue (c : Carrier) : float64 :=
  match c with
  | CarrierUp => f64_one
  | CarrierDown => f64_zero
  | CarrierUnknown => f64_of_Z (-1)
  end.

Section health.
Context {E Ev : Type} `{!MetricSink Ev}.

(** daemon/internal/health/health.go:149-159 (recordStats): the probe gauges *)
Definition recordStats (wan : string) (fam : Family) (stats : FamilyStats) : M E Ev unit :=
  let f := Family_String fam in
  _ ← Set_ ProbeRTT [wan; f] (gaugeValue (seconds (fs_RTTMicros stats)));
  _ ← Set_ ProbeJitter [wan; f] (gaugeValue (seconds (fs_JitterMicros stats)));
  _ ← Set_ ProbeLoss [wan; f] (gaugeValue (fs_LossRatio stats));
  forM (fs_PerTarget stats) (λ t,
    Set_ ProbeTargetRTT [wan; f; ts_Target t] (gaugeValue (seconds (ts_RTTMicros t)))).

(** daemon/internal/health/health.go:139-147 (recordProbe): the probe gauges and
    the verdicts the result left behind *)
Definition recordProbe (ws : wan) (fs : family) (r : ProbeResult) : M E Ev unit :=
  _ ← recordStats (wn_name ws) (pr_Family r) (pr_Stats r);
  let fam := Family_String (pr_Family r) in
  _ ← Set_ WanFamilyHealthy [wn_name ws; fam] (boolToFloat (f_healthy fs));
  Set_ WanHealthy [wn_name ws] (boolToFloat (wan_healthy ws)).

(** daemon/internal/health/health.go:230-240 (recordLink): the link gauges *)
Definition recordLink (ws : wan) : M E Ev unit :=
  _ ← Set_ WanCarrier [wn_name ws] (carrierValue (wn_carrier ws));
  let current := knownOperstate (wn_operstate ws) in
  forM operstates (λ o,
    Set_ WanOperstate [wn_name ws; Operstate_String o] (boolToFloat (o =? current))).

(** ** Operations *)

(** daemon/internal/health/health.go:70-78 (New): one cold Family *)
Definition newFamily (cfg : Wan) (fam : Family) : family :=
  let hyst := p_Hysteresis (w_Probe cfg) in
  let targets := For_ (p_Targets (w_Probe cfg)) fam in
  mkFamily targets
    (mkFamilyStats None None None None false
       ((λ t, mkTargetStats t None None None None) <$> targets))
    (newHysteresis (ConsecutiveUp hyst) (ConsecutiveDown hyst)) false false.

(** daemon/internal/health/health.go:67-83 (New): one cold WAN *)
Definition newWan (name : string) (cfg : Wan) : M E Ev wan :=
  ws ← foldM (λ ws fam,
         let fs := newFamily cfg fam in
         _ ← recordStats name fam (f_stats fs);
         mret (set_family ws fam fs))
       (mkWanHealth name cfg CarrierUnknown OperstateUnknown ∅)
       (Families (p_Targets (w_Probe cfg)));
  _ ← recordLink ws;
  mret ws.

(** daemon/internal/health/health.go:61-86 (New): every configured WAN *)
Definition New (cfgs : gmap string Wan) : M E Ev Wans :=
  entries ← range cfgs;
  foldM (λ w '(name, cfg), ws ← newWan name cfg; mret (<[name := ws]> w)) ∅ entries.

(** daemon/internal/health/health.go:112-137 (fold): one full-Window verdict
    through thresholds and Hysteresis. [fs], already stored in [ws], carries
    the new statistics. *)
Definition fold (ws : wan) (fam : Family) (fs : family) (stats : FamilyStats) : wan * family * Change :=
  let prev := wan_healthy ws in
  let raw := evaluateThresholds (f_healthy fs || negb (f_cooked fs)) stats
               (p_Thresholds (w_Probe (wn_cfg ws))) in
  let hyst := if f_cooked fs then observe (f_hyst fs) raw else seed (f_hyst fs) raw in
  let stable := h_healthy hyst in
  let republish := negb (f_cooked fs) || negb (Bool.eqb stable (f_healthy fs)) in
  let fs := mkFamily (f_targets fs) (f_stats fs) hyst stable true in
  let ws := set_family ws fam fs in
  let flipped := if Bool.eqb (wan_healthy ws) prev then [] else [wn_name ws] in
  (ws, fs, mkChange flipped republish).

(** daemon/internal/health/health.go:88-110 (Probe): fold one ProbeResult into
    its WAN *)
Definition Probe (w : Wans) (r : ProbeResult) : M E Ev (Wans * Change) :=
  match w !! pr_Wan r with
  | None => mret (w, noChange)
  | Some ws =>
      match wn_families ws !! pr_Family r with
      | None => mret (w, noChange)
      | Some fs =>
          let fs := mkFamily (f_targets fs) (pr_Stats r) (f_hyst fs) (f_healthy fs) (f_cooked fs) in
          let ws := set_family ws (pr_Family r) fs in
          let '(ws, fs, c) :=
            if f_cooked fs || fs_WindowFilled (pr_Stats r)
            then fold ws (pr_Family r) fs (pr_Stats r)
            else (ws, fs, noChange) in
          _ ← recordProbe ws fs r;
          mret (<[pr_Wan r := ws]> w, c)
      end
  end.

(** daemon/internal/health/health.go:185-204 (Link): one WAN *)
Definition link_one (e : LinkEvent) (acc : Wans * Change) (entry : string * wan) : M E Ev (Wans * Change) :=
  let '(w, c) := acc in
  let '(name, ws) := entry in
  if negb (bool_decide (w_Interface (wn_cfg ws) = le_name e)) then mret (w, c)
  else
    let prev := wan_healthy ws in
    let carrierChanged := negb (bool_decide (le_carrier e = wn_carrier ws)) in
    _ ← (if carrierChanged then Inc WanCarrierChanges [wn_name ws] else mret ());
    let republish := ch_Republish c || carrierChanged || negb (le_operstate e =? wn_operstate ws) in
    let ws := set_link ws (le_carrier e) (le_operstate e) in
    _ ← recordLink ws;
    let now := wan_healthy ws in
    _ ← Set_ WanHealthy [wn_name ws] (boolToFloat now);
    let flipped := if Bool.eqb now prev then ch_Flipped c else ch_Flipped c ++ [wn_name ws] in
    mret (<[name := ws]> w, mkChange flipped republish).

(** daemon/internal/health/health.go:180-207 (Link): fold a LinkEvent into
    every WAN on its interface *)
Definition Link (w : Wans) (e : LinkEvent) : M E Ev (Wans * Change) :=
  entries ← range w;
  '(w, c) ← foldM (link_one e) (w, noChange) entries;
  mret (w, mkChange (sort_strings (ch_Flipped c)) (ch_Republish c)).

(** daemon/internal/health/health.go:260-273 (MemberHealth): the Members with
    their WANs' Health, by WAN name *)
Definition MemberHealth (w : Wans) (g : Group) : M E Ev (list MemberHealth) :=
  entries ← range (g_members g);
  mret (merge_sort (by_key String.le (λ mh, m_wan (mh_member mh)))
          ((λ '(_, m), mkMemberHealth m (Healthy w (m_wan m))) <$> entries)).

(** daemon/internal/health/health.go:284-300 (Snapshot): one WAN's State view,
    without Gateways *)
Definition snapshot_wan (ws : wan) : SWan :=
  mkSWan (w_Interface (wn_cfg ws)) (Carrier_String (wn_carrier ws))
    (Operstate_String (knownOperstate (wn_operstate ws))) (wan_healthy ws)
    (mkGateways None None)
    (list_to_map ((λ '(fam, fs),
       (Family_String fam,
        mkFamilyHealth (f_healthy fs) (seconds (fs_RTTMicros (f_stats fs)))
          (seconds (fs_JitterMicros (f_stats fs))) (fs_LossRatio (f_stats fs)) (f_targets fs)))
       <$> map_to_list (wn_families ws))).

(** daemon/internal/health/health.go:275-302 (Snapshot): every WAN *)
Definition Snapshot (w : Wans) : gmap string SWan := snapshot_wan <$> w.

End health.

(** ** Specification: Health from the history of events *)

Inductive hevent := HProbe (r : ProbeResult) | HLink (e : LinkEvent).

(** One event. *)
Definition handle_change {E Ev} `{!MetricSink Ev} (w : Wans) (ev : hevent) : M E Ev (Wans * Change) :=
  match ev with HProbe r => Probe w r | HLink e => Link w e end.

(** One event, its Change dropped. *)
Definition handle {E Ev} `{!MetricSink Ev} (w : Wans) (ev : hevent) : M E Ev Wans :=
  '(w, _) ← handle_change w ev; mret w.

(** The history of [cfgs] after [events]. *)
Definition run {E Ev} `{!MetricSink Ev} (cfgs : gmap string Wan) (events : list hevent) : M E Ev Wans :=
  w ← New cfgs; foldM handle w events.

(** How a Family's results act on it: statistics are always kept; from the
    first full Window on, each verdict is folded into Hysteresis. *)
Definition fam_next (t : Thresholds) (fs : family) (stats : FamilyStats) : family :=
  if f_cooked fs || fs_WindowFilled stats then
    let raw := evaluateThresholds (f_healthy fs || negb (f_cooked fs)) stats t in
    let h := if f_cooked fs then observe (f_hyst fs) raw else seed (f_hyst fs) raw in
    mkFamily (f_targets fs) stats h (h_healthy h) true
  else mkFamily (f_targets fs) stats (f_hyst fs) (f_healthy fs) (f_cooked fs).

(** The last link state of an interface. *)
Definition link_next (iface : string) (s : Carrier * Operstate) (ev : hevent) : Carrier * Operstate :=
  match ev with
  | HLink e => if bool_decide (iface = le_name e) then (le_carrier e, le_operstate e) else s
  | HProbe _ => s
  end.

Definition last_link (iface : string) (events : list hevent) : Carrier * Operstate :=
  foldl (link_next iface) (CarrierUnknown, OperstateUnknown) events.

(** The results of one Family of one WAN. *)
Definition results (name : string) (fam : Family) (events : list hevent) : list FamilyStats :=
  omap (λ ev, match ev with
              | HProbe r => if bool_decide (pr_Wan r = name ∧ pr_Family r = fam)
                            then Some (pr_Stats r) else None
              | HLink _ => None
              end) events.

Definition fam_history (name : string) (cfg : Wan) (events : list hevent) (fam : Family) : family :=
  foldl (fam_next (p_Thresholds (w_Probe cfg))) (newFamily cfg fam) (results name fam events).

Definition wan_history (name : string) (cfg : Wan) (events : list hevent) : wan :=
  let '(c, o) := last_link (w_Interface cfg) events in
  mkWanHealth name cfg c o
    (list_to_map ((λ fam, (fam, fam_history name cfg events fam)) <$> Families (p_Targets (w_Probe cfg)))).

Definition health_spec (cfgs : gmap string Wan) (events : list hevent) : Wans :=
  map_imap (λ name cfg, Some (wan_history name cfg events)) cfgs.

(** ** Lemmas *)

Lemma set_family_twice ws fam fs fs' : set_family (set_family ws fam fs) fam fs' = set_family ws fam fs'.
Proof. unfold set_family. simpl. by rewrite insert_insert_eq. Qed.

Lemma count_votes_insert fams k f :
  fams !! k = None →
  count_votes (<[k := f]> fams) = (if votes_healthy f then 1 else 0) + count_votes fams.
Proof.
  intros Hk. unfold count_votes.
  assert (Hp : ∀ l1 l2, l1 ≡ₚ l2 →
    foldr (λ f n, if votes_healthy f then n + 1 else n) 0 l1 =
    foldr (λ f n, if votes_healthy f then n + 1 else n) 0 l2).
  { induction 1; simpl; repeat case_match; congruence || lia. }
  rewrite (Hp _ (f :: (map_to_list fams).*2)) by (by rewrite map_to_list_insert).
  simpl. destruct (votes_healthy f); lia.
Qed.

(** Health sees a Family through its vote alone. *)
Lemma wan_healthy_set_family ws fam fs fs' :
  wn_families ws !! fam = Some fs → votes_healthy fs' = votes_healthy fs →
  wan_healthy (set_family ws fam fs') = wan_healthy ws.
Proof.
  intros Hf Hv. unfold wan_healthy, combineFamilies. cbn [set_family wn_carrier wn_operstate wn_families wn_cfg].
  assert (Hs : size (<[fam := fs']> (wn_families ws)) = size (wn_families ws)).
  { rewrite map_size_insert_Some; [done|by eexists]. }
  assert (Hc : count_votes (<[fam := fs']> (wn_families ws)) = count_votes (wn_families ws)).
  { rewrite <- (insert_delete_id (wn_families ws) fam fs) at 2 by done.
    rewrite <- insert_delete_eq, !count_votes_insert by apply lookup_delete_eq. by rewrite Hv. }
  rewrite Hc, Hs. rewrite (decide_ext (<[fam := fs']> (wn_families ws) = ∅) (wn_families ws = ∅)).
  - done.
  - split; intros He; [by apply insert_non_empty in He|by rewrite He in Hf].
Qed.

(** What a probe result does to the state. *)
Definition probe_update (w : Wans) (r : ProbeResult) : Wans :=
  match w !! pr_Wan r with
  | Some ws =>
      match wn_families ws !! pr_Family r with
      | Some fs => <[pr_Wan r := set_family ws (pr_Family r)
                       (fam_next (p_Thresholds (w_Probe (wn_cfg ws))) fs (pr_Stats r))]> w
      | None => w
      end
  | None => w
  end.

Definition link_update (e : LinkEvent) (ws : wan) : wan :=
  if bool_decide (w_Interface (wn_cfg ws) = le_name e)
  then set_link ws (le_carrier e) (le_operstate e) else ws.

Definition health_changed (ws ws' : wan) : bool := negb (Bool.eqb (wan_healthy ws') (wan_healthy ws)).

Lemma probe_spec {E Ev} `{!MetricSink Ev} w r (wd : World E Ev) :
  wp (Probe w r) (λ '(w', c) _,
    w' = probe_update w r ∧
    (∀ ws, w !! pr_Wan r = Some ws → ch_Flipped c =
       match w' !! pr_Wan r with
       | Some ws' => if health_changed ws ws' then [wn_name ws] else []
       | None => []
       end) ∧
    (w !! pr_Wan r = None → ch_Flipped c = []) ∧
    ch_Republish c =
      match w !! pr_Wan r ≫= (λ ws, (ws,.) <$> wn_families ws !! pr_Family r) with
      | Some (ws, fs) =>
          let fs' := fam_next (p_Thresholds (w_Probe (wn_cfg ws))) fs (pr_Stats r) in
          negb (Bool.eqb (f_cooked fs') (f_cooked fs)) ||
          f_cooked fs && negb (Bool.eqb (f_healthy fs') (f_healthy fs))
      | None => false
      end) wd.
Proof.
  unfold Probe, probe_update. destruct (w !! pr_Wan r) as [ws|] eqn:Hw; [|apply wp_ret; split; [done|split; [done|split; done]]].
  cbn [mbind option_bind]. destruct (wn_families ws !! pr_Family r) as [fs|] eqn:Hf.
  2: { apply wp_ret. split; [done|]. rewrite Hw. split; [|done]. intros ws' [= <-].
       unfold health_changed. by rewrite Bool.eqb_reflx. }
  cbn [f_cooked]. unfold fam_next.
  destruct (f_cooked fs || fs_WindowFilled (pr_Stats r)) eqn:Hc; cbn [fold].
  - unfold fold. cbn [f_cooked f_healthy f_hyst f_stats f_targets wn_cfg set_family wn_name].
    rewrite set_family_twice.
    match goal with |- context [set_family ws _ ?fs'] => set (fs1 := fs') end.
    apply wp_bind, wp_any. intros [] wd'. apply wp_ret. split; [done|]. rewrite lookup_insert_eq. split; [|split; [done|]].
    + intros ws' [= <-]. cbn [ch_Flipped]. unfold health_changed.
      rewrite (wan_healthy_set_family ws _ fs (mkFamily (f_targets fs) (pr_Stats r) (f_hyst fs)
        (f_healthy fs) (f_cooked fs))) by done. by destruct (Bool.eqb _ _).
    + cbn [fmap option_fmap option_map ch_Republish]. unfold fam_next. rewrite Hc.
      cbn [f_cooked f_healthy]. destruct (f_cooked fs); cbn [negb orb andb Bool.eqb]; done.
  - apply wp_bind, wp_any. intros [] wd'. apply wp_ret. split; [done|]. rewrite lookup_insert_eq. split; [|split; [done|]].
    + intros ws' [= <-]. cbn [ch_Flipped noChange]. unfold health_changed.
      rewrite (wan_healthy_set_family ws _ fs) by done. by rewrite Bool.eqb_reflx.
    + cbn [fmap option_fmap option_map ch_Republish noChange]. unfold fam_next. rewrite Hc.
      cbn [f_cooked f_healthy]. by rewrite !Bool.eqb_reflx, andb_false_r.
Qed.

(** What a link event does to the entries it visits. *)
Definition link_republishes (e : LinkEvent) (ws : wan) : bool :=
  bool_decide (w_Interface (wn_cfg ws) = le_name e) &&
  (negb (bool_decide (le_carrier e = wn_carrier ws)) || negb (le_operstate e =? wn_operstate ws)).

Definition flips (e : LinkEvent) (entries : list (string * wan)) : list string :=
  omap (λ '(_, ws), if health_changed ws (link_update e ws) then Some (wn_name ws) else None) entries.

Lemma link_one_spec {E Ev} `{!MetricSink Ev} e w c name ws (wd : World E Ev) :
  w !! name = Some ws →
  wp (link_one e (w, c) (name, ws)) (λ r _,
    r = (<[name := link_update e ws]> w,
         mkChange (ch_Flipped c ++ flips e [(name, ws)]) (ch_Republish c || link_republishes e ws))) wd.
Proof.
  intros Hw. unfold link_one, link_republishes, flips, health_changed, link_update.
  csimpl. case_bool_decide as Hi; cbn [negb andb].
  - apply wp_bind, wp_any. intros [] wd1.
    apply wp_bind, wp_any. intros [] wd2.
    apply wp_bind, wp_any. intros [] wd3. apply wp_ret.
    cbn [ch_Flipped ch_Republish]. rewrite orb_assoc.
    by destruct (Bool.eqb _ _); cbn; rewrite ?app_nil_r.
  - apply wp_ret. rewrite Bool.eqb_reflx. cbn. rewrite app_nil_r, orb_false_r, insert_id by done.
    by destruct c.
Qed.

Lemma link_spec {E Ev} `{!MetricSink Ev} w e (wd : World E Ev) :
  wp (Link w e) (λ r _,
    r = (link_update e <$> w,
         mkChange (sort_strings (flips e (map_to_list w)))
           (existsb (λ p, link_republishes e p.2) (map_to_list w)))) wd.
Proof.
  unfold Link. apply wp_bind. unfold wp at 1, range. cbn [fst snd].
  set (l := shuffle _ _). assert (l ≡ₚ map_to_list w) as Hp by apply shuffle_Permutation.
  assert (Hin : ∀ k ws, (k, ws) ∈ l → w !! k = Some ws).
  { intros k ws Hk. rewrite Hp in Hk. by apply elem_of_map_to_list. }
  assert (Hnd : NoDup l.*1) by (rewrite Hp; apply NoDup_fst_map_to_list).
  apply wp_bind. apply (wp_foldM _ _ (λ dn acc _,
    (∀ k, acc.1 !! k = if decide (k ∈ dn.*1) then link_update e <$> w !! k else w !! k) ∧
    acc.2 = mkChange (flips e dn) (existsb (λ p, link_republishes e p.2) dn))).
  - split; [|done]. intros k. rewrite decide_False; [done|]. apply not_elem_of_nil.
  - intros dn [name ws] rest [w1 c1] wd1 Hl [Hw1 Hc1]. cbn [fst snd] in *.
    assert (Hws : w !! name = Some ws) by (apply Hin; rewrite Hl; apply elem_of_app; right; apply list_elem_of_here).
    assert (Hnew : name ∉ dn.*1).
    { rewrite Hl, fmap_app in Hnd. apply NoDup_app in Hnd as (_ & Hd & _). intros Hd1.
      apply (Hd name Hd1). apply list_elem_of_here. }
    eapply wp_mono; [apply link_one_spec; by rewrite Hw1, decide_False|].
    intros r wd2 ->. cbn [fst snd]. split.
    + intros k. rewrite fmap_app. destruct (decide (k = name)) as [-> |Hne].
      * rewrite lookup_insert_eq, decide_True, Hws; [done|]. apply elem_of_app. right. apply list_elem_of_here.
      * rewrite lookup_insert_ne, Hw1 by done.
        rewrite (decide_ext (k ∈ dn.*1 ++ [(name, ws)].*1) (k ∈ dn.*1)); [done|].
        rewrite elem_of_app. csimpl. rewrite list_elem_of_singleton. tauto.
    + rewrite Hc1. cbn [ch_Flipped ch_Republish]. unfold flips. rewrite omap_app, existsb_app. cbn.
      by rewrite orb_false_r.
  - intros [w1 c1] wd1 [Hw1 Hc1]. cbn [fst snd] in *. apply wp_ret. f_equal.
    + apply map_eq. intros k. rewrite Hw1, lookup_fmap. destruct (w !! k) as [ws|] eqn:Hk; [|by case_decide].
      rewrite decide_True; [done|]. rewrite Hp. apply list_elem_of_fmap. exists (k, ws).
      split; [done|]. by apply elem_of_map_to_list.
    + rewrite Hc1. cbn [ch_Flipped ch_Republish]. f_equal.
      * unfold flips. apply (sort_unique String.le). by rewrite Hp.
      * apply existsb_Permutation, Hp.
Qed.

(** A map built from a list of keys. *)
Lemma lookup_keyed {A} (f : Family → A) (l : list Family) k :
  (list_to_map ((λ fam, (fam, f fam)) <$> l) : gmap Family A) !! k =
    if decide (k ∈ l) then Some (f k) else None.
Proof.
  induction l as [|x l IH]; csimpl; [by rewrite lookup_empty|].
  destruct (decide (k = x)) as [-> |Hne].
  - rewrite lookup_insert_eq, decide_True; [done|apply list_elem_of_here].
  - rewrite lookup_insert_ne, IH by done. apply decide_ext. rewrite elem_of_cons. tauto.
Qed.

Lemma wan_history_fields name cfg events :
  wn_name (wan_history name cfg events) = name ∧ wn_cfg (wan_history name cfg events) = cfg ∧
  (wn_carrier (wan_history name cfg events), wn_operstate (wan_history name cfg events))
    = last_link (w_Interface cfg) events ∧
  wn_families (wan_history name cfg events) =
    list_to_map ((λ fam, (fam, fam_history name cfg events fam)) <$> Families (p_Targets (w_Probe cfg))).
Proof. unfold wan_history. by destruct (last_link _ _). Qed.

Lemma wan_eq ws ws' :
  wn_name ws = wn_name ws' → wn_cfg ws = wn_cfg ws' →
  (wn_carrier ws, wn_operstate ws) = (wn_carrier ws', wn_operstate ws') →
  wn_families ws = wn_families ws' → ws = ws'.
Proof. destruct ws, ws'. simpl. intros. by simplify_eq. Qed.

Lemma lookup_health_spec cfgs events name :
  health_spec cfgs events !! name = (λ cfg, wan_history name cfg events) <$> cfgs !! name.
Proof. unfold health_spec. rewrite map_lookup_imap. by destruct (cfgs !! name). Qed.

Lemma results_snoc name fam events ev :
  results name fam (events ++ [ev]) = results name fam events ++
    match ev with
    | HProbe r => if bool_decide (pr_Wan r = name ∧ pr_Family r = fam) then [pr_Stats r] else []
    | HLink _ => []
    end.
Proof.
  unfold results. rewrite omap_app. f_equal. destruct ev as [r|e]; csimpl; [|done].
  by case_bool_decide.
Qed.

Lemma fam_history_snoc name cfg events ev fam :
  fam_history name cfg (events ++ [ev]) fam =
    match ev with
    | HProbe r => if bool_decide (pr_Wan r = name ∧ pr_Family r = fam)
        then fam_next (p_Thresholds (w_Probe cfg)) (fam_history name cfg events fam) (pr_Stats r)
        else fam_history name cfg events fam
    | HLink _ => fam_history name cfg events fam
    end.
Proof.
  unfold fam_history. rewrite results_snoc, foldl_app. destruct ev as [r|e]; [|done].
  by case_bool_decide.
Qed.

Lemma last_link_snoc iface events ev :
  last_link iface (events ++ [ev]) = link_next iface (last_link iface events) ev.
Proof. unfold last_link. by rewrite foldl_snoc. Qed.

Lemma probe_update_spec cfgs events r :
  probe_update (health_spec cfgs events) r = health_spec cfgs (events ++ [HProbe r]).
Proof.
  assert (Hother : ∀ name cfg, (name = pr_Wan r → pr_Family r ∉ Families (p_Targets (w_Probe cfg))) →
    wan_history name cfg events = wan_history name cfg (events ++ [HProbe r])).
  { intros name cfg Hne.
    destruct (wan_history_fields name cfg events) as (H1 & H2 & H3 & H4).
    destruct (wan_history_fields name cfg (events ++ [HProbe r])) as (H1' & H2' & H3' & H4').
    apply wan_eq; try congruence; [by rewrite H3, H3', last_link_snoc|]. rewrite H4, H4'.
    apply map_eq. intros k. rewrite !lookup_keyed. case_decide; [|done].
    rewrite fam_history_snoc, bool_decide_eq_false_2; [done|]. intros [<- <-]. by apply Hne. }
  apply map_eq. intros name. rewrite lookup_health_spec. unfold probe_update. rewrite lookup_health_spec.
  destruct (cfgs !! pr_Wan r) as [cfg|] eqn:Hc; csimpl.
  2: { rewrite lookup_health_spec. destruct (cfgs !! name) as [cfg|] eqn:Hn; csimpl; [|done].
       f_equal. apply Hother. congruence. }
  destruct (wan_history_fields (pr_Wan r) cfg events) as (H1 & H2 & H3 & H4).
  rewrite H4, lookup_keyed. case_decide as Hfam.
  - destruct (decide (name = pr_Wan r)) as [-> |Hne].
    + rewrite lookup_insert_eq, Hc. csimpl. f_equal.
      destruct (wan_history_fields (pr_Wan r) cfg (events ++ [HProbe r])) as (H1' & H2' & H3' & H4').
      apply wan_eq; cbn [set_family wn_name wn_cfg wn_carrier wn_operstate wn_families]; try congruence.
      * by rewrite H3, H3', last_link_snoc.
      * rewrite H4, H4', H2. apply map_eq. intros k. destruct (decide (k = pr_Family r)) as [-> |Hk].
        -- rewrite lookup_insert_eq, lookup_keyed, decide_True by done.
           by rewrite fam_history_snoc, bool_decide_eq_true_2.
        -- rewrite lookup_insert_ne, !lookup_keyed by done. case_decide; [|done].
           rewrite fam_history_snoc, bool_decide_eq_false_2; [done|]. naive_solver.
    + rewrite lookup_insert_ne, lookup_health_spec by done.
      destruct (cfgs !! name) eqn:Hn; csimpl; [|done]. f_equal. by apply Hother.
  - rewrite lookup_health_spec. destruct (cfgs !! name) as [cfg'|] eqn:Hn; csimpl; [|done].
    f_equal. apply Hother. intros ->. congruence.
Qed.

Lemma link_update_spec cfgs events e :
  link_update e <$> health_spec cfgs events = health_spec cfgs (events ++ [HLink e]).
Proof.
  apply map_eq. intros name. rewrite lookup_fmap, !lookup_health_spec.
  destruct (cfgs !! name) as [cfg|]; csimpl; [|done]. f_equal.
  destruct (wan_history_fields name cfg events) as (H1 & H2 & H3 & H4).
  destruct (wan_history_fields name cfg (events ++ [HLink e])) as (H1' & H2' & H3' & H4').
  rewrite last_link_snoc in H3'. cbn [link_next] in H3'.
  assert (Hf : wn_families (wan_history name cfg events) = wn_families (wan_history name cfg (events ++ [HLink e]))).
  { rewrite H4, H4'. apply map_eq. intros k. rewrite !lookup_keyed. destruct (decide (k ∈ _)); [|done].
    by rewrite fam_history_snoc. }
  unfold link_update. rewrite H2. case_bool_decide;
    apply wan_eq; cbn [set_link wn_name wn_cfg wn_carrier wn_operstate wn_families]; congruence.
Qed.

Lemma newWan_spec {E Ev} `{!MetricSink Ev} name cfg (wd : World E Ev) :
  wp (newWan name cfg) (λ ws _, ws = wan_history name cfg []) wd.
Proof.
  unfold newWan. apply wp_bind.
  apply (wp_foldM _ _ (λ dn ws _, ws = mkWanHealth name cfg CarrierUnknown OperstateUnknown
    (list_to_map (reverse ((λ fam, (fam, newFamily cfg fam)) <$> dn))))).
  - done.
  - intros dn fam rest ws wd1 _ ->. apply wp_bind, wp_any. intros [] wd2. apply wp_ret.
    unfold set_family. cbn [wn_name wn_cfg wn_carrier wn_operstate wn_families].
    rewrite fmap_app, reverse_app. done.
  - intros ws wd1 ->. apply wp_bind, wp_any. intros [] wd2. apply wp_ret.
    destruct (wan_history_fields name cfg []) as (H1 & H2 & H3 & H4).
    apply wan_eq; cbn [wn_name wn_cfg wn_carrier wn_operstate wn_families]; [done..|].
    rewrite H4. unfold Families. by destruct (V4 _), (V6 _).
Qed.

Lemma new_spec {E Ev} `{!MetricSink Ev} cfgs (wd : World E Ev) :
  wp (New cfgs) (λ w _, w = health_spec cfgs []) wd.
Proof.
  unfold New. apply wp_bind. unfold wp at 1, range. cbn [fst snd].
  set (l := shuffle _ _). assert (l ≡ₚ map_to_list cfgs) as Hp by apply shuffle_Permutation.
  assert (Hnd : NoDup l.*1) by (rewrite Hp; apply NoDup_fst_map_to_list).
  apply (wp_foldM _ _ (λ dn w _, w = list_to_map (reverse ((λ '(k, cfg), (k, wan_history k cfg [])) <$> dn)))).
  - done.
  - intros dn [k cfg] rest w wd1 _ ->. apply wp_bind. eapply wp_mono; [apply newWan_spec|].
    intros ws wd2 ->. apply wp_ret. by rewrite fmap_app, reverse_app.
  - intros w wd1 ->. apply map_eq. intros k. rewrite lookup_health_spec.
    assert (Hl : ∀ x, (k, x) ∈ reverse ((λ '(k, cfg), (k, wan_history k cfg [])) <$> l) ↔
      ∃ cfg, cfgs !! k = Some cfg ∧ x = wan_history k cfg []).
    { intros x. rewrite elem_of_reverse, list_elem_of_fmap. setoid_rewrite Hp. split.
      - intros ([k' cfg] & Heq & Hin%elem_of_map_to_list). simplify_eq. eauto.
      - intros (cfg & Hc & ->). exists (k, cfg). split; [done|]. by apply elem_of_map_to_list. }
    assert (Hnd' : NoDup (reverse ((λ '(k, cfg), (k, wan_history k cfg [])) <$> l)).*1).
    { rewrite fmap_reverse, reverse_Permutation, <- list_fmap_compose.
      erewrite list_fmap_ext; [exact Hnd|]. by intros i [? ?]. }
    destruct (cfgs !! k) as [cfg|] eqn:Hc; csimpl.
    + apply elem_of_list_to_map_1; [done|]. apply Hl. by exists cfg.
    + apply not_elem_of_list_to_map_1. intros ([k' x] & -> & Hin)%list_elem_of_fmap.
      apply Hl in Hin as (cfg & ? & _). congruence.
Qed.

Lemma handle_spec {E Ev} `{!MetricSink Ev} cfgs events ev (wd : World E Ev) :
  wp (handle (health_spec cfgs events) ev) (λ w _, w = health_spec cfgs (events ++ [ev])) wd.
Proof.
  unfold handle, handle_change. apply wp_bind. destruct ev as [r|e].
  - eapply wp_mono; [apply probe_spec|]. intros [w c] wd' [-> _]. apply wp_ret, probe_update_spec.
  - eapply wp_mono; [apply link_spec|]. intros [w c] wd' [= -> _]. apply wp_ret, link_update_spec.
Qed.

Lemma run_spec {E Ev} `{!MetricSink Ev} cfgs events (wd : World E Ev) :
  wp (run cfgs events) (λ w _, w = health_spec cfgs events) wd.
Proof.
  unfold run. apply wp_bind. eapply wp_mono; [apply new_spec|]. intros w wd1 ->.
  apply (wp_foldM _ _ (λ dn w _, w = health_spec cfgs dn)); [done| |done].
  intros dn ev rest w wd2 _ ->. apply handle_spec.
Qed.

(** Health from a history: the last link state, and the votes of the probed
    Families under the policy. *)
Definition healthy_after (name : string) (cfg : Wan) (events : list hevent) : bool :=
  let vote fam := votes_healthy (fam_history name cfg events fam) in
  let fams := Families (p_Targets (w_Probe cfg)) in
  uncurry carrierUp (last_link (w_Interface cfg) events) &&
  match fams with
  | [] => false
  | _ => if decide (FamilyHealthPolicy (w_Probe cfg) = familyPolicyAny)
         then existsb vote fams else forallb vote fams
  end.

Lemma wan_healthy_history name cfg events :
  wan_healthy (wan_history name cfg events) = healthy_after name cfg events.
Proof.
  destruct (wan_history_fields name cfg events) as (_ & Hcfg & Hl & Hf).
  unfold wan_healthy, healthy_after, combineFamilies. rewrite Hf, Hcfg, <- Hl. cbn [uncurry].
  f_equal. unfold Families.
  set (v fam := fam_history name cfg events fam).
  assert (H0 : count_votes ∅ = 0) by (unfold count_votes; by rewrite map_to_list_empty).
  assert (H1 : ∀ k, count_votes (<[k := v k]> ∅) = if votes_healthy (v k) then 1 else 0).
  { intros k. rewrite count_votes_insert, H0 by done. lia. }
  assert (H2 : count_votes (<[FamilyV4 := v FamilyV4]> (<[FamilyV6 := v FamilyV6]> ∅)) =
    (if votes_healthy (v FamilyV4) then 1 else 0) + (if votes_healthy (v FamilyV6) then 1 else 0)).
  { rewrite count_votes_insert, H1 by done. done. }
  destruct (V4 _), (V6 _); cbn [app fmap list_fmap list_to_map foldr uncurry fst snd existsb forallb];
    [by rewrite decide_True|..]; rewrite (decide_False (P:=_ = ∅)) by apply insert_non_empty;
    fold v; rewrite ?H1, ?H2; [| |].
  - change (size (<[FamilyV6:=v FamilyV6]> ∅)) with 1%nat.
    by case_decide; destruct (votes_healthy (v FamilyV6)).
  - change (size (<[FamilyV4:=v FamilyV4]> ∅)) with 1%nat.
    by case_decide; destruct (votes_healthy (v FamilyV4)).
  - change (size (<[FamilyV4:=v FamilyV4]> (<[FamilyV6:=v FamilyV6]> ∅))) with 2%nat.
    by case_decide; destruct (votes_healthy (v FamilyV4)), (votes_healthy (v FamilyV6)).
Qed.

Lemma Healthy_history cfgs events name :
  Healthy (health_spec cfgs events) name =
    match cfgs !! name with Some cfg => healthy_after name cfg events | None => false end.
Proof.
  unfold Healthy. rewrite lookup_health_spec. destruct (cfgs !! name); csimpl; [|done].
  apply wan_healthy_history.
Qed.

(** Until its first full Window a Family is uncooked and votes healthy. *)
Lemma fam_history_cold name cfg events fam :
  Forall (λ st, fs_WindowFilled st = false) (results name fam events) →
  f_cooked (fam_history name cfg events fam) = false.
Proof.
  unfold fam_history. intros H.
  assert (Hc : f_cooked (newFamily cfg fam) = false) by done. revert Hc.
  generalize (newFamily cfg fam). induction H as [|st l Hst H IH]; intros fs Hc; [done|].
  cbn [foldl]. apply IH. unfold fam_next. by rewrite Hc, Hst.
Qed.

Lemma elem_of_results name fam events st :
  st ∈ results name fam events →
  ∃ r, HProbe r ∈ events ∧ pr_Wan r = name ∧ pr_Stats r = st.
Proof.
  unfold results. rewrite list_elem_of_omap. intros ([r|e] & Hin & H); [|done].
  case_bool_decide; simplify_eq. destruct_and?. by exists r.
Qed.

Lemma flips_history cfgs events e :
  flips e (map_to_list (health_spec cfgs events)) =
  omap (λ '(name, ws), if health_changed ws (link_update e ws) then Some name else None)
    (map_to_list (health_spec cfgs events)).
Proof.
  unfold flips. apply list_omap_ext, Forall2_same_length_lookup. split; [done|].
  intros i [k ws] [k' ws'] Hi Hi'. simplify_eq.
  apply list_elem_of_lookup_2, elem_of_map_to_list in Hi.
  rewrite lookup_health_spec in Hi. apply fmap_Some in Hi as (cfg & _ & ->).
  by rewrite (proj1 (wan_history_fields k cfg events)).
Qed.

(** Only the result's own WAN sees a ProbeResult. *)
Lemma Healthy_probe_other cfgs events r name :
  name ≠ pr_Wan r →
  Healthy (health_spec cfgs (events ++ [HProbe r])) name = Healthy (health_spec cfgs events) name.
Proof.
  intros Hne. rewrite !Healthy_history. destruct (cfgs !! name) as [cfg|]; [|done].
  unfold healthy_after. rewrite last_link_snoc. cbn [link_next].
  assert (Hf : ∀ fam, fam_history name cfg (events ++ [HProbe r]) fam = fam_history name cfg events fam).
  { intros fam. rewrite fam_history_snoc, bool_decide_eq_false_2; [done|]. by intros [? _]. }
  unfold Families. by destruct (V4 _), (V6 _); cbn [app existsb forallb]; rewrite ?Hf.
Qed.

Lemma probe_flipped {E Ev} `{!MetricSink Ev} cfgs events r (wd : World E Ev) :
  wp (Probe (health_spec cfgs events) r) (λ '(w', c) _,
    ch_Flipped c = if bool_decide (Healthy w' (pr_Wan r) = Healthy (health_spec cfgs events) (pr_Wan r))
                   then [] else [pr_Wan r]) wd.
Proof.
  eapply wp_mono; [apply probe_spec|]. intros [w' c] _ (Hw' & Hsome & Hnone & _).
  rewrite probe_update_spec in Hw'. subst w'. unfold Healthy. rewrite !lookup_health_spec in *.
  destruct (cfgs !! pr_Wan r) as [cfg|]; csimpl in *; [|by apply Hnone].
  rewrite (Hsome _ eq_refl). unfold health_changed.
  rewrite (proj1 (wan_history_fields (pr_Wan r) cfg events)).
  by destruct (wan_healthy _), (wan_healthy _).
Qed.

Lemma probe_republish {E Ev} `{!MetricSink Ev} cfgs events r (wd : World E Ev) :
  wp (Probe (health_spec cfgs events) r) (λ '(_, c) _, ch_Republish c = true ↔
    ∃ cfg, cfgs !! pr_Wan r = Some cfg ∧ pr_Family r ∈ Families (p_Targets (w_Probe cfg)) ∧
      let fs := fam_history (pr_Wan r) cfg events (pr_Family r) in
      let fs' := fam_history (pr_Wan r) cfg (events ++ [HProbe r]) (pr_Family r) in
      (f_cooked fs' ≠ f_cooked fs ∨ (f_cooked fs = true ∧ f_healthy fs' ≠ f_healthy fs))) wd.
Proof.
  eapply wp_mono; [apply probe_spec|]. intros [w' c] _ (_ & _ & _ & ->).
  rewrite lookup_health_spec. destruct (cfgs !! pr_Wan r) as [cfg|] eqn:Hc; csimpl; [|naive_solver].
  destruct (wan_history_fields (pr_Wan r) cfg events) as (_ & Hcfg & _ & ->).
  rewrite lookup_keyed. destruct (decide (pr_Family r ∈ _)); csimpl; [|naive_solver].
  rewrite Hcfg.
  set (fs := fam_history _ _ _ _).
  assert (fam_history (pr_Wan r) cfg (events ++ [HProbe r]) (pr_Family r) =
    fam_next (p_Thresholds (w_Probe cfg)) fs (pr_Stats r)) as Hn.
  { by rewrite fam_history_snoc, bool_decide_eq_true_2. }
  set (fs' := fam_next _ _ _) in *.
  assert (negb (Bool.eqb (f_cooked fs') (f_cooked fs)) || f_cooked fs && negb (Bool.eqb (f_healthy fs') (f_healthy fs)) = true ↔
    f_cooked fs' ≠ f_cooked fs ∨ f_cooked fs = true ∧ f_healthy fs' ≠ f_healthy fs) as ->.
  { destruct (f_cooked fs'), (f_cooked fs), (f_healthy fs'), (f_healthy fs); naive_solver. }
  split; [intros H; exists cfg; rewrite Hn; by split_and?|].
  intros (cfg' & ? & _ & H). simplify_eq. by rewrite Hn in H.
Qed.

Lemma NoDup_omap_fst {A} (P : A → bool) (l : list (string * A)) :
  NoDup l.*1 →
  NoDup (omap (λ '(k, x), if P x then Some k else None) l) ∧
  ∀ k, k ∈ omap (λ '(k, x), if P x then Some k else None) l ↔ ∃ x, (k, x) ∈ l ∧ P x = true.
Proof.
  intros Hnd. assert (Hin : ∀ k, k ∈ omap (λ '(k, x), if P x then Some k else None) l ↔
    ∃ x, (k, x) ∈ l ∧ P x = true).
  { intros k. rewrite list_elem_of_omap. split.
    - intros ([k' x] & Hin & H). destruct (P x) eqn:HP; simplify_eq. eauto.
    - intros (x & Hin & HP). exists (k, x). by rewrite HP. }
  split; [|done]. clear Hin. induction l as [|[k x] l IH]; csimpl; [constructor|].
  csimpl in Hnd. apply NoDup_cons in Hnd as [Hk Hnd]. destruct (P x); [|by apply IH].
  constructor; [|by apply IH]. rewrite list_elem_of_omap. intros ([k' y] & Hin & H).
  destruct (P y); [|done]. injection H as ->.
  apply Hk, list_elem_of_fmap. by exists (k, y).
Qed.

Lemma link_changed_history cfgs events e name :
  (∃ ws, (name, ws) ∈ map_to_list (health_spec cfgs events) ∧ health_changed ws (link_update e ws) = true) ↔
  Healthy (health_spec cfgs (events ++ [HLink e])) name ≠ Healthy (health_spec cfgs events) name.
Proof.
  rewrite <- link_update_spec. unfold Healthy, health_changed. rewrite lookup_fmap.
  setoid_rewrite elem_of_map_to_list.
  destruct (health_spec cfgs events !! name) as [ws|]; csimpl; [|naive_solver].
  split.
  - intros (ws' & ? & H). simplify_eq. by destruct (wan_healthy _), (wan_healthy _).
  - intros H. exists ws. split; [done|]. by destruct (wan_healthy _), (wan_healthy _).
Qed.

Lemma link_republish_history cfgs events e :
  existsb (λ p, link_republishes e p.2) (map_to_list (health_spec cfgs events)) = true ↔
  ∃ name cfg, cfgs !! name = Some cfg ∧ w_Interface cfg = le_name e ∧
    (le_carrier e, le_operstate e) ≠ last_link (le_name e) events.
Proof.
  rewrite existsb_exists.
  assert (Hr : ∀ name cfg, link_republishes e (wan_history name cfg events) = true ↔
    w_Interface cfg = le_name e ∧ (le_carrier e, le_operstate e) ≠ last_link (le_name e) events).
  { intros name cfg. unfold link_republishes.
    destruct (wan_history_fields name cfg events) as (_ & -> & Hl & _).
    rewrite andb_true_iff, bool_decide_eq_true, orb_true_iff, !negb_true_iff, bool_decide_eq_false, Z.eqb_neq.
    split; intros [Hi H]; (split; [done|]); rewrite Hi in Hl; rewrite <- Hl in *.
    - intros Heq. destruct H as [H|H]; apply H; congruence.
    - destruct (decide (le_carrier e = wn_carrier (wan_history name cfg events))) as [He|]; [|by left].
      right. intros Ho. apply H. congruence. }
  split.
  - intros ([name ws] & Hin%list_elem_of_In & H). apply elem_of_map_to_list in Hin.
    rewrite lookup_health_spec in Hin. apply fmap_Some in Hin as (cfg & Hc & ->).
    exists name, cfg. apply Hr in H as [? ?]. by split_and?.
  - intros (name & cfg & Hc & Hi & H). exists (name, wan_history name cfg events).
    split; [|by apply Hr]. apply list_elem_of_In, elem_of_map_to_list.
    by rewrite lookup_health_spec, Hc.
Qed.

(** The Change of the next event after a history. *)
Lemma change_exact {E Ev} `{!MetricSink Ev} cfgs events ev (wd : World E Ev) :
  let w := health_spec cfgs events in
  let '((w', c), _) := handle_change w ev wd in
  w' = health_spec cfgs (events ++ [ev]) ∧
  NoDup (ch_Flipped c) ∧ Sorted String.le (ch_Flipped c) ∧
  (∀ name, name ∈ ch_Flipped c ↔ Healthy w' name ≠ Healthy w name) ∧
  (ch_Republish c = true ↔
   match ev with
   | HProbe r => ∃ cfg, cfgs !! pr_Wan r = Some cfg ∧
       pr_Family r ∈ Families (p_Targets (w_Probe cfg)) ∧
       let fs := fam_history (pr_Wan r) cfg events (pr_Family r) in
       let fs' := fam_history (pr_Wan r) cfg (events ++ [ev]) (pr_Family r) in
       (f_cooked fs' ≠ f_cooked fs ∨ (f_cooked fs = true ∧ f_healthy fs' ≠ f_healthy fs))
   | HLink e => ∃ name cfg, cfgs !! name = Some cfg ∧ w_Interface cfg = le_name e ∧
       (le_carrier e, le_operstate e) ≠ last_link (le_name e) events
   end).
Proof.
  intros w. destruct (handle_change w ev wd) as [[w' c] wd'] eqn:Hh.
  destruct ev as [r|e]; cbn [handle_change] in Hh.
  - pose proof (probe_spec w r wd) as Hs. pose proof (probe_flipped cfgs events r wd) as Hf.
    pose proof (probe_republish cfgs events r wd) as Hr. fold w in Hf, Hr.
    unfold wp in *. rewrite Hh in *. cbn [fst snd] in *. destruct Hs as [Hw' _].
    unfold w in Hw'. rewrite probe_update_spec in Hw'. rewrite Hf.
    split; [done|]. split; [case_bool_decide; [constructor|apply NoDup_singleton]|].
    split; [case_bool_decide; repeat constructor|]. split; [|done]. intros name.
    destruct (decide (name = pr_Wan r)) as [-> |Hn].
    + case_bool_decide; [rewrite elem_of_nil|rewrite list_elem_of_singleton]; tauto.
    + assert (Healthy w' name = Healthy w name) as He by (rewrite Hw'; by apply Healthy_probe_other).
      case_bool_decide; [rewrite elem_of_nil|rewrite list_elem_of_singleton]; tauto.
  - pose proof (link_spec w e wd) as Hs. unfold wp in Hs. rewrite Hh in Hs. cbn [fst snd] in Hs.
    injection Hs as Hw' ->. unfold w in Hw'. rewrite link_update_spec in Hw'. subst w'.
    cbn [ch_Flipped ch_Republish]. unfold w. rewrite flips_history.
    destruct (NoDup_omap_fst (λ ws, health_changed ws (link_update e ws))
      (map_to_list (health_spec cfgs events)) (NoDup_fst_map_to_list _)) as [Hnd Hin].
    split; [done|]. split; [unfold sort_strings; by rewrite merge_sort_Permutation|].
    split; [apply (Sorted_merge_sort _)|]. split; [|apply link_republish_history].
    intros name. unfold sort_strings. rewrite merge_sort_Permutation, Hin.
    apply link_changed_history.
Qed.

(** ** Properties *)

(** C5. WAN Health refines its history: after start-up and any sequence of
    ProbeResults and LinkEvents, in any map order, every WAN is healthy exactly
    when the last event of its interface says the link is up and the verdicts
    of its probed Families, each a function of that Family's own results since
    its first full Window, agree under the policy. No event of another WAN, of
    another interface or of an unprobed Family can affect it. *)
Theorem health_refines_history {E Ev} `{!MetricSink Ev} cfgs events (wd : World E Ev) :
  let w := (run cfgs events wd).1 in
  w = health_spec cfgs events ∧
  ∀ name, Healthy w name =
    match cfgs !! name with Some cfg => healthy_after name cfg events | None => false end.
Proof.
  intros w. assert (Hw : w = health_spec cfgs events) by apply run_spec.
  split; [done|]. intros name. rewrite Hw. apply Healthy_history.
Qed.

(** C8. Changes are reported exactly: after any history, the Change of the next
    event lists the WANs whose Health it changed, each once and in name order,
    and no other; and it asks for a republish exactly when a Family gets its
    first full Window or a new verdict, or when a WAN on the event's interface
    gets a new carrier or operstate. *)
Theorem change_reports_exactly {E Ev} `{!MetricSink Ev} cfgs events ev (wd : World E Ev) :
  let w := health_spec cfgs events in
  let '((w', c), _) := handle_change w ev wd in
  w' = health_spec cfgs (events ++ [ev]) ∧
  NoDup (ch_Flipped c) ∧ Sorted String.le (ch_Flipped c) ∧
  (∀ name, name ∈ ch_Flipped c ↔ Healthy w' name ≠ Healthy w name) ∧
  (ch_Republish c = true ↔
   match ev with
   | HProbe r => ∃ cfg, cfgs !! pr_Wan r = Some cfg ∧
       pr_Family r ∈ Families (p_Targets (w_Probe cfg)) ∧
       let fs := fam_history (pr_Wan r) cfg events (pr_Family r) in
       let fs' := fam_history (pr_Wan r) cfg (events ++ [ev]) (pr_Family r) in
       (f_cooked fs' ≠ f_cooked fs ∨ (f_cooked fs = true ∧ f_healthy fs' ≠ f_healthy fs))
   | HLink e => ∃ name cfg, cfgs !! name = Some cfg ∧ w_Interface cfg = le_name e ∧
       (le_carrier e, le_operstate e) ≠ last_link (le_name e) events
   end).
Proof. apply change_exact. Qed.

(** Cold start: until a WAN's first full Window, whatever its probes
    reported, a WAN with a probed Family is healthy exactly when its link is
    up, so carrier alone decides; and its first full Window seeds the verdict
    with the failure band, at or above a Down threshold or not, without waiting
    for a run of results. *)
Theorem cold_start {E Ev} `{!MetricSink Ev} cfgs events name cfg stats fam (wd : World E Ev) :
  cfgs !! name = Some cfg →
  Families (p_Targets (w_Probe cfg)) ≠ [] →
  (∀ r, HProbe r ∈ events → pr_Wan r = name → fs_WindowFilled (pr_Stats r) = false) →
  fs_WindowFilled stats = true →
  let w := (run cfgs events wd).1 in
  Healthy w name = uncurry carrierUp (last_link (w_Interface cfg) events) ∧
  f_healthy (fam_history name cfg (events ++ [HProbe (mkProbeResult name fam stats 0)]) fam)
    = evaluateThresholds true stats (p_Thresholds (w_Probe cfg)).
Proof.
  intros Hc Hfam Hcold Hfull w. assert (Hw : w = health_spec cfgs events) by apply run_spec.
  assert (Hv : ∀ fam, f_cooked (fam_history name cfg events fam) = false).
  { intros f. apply fam_history_cold, Forall_forall. intros st Hst.
    apply elem_of_results in Hst as (r & Hin & Hr & <-). by apply Hcold. }
  split.
  - rewrite Hw, Healthy_history, Hc. unfold healthy_after, votes_healthy.
    unfold Families in *. destruct (V4 _), (V6 _); [done|..]; cbn [app existsb forallb];
      rewrite !Hv; simpl; case_decide; by rewrite andb_true_r.
  - rewrite fam_history_snoc, bool_decide_eq_true_2 by done. unfold fam_next.
    cbn [pr_Stats]. rewrite Hv, Hfull. cbn [negb orb seed h_healthy f_healthy].
    by rewrite orb_true_r.
Qed.

Lemma cold_start_witness :
  let wd := mkWorld (Ev:=MetricOp) (mkSchedule None (λ _, 1%positive) (λ _ _, 0%nat)) 0 () [] in
  let up := HLink (mkLinkEvent "eth0" CarrierUp OperstateUnknown 1%N) in
  let lost := mkFamilyStats None None (Some 1%Qc) None false [] in
  let events := [HProbe (mkProbeResult "fiber" FamilyV4 lost 0); up] in
  Healthy (run (c_Wans example_config) events wd).1 "fiber" = true.
Proof.
  intros wd up lost events.
  destruct (cold_start (c_Wans example_config) events "fiber" (mkWan "fiber" "eth0" false example_probe)
    (mkFamilyStats None None (Some 1%Qc) None true []) FamilyV4 wd) as [H _].
  - reflexivity.
  - done.
  - intros r. unfold events, up. rewrite !elem_of_cons, elem_of_nil. intros [[= ->]|[?|[]]]; done.
  - reflexivity.
  - exact H.
Defined.

(** C24. The threshold band: with ordered thresholds, a Window at or above a Down
    threshold is unhealthy and one at or below both Up thresholds is healthy,
    whatever the previous verdict, and a Window in between keeps it. The
    comparisons are exact: the loss as a rational against a percentage, the
    RTT in whole microseconds; a missing statistic counts as 0. *)
Theorem thresholds_band_pass prev stats t :
  valid_thresholds t → RttMsDown t * 1000 < two64 →
  let loss := default 0%Qc (fs_ExactLoss stats) in
  let rtt := default 0 (fs_RTTMicros stats) in
  let at_or_above_down := (NewRat (LossPctDown t) 100 <= loss)%Qc ∨ RttMsDown t * 1000 ≤ rtt in
  let at_or_below_up := (loss <= NewRat (LossPctUp t) 100)%Qc ∧ rtt ≤ RttMsUp t * 1000 in
  (at_or_above_down → evaluateThresholds prev stats t = false) ∧
  (at_or_below_up → evaluateThresholds prev stats t = true) ∧
  (¬ at_or_above_down → ¬ at_or_below_up → evaluateThresholds prev stats t = prev).
Proof.
  intros [Hloss Hpct Hrtt] Hbound loss rtt.
  assert (Hms : ∀ ms, 0 < ms ≤ RttMsDown t → msToMicros ms = ms * 1000).
  { intros ms Hm. unfold msToMicros. rewrite Z.max_l, u64_small by lia. done. }
  assert (Hlt : (NewRat (LossPctUp t) 100 < NewRat (LossPctDown t) 100)%Qc).
  { unfold NewRat, Qclt. simpl. rewrite !Qred_correct. unfold Qlt. simpl. lia. }
  unfold evaluateThresholds, comparePct, orZero. fold loss rtt. rewrite !Hms by lia.
  set (bd := match (loss ?= NewRat (LossPctDown t) 100)%Qc with Lt => true | _ => false end).
  set (bu := match (loss ?= NewRat (LossPctUp t) 100)%Qc with Gt => false | _ => true end).
  assert (Hd : (NewRat (LossPctDown t) 100 <= loss)%Qc ↔ bd = false).
  { unfold bd, Qcle, Qccompare. rewrite <- not_true_iff_false, Qle_alt, <- Qcompare_antisym.
    by destruct (loss ?= _)%Q; simpl; split. }
  assert (Hu : (loss <= NewRat (LossPctUp t) 100)%Qc ↔ bu = true).
  { unfold bu, Qcle, Qccompare. rewrite Qle_alt. by destruct (_ ?= _)%Q; split. }
  assert (Hud : bu = true → bd = true).
  { intros H%Hu. apply not_false_iff_true. intros H'%Hd.
    apply (Qclt_not_le _ _ Hlt). by eapply Qcle_trans. }
  rewrite Hd, Hu. clearbody bd bu. clear Hd Hu Hlt.
  destruct (Z.ltb_spec rtt (RttMsDown t * 1000)), (Z.leb_spec rtt (RttMsUp t * 1000));
    destruct prev, bd, bu; simpl; intuition (congruence || lia).
Qed.

Lemma thresholds_band_pass_witness :
  let t := mkThresholds 30 10 200 100 in
  evaluateThresholds false (mkFamilyStats (Some 50) None (Some (NewRat 1 5)) None true []) t = false ∧
  evaluateThresholds true (mkFamilyStats (Some 50) None (Some (NewRat 1 5)) None true []) t = true.
Proof.
  intros t.
  pose proof (λ prev, thresholds_band_pass prev
    (mkFamilyStats (Some 50) None (Some (NewRat 1 5)) None true []) t
    ltac:(split; simpl; lia) ltac:(reflexivity)) as H.
  split; apply H; simpl; intros [Hl Hr] || intros [Hl|Hr];
    first [by apply (Qclt_not_le _ _ (eq_refl : (NewRat 1 5 < NewRat 30 100)%Qc)) in Hl
          |by apply (Qclt_not_le _ _ (eq_refl : (NewRat 10 100 < NewRat 1 5)%Qc)) in Hl|lia].
Defined.
