(* ===== verification/Decision.v ===== *)
(** * Group Decisions ([decision/group.go])

    A Group owns its committed Selection, the Selection pending on Apply, and
    whether the committed routes are due a Repair. The Apply adapter is a
    parameter: the WAN to route to, the families to write (none for all) and
    an error. The receiver is passed and returned; commits are returned to the
    caller as in the code. *)
From S2P Require Import Prelude GoFloat Icmp Runtime Metrics Selector State.

#[local] Open Scope Z_scope.

(** daemon/internal/decision/group.go:28-32 (Commit): fields *)
Record Commit := mkCommit { cm_Old : Active; cm_New : Active; cm_At : Time }.

(** daemon/internal/decision/group.go:34-49 (Commit.Event): up, down, switch or
    none *)
Definition Commit_Event (c : Commit) : option Event :=
  if negb (a_has (cm_Old c)) && a_has (cm_New c) then Some EventUp
  else if a_has (cm_Old c) && negb (a_has (cm_New c)) then Some EventDown
  else if a_has (cm_Old c) && a_has (cm_New c) &&
          negb (bool_decide (a_wan (cm_Old c) = a_wan (cm_New c))) then Some EventSwitch
  else None.

(** daemon/internal/decision/group.go:51-68 (Group): the state; the closure and
    the registry are parameters *)
Record DGroup := mkDGroup {
  d_cfg : Group;
  d_selection : Active;
  d_selectionSince : Time;
  d_decisionsTotal : Z;
  d_pending : option Active;
  d_repairDue : bool
}.

(** daemon/internal/decision/group.go:153-158 (intent): the pending Selection,
    else the committed one *)
Definition intent (g : DGroup) : Active := default (d_selection g) (d_pending g).

(** daemon/internal/decision/group.go:136-151 (Snapshot): nil for no Selection
    and for a zero time *)
Definition DSnapshot (g : DGroup) : SGroup :=
  mkSGroup
    (if a_has (d_selection g) then Some (a_wan (d_selection g)) else None)
    (if IsZero (d_selectionSince g) then None else Some (d_selectionSince g))
    (d_decisionsTotal g) (g_strategy (d_cfg g)).

Definition with_repair (g : DGroup) (due : bool) : DGroup :=
  mkDGroup (d_cfg g) (d_selection g) (d_selectionSince g) (d_decisionsTotal g) (d_pending g) due.

Section group.
Context {E Ev : Type} `{!MetricSink Ev}.

(** daemon/internal/decision/group.go:17-21 (ApplyRoutes): the Apply adapter *)
Definition ApplyRoutes : Type := string → list Family → M E Ev (option error).

Context (applyRoutes : ApplyRoutes).

(** daemon/internal/decision/group.go:203-213 (publishSelected): 1 for the
    committed Selection, 0 for every other Member *)
Definition publishSelected (g : DGroup) : M E Ev unit :=
  members ← range (g_members (d_cfg g));
  forM members (λ '(_, m),
    Set_ GroupSelected [g_name (d_cfg g); m_wan m]
      (if a_has (d_selection g) && bool_decide (a_wan (d_selection g) = m_wan m)
       then f64_one else f64_zero)).

(** daemon/internal/decision/group.go:70-78 (New): no Selection *)
Definition DNew (cfg : Group) : M E Ev DGroup :=
  let g := mkDGroup cfg NoActive zero_time 0 None false in
  _ ← publishSelected g;
  mret g.

(** daemon/internal/decision/group.go:179-201 (commit): apply the pending
    Selection, then commit it; [next] is the pending Selection *)
Definition commit (g : DGroup) (next : Active) : M E Ev (DGroup * option Commit) :=
  err ← (if a_has next then applyRoutes (a_wan next) [] else mret None);
  match err with
  | Some _ => mret (g, None)
  | None =>
      at_ ← now;
      let committed := mkCommit (d_selection g) next at_ in
      let g := mkDGroup (d_cfg g) next
                 (match Commit_Event committed with
                  | Some _ => cm_At committed
                  | None => d_selectionSince g
                  end)
                 (d_decisionsTotal g) None false in
      _ ← publishSelected g;
      mret (g, Some committed)
  end.

(** daemon/internal/decision/group.go:160-177 (refresh): rewrite the committed
    Selection's routes, all of them when a Repair is due *)
Definition refresh (g : DGroup) (families : list Family) : M E Ev DGroup :=
  let families := if d_repairDue g then [] else families in
  err ← applyRoutes (a_wan (d_selection g)) families;
  match err with
  | Some _ => mret (with_repair g true)
  | None => mret (with_repair g false)
  end.

(** daemon/internal/decision/group.go:80-98 (Recompute): select, and decide on
    a changed target *)
Definition Recompute (g : DGroup) (members : list MemberHealth) (reason : string)
    : M E Ev (DGroup * option Commit) :=
  match Select (d_cfg g) members with
  | inl _ => mret (g, None)
  | inr sel =>
      if decide (s_active sel = intent g) then mret (g, None)
      else
        let g := mkDGroup (d_cfg g) (d_selection g) (d_selectionSince g)
                   (int_wrap (d_decisionsTotal g + 1)) (Some (s_active sel)) (d_repairDue g) in
        _ ← Inc GroupDecisions [g_name (d_cfg g); reason];
        commit g (s_active sel)
  end.

(** daemon/internal/decision/group.go:100-115 (Probe): retry the pending
    Selection, or a due Repair, onto the probed WAN *)
Definition DProbe (g : DGroup) (wan : string) : M E Ev (DGroup * option Commit) :=
  match d_pending g with
  | Some pending =>
      if negb (a_has pending) || negb (bool_decide (a_wan pending = wan)) then mret (g, None)
      else commit g pending
  | None =>
      if d_repairDue g && bool_decide (a_wan (d_selection g) = wan) then
        g ← refresh g []; mret (g, None)
      else mret (g, None)
  end.

(** daemon/internal/decision/group.go:117-134 (RouteObserved): retry the
    pending Selection, or refresh the observed family *)
Definition RouteObserved (g : DGroup) (wan : string) (family : Family)
    : M E Ev (DGroup * option Commit) :=
  let want := intent g in
  if negb (a_has want) || negb (bool_decide (a_wan want = wan)) then mret (g, None)
  else match d_pending g with
       | Some pending => commit g pending
       | None => g ← refresh g [family]; mret (g, None)
       end.

End group.

(** ** Lemmas *)

#[export] Instance quiet_publishSelected {E Ev} `{!MetricSink Ev} g :
  Quiet (publishSelected (E:=E) (Ev:=Ev) g).
Proof. apply quiet_bind; [apply _|]. intros l. apply quiet_forM. intros [k m]. apply _. Qed.

(** The Group a successful commit leaves, and the commit it returns. *)
Definition committed (g : DGroup) (next : Active) (at_ : Time) : DGroup * Commit :=
  let c := mkCommit (d_selection g) next at_ in
  (mkDGroup (d_cfg g) next
     (match Commit_Event c with Some _ => at_ | None => d_selectionSince g end)
     (d_decisionsTotal g) None false, c).

(** The outcomes of a commit: the adapter's error keeps the Group, else the
    pending Selection is committed and the environment left as Apply left it. *)
Lemma wp_commit {E Ev} `{!MetricSink Ev} (applyRoutes : ApplyRoutes (E:=E) (Ev:=Ev)) g next Q w :
  wp (if a_has next then applyRoutes (a_wan next) [] else mret None) (λ err w',
    match err with
    | Some _ => Q (g, None) w'
    | None => ∀ at_ w'', w_env w'' = w_env w' →
        Q ((committed g next at_).1, Some (committed g next at_).2) w''
    end) w →
  wp (commit applyRoutes g next) Q w.
Proof.
  intros H. unfold commit. apply wp_bind. eapply wp_mono; [exact H|].
  intros [e|] w1 HQ; [by apply wp_ret|].
  apply wp_bind, (wp_quiet _). intros at_ w2 H2. apply wp_bind, (wp_quiet _). intros [] w3 H3.
  apply wp_ret. specialize (HQ at_ w3 (eq_trans H3 H2)). unfold committed in HQ. cbn [fst snd] in HQ.
  by destruct (Commit_Event _).
Qed.

Lemma Commit_Event_None c :
  Commit_Event c = None ↔ a_has (cm_Old c) = a_has (cm_New c) ∧
    (a_has (cm_New c) = true → a_wan (cm_Old c) = a_wan (cm_New c)).
Proof.
  unfold Commit_Event. destruct (a_has (cm_Old c)), (a_has (cm_New c)); cbn; try naive_solver.
  case_bool_decide; naive_solver.
Qed.

(** ** Histories of operations *)

Inductive op :=
| OpRecompute (members : list MemberHealth) (reason : string)
| OpProbe (wan : string)
| OpRoute (wan : string) (family : Family).

(** An Apply adapter that records its calls and answers them from a script. *)
Record applied := mkApplied { ap_wan : string; ap_families : list Family; ap_ok : bool }.

Record script_env := mkScript { se_script : nat → bool; se_calls : list applied }.

Section history.
Context {Ev : Type} `{!MetricSink Ev}.

Definition scripted : ApplyRoutes (E:=script_env) (Ev:=Ev) := λ wan families,
  call (λ e : script_env,
    let ok := se_script e (length (se_calls e)) in
    (if ok then None else Some (Errorf "apply routes"),
     mkScript (se_script e) (se_calls e ++ [mkApplied wan families ok]))).

Definition exec (g : DGroup) (o : op) : M script_env Ev (DGroup * option Commit) :=
  match o with
  | OpRecompute members reason => Recompute scripted g members reason
  | OpProbe wan => DProbe scripted g wan
  | OpRoute wan family => RouteObserved scripted g wan family
  end.

(** The Group and its commits after a sequence of operations. *)
Definition run (cfg : Group) (ops : list op) : M script_env Ev (DGroup * list Commit) :=
  g ← DNew cfg;
  foldM (λ '(g, cs) o, '(g, c) ← exec g o; mret (g, cs ++ option_list c)) (g, []) ops.

End history.

(** Every family of [wan] was written, and every call since was for [wan] and
    succeeded. *)
Definition fresh (wan : string) (calls : list applied) : Prop :=
  ∃ l1 l2, calls = l1 ++ mkApplied wan [] true :: l2 ∧
    Forall (λ c, ap_wan c = wan ∧ ap_ok c = true) l2.

(** A Group's state against the calls it has made: a pending Selection is one
    whose last Apply failed; the committed Selection's routes are fresh, or a
    Repair is due after a failed refresh. *)
Record converging (g : DGroup) (calls : list applied) : Prop := {
  cv_pending p : d_pending g = Some p →
    a_has p = true ∧ last calls = Some (mkApplied (a_wan p) [] false);
  cv_settled : d_pending g = None → a_has (d_selection g) = true →
    if d_repairDue g then ∃ fams, last calls = Some (mkApplied (a_wan (d_selection g)) fams false)
    else fresh (a_wan (d_selection g)) calls;
  cv_none : d_pending g = None → a_has (d_selection g) = false → d_repairDue g = false;
  cv_written : a_has (d_selection g) = true → mkApplied (a_wan (d_selection g)) [] true ∈ calls
}.

(** Commits that continue each other from [sel] to [sel']. *)
Fixpoint chain (sel : Active) (cs : list Commit) (sel' : Active) : Prop :=
  match cs with
  | [] => sel = sel'
  | c :: cs => cm_Old c = sel ∧ chain (cm_New c) cs sel'
  end.

(** The stamp of the last commit that changed the Selection. *)
Definition since_of (cs : list Commit) : Time :=
  foldl (λ t c, match Commit_Event c with Some _ => cm_At c | None => t end) zero_time cs.

Lemma chain_snoc cs c : ∀ sel sel',
  chain sel (cs ++ [c]) sel' ↔ chain sel cs (cm_Old c) ∧ cm_New c = sel'.
Proof. induction cs as [|c' cs IH]; intros sel sel'; cbn; [naive_solver|]. rewrite IH. tauto. Qed.

Section proofs.
Context {Ev : Type} `{!MetricSink Ev}.

Lemma wp_scripted wan families Q (w : World script_env Ev) :
  (∀ ok w', se_calls (w_env w') = se_calls (w_env w) ++ [mkApplied wan families ok] →
     Q (if ok then None else Some (Errorf "apply routes")) w') →
  wp (scripted wan families) Q w.
Proof. intros H. apply (H (se_script (w_env w) (length (se_calls (w_env w))))). done. Qed.

(** One operation: the state still converges, and what it committed continues
    the committed Selection. *)
Definition step_ok (g : DGroup) (r : DGroup * option Commit) (calls : list applied) : Prop :=
  converging r.1 calls ∧ d_cfg r.1 = d_cfg g ∧
  match r.2 with
  | Some c => cm_Old c = d_selection g ∧ cm_New c = d_selection r.1 ∧
      d_selectionSince r.1 = match Commit_Event c with Some _ => cm_At c | None => d_selectionSince g end
  | None => d_selection r.1 = d_selection g ∧ d_selectionSince r.1 = d_selectionSince g
  end.

Lemma commit_ok g next (w : World script_env Ev) :
  d_pending g = Some next →
  (a_has (d_selection g) = true → mkApplied (a_wan (d_selection g)) [] true ∈ se_calls (w_env w)) →
  wp (commit scripted g next) (λ r w', step_ok g r (se_calls (w_env w'))) w.
Proof.
  intros Hp Hsel. apply wp_commit. destruct (a_has next) eqn:Hn.
  - apply wp_scripted. intros [] w' Hw'.
    + intros at_ w'' Hw''. cbv beta iota. rewrite Hw'', Hw'. split; [|done]. split; cbn; try done.
      * intros _ _. exists (se_calls (w_env w)), []. by split.
      * intros _. apply elem_of_app. right. apply list_elem_of_here.
    + cbv beta iota. rewrite Hw'. split; [|done]. split; cbn; rewrite ?Hp; try done.
      * intros p [= <-]. by rewrite last_snoc.
      * intros Hs. apply elem_of_app. left. by apply Hsel.
  - apply wp_ret. intros at_ w'' Hw''. cbv beta iota. rewrite Hw''. split; [|done]. split; cbn; try done; congruence.
Qed.

Lemma fresh_snoc wan calls fams :
  fresh wan calls → fresh wan (calls ++ [mkApplied wan fams true]).
Proof.
  intros (l1 & l2 & -> & H). exists l1, (l2 ++ [mkApplied wan fams true]).
  split; [by rewrite <- app_assoc|]. apply Forall_app. split; [done|]. by constructor.
Qed.

Lemma refresh_ok g fams (w : World script_env Ev) :
  converging g (se_calls (w_env w)) → d_pending g = None → a_has (d_selection g) = true →
  wp (refresh scripted g fams) (λ g' w', step_ok g (g', None) (se_calls (w_env w'))) w.
Proof.
  intros [_ Hset _ Hwr] Hp Hs. specialize (Hset Hp Hs).
  unfold refresh. apply wp_bind, wp_scripted. intros ok w' Hw'.
  destruct ok; apply wp_ret; rewrite Hw'; (split; [|done]); split; cbn; rewrite ?Hp, ?Hs; try done.
  - intros _ _. destruct (d_repairDue g).
    + exists (se_calls (w_env w)), []. by split.
    + by apply fresh_snoc.
  - intros _. apply elem_of_app. left. by apply Hwr.
  - intros _ _. eexists. apply last_snoc.
  - intros _. apply elem_of_app. left. by apply Hwr.
Qed.

Lemma exec_ok g o (w : World script_env Ev) :
  converging g (se_calls (w_env w)) → wp (exec g o) (λ r w', step_ok g r (se_calls (w_env w'))) w.
Proof.
  intros Hc. assert (Hstay : step_ok g (g, None) (se_calls (w_env w))) by done.
  destruct o as [members reason|wan|wan family]; cbn [exec].
  - unfold Recompute. destruct (Select _ _) as [err|sel]; [by apply wp_ret|].
    case_decide; [by apply wp_ret|]. apply wp_bind, (wp_quiet _). intros [] w' Hw'.
    eapply wp_mono; [apply commit_ok; [done|cbn; rewrite Hw'; apply Hc]|].
    intros r w'' H'. exact H'.
  - unfold DProbe. destruct (d_pending g) as [p|] eqn:Hp.
    + destruct (_ || _); [by apply wp_ret|]. by apply commit_ok; [|apply Hc].
    + destruct (d_repairDue g && _) eqn:Hd; [|by apply wp_ret].
      apply andb_prop in Hd as [Hd _]. apply wp_bind.
      eapply wp_mono; [apply refresh_ok; try done|intros g' w' H'; by apply wp_ret].
      destruct (a_has (d_selection g)) eqn:Hs; [done|]. by rewrite (cv_none _ _ Hc Hp Hs) in Hd.
  - unfold RouteObserved. destruct (a_has (intent g)) eqn:Hi; cbn [negb orb]; [|by apply wp_ret].
    destruct (negb _); [by apply wp_ret|]. unfold intent in Hi. destruct (d_pending g) as [p|] eqn:Hp.
    + by apply commit_ok; [|apply Hc].
    + apply wp_bind. eapply wp_mono; [by apply refresh_ok|]. intros g' w' H'. by apply wp_ret.
Qed.

Lemma run_ok cfg ops (w : World script_env Ev) :
  se_calls (w_env w) = [] →
  wp (run cfg ops) (λ r w',
    let '(g, cs) := r in
    converging g (se_calls (w_env w')) ∧ d_cfg g = cfg ∧ chain NoActive cs (d_selection g) ∧
    d_selectionSince g = since_of cs) w.
Proof.
  intros Hw. unfold run. apply wp_bind. unfold DNew. apply wp_bind, (wp_quiet _). intros [] w1 Hw1.
  apply wp_ret. apply (wp_foldM _ _ (λ _ r w', let '(g, cs) := r in
    converging g (se_calls (w_env w')) ∧ d_cfg g = cfg ∧ chain NoActive cs (d_selection g) ∧
    d_selectionSince g = since_of cs)); [|clear w1 Hw1|done].
  - split; [|done]. by split.
  - intros _ o _ [g cs] w1 _ (Hc & Hcfg & Hch & Hs). apply wp_bind.
    eapply wp_mono; [by apply exec_ok|]. intros [g' c] w2 (Hc' & Hcfg' & H). apply wp_ret.
    cbn [fst snd] in *. split; [done|]. split; [congruence|]. destruct c as [c|]; cbn [option_list].
    + destruct H as (Ho & Hn & Ht). change (option_list (Some c)) with [c]. rewrite chain_snoc, Ho. split; [done|].
      unfold since_of in *. rewrite foldl_snoc, Ht. by rewrite Hs.
    + destruct H as [-> ->]. by rewrite app_nil_r.
Qed.
End proofs.

(** A refused commit leaves the Group and the world where Apply left them. *)
Lemma commit_refused {E Ev} `{!MetricSink Ev} (applyRoutes : ApplyRoutes (E:=E) (Ev:=Ev)) g next (w : World E Ev) e w2 :
  (if a_has next then applyRoutes (a_wan next) [] w else (None, w)) = (Some e, w2) →
  (commit applyRoutes g next w).2 = w2.
Proof.
  intros H. unfold commit, mbind, M_bind. destruct (a_has next); [|done]. by rewrite H.
Qed.

(** The outcomes of [Recompute]. *)
Lemma recompute_cases {E Ev} `{!MetricSink Ev} (applyRoutes : ApplyRoutes (E:=E) (Ev:=Ev))
    g members reason (w : World E Ev) :
  let '((g', c), w') := Recompute applyRoutes g members reason w in
  match Select (d_cfg g) members with
  | inl _ => g' = g ∧ c = None ∧ w' = w
  | inr sel =>
      let next := s_active sel in
      best members next ∧
      if decide (next = intent g) then g' = g ∧ c = None ∧ w' = w
      else
        intent g' = next ∧ d_cfg g' = d_cfg g ∧ d_decisionsTotal g' = int_wrap (d_decisionsTotal g + 1) ∧
        let counted := (Inc GroupDecisions [g_name (d_cfg g); reason] w).2 in
        let '(err, applied) := if a_has next then applyRoutes (a_wan next) [] counted else (None, counted) in
        match err with
        | Some _ => c = None ∧ w' = applied ∧
            d_selection g' = d_selection g ∧ d_selectionSince g' = d_selectionSince g ∧
            d_pending g' = Some next ∧ d_repairDue g' = d_repairDue g
        | None => ∃ at_, c = Some (mkCommit (d_selection g) next at_) ∧ w_env w' = w_env applied ∧
            d_selection g' = next ∧ d_pending g' = None ∧ d_repairDue g' = false ∧
            d_selectionSince g' = match Commit_Event (mkCommit (d_selection g) next at_) with
                                   | Some _ => at_ | None => d_selectionSince g end
        end
  end.
Proof.
  unfold Recompute. destruct (Select (d_cfg g) members) as [err|sel] eqn:Hsel; [done|].
  assert (Hb : best members (s_active sel)).
  { destruct (decide (g_strategy (d_cfg g) = "primary-backup")) as [He|Hne].
    - rewrite Select_known in Hsel by done. injection Hsel as <-. apply primaryBackup_best.
    - by rewrite Select_unknown in Hsel. }
  cbv zeta. set (next := s_active sel) in *. case_decide as Hi; [done|].
  unfold mbind at 1, M_bind at 1. destruct (Inc GroupDecisions _ w) as [[] w1]. cbn [fst snd].
  match goal with |- match commit applyRoutes ?g0 next w1 with _ => _ end =>
    pose proof (wp_commit applyRoutes g0 next (λ r w', intent r.1 = next ∧ d_cfg r.1 = d_cfg g ∧
      d_decisionsTotal r.1 = int_wrap (d_decisionsTotal g + 1) ∧
      let '(err, applied) := if a_has next then applyRoutes (a_wan next) [] w1 else (None, w1) in
      match err with
      | Some _ => r.2 = None ∧ r.1 = g0
      | None => ∃ at_, r.2 = Some (mkCommit (d_selection g) next at_) ∧ w_env w' = w_env applied ∧
          r.1 = (committed g0 next at_).1
      end) w1) as Hwp; pose proof (commit_refused applyRoutes g0 next w1) as Hw
  end.
  unfold wp in Hwp. destruct (commit _ _ next w1) as [[g' c] w']. cbn [fst snd] in *. split; [done|].
  destruct Hwp as (H1 & H2 & H3 & H4).
  { destruct (a_has next); cbn [fst snd]; [|intros at_ w2 Hw2; by split_and!; try done; exists at_].
    destruct (applyRoutes (a_wan next) [] w1) as [[e|] w2]; cbn [fst snd]; [done|].
    intros at_ w3 Hw3. split_and!; try done. by exists at_. }
  do 3 (split; [done|]). destruct (if a_has next then _ else _) as [[e|] w2].
  - destruct H4 as [-> ->]. split; [done|]. split; [by apply (Hw e)|done].
  - destruct H4 as (at_ & -> & He & ->). exists at_. by split_and!.
Qed.

Lemma recompute_intent {E Ev} `{!MetricSink Ev} (applyRoutes : ApplyRoutes (E:=E) (Ev:=Ev))
    g members reason (w : World E Ev) :
  g_strategy (d_cfg g) = "primary-backup" →
  wp (Recompute applyRoutes g members reason)
    (λ r _, d_cfg r.1 = d_cfg g ∧ best members (intent r.1) ∧
       (r = (g, None) ∨ (¬ best members (intent g) ∧
          d_decisionsTotal r.1 = int_wrap (d_decisionsTotal g + 1)))) w.
Proof.
  intros Hs. pose proof (recompute_cases applyRoutes g members reason w) as H.
  unfold wp. destruct (Recompute _ _ _ _ w) as [[g' c] w']. cbn [fst snd].
  rewrite Select_known in H by done. cbv zeta in H. destruct H as (Hb & H). case_decide as Hd.
  { destruct H as (-> & -> & _). split; [done|]. rewrite <- Hd. split; [done|by left]. }
  destruct H as (Hi & Hcfg & Ht & _). split; [done|]. rewrite Hi. split; [done|].
  right. split; [|done]. intros Hbest. destruct Hd.
  apply (best_unique members); [apply primaryBackup_best|done].
Qed.

(** Retries never change what the Group wants. *)
Lemma retry_intent {E Ev} `{!MetricSink Ev} (applyRoutes : ApplyRoutes (E:=E) (Ev:=Ev))
    g (m : M E Ev (DGroup * option Commit)) (w : World E Ev) :
  (∃ wan, m = DProbe applyRoutes g wan) ∨ (∃ wan fam, m = RouteObserved applyRoutes g wan fam) →
  wp m (λ r _, d_cfg r.1 = d_cfg g ∧ intent r.1 = intent g ∧ d_decisionsTotal r.1 = d_decisionsTotal g) w.
Proof.
  assert (Hcommit : ∀ p w, d_pending g = Some p →
    wp (commit applyRoutes g p) (λ r _, d_cfg r.1 = d_cfg g ∧ intent r.1 = intent g ∧
      d_decisionsTotal r.1 = d_decisionsTotal g) w).
  { intros p w0 Hp. apply wp_commit, wp_any. intros [e|] w1; [done|]. intros at_ w2 _.
    unfold intent. rewrite Hp. done. }
  assert (Hrefresh : ∀ fams w, wp (g' ← refresh applyRoutes g fams; mret (g', None : option Commit))
    (λ r _, d_cfg r.1 = d_cfg g ∧ intent r.1 = intent g ∧ d_decisionsTotal r.1 = d_decisionsTotal g) w).
  { intros fams w0. apply wp_bind. unfold refresh. apply wp_bind, wp_any. intros [e|] w1; by apply wp_ret, wp_ret. }
  intros [(wan & ->)|(wan & fam & ->)].
  - unfold DProbe. destruct (d_pending g) as [p|] eqn:Hp.
    + destruct (_ || _); [by apply wp_ret|]. by apply Hcommit.
    + destruct (_ && _); [apply Hrefresh|by apply wp_ret].
  - unfold RouteObserved. destruct (_ || _); [by apply wp_ret|].
    destruct (d_pending g) as [p|] eqn:Hp; [by apply Hcommit|apply Hrefresh].
Qed.

(** ** Properties *)

(** A start of the history: no call made, a script and a schedule chosen. *)
Definition start {Ev} (script : nat → bool) (sched : Schedule) : World script_env Ev :=
  mkWorld sched 0 (mkScript script []) [].

(** C6. A Group converges: after any sequence of recomputations, probe cycles
    and route observations, whichever Apply calls fail, a pending Selection is
    one whose last Apply failed; a committed Selection's WAN was written in
    every family, and unless a Repair is due nothing has failed since; commits
    continue each other from no Selection to the current one; and the
    published Selection and its start are those of the last commit that
    changed it, so nothing is published before its Apply succeeded. *)
Theorem group_converges {Ev} `{!MetricSink Ev} cfg ops script sched :
  let '((g, cs), w) := run cfg ops (start (Ev:=Ev) script sched) in
  converging g (se_calls (w_env w)) ∧
  chain NoActive cs (d_selection g) ∧
  sg_Selection (DSnapshot g) =
    (let s := default NoActive (cm_New <$> last cs) in if a_has s then Some (a_wan s) else None) ∧
  sg_SelectionSince (DSnapshot g) = (if IsZero (since_of cs) then None else Some (since_of cs)).
Proof.
  pose proof (run_ok cfg ops (start (Ev:=Ev) script sched) eq_refl) as H. unfold wp in H.
  destruct (run cfg ops _) as [[g cs] w]. cbn [fst snd] in H. destruct H as (Hc & Hcfg & Hch & Hs).
  split; [done|]. split; [done|]. unfold DSnapshot. cbn [sg_Selection sg_SelectionSince].
  rewrite Hs. split; [|done].
  assert (d_selection g = default NoActive (cm_New <$> last cs)) as ->; [|done].
  destruct cs as [|c cs _] using rev_ind; [done|]. rewrite last_snoc. by apply chain_snoc in Hch as [_ <-].
Qed.

(** C21. Recompute: an unknown strategy changes nothing; a target equal to the
    Group's intent changes nothing and has no effect at all; a new target, the
    best of the Members, is counted once, becomes the intent, and is applied once
    unless it is no Selection. When that Apply fails nothing is committed: the
    target stays pending and the committed Selection, its start and a due Repair
    are untouched. When it succeeds, or there is nothing to apply, the target is
    committed, nothing is pending and no Repair is due; the Selection's start is
    the commit's stamp exactly when the Selection changed. *)
Theorem recompute_outcome {E Ev} `{!MetricSink Ev} (applyRoutes : ApplyRoutes (E:=E) (Ev:=Ev))
    g members reason (w : World E Ev) :
  let '((g', c), w') := Recompute applyRoutes g members reason w in
  match Select (d_cfg g) members with
  | inl _ => g' = g ∧ c = None ∧ w' = w
  | inr sel =>
      let next := s_active sel in
      best members next ∧
      if decide (next = intent g) then g' = g ∧ c = None ∧ w' = w
      else
        intent g' = next ∧ d_cfg g' = d_cfg g ∧ d_decisionsTotal g' = int_wrap (d_decisionsTotal g + 1) ∧
        let counted := (Inc GroupDecisions [g_name (d_cfg g); reason] w).2 in
        let '(err, applied) := if a_has next then applyRoutes (a_wan next) [] counted else (None, counted) in
        match err with
        | Some _ => c = None ∧ w' = applied ∧
            d_selection g' = d_selection g ∧ d_selectionSince g' = d_selectionSince g ∧
            d_pending g' = Some next ∧ d_repairDue g' = d_repairDue g
        | None => ∃ at_, c = Some (mkCommit (d_selection g) next at_) ∧ w_env w' = w_env applied ∧
            d_selection g' = next ∧ d_pending g' = None ∧ d_repairDue g' = false ∧
            d_selectionSince g' = match Commit_Event (mkCommit (d_selection g) next at_) with
                                   | Some _ => at_ | None => d_selectionSince g end
        end
  end.
Proof. apply recompute_cases. Qed.

(** C23. A Group recovers: once the Apply adapter succeeds for the WAN the Group
    wants, one probe cycle of that WAN settles it: the wanted Selection is
    committed, nothing is pending and no Repair is due, and the commit, if
    one was pending, reports it. *)
Theorem group_recovers {E Ev} `{!MetricSink Ev} (applyRoutes : ApplyRoutes (E:=E) (Ev:=Ev))
    g (w : World E Ev) :
  a_has (intent g) = true →
  (∀ families w0, (applyRoutes (a_wan (intent g)) families w0).1 = None) →
  let '((g', c), _) := DProbe applyRoutes g (a_wan (intent g)) w in
  d_selection g' = intent g ∧ d_pending g' = None ∧ d_repairDue g' = false ∧
  intent g' = intent g ∧
  (c = None ↔ d_pending g = None) ∧ (∀ c', c = Some c' → cm_Old c' = d_selection g ∧ cm_New c' = intent g).
Proof.
  intros Hh Hok.
  assert (wp (DProbe applyRoutes g (a_wan (intent g))) (λ r _,
    d_selection r.1 = intent g ∧ d_pending r.1 = None ∧ d_repairDue r.1 = false ∧
    intent r.1 = intent g ∧
    (r.2 = None ↔ d_pending g = None) ∧
    (∀ c', r.2 = Some c' → cm_Old c' = d_selection g ∧ cm_New c' = intent g)) w) as Hwp;
    [|unfold wp in Hwp; by destruct (DProbe _ _ _ w) as [[g' c] w']].
  unfold DProbe. unfold intent in *. destruct (d_pending g) as [p|] eqn:Hp; cbn [default from_option id] in *.
  - rewrite Hh, bool_decide_eq_true_2 by done. cbn [negb orb]. apply wp_commit. rewrite Hh.
    unfold wp. rewrite Hok. intros at_ w' _. cbn. split_and!; try done. by intros c' [= <-].
  - rewrite bool_decide_eq_true_2, andb_true_r by done. destruct (d_repairDue g) eqn:Hd.
    + apply wp_bind. unfold refresh. apply wp_bind. unfold wp at 1. rewrite Hok. apply wp_ret, wp_ret.
      cbn. by rewrite Hp.
    + apply wp_ret. cbn. by rewrite Hp.
Qed.

Lemma group_recovers_witness :
  let cfg := mkGroup "home" "primary-backup" 100 200 {[ "fiber" := mkMember "fiber" 1 ]} in
  let g := mkDGroup cfg NoActive zero_time 1 (Some (mkActive "fiber" true)) false in
  let apply : ApplyRoutes (E:=unit) (Ev:=MetricOp) := λ _ _, mret None in
  let w := mkWorld (mkSchedule None (λ _, 1%positive) (λ _ _, 0%nat)) 0 () [] in
  ∃ g' c w', DProbe apply g "fiber" w = ((g', c), w') ∧ d_selection g' = mkActive "fiber" true.
Proof.
  intros cfg g apply w.
  pose proof (group_recovers apply g w eq_refl (λ _ _, eq_refl)) as H. change (a_wan (intent g)) with "fiber" in H.
  destruct (DProbe apply g "fiber" w) as [[g' c] w'] eqn:Hd. exists g', c, w'. split; [done|]. apply H.
Defined.
