(* ===== verification/Apply.v ===== *)
(** * Kernel mutation ([apply.go], [route.go], [rule.go], [conntrack.go])

    The three operations that change kernel routing state. The netlink library
    is a parameter: the requests an operation may make, each a computation on
    the environment with its error. *)
From S2P Require Import Prelude NetIP Icmp Runtime Routes.

#[local] Open Scope Z_scope.

(** ** Validation *)

(** daemon/internal/apply/apply.go:44-49 (validFamily): one of the two *)
Definition validFamily (family : Family) : bool :=
  bool_decide (family = FamilyV4 ∨ family = FamilyV6).

(** daemon/internal/apply/apply.go:22-42 (validateFamilyIP): the address is of
    the Family *)
Definition validateFamilyIP (family : Family) (ip : IP) : option error :=
  if negb (validFamily family) then Some (Errorf "apply: invalid family")
  else match ip with
       | None => Some (Errorf "apply: ip is nil")
       | Some _ =>
           let isV4 := bool_decide (is_Some (To4 ip)) in
           if bool_decide (family = FamilyV4) && negb isV4 then Some (Errorf "apply: not v4 but family=v4")
           else if bool_decide (family = FamilyV6) && isV4 then Some (Errorf "apply: v4 but family=v6")
           else None
       end.

(** ** Routes *)

(** daemon/internal/apply/route.go:13-32 (DefaultRoute): fields *)
Record DefaultRoute := mkDefaultRoute {
  dr_Family : Family; dr_Table : Z; dr_Gateway : IP; dr_IfIndex : Z; dr_PointToPoint : bool
}.

Definition RT_SCOPE_UNIVERSE : Z := 0.
Definition RT_SCOPE_LINK : Z := 253.

(** daemon/internal/apply/route.go:90-97 (defaultDestination): the all-zero
    prefix *)
Definition defaultDestination (f : Family) : IPNet :=
  if decide (f = FamilyV6) then mkIPNet IPv6unspecified (replicate 16 0)
  else mkIPNet IPv4zero (replicate 4 0).

(** daemon/internal/apply/route.go:63-88 (buildRoute): the conversion to the
    library's route *)
Definition buildRoute (d : DefaultRoute) : Route :=
  if dr_PointToPoint d then
    mkRoute (Family_int (dr_Family d)) (dr_Table d) (dr_IfIndex d) RT_SCOPE_LINK
      (Some (defaultDestination (dr_Family d))) None 0 0 []
  else
    mkRoute (Family_int (dr_Family d)) (dr_Table d) (dr_IfIndex d) RT_SCOPE_UNIVERSE
      None (dr_Gateway d) 0 0 [].

(** daemon/internal/apply/route.go:99-116 (validateDefaultRoute): table,
    interface, and exactly one of Gateway and point-to-point *)
Definition validateDefaultRoute (d : DefaultRoute) : option error :=
  if dr_Table d <=? 0 then Some (Errorf "apply: invalid table")
  else if dr_IfIndex d <=? 0 then Some (Errorf "apply: invalid ifindex")
  else if dr_PointToPoint d then
    match dr_Gateway d with
    | Some _ => Some (Errorf "apply: pointToPoint route must have nil Gateway")
    | None => if negb (validFamily (dr_Family d)) then Some (Errorf "apply: invalid family") else None
    end
  else validateFamilyIP (dr_Family d) (dr_Gateway d).

(** ** Rules: the library's data *)

(** The fields of [netlink.Rule] the daemon reads or writes. *)
Record Rule := mkRule {
  ru_Family : Z; ru_Priority : Z; ru_Mark : Z; ru_Mask : option Z; ru_Table : Z;
  ru_Src : option IPNet; ru_Dst : option IPNet; ru_IifName : string; ru_OifName : string;
  ru_Invert : bool; ru_Tos : Z; ru_TunID : Z; ru_IPProto : Z;
  ru_Sport : option (Z * Z); ru_Dport : option (Z * Z); ru_UIDRange : option (Z * Z);
  ru_Goto : Z; ru_SuppressPrefixlen : Z; ru_SuppressIfgroup : Z; ru_Protocol : Z
}.

(** [netlink.NewRule()], the vendored library's blank rule. *)
Definition NewRule : Rule :=
  mkRule 0 (-1) 0 None 0 None None "" "" false 0 0 0 None None None (-1) (-1) (-1) 0.

Definition EEXIST : error := Errno 17.
Definition EINVAL : error := Errno 22.
Definition EOPNOTSUPP : error := Errno 95.
Definition RTPROT_STATIC : Z := 4.

(** daemon/internal/apply/rule.go:15-22 (FwmarkRule): fields *)
Record FwmarkRule := mkFwmarkRule { fr_Family : Family; fr_Mark : Z; fr_Table : Z }.

(** daemon/internal/apply/rule.go:55-56 (fullMask): every bit of the mark *)
Definition fullMask : Z := 4294967295.

(** [uint32(x)] *)
Definition u32 (z : Z) : Z := z mod 4294967296.

(** daemon/internal/apply/rule.go:113-120 (hasOtherSelector): a selector besides
    mark and table *)
Definition hasOtherSelector (k : Rule) : bool :=
  bool_decide (is_Some (ru_Src k)) || bool_decide (is_Some (ru_Dst k)) ||
  negb (bool_decide (ru_IifName k = "")) || negb (bool_decide (ru_OifName k = "")) ||
  ru_Invert k || negb (ru_Tos k =? 0) || negb (ru_TunID k =? 0) || negb (ru_IPProto k =? 0) ||
  bool_decide (is_Some (ru_Sport k)) || bool_decide (is_Some (ru_Dport k)) ||
  bool_decide (is_Some (ru_UIDRange k)) ||
  negb (ru_Goto k =? -1) || negb (ru_SuppressPrefixlen k =? -1) || negb (ru_SuppressIfgroup k =? -1).

(** daemon/internal/apply/rule.go:98-111 (matchesRule): routes all of the mark
    to the table *)
Definition matchesRule (k : Rule) (r : FwmarkRule) : bool :=
  (ru_Family k =? Family_int (fr_Family r)) && (ru_Mark k =? u32 (fr_Mark r)) &&
  bool_decide (ru_Mask k = Some fullMask) && (ru_Table k =? fr_Table r) &&
  negb (hasOtherSelector k).

(** daemon/internal/apply/rule.go:145-156 (validateRule): positive mark and
    table *)
Definition validateRule (r : FwmarkRule) : option error :=
  if negb (validFamily (fr_Family r)) then Some (Errorf "apply: invalid family")
  else if fr_Mark r <=? 0 then Some (Errorf "apply: invalid mark")
  else if fr_Table r <=? 0 then Some (Errorf "apply: invalid table")
  else None.

(** daemon/internal/apply/rule.go:85-87 (ensureRuleVia): the order of the stable
    sort *)
Definition rule_le : relation Rule := by_key Z.le ru_Priority.

Section apply.
Context {E Ev : Type}.

(** [ctx.Err()] at entry, then [k]. *)
Definition checked {A} (fail : error → A) (k : M E Ev A) : M E Ev A :=
  err ← ctx_Err;
  match err with Some err => mret (fail err) | None => k end.

(** daemon/internal/apply/route.go:45-61 (writeDefaultVia): validate, then
    replace *)
Definition writeDefaultVia (replaceFn : Route → M E Ev (option error)) (d : DefaultRoute)
    : M E Ev (option error) :=
  checked Some
    match validateDefaultRoute d with
    | Some err => mret (Some err)
    | None =>
        err ← replaceFn (buildRoute d);
        mret (Wrapf "apply: route replace" <$> err)
    end.

(** daemon/internal/apply/rule.go:47-53 (ruleOps): the netlink seam *)
Record ruleOps := mkRuleOps {
  ro_list : Z → M E Ev (error + list Rule);
  ro_add : Rule → M E Ev (option error);
  ro_del : Rule → M E Ev (option error)
}.

(** daemon/internal/apply/rule.go:122-143 (buildRule): the rule to install *)
Definition buildRule (r : FwmarkRule) : Rule :=
  mkRule (Family_int (fr_Family r)) (ru_Priority NewRule) (u32 (fr_Mark r)) (Some fullMask) (fr_Table r)
    (ru_Src NewRule) (ru_Dst NewRule) (ru_IifName NewRule) (ru_OifName NewRule)
    (ru_Invert NewRule) (ru_Tos NewRule) (ru_TunID NewRule) (ru_IPProto NewRule)
    (ru_Sport NewRule) (ru_Dport NewRule) (ru_UIDRange NewRule)
    (ru_Goto NewRule) (ru_SuppressPrefixlen NewRule) (ru_SuppressIfgroup NewRule) RTPROT_STATIC.

(** daemon/internal/apply/rule.go:88-95 (ensureRuleVia): delete the copies until
    one deletion fails; the count and the error *)
Fixpoint delete_copies (del : Rule → M E Ev (option error)) (removed : Z) (copies : list Rule)
    : M E Ev (Z * option error) :=
  match copies with
  | [] => mret (removed, None)
  | k :: copies =>
      err ← del k;
      match err with
      | Some err => mret (removed, Some (Wrapf "apply: rule delete" err))
      | None => delete_copies del (removed + 1) copies
      end
  end.

(** daemon/internal/apply/rule.go:58-96 (ensureRuleVia): list, add when nothing
    matches, else keep the first of the lowest preference *)
Definition ensureRuleVia (ops : ruleOps) (r : FwmarkRule) : M E Ev (Z * option error) :=
  checked (λ err, (0, Some err))
    match validateRule r with
    | Some err => mret (0, Some err)
    | None =>
        rules ← ro_list ops (Family_int (fr_Family r));
        match rules with
        | inl err => mret (0, Some (Wrapf "apply: rule list" err))
        | inr rules =>
            let matches := filter (λ k, matchesRule k r = true) rules in
            checked (λ err, (0, Some err))
              match matches with
              | [] =>
                  err ← ro_add ops (buildRule r);
                  mret match err with
                       | Some err => if negb (Is err EEXIST) then (0, Some (Wrapf "apply: rule add" err))
                                     else (0, None)
                       | None => (0, None)
                       end
              | _ => delete_copies (ro_del ops) 0 (drop 1 (merge_sort rule_le matches))
              end
        end
    end.

(** ** Conntrack *)

(** daemon/internal/apply/conntrack.go:24-27 (dumpAttempts): dumps of one flush *)
Definition dumpAttempts : nat := 2.

(** daemon/internal/apply/conntrack.go:29-38 (FlushResult): fields *)
Record FlushResult := mkFlushResult { fl_Dumped : bool; fl_Entries : Z }.

(** A netlink attribute as the library nests it, two levels deep in the one
    request of the daemon: bytes, a 32-bit value, or children. *)
Inductive Attr := AttrBytes (t : Z) (data : list Z) | AttrUint32 (t : Z) (v : Z).
Inductive RtAttr := AttrLeaves (t : Z) (leaves : list Attr) | AttrNested (t u : Z) (leaves : list Attr).

(** A ctnetlink request: message type, flags, the family of its header and its
    attributes. *)
Record NetlinkRequest := mkRequest {
  rq_type : Z; rq_flags : Z; rq_family : Z; rq_attrs : list RtAttr
}.

(** The kernel's numbers, as the library names them. *)
Definition ConntrackTable : Z := 1.
Definition IPCTNL_MSG_CT_DELETE : Z := 2.
Definition NLM_F_ACK : Z := 4.
Definition NLA_F_NESTED : Z := 32768.
Definition CTA_TUPLE_REPLY : Z := 2.
Definition CTA_TUPLE_IP : Z := 1.
Definition CTA_IP_V4_DST : Z := 2.

(** daemon/internal/apply/conntrack.go:19-19 (ctaFilter): CTA_FILTER *)
Definition ctaFilter : Z := 25.
(** daemon/internal/apply/conntrack.go:20-20 (ctaFilterReplyFlags): CTA_FILTER_REPLY_FLAGS *)
Definition ctaFilterReplyFlags : Z := 2.
(** daemon/internal/apply/conntrack.go:21-21 (ctaFilterFlagCtaIPDest): CTA_FILTER_FLAG_CTA_IP_DST *)
Definition ctaFilterFlagCtaIPDest : Z := Z.shiftl 1 1.

(** daemon/internal/apply/conntrack.go:153-170 (filteredDeleteRequest): select
    the reply destination *)
Definition filteredDeleteRequest (ip : IP) : NetlinkRequest :=
  mkRequest (Z.lor (Z.shiftl ConntrackTable 8) IPCTNL_MSG_CT_DELETE) NLM_F_ACK AF_INET
    [AttrLeaves (Z.lor NLA_F_NESTED ctaFilter) [AttrUint32 ctaFilterReplyFlags ctaFilterFlagCtaIPDest];
     AttrNested (Z.lor NLA_F_NESTED CTA_TUPLE_REPLY) (Z.lor NLA_F_NESTED CTA_TUPLE_IP)
       [AttrBytes CTA_IP_V4_DST (IP_bytes (To4 ip))]].

(** The library's filter and its reply-destination selector ([AddIP] of
    [ConntrackReplyDstIP] on an empty filter). *)
Context {Filter : Type} (AddReplyDstIP : IP → error + Filter).

(** daemon/internal/apply/conntrack.go:83-91 (conntrackOps): the kernel
    requests *)
Record conntrackOps := mkConntrackOps {
  filteredDelete : NetlinkRequest → M E Ev (option error);
  dumpDelete : Z → Filter → M E Ev (Z * option error)
}.

(** daemon/internal/apply/conntrack.go:188-196 (buildReplyDstFilter): the filter
    or the wrapped error *)
Definition buildReplyDstFilter (ip : IP) : error + Filter :=
  match AddReplyDstIP ip with
  | inl err => inl (Wrapf "apply: conntrack filter add ip" err)
  | inr f => inr f
  end.

(** daemon/internal/apply/conntrack.go:198-200 (validateFlush): the address is
    of the Family *)
Definition validateFlush (family : Family) (ip : IP) : option error := validateFamilyIP family ip.

(** daemon/internal/apply/conntrack.go:132-151 (dumpFlush): the loop, with the
    attempts that are left; the count wraps at 64 bits *)
Fixpoint dumpFlush_loop (tries : nat) (del : Z → Filter → M E Ev (Z * option error))
    (family : Family) (filter : Filter) (entries : Z) : M E Ev (FlushResult * option error) :=
  checked (λ err, (mkFlushResult true entries, Some err))
    ('(n, err) ← del (Family_int family) filter;
     let entries := u64 (entries + n) in
     match err with
     | None => mret (mkFlushResult true entries, None)
     | Some err =>
         if negb (Is err ErrDumpInterrupted) then
           mret (mkFlushResult true entries, Some (Wrapf "apply: conntrack flush" err))
         else match tries with
              | O | S O => mret (mkFlushResult true entries,
                             Some (Wrapf "apply: conntrack flush: dump interrupted on all attempts" err))
              | S tries => dumpFlush_loop tries del family filter entries
              end
     end).

(** daemon/internal/apply/conntrack.go:118-151 (dumpFlush): dump and delete,
    again after an interrupted dump *)
Definition dumpFlush (del : Z → Filter → M E Ev (Z * option error)) (family : Family) (ip : IP)
    : M E Ev (FlushResult * option error) :=
  match buildReplyDstFilter ip with
  | inl err => mret (mkFlushResult false 0, Some err)
  | inr filter => dumpFlush_loop dumpAttempts del family filter 0
  end.

(** daemon/internal/apply/conntrack.go:93-116 (flushBySourceVia): the kernel's
    filtered delete for IPv4, with the dump as fallback; the dump for IPv6 *)
Definition flushBySourceVia (ops : conntrackOps) (family : Family) (ip : IP)
    : M E Ev (FlushResult * option error) :=
  checked (λ err, (mkFlushResult false 0, Some err))
    match validateFlush family ip with
    | Some err => mret (mkFlushResult false 0, Some err)
    | None =>
        if decide (family = FamilyV6) then dumpFlush (dumpDelete ops) family ip
        else
          err ← filteredDelete ops (filteredDeleteRequest ip);
          match err with
          | None => mret (mkFlushResult false 0, None)
          | Some err =>
              if negb (Is err EINVAL) && negb (Is err EOPNOTSUPP) then
                mret (mkFlushResult false 0, Some (Wrapf "apply: conntrack flush" err))
              else dumpFlush (dumpDelete ops) family ip
          end
    end.

End apply.

(** ** Lemmas *)

Lemma wp_checked {E Ev A} (fail : error → A) (k : M E Ev A) Q (w : World E Ev) :
  Q (fail ErrCanceled) (step w) → wp k Q (step w) → wp (checked fail k) Q w.
Proof.
  intros Hf Hk. unfold checked. apply wp_bind. unfold wp at 1, ctx_Err. cbn [fst snd].
  destruct (cancelled w); [by apply wp_ret|done].
Qed.

(** A default route that can be written. *)
Record valid_route (d : DefaultRoute) : Prop := {
  vr_family : dr_Family d = FamilyV4 ∨ dr_Family d = FamilyV6;
  vr_table : 0 < dr_Table d;
  vr_ifindex : 0 < dr_IfIndex d;
  vr_gateway : if dr_PointToPoint d then dr_Gateway d = None
    else is_Some (dr_Gateway d) ∧ (is_Some (To4 (dr_Gateway d)) ↔ dr_Family d = FamilyV4)
}.

Lemma validateFamilyIP_spec family ip :
  validateFamilyIP family ip = None ↔
    (family = FamilyV4 ∨ family = FamilyV6) ∧ is_Some ip ∧ (is_Some (To4 ip) ↔ family = FamilyV4).
Proof.
  unfold validateFamilyIP, validFamily. case_bool_decide as Hf; cbn [negb]; [|naive_solver].
  destruct ip as [b|]; [|naive_solver].
  assert (is_Some (Some b)) by done.
  case_bool_decide as H4; cbn [negb]; case_bool_decide as Hi; cbn [andb negb];
    rewrite ?bool_decide_eq_true; destruct Hf as [-> | ->]; try done;
    try (case_bool_decide; try done); naive_solver.
Qed.

Lemma validateDefaultRoute_spec d : validateDefaultRoute d = None ↔ valid_route d.
Proof.
  unfold validateDefaultRoute. destruct (dr_Table d <=? 0) eqn:Ht; bool_to_Prop.
  { split; [done|]. intros []. lia. }
  destruct (dr_IfIndex d <=? 0) eqn:Hi; bool_to_Prop.
  { split; [done|]. intros []. lia. }
  destruct (dr_PointToPoint d) eqn:Hp.
  - destruct (dr_Gateway d) eqn:Hg.
    + split; [done|]. intros [_ _ _ H]. rewrite Hp, Hg in H. done.
    + unfold validFamily. case_bool_decide as Hf; cbn [negb].
      * split; [intros _|done]. split; try done. by rewrite Hp.
      * split; [done|]. by intros [].
  - rewrite validateFamilyIP_spec. split.
    + intros (? & ? & ?). split; try done. by rewrite Hp.
    + intros [? _ _ H]. by rewrite Hp in H.
Qed.

Lemma buildRoute_default d : isDefaultRoute (buildRoute d) = true.
Proof.
  unfold buildRoute, isDefaultRoute. destruct (dr_PointToPoint d); [|done].
  cbn [r_Dst]. unfold defaultDestination. by case_decide.
Qed.

(** ** Rules: the kernel's rule table *)

(** A rule table as the library exposes it: the rules of a family, and the
    three requests. *)
Record RuleTable (E : Type) := mkRuleTable {
  rt_rules : E → Z → list Rule;
  rt_list : Z → E → (error + list Rule) * E;
  rt_add : Rule → E → option error * E;
  rt_del : Rule → E → option error * E
}.
Arguments mkRuleTable {_}.
Arguments rt_rules {_}.
Arguments rt_list {_}.
Arguments rt_add {_}.
Arguments rt_del {_}.

Definition with_priority (k : Rule) (p : Z) : Rule :=
  mkRule (ru_Family k) p (ru_Mark k) (ru_Mask k) (ru_Table k) (ru_Src k) (ru_Dst k) (ru_IifName k)
    (ru_OifName k) (ru_Invert k) (ru_Tos k) (ru_TunID k) (ru_IPProto k) (ru_Sport k) (ru_Dport k)
    (ru_UIDRange k) (ru_Goto k) (ru_SuppressPrefixlen k) (ru_SuppressIfgroup k) (ru_Protocol k).

(** The documented behaviour the code relies on: a list reads the family's
    rules; a failed request changes nothing; an added rule is listed with a
    preference of the kernel's choice; a deleted rule is listed once less; no
    request touches another family. *)
Record rule_table_laws {E} (T : RuleTable E) : Prop := {
  rl_list f e r e' : rt_list T f e = (r, e') → e' = e ∧ ∀ l, r = inr l → l = rt_rules T e f;
  rl_add_err k e err e' : rt_add T k e = (Some err, e') → e' = e;
  rl_add k e e' : rt_add T k e = (None, e') →
    (∃ p, rt_rules T e' (ru_Family k) ≡ₚ with_priority k p :: rt_rules T e (ru_Family k)) ∧
    ∀ f, f ≠ ru_Family k → rt_rules T e' f = rt_rules T e f;
  rl_del_err k e err e' : rt_del T k e = (Some err, e') → e' = e;
  rl_del k e e' : rt_del T k e = (None, e') →
    rt_rules T e (ru_Family k) ≡ₚ k :: rt_rules T e' (ru_Family k) ∧
    ∀ f, f ≠ ru_Family k → rt_rules T e' f = rt_rules T e f
}.

Section rules.
Context {E Ev : Type} (T : RuleTable E) (laws : rule_table_laws T).

Definition table_ops : ruleOps (E:=E) (Ev:=Ev) :=
  mkRuleOps (λ f, call (rt_list T f)) (λ k, call (rt_add T k)) (λ k, call (rt_del T k)).

Definition matching (r : FwmarkRule) (rules : list Rule) : list Rule :=
  filter (λ k, matchesRule k r = true) rules.
Definition others (r : FwmarkRule) (rules : list Rule) : list Rule :=
  filter (λ k, ¬ matchesRule k r = true) rules.

Lemma matchesRule_family k r : matchesRule k r = true → ru_Family k = Family_int (fr_Family r).
Proof. unfold matchesRule. intros H. repeat (apply andb_prop in H as [H ?]). by apply Z.eqb_eq. Qed.

Lemma buildRule_matches r p : matchesRule (with_priority (buildRule r) p) r = true.
Proof. unfold matchesRule. cbn. rewrite !Z.eqb_refl. by rewrite bool_decide_eq_true_2. Qed.

(** What a run may do to the table, whatever its outcome. *)
Definition harmless (r : FwmarkRule) (e e' : E) : Prop :=
  others r (rt_rules T e' (Family_int (fr_Family r))) ≡ₚ others r (rt_rules T e (Family_int (fr_Family r))) ∧
  ∀ f, f ≠ Family_int (fr_Family r) → rt_rules T e' f = rt_rules T e f.

Lemma delete_copies_spec r copies : ∀ n (w : World E Ev),
  Forall (λ k, matchesRule k r = true) copies →
  wp (delete_copies (ro_del table_ops) n copies) (λ res w',
    harmless r (w_env w) (w_env w') ∧
    ∃ gone rest, copies = gone ++ rest ∧ res.1 = n + Z.of_nat (length gone) ∧
      matching r (rt_rules T (w_env w) (Family_int (fr_Family r))) ≡ₚ
        gone ++ matching r (rt_rules T (w_env w') (Family_int (fr_Family r))) ∧
      (res.2 = None → rest = [])) w.
Proof.
  induction copies as [|k copies IH]; intros n w Hall; cbn [delete_copies].
  { apply wp_ret. split; [done|]. exists [], []. simpl. split_and!; [done|lia|done|done]. }
  apply Forall_cons in Hall as [Hk Hall]. pose proof (matchesRule_family _ _ Hk) as Hfam.
  apply wp_bind. unfold wp at 1. cbn [ro_del table_ops]. unfold call.
  destruct (rt_del T k (w_env w)) as [[err|] e'] eqn:Hd; cbn [fst snd].
  - apply (rl_del_err _ laws) in Hd as ->. apply wp_ret. cbn [w_env]. split; [done|].
    exists [], (k :: copies). simpl. split_and!; [done|lia|done|done].
  - destruct (rl_del _ laws _ _ _ Hd) as [Hp Hf]. rewrite Hfam in Hp, Hf.
    eapply wp_mono; [by apply IH|]. cbn [w_env]. intros res w' [[Ho Hf'] (gone & rest & -> & Hn & Hm & Hr)].
    split; [split|].
    + rewrite Ho. unfold others. rewrite Hp, filter_cons_False; [done|]. by intros [].
    + intros f Hne. by rewrite Hf', Hf.
    + exists (k :: gone), rest. simpl. split_and!; [done|lia| |done].
      rewrite <- Hm. unfold matching. by rewrite Hp, filter_cons_True.
Qed.

(** What an outcome of [ensureRuleVia] promises of the table. *)
Definition ensured (r : FwmarkRule) (e : E) (res : Z * option error) (e' : E) : Prop :=
  let f := Family_int (fr_Family r) in
  harmless r e e' ∧
  (res.2 = None → (∀ e0 err, (rt_add T (buildRule r) e0).1 = Some err → Is err EEXIST = false) →
   ∃ k, matching r (rt_rules T e' f) = [k] ∧
     res.1 = Z.of_nat (length (matching r (rt_rules T e f)) - 1) ∧
     (matching r (rt_rules T e f) ≠ [] → k ∈ rt_rules T e f ∧
        ∀ k', k' ∈ matching r (rt_rules T e f) → ru_Priority k ≤ ru_Priority k')).

Lemma ensured_fail r e n err : ensured r e (n, Some err) e.
Proof. by split. Qed.

Lemma ensured_add r e e' :
  matching r (rt_rules T e (Family_int (fr_Family r))) = [] →
  rt_add T (buildRule r) e = (None, e') → ensured r e (0, None) e'.
Proof.
  intros Hm Hadd. destruct (rl_add _ laws _ _ _ Hadd) as [[p Hp] Hf]. cbn [ru_Family buildRule] in Hp, Hf.
  split; [split; [|done]|].
  - unfold others. rewrite Hp, filter_cons_False; [done|]. intros H. apply H, buildRule_matches.
  - intros _ _. exists (with_priority (buildRule r) p). rewrite Hm. split; [|done].
    apply Permutation_singleton_r. unfold matching in *.
    rewrite Hp, filter_cons_True, Hm by apply buildRule_matches. done.
Qed.

Lemma rule_le_head (l : list Rule) k rest :
  merge_sort rule_le l = k :: rest → k ∈ l ∧ ∀ k', k' ∈ l → ru_Priority k ≤ ru_Priority k'.
Proof.
  intros Hs. assert (Hp : l ≡ₚ k :: rest) by (rewrite <- Hs; symmetry; apply merge_sort_Permutation).
  assert (HS : Sorted rule_le (k :: rest)) by (rewrite <- Hs; apply (Sorted_merge_sort _)).
  apply (Sorted_StronglySorted _) in HS. inv HS. split.
  - rewrite Hp. apply list_elem_of_here.
  - intros k'. rewrite Hp. intros [-> |Hin]%elem_of_cons; [done|].
    match goal with H : Forall _ rest |- _ => rewrite Forall_forall in H; by apply (H k') end.
Qed.

Lemma ensureRule_spec r (w : World E Ev) :
  wp (ensureRuleVia table_ops r) (λ res w', ensured r (w_env w) res (w_env w')) w.
Proof.
  unfold ensureRuleVia. apply wp_checked; [apply ensured_fail|].
  destruct (validateRule r) as [err|]; [apply wp_ret, ensured_fail|].
  apply wp_bind. unfold wp at 1. cbn [ro_list table_ops]. unfold call. cbn [w_env step].
  destruct (rt_list T _ (w_env w)) as [[err|rules] e'] eqn:Hl; cbn [fst snd];
    destruct (rl_list _ laws _ _ _ _ Hl) as [-> Hrules].
  { apply wp_ret, ensured_fail. }
  specialize (Hrules rules eq_refl). subst rules. apply wp_checked; [apply ensured_fail|].
  fold (matching r (rt_rules T (w_env w) (Family_int (fr_Family r)))).
  destruct (matching r _) as [|m ms] eqn:Hm.
  - apply wp_bind. unfold wp at 1. cbn [ro_add table_ops]. unfold call. cbn [w_env step].
    destruct (rt_add T (buildRule r) (w_env w)) as [[err|] e'] eqn:Ha; cbn [fst snd]; apply wp_ret; cbn [w_env].
    + pose proof (rl_add_err _ laws _ _ _ _ Ha) as ->. destruct (Is err EEXIST) eqn:Hi; cbn [negb];
        [|apply ensured_fail]. split; [done|]. intros _ Hno.
      specialize (Hno (w_env w) err). rewrite Ha in Hno. by rewrite (Hno eq_refl) in Hi.
    + by apply ensured_add.
  - rewrite <- Hm. set (ms' := matching r _) in *.
    destruct (merge_sort rule_le ms') as [|k rest] eqn:Hs.
    { pose proof (merge_sort_Permutation rule_le ms') as Hp. rewrite Hs in Hp.
      apply Permutation_nil in Hp. congruence. }
    assert (Hperm : ms' ≡ₚ k :: rest) by (rewrite <- Hs; symmetry; apply merge_sort_Permutation).
    assert (Hall : Forall (λ k, matchesRule k r = true) rest).
    { apply Forall_forall. intros k' Hk'. assert (k' ∈ ms') as [? _]%list_elem_of_filter; [|done].
      rewrite Hperm. by apply elem_of_cons; right. }
    change (drop 1 (k :: rest)) with rest. eapply wp_mono; [by apply delete_copies_spec|]. cbn [w_env step].
    intros res w' [Hh (gone & left & -> & Hn & Hg & Hr)]. split; [done|]. intros Hnone _.
    rewrite (Hr Hnone), app_nil_r in Hperm. exists k. fold ms'.
    destruct (rule_le_head _ _ _ Hs) as [Hin Hmin].
    split_and!.
    + apply Permutation_singleton_r. fold ms' in Hg. rewrite Hperm in Hg.
      rewrite (Permutation_cons_append gone k) in Hg. by apply Permutation_app_inv_l in Hg.
    + rewrite Hn, Hperm. simpl. lia.
    + intros _. split; [|done]. by apply list_elem_of_filter in Hin as [_ ?].
Qed.
End rules.

(** ** Conntrack requests *)

Section flush.
Context {Ev Filter : Type} (AddReplyDstIP : IP → error + Filter).

Inductive ct_call := CFiltered (req : NetlinkRequest) | CDump (family : Z) (f : Filter).

(** Requests answered from a script and recorded. *)
Record ct_env := mkCtEnv {
  ct_filtered : option error;
  ct_dump : nat → Z * option error;
  ct_calls : list ct_call
}.

Definition ct_ops : conntrackOps (E:=ct_env) (Ev:=Ev) (Filter:=Filter) :=
  mkConntrackOps
    (λ req, call (λ e, (ct_filtered e, mkCtEnv (ct_filtered e) (ct_dump e) (ct_calls e ++ [CFiltered req]))))
    (λ family f, call (λ e, (ct_dump e (length (ct_calls e)),
                             mkCtEnv (ct_filtered e) (ct_dump e) (ct_calls e ++ [CDump family f])))).

Lemma dumpFlush_loop_calls family filter tries : ∀ entries (w : World ct_env Ev),
  wp (dumpFlush_loop tries (dumpDelete ct_ops) family filter entries) (λ res w',
    ∃ n, (n ≤ Nat.max 1 tries)%nat ∧
      ct_calls (w_env w') = ct_calls (w_env w) ++ replicate n (CDump (Family_int family) filter) ∧
      fl_Dumped res.1 = true ∧
      (res.2 = None → (0 < n)%nat ∧ (ct_dump (w_env w) (length (ct_calls (w_env w)) + n - 1)).2 = None)) w.
Proof.
  induction tries as [|tries IH]; intros entries w; cbn [dumpFlush_loop];
    (apply wp_checked; [exists 0%nat; rewrite app_nil_r; split_and!; [lia|done..]|]).
  all: apply wp_bind; unfold wp at 1; cbn [dumpDelete ct_ops]; unfold call; cbn [w_env step fst snd].
  all: destruct (ct_dump (w_env w) (length (ct_calls (w_env w)))) as [n err] eqn:Hd; cbn [fst snd].
  all: destruct err as [err|].
  all: try (destruct (negb (Is err ErrDumpInterrupted))).
  all: try (apply wp_ret; exists 1%nat; cbn [w_env ct_calls replicate]; split_and!;
    [lia|done|done|intros H; first [done|split; [lia|];
       replace (length (ct_calls (w_env w)) + 1 - 1)%nat with (length (ct_calls (w_env w))) by lia;
       by rewrite Hd]]).
  destruct tries as [|tries].
  - apply wp_ret. exists 1%nat. cbn [w_env ct_calls replicate]. split_and!; [lia|done|done|done].
  - eapply wp_mono; [apply IH|]. cbn [w_env ct_calls ct_dump]. intros res w' (m & Hm & Hc & Hdp & Hr).
    exists (S m). split; [lia|]. split; [by rewrite Hc, <- app_assoc|]. split; [done|].
    intros Hn. destruct (Hr Hn) as [_ Hl]. split; [lia|].
    rewrite length_app in Hl. cbn [length] in Hl.
    by replace (length (ct_calls (w_env w)) + S m - 1)%nat
      with (length (ct_calls (w_env w)) + 1 + m - 1)%nat by lia.
Qed.

(** At most two dumps, of the Family and with the filter of the address. *)
Definition dumps (family : Family) (ip : IP) (calls : list ct_call) : Prop :=
  calls = [] ∨ ∃ f n, AddReplyDstIP ip = inr f ∧ (0 < n ≤ dumpAttempts)%nat ∧
    calls = replicate n (CDump (Family_int family) f).

Lemma dumpFlush_calls family ip (w : World ct_env Ev) :
  wp (dumpFlush AddReplyDstIP (dumpDelete ct_ops) family ip) (λ res w',
    ∃ calls, ct_calls (w_env w') = ct_calls (w_env w) ++ calls ∧ dumps family ip calls ∧
      (res.2 = None → calls ≠ [] ∧
         (ct_dump (w_env w) (length (ct_calls (w_env w)) + length calls - 1)).2 = None)) w.
Proof.
  unfold dumpFlush, buildReplyDstFilter. destruct (AddReplyDstIP ip) as [err|f] eqn:Hf.
  { apply wp_ret. exists []. rewrite app_nil_r. split; [done|]. split; [by left|done]. }
  eapply wp_mono; [apply dumpFlush_loop_calls|]. intros res w' (n & Hn & Hc & _ & Hr).
  exists (replicate n (CDump (Family_int family) f)). split; [done|]. split.
  - destruct n as [|n]; [by left|right]. exists f, (S n). split; [done|].
    split; [unfold dumpAttempts in *; lia|done].
  - intros H. destruct (Hr H) as [Hpos Hd]. rewrite length_replicate. split; [|done].
    destruct n; [lia|done].
Qed.

Lemma flush_calls family ip (w : World ct_env Ev) :
  wp (flushBySourceVia AddReplyDstIP ct_ops family ip) (λ res w',
    ∃ calls, ct_calls (w_env w') = ct_calls (w_env w) ++ calls ∧
      (validateFlush family ip ≠ None → calls = []) ∧
      (family = FamilyV6 → dumps family ip calls) ∧
      (family ≠ FamilyV6 → calls = [] ∨ ∃ rest,
         calls = CFiltered (filteredDeleteRequest ip) :: rest ∧ dumps family ip rest ∧
         (rest ≠ [] → ∃ err, ct_filtered (w_env w) = Some err ∧
            (Is err EINVAL = true ∨ Is err EOPNOTSUPP = true))) ∧
      (res.2 = None → calls ≠ [])) w.
Proof.
  assert (Hnone : ∀ (w' : World ct_env Ev) res, ct_calls (w_env w') = ct_calls (w_env w) → res.2 ≠ None →
    ∃ calls, ct_calls (w_env w') = ct_calls (w_env w) ++ calls ∧
      (validateFlush family ip ≠ None → calls = []) ∧
      (family = FamilyV6 → dumps family ip calls) ∧
      (family ≠ FamilyV6 → calls = [] ∨ ∃ rest,
         calls = CFiltered (filteredDeleteRequest ip) :: rest ∧ dumps family ip rest ∧
         (rest ≠ [] → ∃ err, ct_filtered (w_env w) = Some err ∧
            (Is err EINVAL = true ∨ Is err EOPNOTSUPP = true))) ∧
      ((res : FlushResult * option error).2 = None → calls ≠ [])).
  { intros w' res Hc Hr. exists []. rewrite app_nil_r. split_and!; [done|done| |by left|done]. by left. }
  unfold flushBySourceVia. apply wp_checked; [by apply Hnone|].
  destruct (validateFlush family ip) eqn:Hv; [apply wp_ret; by apply Hnone|]. case_decide as Hf.
  - eapply wp_mono; [apply dumpFlush_calls|]. cbn [w_env step]. intros res w' (calls & Hc & Hd & Hr).
    exists calls. split_and!; [done|done|done|done|]. intros H. by apply Hr.
  - apply wp_bind. unfold wp at 1. cbn [filteredDelete ct_ops]. unfold call. cbn [w_env step fst snd].
    destruct (ct_filtered (w_env w)) as [err|] eqn:He.
    + destruct (negb (Is err EINVAL) && negb (Is err EOPNOTSUPP)) eqn:Hi.
      * apply wp_ret. cbn [w_env ct_calls]. exists [CFiltered (filteredDeleteRequest ip)].
        split_and!; [done|done|done| |done]. intros _. right. exists []. split_and!; [done|by left|done].
      * eapply wp_mono; [apply dumpFlush_calls|]. cbn [w_env ct_calls]. intros res w' (calls & Hc & Hd & Hr).
        exists (CFiltered (filteredDeleteRequest ip) :: calls). rewrite <- app_assoc in Hc.
        split_and!; [done|done|done| |done]. intros _. right. exists calls. split_and!; [done|done|].
        intros _. exists err. split; [done|]. apply andb_false_iff in Hi.
        rewrite !negb_false_iff in Hi. done.
    + apply wp_ret. cbn [w_env ct_calls]. exists [CFiltered (filteredDeleteRequest ip)].
      split_and!; [done|done|done| |done]. intros _. right. exists []. split_and!; [done|by left|done].
Qed.
End flush.
Arguments CFiltered {_}.
Arguments CDump {_}.
Arguments mkCtEnv {_}.
Arguments ct_calls {_}.

(** ** Properties *)

(** C20. Ensuring a rule: whatever the outcome, a rule that does not route all
    of the mark to the table, and any rule of the other Family, is untouched;
    and on success exactly one rule that does is left, the one of lowest
    preference if there were any, and the returned count is the number of
    copies removed. So a second run removes and adds nothing. *)
Theorem ensure_rule_unique {E Ev} (T : RuleTable E) r n err (w w' : World E Ev) :
  rule_table_laws T →
  (∀ e err, (rt_add T (buildRule r) e).1 = Some err → Is err EEXIST = false) →
  ensureRuleVia (table_ops T) r w = ((n, err), w') →
  let f := Family_int (fr_Family r) in
  let before := rt_rules T (w_env w) f in
  let after := rt_rules T (w_env w') f in
  others r after ≡ₚ others r before ∧
  (∀ f', f' ≠ f → rt_rules T (w_env w') f' = rt_rules T (w_env w) f') ∧
  (err = None →
    ∃ k, matching r after = [k] ∧ n = Z.of_nat (length (matching r before) - 1) ∧
      (matching r before ≠ [] → k ∈ before ∧
         ∀ k', k' ∈ matching r before → ru_Priority k ≤ ru_Priority k')).
Proof.
  intros laws Hno Heq f before after.
  pose proof (ensureRule_spec T laws r w) as H. unfold wp in H. rewrite Heq in H.
  destruct H as [[Ho Hf] H]. split; [done|]. split; [done|]. intros Hnone. by apply H.
Qed.

#[export] Instance IPNet_eq_dec : EqDecision IPNet.
Proof. solve_decision. Defined.
#[export] Instance Rule_eq_dec : EqDecision Rule.
Proof. solve_decision. Defined.

(** A rule table held as a list, which numbers the rules it is given. *)
Definition list_table : RuleTable (list Rule) :=
  mkRuleTable (λ e f, filter (λ k, ru_Family k = f) e)
    (λ f e, (inr (filter (λ k, ru_Family k = f) e), e))
    (λ k e, (None, with_priority k 32765 :: e))
    (λ k e, match list_find (λ k', k' = k) e with
            | Some (i, _) => (None, delete i e)
            | None => (Some (Errno 2), e)
            end).

Lemma list_table_laws : rule_table_laws list_table.
Proof.
  split; cbn.
  - intros f e r e' [= <- <-]. split; [done|]. by intros l [= <-].
  - done.
  - intros k e e' [= <-]. split.
    + exists 32765. by rewrite filter_cons_True.
    + intros f Hne. by rewrite filter_cons_False.
  - intros k e err e'. destruct (list_find _ e) as [[i ?]|]; intros; by simplify_eq.
  - intros k e e'. destruct (list_find _ e) as [[i k']|] eqn:Hf; [|done]. intros [= <-].
    apply list_find_Some in Hf as (Hi & -> & _). pose proof (delete_Permutation _ _ _ Hi) as Hp.
    split; [rewrite Hp at 1; by rewrite filter_cons_True|].
    intros f Hne. rewrite delete_take_drop, filter_app.
    transitivity (filter (λ k, ru_Family k = f) (take i e ++ k :: drop (S i) e)).
    + by rewrite filter_app, filter_cons_False.
    + by rewrite take_drop_middle.
Qed.

Lemma ensure_rule_unique_witness :
  let r := mkFwmarkRule FamilyV4 100 200 in
  let copy p := with_priority (buildRule r) p in
  let narrow := mkRule AF_INET 5 100 (Some fullMask) 200 None None "eth0" "" false 0 0 0
    None None None (-1) (-1) (-1) RTPROT_STATIC in
  let w := mkWorld (Ev:=unit) (mkSchedule None (λ _, 1%positive) (λ _ _, 0%nat)) 0
    [copy 300; narrow; copy 299] [] in
  ∃ err w', ensureRuleVia (table_ops list_table) r w = ((1, err), w') ∧
    ∃ k, matching r (rt_rules list_table (w_env w') AF_INET) = [k] ∧ ru_Priority k ≤ 300.
Proof.
  intros r copy narrow w.
  destruct (ensureRuleVia (table_ops list_table) r w) as [[n err] w'] eqn:Heq.
  destruct (ensure_rule_unique list_table r n err w w' list_table_laws (λ e err H, ltac:(done)) Heq)
    as (_ & _ & H).
  assert (n = 1 ∧ err = None) as [-> ->] by (vm_compute in Heq; by simplify_eq).
  exists None, w'. split; [done|]. destruct (H eq_refl) as (k & Hk & _ & Hmin). exists k. split; [done|].
  destruct Hmin as [_ Hmin]; [by vm_compute|]. apply (Hmin (copy 300)).
  by apply list_elem_of_here.
Defined.

(** Writing a default route: the kernel is asked to replace a route only
    when the context is live and the description is valid (a Family, a positive
    table and interface, and exactly one of a Gateway of the Family and
    point-to-point), and then exactly once, with a default route of that table,
    Family and interface that is scope-link for point-to-point and else goes
    through the Gateway; the result is the kernel's answer. *)
Theorem write_default_guard {E Ev} (replaceFn : Route → M E Ev (option error)) d (w : World E Ev) :
  let '(res, w') := writeDefaultVia replaceFn d w in
  if cancelled w then res = Some ErrCanceled ∧ w' = step w
  else (¬ valid_route d ∧ is_Some res ∧ w' = step w) ∨
    (valid_route d ∧
     let r := buildRoute d in
     w' = (replaceFn r (step w)).2 ∧ (res = None ↔ (replaceFn r (step w)).1 = None) ∧
     (∀ target err, (replaceFn r (step w)).1 = Some err → Is err target = true →
        ∃ err', res = Some err' ∧ Is err' target = true) ∧
     isDefaultRoute r = true ∧ r_Table r = dr_Table d ∧ r_LinkIndex r = dr_IfIndex d ∧
     r_Family r = Family_int (dr_Family d) ∧
     if dr_PointToPoint d then r_Scope r = RT_SCOPE_LINK ∧ r_Gw r = None
     else r_Scope r = RT_SCOPE_UNIVERSE ∧ r_Gw r = dr_Gateway d ∧ is_Some (r_Gw r)).
Proof.
  unfold writeDefaultVia, checked, mbind, M_bind, ctx_Err. destruct (cancelled w); [done|].
  pose proof (validateDefaultRoute_spec d) as Hv.
  destruct (validateDefaultRoute d) as [err|].
  - cbn [mret M_ret]. left. split_and!; [|done|done]. intros H. by apply Hv in H.
  - destruct (replaceFn (buildRoute d) (step w)) as [res w'] eqn:Hr. cbn [mret M_ret]. right.
    assert (valid_route d) as H by by apply Hv. split; [done|]. cbn [fst snd].
    split_and!; try done.
    + by destruct res.
    + intros target err -> Ht. csimpl. eexists. split; [done|]. cbn [Is]. by rewrite Ht, orb_true_r.
    + apply buildRoute_default.
    + unfold buildRoute. by destruct (dr_PointToPoint d).
    + unfold buildRoute. by destruct (dr_PointToPoint d).
    + unfold buildRoute. by destruct (dr_PointToPoint d).
    + destruct H as [_ _ _ H]. unfold buildRoute. destruct (dr_PointToPoint d); [done|].
      split_and!; [done|done|apply H].
Qed.

