(* ===== verification/Gateway.v ===== *)
(** * The Gateway cache ([gateway.go])

    The main table's default route per interface and Family: an absent entry
    is unknown, a nil Gateway is a scope-link default. *)
From S2P Require Import Prelude NetIP Rtnl.

(** daemon/cmd/wanwatchd/gateway.go:9-12 (gwKey): interface and Family *)
Definition gwKey : Type := string * RouteFamily.

(** daemon/cmd/wanwatchd/gateway.go:14-27 (gatewayCache): the entries *)
Definition gatewayCache : Type := gmap gwKey IP.

(** daemon/cmd/wanwatchd/gateway.go:29-31 (newGatewayCache): empty *)
Definition newGatewayCache : gatewayCache := ∅.

(** daemon/cmd/wanwatchd/gateway.go:33-37 (set): record, nil as it is *)
Definition gw_set (c : gatewayCache) (iface : string) (fam : RouteFamily) (gw : IP) : gatewayCache :=
  <[(iface, fam) := gw]> c.

(** daemon/cmd/wanwatchd/gateway.go:39-44 (clear): forget *)
Definition gw_clear (c : gatewayCache) (iface : string) (fam : RouteFamily) : gatewayCache :=
  delete (iface, fam) c.

(** daemon/cmd/wanwatchd/gateway.go:46-51 (get): the entry, if any *)
Definition gw_get (c : gatewayCache) (iface : string) (fam : RouteFamily) : option IP :=
  c !! (iface, fam).

(** daemon/cmd/wanwatchd/gateway.go:53-64 (address): canonical text, nil for no
    entry and for a scope-link one *)
Definition gw_address (c : gatewayCache) (iface : string) (fam : RouteFamily) : option string :=
  match c !! (iface, fam) with
  | None => None
  | Some None => None
  | Some (Some b) => Some (IP_String (Some b))
  end.

(** daemon/cmd/wanwatchd/gateway.go:66-73 (string): an absent Gateway is empty *)
Definition gw_string (c : gatewayCache) (iface : string) (fam : RouteFamily) : string :=
  default "" (gw_address c iface fam).
