(* ===== verification/Daemon.v ===== *)
(** * The daemon's handlers ([daemon.go], [helpers.go], [decision.go])

    The single event loop's handlers over the runtime state: Health, the
    Groups, the Gateway cache and the vacated WANs. The kernel, the State
    writer and the Hook notifier are interfaces; every call through one of
    them is recorded among the run's effects, in program order, next to the
    metric operations. *)
From S2P Require Import Prelude GoFloat Icmp Aggregate Runtime Metrics NetIP Selector State Config Rtnl Routes Health Decision Apply Gateway.

#[local] Open Scope Z_scope.

(** ** Effects and interfaces *)

(** What a run does to the outside, in order. A call to the kernel is recorded
    with the kernel's answer. *)
Inductive effect :=
| EMetric (op : MetricOp)
| EEnsureRule (r : FwmarkRule) (answer : option error)
| EIfIndex (name : string) (answer : error + Z)
| EWriteRoute (r : DefaultRoute) (answer : option error)
| EAddrs (name : string) (answer : error + list IP)
| EFlush (family : Family) (ip : IP)
| ESubscribe (kind : string) (answer : option error)
| EPublish (s : State)
| ENotify (h : HookContext).

#[export] Instance MetricSink_effect : MetricSink effect := EMetric.

(** daemon/cmd/wanwatchd/kernel.go:11-23 (kernel): the seam to the kernel *)
Class Kernel (E : Type) := {
  EnsureRule : FwmarkRule → M E effect (Z * option error);
  IfIndex : string → M E effect (error + Z);
  WriteRoute : DefaultRoute → M E effect (option error);
  InterfaceAddrs : string → M E effect (error + list IP);
  FlushConntrack : Family → IP → M E effect (FlushResult * option error)
}.

(** What the handlers rely on: a kernel call moves the world forward and adds
    nothing to the daemon's own effects. *)
Class KernelLaws (E : Type) `{Kernel E} := {
  EnsureRule_extending r :: Extending (EnsureRule (E:=E) r);
  IfIndex_extending n :: Extending (IfIndex (E:=E) n);
  WriteRoute_extending r :: Extending (WriteRoute (E:=E) r);
  InterfaceAddrs_extending n :: Extending (InterfaceAddrs (E:=E) n);
  FlushConntrack_extending f ip :: Extending (FlushConntrack (E:=E) f ip);
  EnsureRule_silent r :: Silent (EnsureRule (E:=E) r);
  IfIndex_silent n :: Silent (IfIndex (E:=E) n);
  WriteRoute_silent r :: Silent (WriteRoute (E:=E) r);
  InterfaceAddrs_silent n :: Silent (InterfaceAddrs (E:=E) n);
  FlushConntrack_silent f ip :: Silent (FlushConntrack (E:=E) f ip)
}.

(** ** State *)

(** daemon/cmd/wanwatchd/daemon.go:31-49 (daemon): the runtime state; the
    handles are the interfaces *)
Record daemon := mkDaemon {
  dm_cfg : Config;
  dm_health : Health.Wans;
  dm_groups : gmap string DGroup;
  dm_gateways : gatewayCache;
  dm_vacated : gmap string Active;
  dm_startedAt : Time
}.

Definition set_health (d : daemon) (h : Health.Wans) : daemon :=
  mkDaemon (dm_cfg d) h (dm_groups d) (dm_gateways d) (dm_vacated d) (dm_startedAt d).
Definition set_group (d : daemon) (name : string) (g : DGroup) : daemon :=
  mkDaemon (dm_cfg d) (dm_health d) (<[name := g]> (dm_groups d)) (dm_gateways d) (dm_vacated d) (dm_startedAt d).
Definition set_gateways (d : daemon) (c : gatewayCache) : daemon :=
  mkDaemon (dm_cfg d) (dm_health d) (dm_groups d) c (dm_vacated d) (dm_startedAt d).
Definition set_vacated (d : daemon) (v : gmap string Active) : daemon :=
  mkDaemon (dm_cfg d) (dm_health d) (dm_groups d) (dm_gateways d) v (dm_startedAt d).

(** daemon/cmd/wanwatchd/decision.go:5-9 (groupContainsWAN): membership by key *)
Definition groupContainsWAN (g : Group) (wan : string) : bool :=
  bool_decide (is_Some (g_members g !! wan)).

(** daemon/cmd/wanwatchd/decision.go:11-16 (decisionReason): health *)
Definition reasonHealth : string := "health".
(** daemon/cmd/wanwatchd/decision.go:17-18 (decisionReason): carrier *)
Definition reasonCarrier : string := "carrier".

(** daemon/cmd/wanwatchd/helpers.go:43-60 (filterGlobalUnicast): the
    global-unicast addresses; [None] stands for an address that is not an
    [*net.IPNet] *)
Fixpoint filterGlobalUnicast (addrs : list (option IP)) : list IP :=
  match addrs with
  | [] => []
  | None :: addrs => filterGlobalUnicast addrs
  | Some ip :: addrs =>
      if IP_IsGlobalUnicast ip then ip :: filterGlobalUnicast addrs else filterGlobalUnicast addrs
  end.

(** daemon/cmd/wanwatchd/helpers.go:62-70 (interfaceFor): empty when absent or
    unknown *)
Definition interfaceFor (wans : gmap string Wan) (a : Active) : string :=
  if negb (a_has a) then "" else default "" (w_Interface <$> wans !! a_wan a).

(** daemon/cmd/wanwatchd/helpers.go:72-88 (probedFamiliesFor): the probed
    Families' text, v4 first *)
Definition probedFamiliesFor (wans : gmap string Wan) (a : Active) : list string :=
  if negb (a_has a) then []
  else match wans !! a_wan a with
       | None => []
       | Some w => Family_String <$> Families (p_Targets (w_Probe w))
       end.

(** daemon/cmd/wanwatchd/eventloop.go:53-59 (startupSnapshot): fields *)
Record startupSnapshot := mkStartupSnapshot { ss_links : list LinkEvent; ss_routes : list RouteEvent }.

Section daemon.
Context {E : Type} `{HK : Kernel E, HSS : StateSink E, HHS : HookSink E}.
(** The linked version string. *)
Context (version : string).

Abbreviation M := (M E effect).

(** ** Calls through the seams, recorded *)

Definition kernel_EnsureRule (r : FwmarkRule) : M (Z * option error) :=
  '(n, err) ← EnsureRule r; _ ← emit (EEnsureRule r err); mret (n, err).
Definition kernel_IfIndex (name : string) : M (error + Z) :=
  i ← IfIndex name; _ ← emit (EIfIndex name i); mret i.
Definition kernel_WriteRoute (r : DefaultRoute) : M (option error) :=
  err ← WriteRoute r; _ ← emit (EWriteRoute r err); mret err.
Definition kernel_InterfaceAddrs (name : string) : M (error + list IP) :=
  addrs ← InterfaceAddrs name; _ ← emit (EAddrs name addrs); mret addrs.
Definition kernel_FlushConntrack (family : Family) (ip : IP) : M (FlushResult * option error) :=
  _ ← emit (EFlush family ip); FlushConntrack family ip.
Definition stateW_Write (s : State) : M (option error) :=
  _ ← emit (EPublish s); call (Write s).
Definition hooks_Notify (h : HookContext) : M bool :=
  _ ← emit (ENotify h); call (Notify h).

(** ** Apply *)

(** daemon/cmd/wanwatchd/daemon.go:305-339 (applyRoutes.writeOne): one Family;
    true on a hard write failure, false on a soft skip or success *)
Definition writeOne (d : daemon) (g : Group) (wan : Wan) (ifindex : Z) (fam : Family) : M bool :=
  let route :=
    if w_PointToPoint wan then Some (mkDefaultRoute fam (g_table g) None ifindex true)
    else match gw_get (dm_gateways d) (w_Interface wan) (Family_int fam) with
         | None => None
         | Some None => None
         | Some (Some gw) => Some (mkDefaultRoute fam (g_table g) (Some gw) ifindex false)
         end in
  match route with
  | None => mret false
  | Some route =>
      started ← now;
      err ← kernel_WriteRoute route;
      ended ← now;
      _ ← Observe ApplyRouteDuration [g_name g; Family_String fam] (ended - started)%N;
      match err with
      | Some _ =>
          _ ← Inc ApplyRouteErrors [g_name g; Family_String fam];
          mret true
      | None => mret false
      end
  end.

(** daemon/cmd/wanwatchd/daemon.go:345-365 (applyRoutes): the Families in order,
    stopping once cancelled; [failed] hard failures so far *)
Fixpoint writeFamilies (d : daemon) (g : Group) (wan : Wan) (ifindex : Z) (failed : nat)
    (families : list Family) : M (option error) :=
  match families with
  | [] => mret (if bool_decide (0 < failed)%nat
                then Some (Errorf "apply routes: route write(s) failed") else None)
  | fam :: families =>
      if negb (bool_decide (fam ∈ Config.Families (p_Targets (w_Probe wan)))) then
        writeFamilies d g wan ifindex failed families
      else
        cerr ← ctx_Err;
        match cerr with
        | Some err => mret (Some (Wrapf "apply routes" err))
        | None =>
            hard ← writeOne d g wan ifindex fam;
            writeFamilies d g wan ifindex (if hard : bool then S failed else failed) families
        end
  end.

(** daemon/cmd/wanwatchd/daemon.go:277-366 (applyRoutes): the default route of
    each Family of the selected WAN, in the Group's table *)
Definition applyRoutes (d : daemon) (g : Group) (selection : string) (families : list Family)
    : M (option error) :=
  match c_Wans (dm_cfg d) !! selection with
  | None => mret (Some (Errorf "apply routes: unknown wan"))
  | Some wan =>
      r ← kernel_IfIndex (w_Interface wan);
      match r with
      | inl err =>
          _ ← Inc ApplyOpErrors [g_name g; "ifindex_lookup"];
          mret (Some (Wrapf "apply routes: ifindex" err))
      | inr ifindex =>
          let probed := Config.Families (p_Targets (w_Probe wan)) in
          writeFamilies d g wan ifindex 0 (match families with [] => probed | _ => families end)
      end
  end.

(** ** Publication *)

(** daemon/cmd/wanwatchd/daemon.go:418-434 (writeStateSnapshot): Health with the
    Gateways filled in, and every Group *)
Definition stateSnapshot (d : daemon) (updatedAt : Time) : State :=
  let wans := (λ wan, mkSWan (sw_Interface wan) (sw_Carrier wan) (sw_Operstate wan) (sw_Healthy wan)
                 (mkGateways (gw_address (dm_gateways d) (sw_Interface wan) RouteFamilyV4)
                             (gw_address (dm_gateways d) (sw_Interface wan) RouteFamilyV6))
                 (sw_Families wan)) <$> Health.Snapshot (dm_health d) in
  mkState 0 version (dm_startedAt d) updatedAt wans (DSnapshot <$> dm_groups d).

(** daemon/cmd/wanwatchd/daemon.go:409-440 (writeStateSnapshot): counted when
    written *)
Definition writeStateSnapshot (d : daemon) (updatedAt : Time) : M unit :=
  err ← stateW_Write (stateSnapshot d updatedAt);
  match err with
  | Some _ => mret ()
  | None => Inc StatePublications []
  end.

(** daemon/cmd/wanwatchd/daemon.go:444-468 (notifyHooks): the context of both
    Selections, with the Gateways and Families they have now *)
Definition hookContext (d : daemon) (g : Group) (event : Event) (committed : Commit) : HookContext :=
  let old := cm_Old committed in
  let next := cm_New committed in
  let wans := c_Wans (dm_cfg d) in
  let interfaceOld := interfaceFor wans old in
  let interfaceNew := interfaceFor wans next in
  let gw := gw_string (dm_gateways d) in
  mkHookContext event (g_name g) (a_wan old) (a_wan next) interfaceOld interfaceNew
    (gw interfaceOld RouteFamilyV4) (gw interfaceNew RouteFamilyV4)
    (gw interfaceOld RouteFamilyV6) (gw interfaceNew RouteFamilyV6)
    (probedFamiliesFor wans old) (probedFamiliesFor wans next)
    (g_table g) (g_mark g) (cm_At committed).

(** daemon/cmd/wanwatchd/daemon.go:442-470 (notifyHooks): hand it over; a
    refused one is only logged *)
Definition notifyHooks (d : daemon) (g : Group) (event : Event) (committed : Commit) : M unit :=
  _ ← hooks_Notify (hookContext d g event committed);
  mret ().

(** daemon/cmd/wanwatchd/daemon.go:225-263 (flushVacatedConntrack): each address
    of the vacated WAN; failures are metered only *)
Definition flushVacatedConntrack (d : daemon) (g : Group) (old : Active) : M unit :=
  match c_Wans (dm_cfg d) !! a_wan old with
  | None => mret ()
  | Some wan =>
      r ← kernel_InterfaceAddrs (w_Interface wan);
      match r with
      | inl _ => Inc ApplyOpErrors [g_name g; "conntrack_flush"]
      | inr addrs =>
          forM addrs (λ ip,
            let family := match To4 ip with None => FamilyV6 | Some _ => FamilyV4 end in
            '(_, err) ← kernel_FlushConntrack family ip;
            match err with
            | Some _ => Inc ApplyOpErrors [g_name g; "conntrack_flush"]
            | None => mret ()
            end)
      end
  end.

(** daemon/cmd/wanwatchd/daemon.go:194-223 (publishDecision): conntrack, then
    State, then Hooks *)
Definition publishDecision (d : daemon) (g : Group) (committed : option Commit) : M daemon :=
  match committed with
  | None => mret d
  | Some committed =>
      let event := Commit_Event committed in
      d ← match event with
          | Some EventSwitch => _ ← flushVacatedConntrack d g (cm_Old committed); mret d
          | Some EventDown => mret (set_vacated d (<[g_name g := cm_Old committed]> (dm_vacated d)))
          | Some EventUp =>
              match dm_vacated d !! g_name g with
              | Some old =>
                  let d := set_vacated d (delete (g_name g) (dm_vacated d)) in
                  if bool_decide (a_wan old = a_wan (cm_New committed)) then mret d
                  else _ ← flushVacatedConntrack d g old; mret d
              | None => mret d
              end
          | None => mret d
          end;
      _ ← writeStateSnapshot d (cm_At committed);
      match event with
      | Some event => _ ← notifyHooks d g event committed; mret d
      | None => mret d
      end
  end.

(** ** Handlers *)

(** A loop that ends once the context is cancelled; whether it did. *)
Fixpoint loop_live {A} (body : daemon → A → M daemon) (d : daemon) (l : list A) : M (daemon * bool) :=
  match l with
  | [] => mret (d, false)
  | x :: l =>
      err ← ctx_Err;
      match err with
      | Some _ => mret (d, true)
      | None => d ← body d x; loop_live body d l
      end
  end.

(** daemon/cmd/wanwatchd/daemon.go:180-191 (recomputeAffectedGroups): one Group *)
Definition recomputeGroup (wan reason : string) (d : daemon) (entry : string * Group) : M daemon :=
  let '(name, g) := entry in
  if negb (groupContainsWAN g wan) then mret d
  else match dm_groups d !! name with
       | None => mret d
       | Some dg =>
           members ← Health.MemberHealth (dm_health d) g;
           '(dg, committed) ← Recompute (applyRoutes d g) dg members reason;
           publishDecision (set_group d name dg) g committed
       end.

(** daemon/cmd/wanwatchd/daemon.go:177-192 (recomputeAffectedGroups): every
    Group containing the WAN *)
Definition recomputeAffectedGroups (reason : string) (d : daemon) (wan : string) : M daemon :=
  entries ← range (c_Groups (dm_cfg d));
  '(d, _) ← loop_live (recomputeGroup wan reason) d entries;
  mret d.

(** daemon/cmd/wanwatchd/daemon.go:161-175 (publishHealthChange): recompute, then
    republish unless cancelled *)
Definition publishHealthChange (d : daemon) (c : Change) (reason : string) : M daemon :=
  d ← foldM (recomputeAffectedGroups reason) d (ch_Flipped c);
  if ch_Republish c then
    err ← ctx_Err;
    match err with
    | Some _ => mret d
    | None => _ ← writeStateSnapshot d zero_time; mret d
    end
  else mret d.

Definition zeroGroup : Group := mkGroup "" "" 0 0 ∅.

(** daemon/cmd/wanwatchd/daemon.go:269-274 (retryGroupDecisions): one Group;
    [probe] is the operation forwarded to it *)
Definition forward (op : ApplyRoutes (E:=E) (Ev:=effect) → DGroup → M (DGroup * option Commit))
    (d : daemon) (entry : string * DGroup) : M daemon :=
  let '(name, _) := entry in
  match dm_groups d !! name with
  | None => mret d
  | Some dg =>
      '(dg, committed) ← op (applyRoutes d (d_cfg dg)) dg;
      publishDecision (set_group d name dg) (default zeroGroup (c_Groups (dm_cfg d) !! name)) committed
  end.

(** daemon/cmd/wanwatchd/daemon.go:265-275 (retryGroupDecisions): every Group *)
Definition retryGroupDecisions (d : daemon) (wan : string) : M daemon :=
  entries ← range (dm_groups d);
  '(d, _) ← loop_live (forward (λ ar g, DProbe ar g wan)) d entries;
  mret d.

(** daemon/cmd/wanwatchd/daemon.go:138-151 (handleProbeResult): Health first *)
Definition handleProbeResult (d : daemon) (r : ProbeResult) : M daemon :=
  '(h, change) ← Health.Probe (dm_health d) r;
  d ← publishHealthChange (set_health d h) change reasonHealth;
  if bool_decide (pr_Wan r ∈ ch_Flipped change) then mret d
  else retryGroupDecisions d (pr_Wan r).

(** daemon/cmd/wanwatchd/daemon.go:153-159 (handleLinkEvent): Health, then the
    Groups *)
Definition handleLinkEvent (d : daemon) (e : LinkEvent) : M daemon :=
  '(h, change) ← Health.Link (dm_health d) e;
  publishHealthChange (set_health d h) change reasonCarrier.

(** daemon/cmd/wanwatchd/daemon.go:385-396 (handleRouteEvent): the WANs on the
    interface, and every Group for each; whether a cancellation ended it *)
Fixpoint observeRoute (e : RouteEvent) (d : daemon) (wans : list (string * Wan)) : M (daemon * bool) :=
  match wans with
  | [] => mret (d, false)
  | (wanName, wan) :: wans =>
      if negb (bool_decide (w_Interface wan = re_iface e)) then observeRoute e d wans
      else
        entries ← range (dm_groups d);
        '(d, stopped) ← loop_live
          (forward (λ ar g, RouteObserved ar g wanName (Family_of_int (re_family e)))) d entries;
        if stopped : bool then mret (d, true) else observeRoute e d wans
  end.

(** daemon/cmd/wanwatchd/daemon.go:368-407 (handleRouteEvent): the cache, the
    Groups, then State when the cache changed *)
Definition handleRouteEvent (d : daemon) (e : RouteEvent) : M daemon :=
  let prev := gw_get (dm_gateways d) (re_iface e) (re_family e) in
  let d := set_gateways d
    (match re_op e with
     | RouteEventAdd => gw_set (dm_gateways d) (re_iface e) (re_family e) (re_gateway e)
     | RouteEventDel => gw_clear (dm_gateways d) (re_iface e) (re_family e)
     end) in
  wans ← range (c_Wans (dm_cfg d));
  '(d, stopped) ← observeRoute e d wans;
  if stopped : bool then mret d
  else
    let changed := match prev with
                   | None => true
                   | Some p => bool_decide (re_op e = RouteEventDel) || negb (IP_Equal p (re_gateway e))
                   end in
    if changed then
      err ← ctx_Err;
      match err with
      | Some _ => mret d
      | None => _ ← writeStateSnapshot d zero_time; mret d
      end
    else mret d.

(** ** Start-up *)

(** daemon/cmd/wanwatchd/daemon.go:51-74 (newDaemon): cold Health, one Group
    Decision module per Group *)
Definition newDaemon (cfg : Config) : M daemon :=
  h ← Health.New (c_Wans cfg);
  startedAt ← now;
  entries ← range (c_Groups cfg);
  groups ← foldM (λ m '(name, g), dg ← DNew g; mret (<[name := dg]> m)) ∅ entries;
  mret (mkDaemon cfg h groups newGatewayCache ∅ startedAt).

(** daemon/cmd/wanwatchd/daemon.go:85-101 (bootstrap): the rules of one Group *)
Fixpoint ensureGroupRules (g : Group) (families : list Family) : M (option error) :=
  match families with
  | [] => mret None
  | fam :: families =>
      '(_, err) ← kernel_EnsureRule (mkFwmarkRule fam (g_mark g) (g_table g));
      match err with
      | Some err => _ ← Inc ApplyOpErrors [g_name g; "rule_install"]; mret (Some err)
      | None => ensureGroupRules g families
      end
  end.

(** daemon/cmd/wanwatchd/daemon.go:76-110 (bootstrap): every rule, then the
    first State *)
Definition bootstrap (d : daemon) : M (option error) :=
  entries ← range (c_Groups (dm_cfg d));
  err ← foldM (λ err '(_, g),
          match err with
          | Some err => mret (Some err)
          | None => ensureGroupRules g AllFamilies
          end) None entries;
  match err with
  | Some err => mret (Some err)
  | None => _ ← writeStateSnapshot d zero_time; mret None
  end.

(** daemon/cmd/wanwatchd/daemon.go:130-134 (prime): the links of the snapshot *)
Definition prime_links (h : Health.Wans) (c : Change) (links : list LinkEvent) : M (Health.Wans * Change) :=
  foldM (λ '(h, change) e,
    '(h, c) ← Health.Link h e;
    mret (h, mkChange (ch_Flipped change ++ ch_Flipped c) (ch_Republish change || ch_Republish c)))
    (h, c) links.

(** daemon/cmd/wanwatchd/daemon.go:112-136 (prime): Gateways, then links, then
    the Groups *)
Definition prime (d : daemon) (snapshot : startupSnapshot) : M daemon :=
  err ← ctx_Err;
  match err with
  | Some _ => mret d
  | None =>
      let d := set_gateways d
        (foldl (λ c e, gw_set c (re_iface e) (re_family e) (re_gateway e))
           (dm_gateways d) (ss_routes snapshot)) in
      '(h, change) ← prime_links (dm_health d)
        (mkChange [] (negb (bool_decide (ss_routes snapshot = [])))) (ss_links snapshot);
      publishHealthChange (set_health d h) change reasonCarrier
  end.

(** ** The event loop *)

(** daemon/cmd/wanwatchd/eventloop.go:23-25 (eventLoop): an event of one of the
    three channels *)
Inductive devent := DProbeResult (r : ProbeResult) | DLinkEvent (e : LinkEvent) | DRouteEvent (e : RouteEvent).

(** daemon/cmd/wanwatchd/eventloop.go:34-48 (eventLoop): the handler of each
    channel *)
Definition dispatch (d : daemon) (ev : devent) : M daemon :=
  match ev with
  | DProbeResult r => handleProbeResult d r
  | DLinkEvent e => handleLinkEvent d e
  | DRouteEvent e => handleRouteEvent d e
  end.

(** The case [select] takes: cancellation, a watchdog challenge, or an event. *)
Inductive turn := TDone | TWatchdog | TEvent (ev : devent).

(** daemon/cmd/wanwatchd/eventloop.go:20-51 (eventLoop): one turn after the
    other, with the challenges acknowledged; nothing is dispatched once
    cancelled. The case on cancellation is ready only then: while the context
    is live [select] waits for another one. *)
Fixpoint eventLoop (d : daemon) (acks : nat) (turns : list turn) : M (daemon * nat) :=
  match turns with
  | [] => mret (d, acks)
  | TDone :: turns =>
      err ← ctx_Err;
      match err with
      | Some _ => mret (d, acks)
      | None => eventLoop d acks turns
      end
  | TWatchdog :: turns => eventLoop d (S acks) turns
  | TEvent ev :: turns =>
      err ← ctx_Err;
      match err with
      | Some _ => mret (d, acks)
      | None => d ← dispatch d ev; eventLoop d acks turns
      end
  end.

(** From a fresh daemon to the event loop, as [run] of [main.go] orders it. *)
Definition life (cfg : Config) (snapshot : startupSnapshot) (turns : list turn) : M (error + daemon * nat) :=
  d ← newDaemon cfg;
  err ← bootstrap d;
  match err with
  | Some err => mret (inl err)
  | None => d ← prime d snapshot; r ← eventLoop d 0 turns; mret (inr r)
  end.

End daemon.

(** ** Every handler moves the world forward *)

Section extending.
Context {E : Type} `{HK : Kernel E, HSS : StateSink E, HHS : HookSink E, HKL : !KernelLaws E} (version : string).

#[export] Instance extending_writeOne d g wan i fam : Extending (writeOne (E:=E) d g wan i fam).
Proof. unfold writeOne, kernel_WriteRoute. extending_by. Qed.

#[export] Instance extending_writeFamilies d g wan i n fams : Extending (writeFamilies (E:=E) d g wan i n fams).
Proof. revert n. induction fams; intros n; cbn [writeFamilies]; extending_by; apply IHfams. Qed.

#[export] Instance extending_applyRoutes d g sel fams : Extending (applyRoutes (E:=E) d g sel fams).
Proof. unfold applyRoutes, kernel_IfIndex. extending_by. Qed.

#[export] Instance extending_writeStateSnapshot d t : Extending (writeStateSnapshot (E:=E) version d t).
Proof. unfold writeStateSnapshot, stateW_Write. extending_by. Qed.

#[export] Instance extending_notifyHooks d g e c : Extending (notifyHooks (E:=E) d g e c).
Proof. unfold notifyHooks, hooks_Notify. extending_by. Qed.

#[export] Instance extending_flushVacated d g old : Extending (flushVacatedConntrack (E:=E) d g old).
Proof. unfold flushVacatedConntrack, forM, kernel_FlushConntrack, kernel_InterfaceAddrs. extending_by. Qed.

#[export] Instance extending_publishDecision d g c : Extending (publishDecision (E:=E) version d g c).
Proof. unfold publishDecision. extending_by. Qed.

#[export] Instance extending_loop_live {A} (body : daemon → A → M E effect daemon) d l :
  (∀ d x, Extending (body d x)) → Extending (loop_live body d l).
Proof. intros Hb. revert d. induction l; intros d; cbn [loop_live]; extending_by. Qed.

#[export] Instance extending_publishSelected g : Extending (publishSelected (E:=E) (Ev:=effect) g).
Proof. unfold publishSelected, forM. extending_by. Qed.

#[export] Instance extending_commit ar g next :
  (∀ n f, Extending (ar n f)) → Extending (commit (E:=E) (Ev:=effect) ar g next).
Proof. intros Har. unfold commit. extending_by. Qed.

#[export] Instance extending_refresh ar g fams :
  (∀ n f, Extending (ar n f)) → Extending (refresh (E:=E) (Ev:=effect) ar g fams).
Proof. intros Har. unfold refresh. extending_by. Qed.

#[export] Instance extending_Recompute ar g ms reason :
  (∀ n f, Extending (ar n f)) → Extending (Recompute (E:=E) (Ev:=effect) ar g ms reason).
Proof. intros Har. unfold Recompute. extending_by. Qed.

#[export] Instance extending_DProbe ar g wan :
  (∀ n f, Extending (ar n f)) → Extending (DProbe (E:=E) (Ev:=effect) ar g wan).
Proof. intros Har. unfold DProbe. extending_by. Qed.

#[export] Instance extending_RouteObserved ar g wan fam :
  (∀ n f, Extending (ar n f)) → Extending (RouteObserved (E:=E) (Ev:=effect) ar g wan fam).
Proof. intros Har. unfold RouteObserved. extending_by. Qed.

#[export] Instance extending_MemberHealth h g : Extending (Health.MemberHealth (E:=E) (Ev:=effect) h g).
Proof. unfold Health.MemberHealth. extending_by. Qed.

#[export] Instance extending_recomputeGroup wan reason d entry :
  Extending (recomputeGroup (E:=E) version wan reason d entry).
Proof. unfold recomputeGroup. extending_by. Qed.

#[export] Instance extending_recomputeAffectedGroups reason d wan :
  Extending (recomputeAffectedGroups (E:=E) version reason d wan).
Proof. unfold recomputeAffectedGroups. extending_by. Qed.

#[export] Instance extending_publishHealthChange d c reason :
  Extending (publishHealthChange (E:=E) version d c reason).
Proof. unfold publishHealthChange. extending_by. Qed.

#[export] Instance extending_forward op d entry :
  (∀ ar g, (∀ n f, Extending (ar n f)) → Extending (op ar g)) → Extending (forward (E:=E) version op d entry).
Proof. intros Hop. unfold forward. extending_by. Qed.

#[export] Instance extending_retryGroupDecisions d wan : Extending (retryGroupDecisions (E:=E) version d wan).
Proof. unfold retryGroupDecisions. extending_by. Qed.

#[export] Instance extending_Health_Probe h r : Extending (Health.Probe (E:=E) (Ev:=effect) h r).
Proof. unfold Health.Probe, recordProbe, recordStats, forM. extending_by. Qed.

#[export] Instance extending_Health_Link h e : Extending (Health.Link (E:=E) (Ev:=effect) h e).
Proof. unfold Health.Link, link_one, recordLink, forM. extending_by. Qed.

#[export] Instance extending_observeRoute e d wans : Extending (observeRoute (E:=E) version e d wans).
Proof. revert d. induction wans as [|[n w] wans IH]; intros d; cbn [observeRoute]; extending_by; apply IH. Qed.

#[export] Instance extending_dispatch d ev : Extending (dispatch (E:=E) version d ev).
Proof.
  destruct ev; cbn [dispatch]; unfold handleProbeResult, handleLinkEvent, handleRouteEvent; extending_by.
Qed.

#[export] Instance extending_prime d snap : Extending (prime (E:=E) version d snap).
Proof. unfold prime, prime_links. extending_by. Qed.

#[export] Instance extending_eventLoop d acks turns : Extending (eventLoop (E:=E) version d acks turns).
Proof. revert d acks. induction turns as [|[]]; intros d acks; cbn [eventLoop]; extending_by; done. Qed.

End extending.

(** ** An example host

    A kernel that counts its calls and grants them all; the State writer and
    the notifier succeed. *)
Module Example.
#[export] Instance kernel : Kernel nat := {
  EnsureRule _ := call (λ n, ((0, None), S n));
  IfIndex name := call (λ n, (inr (if decide (name = "eth0") then 2 else 3), S n));
  WriteRoute _ := call (λ n, (None, S n));
  InterfaceAddrs _ := call (λ n, (inr [Some [192; 0; 2; 10]], S n));
  FlushConntrack _ _ := call (λ n, ((mkFlushResult false 0, None), S n))
}.

#[export] Instance kernel_laws : KernelLaws nat.
Proof. split; intros; apply _. Qed.

#[export] Instance state_sink : StateSink nat := λ _ n, (None, S n).
#[export] Instance hook_sink : HookSink nat := λ _ n, (true, S n).

(** Never cancelled, time standing still, maps in key order. *)
Definition world : World nat effect :=
  mkWorld (mkSchedule None (λ _, 7%positive) (λ _ _, 0%nat)) 0 0%nat [].

(** Both links up, and a default route on eth0. *)
Definition snapshot : startupSnapshot :=
  mkStartupSnapshot
    [mkLinkEvent "eth0" CarrierUp OperstateUp zero_time; mkLinkEvent "wwan0" CarrierUp OperstateUp zero_time]
    [mkRouteEvent RouteEventAdd "eth0" (Family_int FamilyV4) (Some [192; 0; 2; 1]) zero_time].

(** A watchdog challenge, then eth0 goes down. *)
Definition turns : list turn :=
  [TWatchdog; TEvent (DLinkEvent (mkLinkEvent "eth0" CarrierDown OperstateDown zero_time))].
End Example.
