(* ===== verification/Coordination.v ===== *)
(** * The handlers coordinate Health, Groups and publication

    What the daemon's handlers guarantee together: the Groups' intents follow
    WAN Health through any sequence of events, route writes stay in scope, a
    committed Selection is published in order, and a cancelled context stops
    everything. *)
From S2P Require Import Prelude GoFloat Icmp Aggregate Runtime Metrics NetIP Selector State Config Rtnl Routes Health Decision Apply Gateway Daemon.

#[local] Open Scope Z_scope.

(** ** What the Groups want *)

(** The Members of a Group with their Health. *)
Definition members_of (h : Health.Wans) (g : Group) : list Selector.MemberHealth :=
  (λ '(_, m), mkMemberHealth m (Healthy h (m_wan m))) <$> map_to_list (g_members g).

(** One Decision module per configured Group. *)
Definition groups_wf (d : daemon) : Prop :=
  (∀ name g, c_Groups (dm_cfg d) !! name = Some g → ∃ dg, dm_groups d !! name = Some dg ∧ d_cfg dg = g) ∧
  (∀ name dg, dm_groups d !! name = Some dg → c_Groups (dm_cfg d) !! name = Some (d_cfg dg)).

(** What a handler step leaves alone. *)
Definition same_core (d d' : daemon) : Prop :=
  dm_cfg d' = dm_cfg d ∧ dm_health d' = dm_health d ∧ dm_gateways d' = dm_gateways d ∧
  dm_startedAt d' = dm_startedAt d.

#[export] Instance same_core_preorder : PreOrder same_core.
Proof. split; [by intros d|]. intros d1 d2 d3 (?&?&?&?) (?&?&?&?). split_and!; congruence. Qed.

(** A Group wants the Selection its Members' Health asks for. *)
Definition group_synced (h : Health.Wans) (dg : DGroup) : Prop :=
  best (members_of h (d_cfg dg)) (intent dg).

Definition synced (d : daemon) : Prop :=
  ∀ name dg, dm_groups d !! name = Some dg → group_synced (dm_health d) dg.

Section sync.
Context {E : Type} `{HK : Kernel E, HSS : StateSink E, HHS : HookSink E, HKL : !KernelLaws E} (version : string).

Lemma MemberHealth_members_of h g (w : World E effect) :
  wp (Health.MemberHealth h g) (λ l _, l ≡ₚ members_of h g) w.
Proof.
  unfold Health.MemberHealth. apply wp_bind. unfold wp at 1, range. cbn [fst snd]. apply wp_ret.
  rewrite merge_sort_Permutation. unfold members_of. by rewrite shuffle_Permutation.
Qed.

(** A loop that a cancellation ends keeps an invariant over the elements already
    visited, the daemon and the world. *)
Lemma wp_loop_live_world {A} (body : daemon → A → M E effect daemon) (I : list A → daemon → World E effect → Prop)
    (Q : daemon * bool → World E effect → Prop) l d w :
  (∀ dn d w, I dn d w → I dn d (step w)) →
  I [] d w →
  (∀ dn x rest d w, l = dn ++ x :: rest → I dn d w → wp (body d x) (I (dn ++ [x])) w) →
  (∀ d w', I l d w' → Q (d, false) w') →
  (∀ dn d w', cancelled w' = true → dn `prefix_of` l → I dn d w' → Q (d, true) w') →
  wp (loop_live body d l) Q w.
Proof.
  intros Hst Hinit Hstep Hend Hstop.
  assert (∀ rest dn d w, l = dn ++ rest → I dn d w → wp (loop_live body d rest) Q w) as Hg; [|by apply (Hg l [])].
  clear Hinit d w. induction rest as [|x rest IH]; intros dn d w Hl HI; cbn [loop_live].
  - apply wp_ret, Hend. rewrite Hl. by rewrite app_nil_r.
  - apply wp_bind. unfold wp at 1, ctx_Err. cbn [fst snd]. destruct (cancelled w) eqn:Hc.
    + apply wp_ret, (Hstop dn); [by apply (extends_cancelled w), Hc; apply extends_step| |by apply Hst].
      exists (x :: rest). done.
    + apply wp_bind. eapply wp_mono; [by eapply (Hstep _ _ _ _ (step w)); [|apply Hst]|]. intros d' w' HI'.
      apply (IH (dn ++ [x])); [by rewrite <- app_assoc|done].
Qed.

Lemma wp_loop_live {A} (body : daemon → A → M E effect daemon) (I : list A → daemon → Prop)
    (Q : daemon * bool → World E effect → Prop) l d w :
  I [] d →
  (∀ dn x rest d w, l = dn ++ x :: rest → I dn d → wp (body d x) (λ d' _, I (dn ++ [x]) d') w) →
  (∀ d w', I l d → Q (d, false) w') →
  (∀ dn d w', cancelled w' = true → dn `prefix_of` l → I dn d → Q (d, true) w') →
  wp (loop_live body d l) Q w.
Proof. intros. by apply (wp_loop_live_world _ (λ dn d _, I dn d)). Qed.

Lemma publishDecision_core d g c (w : World E effect) :
  wp (publishDecision version d g c) (λ d' _, same_core d d' ∧ dm_groups d' = dm_groups d) w.
Proof.
  unfold publishDecision. destruct c as [c|]; [|by apply wp_ret].
  apply wp_bind. eapply (wp_mono _ (λ d' _, same_core d d' ∧ dm_groups d' = dm_groups d)).
  - repeat case_match; try (apply wp_bind, wp_any; intros [] w1); by apply wp_ret.
  - intros d' w1 Hd. apply wp_bind, wp_any. intros [] w2.
    case_match; [apply wp_bind, wp_any; intros [] w3|]; by apply wp_ret.
Qed.

Lemma groups_wf_insert d d' name dg dg' :
  groups_wf d → dm_groups d !! name = Some dg → d_cfg dg' = d_cfg dg →
  dm_cfg d' = dm_cfg d → dm_groups d' = <[name := dg']> (dm_groups d) → groups_wf d'.
Proof.
  intros [H1 H2] Hdg Hcfg Hc Hg. split; rewrite Hc, Hg.
  - intros n g Hn. destruct (decide (n = name)) as [-> |Hne].
    + rewrite lookup_insert_eq. exists dg'. split; [done|].
      destruct (H1 _ _ Hn) as (dg0 & ? & <-). congruence.
    + rewrite lookup_insert_ne by done. by apply H1.
  - intros n g. destruct (decide (n = name)) as [-> |Hne].
    + rewrite lookup_insert_eq. intros [= <-]. rewrite Hcfg. by apply H2.
    + rewrite lookup_insert_ne by done. by apply H2.
Qed.

(** Every Group has a strategy the selector knows. *)
Definition known_strategies (d : daemon) : Prop :=
  ∀ name g, c_Groups (dm_cfg d) !! name = Some g → g_strategy g = "primary-backup".

Lemma known_strategies_core d d' : same_core d d' → known_strategies d → known_strategies d'.
Proof. intros (Hc & _) H name g. rewrite Hc. apply H. Qed.

(** A Group decided at most once, and only away from what Health asked. *)
Definition once (h : Health.Wans) (dg dg' : DGroup) : Prop :=
  dg' = dg ∨ (¬ group_synced h dg ∧ group_synced h dg' ∧
              d_decisionsTotal dg' = int_wrap (d_decisionsTotal dg + 1)).

Lemma once_synced h dg dg' : once h dg dg' → group_synced h dg → dg' = dg.
Proof. by intros [-> |[Hn _]]. Qed.

Definition groups_once (d d' : daemon) : Prop :=
  ∀ name dg, dm_groups d !! name = Some dg →
    ∃ dg', dm_groups d' !! name = Some dg' ∧ once (dm_health d) dg dg'.

Lemma groups_once_refl d : groups_once d d.
Proof. intros name dg Hdg. exists dg. split; [done|by left]. Qed.

Lemma groups_once_trans d1 d2 d3 :
  dm_health d2 = dm_health d1 → groups_once d1 d2 → groups_once d2 d3 → groups_once d1 d3.
Proof.
  intros Hh H12 H23 name dg1 Hdg1. destruct (H12 _ _ Hdg1) as (dg2 & Hdg2 & Ho2).
  destruct (H23 _ _ Hdg2) as (dg3 & Hdg3 & Ho3). rewrite Hh in Ho3. exists dg3. split; [done|].
  destruct Ho2 as [-> |(Hn & Hs & Ht)]; [done|]. destruct Ho3 as [-> |[Hn' _]]; [by right|done].
Qed.

(** One Group after a handler visited it on behalf of [P]. *)
Definition visited (h : Health.Wans) (P : Prop) (dg dg' : DGroup) : Prop :=
  (P → group_synced h dg') ∧ (¬ P → dg' = dg).

Lemma recomputeGroup_sync wan reason d name dg (w : World E effect) :
  groups_wf d → known_strategies d → dm_groups d !! name = Some dg →
  wp (recomputeGroup version wan reason d (name, d_cfg dg)) (λ d' _,
    same_core d d' ∧ groups_wf d' ∧
    ∃ dg', dm_groups d' = <[name := dg']> (dm_groups d) ∧
      visited (dm_health d) (groupContainsWAN (d_cfg dg) wan = true) dg dg' ∧
      once (dm_health d) dg dg') w.
Proof.
  intros Hwf Hk Hdg. unfold recomputeGroup. destruct (groupContainsWAN (d_cfg dg) wan) eqn:Hc; cbn [negb].
  2: { apply wp_ret. split; [done|]. split; [done|]. exists dg. rewrite insert_id by done.
     split; [done|]. split; [done|by left]. }
  rewrite Hdg. apply wp_bind. eapply wp_mono; [apply MemberHealth_members_of|]. intros members w1 Hm.
  apply wp_bind. eapply wp_mono; [apply recompute_intent; eapply Hk, (proj2 Hwf), Hdg|].
  intros [dg' c] w2 (Hcfg & Hb & Ht). cbn [fst snd] in *.
  eapply wp_mono; [apply publishDecision_core|]. intros d' w3 [Hcore Hg].
  cbn [set_group dm_groups] in Hg.
  assert (same_core d d') as Hcore' by (etransitivity; [|exact Hcore]; done).
  split; [done|]. split; [eapply groups_wf_insert; eauto; apply Hcore'|].
  exists dg'. split; [done|].
  assert (group_synced (dm_health d) dg') as Hs' by (unfold group_synced; rewrite Hcfg; by eapply best_Permutation).
  split; [split; [done|congruence]|]. destruct Ht as [[= -> _]|[Hn Ht]]; [by left|right].
  split; [|done]. intros Hs. apply Hn. by eapply best_Permutation; [symmetry|].
Qed.

(** The Groups after a run, each visited or not. *)
Definition groups_visited (d d' : daemon) (P : string → DGroup → Prop) : Prop :=
  ∀ name dg, dm_groups d !! name = Some dg →
    ∃ dg', dm_groups d' !! name = Some dg' ∧ d_cfg dg' = d_cfg dg ∧
      visited (dm_health d) (P name dg) dg dg' ∧ (group_synced (dm_health d) dg → dg' = dg).

Lemma groups_visited_refl d : groups_visited d d (λ _ _, False).
Proof. intros name dg Hdg. exists dg. by split_and!. Qed.

Lemma groups_visited_trans d1 d2 d3 P Q :
  dm_health d2 = dm_health d1 → (∀ name dg dg', d_cfg dg' = d_cfg dg → Q name dg' ↔ Q name dg) →
  (∀ name dg, Decision (P name dg)) → (∀ name dg, Decision (Q name dg)) →
  groups_visited d1 d2 P → groups_visited d2 d3 Q → groups_visited d1 d3 (λ n dg, P n dg ∨ Q n dg).
Proof.
  intros Hh HQ HPd HQd H12 H23 name dg1 Hdg1.
  destruct (H12 _ _ Hdg1) as (dg2 & Hdg2 & Hc2 & [HP1 HP2] & Hs12).
  destruct (H23 _ _ Hdg2) as (dg3 & Hdg3 & Hc3 & [HQ1 HQ2] & Hs23). rewrite Hh in *.
  exists dg3. split; [done|]. split; [congruence|]. rewrite (HQ name dg1 dg2) in * by done.
  split; [split|].
  - intros [HP|HQ']; [|by apply HQ1].
    destruct (decide (Q name dg1)); [by apply HQ1|]. rewrite (Hs23 (HP1 HP)). by apply HP1.
  - intros Hn. rewrite HQ2, HP2 by tauto. done.
  - intros Hs. pose proof (Hs12 Hs) as ->. by apply Hs23.
Qed.

Lemma groups_visited_iff d d' P Q :
  (∀ name dg, dm_groups d !! name = Some dg → P name dg ↔ Q name dg) →
  groups_visited d d' P → groups_visited d d' Q.
Proof.
  intros HPQ Hv name dg Hdg. destruct (Hv name dg Hdg) as (dg' & ? & ? & [H1 H2] & ?).
  pose proof (HPQ _ _ Hdg). exists dg'. split_and!; try done. split; naive_solver.
Qed.

(** What a recompute loop leaves: the Groups for which [P] holds follow
    Health, the others are untouched, unless the context was cancelled. *)
Definition recomputed (d : daemon) (P : DGroup → Prop) (d' : daemon) (w' : World E effect) : Prop :=
  same_core d d' ∧ groups_wf d' ∧ groups_once d d' ∧
  (cancelled w' = true ∨ groups_visited d d' (λ _ dg, P dg)).

Lemma recomputeAffectedGroups_sync wan reason d (w : World E effect) :
  groups_wf d → known_strategies d →
  wp (recomputeAffectedGroups version reason d wan)
    (recomputed d (λ dg, groupContainsWAN (d_cfg dg) wan = true)) w.
Proof.
  intros Hwf Hk. unfold recomputeAffectedGroups. apply wp_bind. unfold wp at 1, range. cbn [fst snd].
  set (l := shuffle _ _). assert (Hp : l ≡ₚ map_to_list (c_Groups (dm_cfg d))) by apply shuffle_Permutation.
  apply wp_bind.
  apply (wp_loop_live _ (λ dn d', same_core d d' ∧ groups_wf d' ∧ groups_once d d' ∧
    groups_visited d d' (λ n dg, n ∈ dn.*1 ∧ groupContainsWAN (d_cfg dg) wan = true))).
  - split; [done|]. split; [done|]. split; [apply groups_once_refl|]. eapply groups_visited_iff; [|apply groups_visited_refl].
    intros n dg _. split; [done|]. by intros [?%elem_of_nil _].
  - intros dn [name g] rest d1 w1 Hl (Hcore & Hwf1 & Ho1 & Hv).
    assert (Hcfg : dm_cfg d1 = dm_cfg d) by apply Hcore.
    assert (Hg : c_Groups (dm_cfg d1) !! name = Some g).
    { rewrite Hcfg. apply elem_of_map_to_list. rewrite <- Hp, Hl. apply elem_of_app. right. apply list_elem_of_here. }
    destruct (proj1 Hwf1 _ _ Hg) as (dg & Hdg & <-).
    eapply wp_mono; [apply recomputeGroup_sync; [done| |done]|].
    { intros n g0. rewrite Hcfg. apply Hk. }
    intros d2 w2 (Hcore2 & Hwf2 & dg' & Hg2 & Hvis & Hs).
    split; [by etransitivity|]. split; [done|]. split.
    { eapply groups_once_trans; [apply Hcore|done|]. intros n dg0 Hn. rewrite Hg2.
      destruct (decide (n = name)) as [-> |Hne]; [rewrite lookup_insert_eq|rewrite lookup_insert_ne by done].
      - assert (dg0 = dg) as -> by congruence. by exists dg'.
      - exists dg0. split; [done|by left]. }
    assert (groups_visited d1 d2 (λ n dg0, n = name ∧ groupContainsWAN (d_cfg dg0) wan = true)) as Hv2.
    { intros n dg0 Hn. rewrite Hg2. destruct (decide (n = name)) as [-> |Hne].
      - rewrite lookup_insert_eq. assert (dg0 = dg) as -> by congruence. exists dg'.
        split; [done|]. split.
        { assert (dm_groups d2 !! name = Some dg') as Hd2 by (rewrite Hg2; apply lookup_insert_eq).
          pose proof (proj2 Hwf2 _ _ Hd2) as He. rewrite (proj1 Hcore2) in He. congruence. }
        split; [|by apply once_synced]. destruct Hvis as [Hv1 Hv2']. split; [intros [_ ?]; by apply Hv1|]. intros Hn'. apply Hv2'. tauto.
      - rewrite lookup_insert_ne by done. exists dg0. split_and!; try done. split; [by intros [? _]|done]. }
    eapply groups_visited_iff; [|eapply (groups_visited_trans d d1 d2); try exact Hv; try exact Hv2].
    + intros n dg0 _. cbn. rewrite fmap_app, elem_of_app. csimpl. rewrite list_elem_of_singleton. tauto.
    + apply Hcore.
    + intros n dg0 dg1 Hcf; cbn. by rewrite Hcf.
    + intros n dg0. apply _.
    + intros n dg0. apply _.
  - intros d1 w1 (Hcore & Hwf1 & Ho1 & Hv). apply wp_ret. split; [done|]. split; [done|]. split; [done|]. right.
    eapply groups_visited_iff; [|exact Hv]. intros n dg Hn. cbn. split; [tauto|]. intros Hc. split; [|done].
    rewrite Hp. apply list_elem_of_fmap. exists (n, d_cfg dg). split; [done|].
    apply elem_of_map_to_list. by apply Hwf.
  - intros dn d1 w1 Hc _ (Hcore & Hwf1 & Ho1 & _). apply wp_ret. do 3 (split; [done|]). by left.
Qed.

Lemma publishHealthChange_sync c reason d (w : World E effect) :
  groups_wf d → known_strategies d →
  wp (publishHealthChange version d c reason)
    (recomputed d (λ dg, existsb (groupContainsWAN (d_cfg dg)) (ch_Flipped c) = true)) w.
Proof.
  intros Hwf Hk. unfold publishHealthChange. apply wp_bind.
  apply (wp_foldM _ _ (λ dn, recomputed d (λ dg, existsb (groupContainsWAN (d_cfg dg)) dn = true))).
  - split; [done|]. split; [done|]. split; [apply groups_once_refl|]. right. eapply groups_visited_iff; [|apply groups_visited_refl].
    intros n dg _. done.
  - intros dn wan rest d1 w1 _ (Hcore & Hwf1 & Ho1 & Hv).
    pose proof (recomputeAffectedGroups_sync wan reason d1 w1 Hwf1 (known_strategies_core _ _ Hcore Hk)) as Hr.
    apply wp_and_extends in Hr; [|apply _]. eapply wp_mono; [exact Hr|].
    intros d2 w2 [(Hcore2 & Hwf2 & Ho2 & Hv2) Hext]. split; [by etransitivity|]. split; [done|].
    split; [eapply groups_once_trans; [apply Hcore|done..]|].
    destruct Hv as [Hc|Hv]; [left; by eapply extends_cancelled|]. destruct Hv2 as [Hc|Hv2]; [by left|right].
    eapply groups_visited_iff; [|eapply (groups_visited_trans d d1 d2); try exact Hv; try exact Hv2].
    + intros n dg _. cbn. rewrite existsb_app. cbn. rewrite orb_false_r, orb_true_iff. done.
    + apply Hcore.
    + intros n dg0 dg1 Hcf; cbn. by rewrite Hcf.
    + intros n dg0. cbn. apply _.
    + intros n dg0. cbn. apply _.
  - intros d1 w1 Hr. destruct (ch_Republish c); [|by apply wp_ret].
    apply wp_bind. unfold wp at 1, ctx_Err. cbn [fst snd].
    destruct Hr as (Hcore & Hwf1 & Ho1 & Hv).
    assert (Hstep : recomputed d (λ dg, existsb (groupContainsWAN (d_cfg dg)) (ch_Flipped c) = true) d1 (step w1)).
    { do 3 (split; [done|]). destruct Hv as [Hc|Hv]; [left|by right].
      by apply (extends_cancelled w1); [apply extends_step|]. }
    destruct (cancelled w1); [by apply wp_ret|]. apply wp_bind, (wp_extends _). intros [] w2 Hext. apply wp_ret.
    destruct Hstep as (? & ? & ? & Hv'). do 3 (split; [done|]). destruct Hv' as [Hc|Hv']; [left|by right].
    by eapply extends_cancelled.
Qed.
End sync.

(** ** Health and intents through the handlers *)

(** Health after a history in the daemon's hands. *)
Record tracks (cfg : Config) (events : list hevent) (d : daemon) : Prop := {
  tr_cfg : dm_cfg d = cfg;
  tr_health : dm_health d = health_spec (c_Wans cfg) events;
  tr_wf : groups_wf d;
  tr_synced : synced d
}.

(** Members are keyed by their WAN and strategies known, as validation
    ensures. *)
Record well_keyed (cfg : Config) : Prop := {
  wk_members name g k m : c_Groups cfg !! name = Some g → g_members g !! k = Some m → m_wan m = k;
  wk_strategy name g : c_Groups cfg !! name = Some g → g_strategy g = "primary-backup"
}.

Lemma Valid_well_keyed cfg : Valid cfg → well_keyed cfg.
Proof.
  intros Hv. split; intros name g; intros.
  - destruct (v_groups _ Hv name g) as [_ _ _ _ _ Hm]; [done|]. by eapply Hm.
  - by destruct (v_groups _ Hv name g).
Qed.

(** Two Healths that agree outside [names]. *)
Definition agree_outside (names : list string) (h h' : Health.Wans) : Prop :=
  ∀ name, name ∉ names → Healthy h' name = Healthy h name.

Lemma members_of_agree names h h' g :
  agree_outside names h h' → (∀ k m, g_members g !! k = Some m → m_wan m = k) →
  existsb (groupContainsWAN g) names = false → members_of h' g = members_of h g.
Proof.
  intros Ha Hk Hn. unfold members_of. apply list_fmap_ext. intros i [k m] Hi.
  apply list_elem_of_lookup_2, elem_of_map_to_list in Hi. f_equal. apply Ha. intros Hin.
  apply not_true_iff_false in Hn. apply Hn, existsb_exists. exists (m_wan m).
  split; [by apply list_elem_of_In|]. rewrite (Hk _ _ Hi). unfold groupContainsWAN.
  apply bool_decide_eq_true_2. eauto.
Qed.

Section tracking.
Context {E : Type} `{HK : Kernel E, HSS : StateSink E, HHS : HookSink E, HKL : !KernelLaws E} (version : string).
Context (cfg : Config) (Hcfg : well_keyed cfg).

(** A handler's outcome: it tracks the history, unless it was cancelled. *)
Definition tracked (events : list hevent) (d : daemon) (w : World E effect) : Prop :=
  cancelled w = true ∨ tracks cfg events d.

Lemma publishHealthChange_tracks events h0 d c reason (w : World E effect) :
  dm_cfg d = cfg → groups_wf d → dm_health d = health_spec (c_Wans cfg) events →
  (∀ name dg, dm_groups d !! name = Some dg → group_synced h0 dg) →
  agree_outside (ch_Flipped c) h0 (dm_health d) →
  wp (publishHealthChange version d c reason) (λ d' w',
    tracked events d' w' ∧ same_core d d' ∧ groups_wf d' ∧ groups_once d d') w.
Proof.
  intros Hc Hwf Hh Hs0 Ha.
  assert (Hk : known_strategies d) by (intros name g; rewrite Hc; apply (wk_strategy _ Hcfg name g)).
  eapply wp_mono; [by apply publishHealthChange_sync|]. intros d' w' (Hcore & Hwf' & Hon & Hv).
  split; [|done]. destruct Hv as [Hcan|Hv]; [by left|right].
  destruct Hcore as (Hc' & Hh' & _). split; [congruence|congruence|done|].
  intros name dg' Hdg'.
  assert (Hg : c_Groups cfg !! name = Some (d_cfg dg')) by (rewrite <- Hc, <- Hc'; by apply Hwf').
  rewrite <- Hc in Hg. destruct (proj1 Hwf _ _ Hg) as (dg & Hdg & Hcdg). rewrite Hc in Hg.
  destruct (Hv _ _ Hdg) as (dg2 & Hdg2 & Hcd2 & [HP HnP] & _).
  assert (dg2 = dg') as -> by congruence. rewrite Hh'.
  destruct (existsb (groupContainsWAN (d_cfg dg)) (ch_Flipped c)) eqn:Hf; [by apply HP|].
  rewrite HnP by done. unfold group_synced.
  rewrite (members_of_agree (ch_Flipped c) h0); [by eapply Hs0|done| |done].
  intros k m. rewrite Hcdg. by eapply (wk_members _ Hcfg name).
Qed.

Lemma handle_change_wp events ev (w : World E effect) :
  wp (handle_change (health_spec (c_Wans cfg) events) ev) (λ '(h, c) _,
    h = health_spec (c_Wans cfg) (events ++ [ev]) ∧
    agree_outside (ch_Flipped c) (health_spec (c_Wans cfg) events) h) w.
Proof.
  pose proof (change_exact (c_Wans cfg) events ev w) as H. cbv zeta in H. unfold wp.
  destruct (handle_change _ _ w) as [[h c] w']. cbn [fst snd]. destruct H as (Hh & _ & _ & Hf & _).
  split; [done|]. intros name Hn. destruct (decide (Healthy h name = Healthy (health_spec (c_Wans cfg) events) name));
    [done|]. by destruct Hn; apply Hf.
Qed.

(** What a retry leaves: Health, the configuration and every intent. *)
Definition same_intents (d d' : daemon) : Prop :=
  dm_cfg d' = dm_cfg d ∧ dm_health d' = dm_health d ∧
  ∀ name, (λ dg, (d_cfg dg, intent dg)) <$> (dm_groups d' !! name) =
          (λ dg, (d_cfg dg, intent dg)) <$> (dm_groups d !! name).

#[local] Instance same_intents_preorder : PreOrder same_intents.
Proof. split; [by intros d|]. intros d1 d2 d3 (?&?&?) (?&?&?). split_and!; congruence. Qed.

Lemma same_intents_tracks events d d' : same_intents d d' → tracks cfg events d → tracks cfg events d'.
Proof.
  intros (Hc & Hh & Hg) [Ht1 Ht2 [Hw1 Hw2] Hs]. split; [congruence..| |].
  - split; rewrite Hc.
    + intros name g Hn. destruct (Hw1 _ _ Hn) as (dg & Hdg & <-). specialize (Hg name). rewrite Hdg in Hg.
      destruct (dm_groups d' !! name) as [dg'|]; simplify_eq/=. by exists dg'.
    + intros name dg' Hdg'. specialize (Hg name). rewrite Hdg' in Hg.
      destruct (dm_groups d !! name) as [dg|] eqn:Hdg; simplify_eq/=. rewrite (Hw2 _ _ Hdg). congruence.
  - intros name dg' Hdg'. specialize (Hg name). rewrite Hdg' in Hg.
    destruct (dm_groups d !! name) as [dg|] eqn:Hdg; simplify_eq/=. specialize (Hs _ _ Hdg).
    unfold group_synced in *. rewrite Hh. congruence.
Qed.

(** An operation that retries without changing what the Group wants. *)
Definition retrying (op : ApplyRoutes (E:=E) (Ev:=effect) → DGroup → M E effect (DGroup * option Commit)) : Prop :=
  ∀ ar g, (∃ wan, op ar g = DProbe ar g wan) ∨ (∃ wan fam, op ar g = RouteObserved ar g wan fam).

Lemma forward_intents op d entry (w : World E effect) :
  retrying op → wp (forward version op d entry) (λ d' _, same_intents d d') w.
Proof.
  intros Hop. destruct entry as [name g0]. unfold forward.
  destruct (dm_groups d !! name) as [dg|] eqn:Hdg; [|by apply wp_ret].
  apply wp_bind. eapply wp_mono; [eapply retry_intent, Hop|]. intros [dg' c] w1 (Hcf & Hi & _). cbn [fst] in *.
  eapply wp_mono; [apply publishDecision_core|]. intros d' w2 [(Hc & Hh & _) Hg].
  split; [done|]. split; [done|]. intros n. rewrite Hg. cbn [set_group dm_groups].
  destruct (decide (n = name)) as [-> |Hne]; [|by rewrite lookup_insert_ne].
  rewrite lookup_insert_eq, Hdg. csimpl. congruence.
Qed.

Lemma forward_loop_intents op d l (w : World E effect) :
  retrying op → wp (loop_live (forward version op) d l) (λ r _, same_intents d r.1) w.
Proof.
  intros Hop. apply (wp_loop_live _ (λ _ d', same_intents d d')); [done| |done|done].
  intros dn d1 x rest w1 _ Hd. eapply wp_mono; [by apply forward_intents|]. intros d2 w2 Hd2. by etransitivity.
Qed.

(** Cold, every WAN is unhealthy. *)
Lemma Healthy_cold cfgs name : Healthy (health_spec cfgs []) name = false.
Proof. rewrite Healthy_history. by destruct (cfgs !! name). Qed.

(** A Group that never decided. *)
Definition fresh_group (g : Group) : DGroup := mkDGroup g NoActive zero_time 0 None false.

Lemma newDaemon_tracks (w : World E effect) : wp (newDaemon cfg) (λ d _, tracks cfg [] d ∧
  ∀ name dg, dm_groups d !! name = Some dg → dg = fresh_group (d_cfg dg)) w.
Proof.
  unfold newDaemon. apply wp_bind. eapply wp_mono; [apply new_spec|]. intros h w1 ->.
  apply wp_bind, wp_any. intros t w2. apply wp_bind. unfold wp at 1, range. cbn [fst snd].
  set (l := shuffle _ _). assert (Hp : l ≡ₚ map_to_list (c_Groups cfg)) by apply shuffle_Permutation.
  apply wp_bind, (wp_foldM _ _ (λ dn (m : gmap string DGroup) _, m = fresh_group <$> list_to_map (reverse dn)));
    [done| |].
  { intros dn [k g] rest m w3 _ ->. apply wp_bind. unfold DNew. apply wp_bind, wp_any. intros [] w4.
    apply wp_ret, wp_ret. rewrite reverse_snoc. cbn [list_to_map foldr uncurry]. by rewrite fmap_insert. }
  intros m w3 Hm. apply wp_ret. cbn beta.
  assert (Hlk : ∀ name, m !! name = fresh_group <$> c_Groups cfg !! name).
  { intros name. by rewrite Hm, (list_to_map_ranged _ _ Hp), lookup_fmap. }
  split; [|intros name dg; cbn [dm_groups]; rewrite Hlk; by intros (g & _ & ->)%fmap_Some].
  split; [done|done| |]; cbn [dm_cfg dm_health dm_groups].
  - split; intros name; cbn [dm_cfg dm_groups]; rewrite Hlk.
    + intros g ->. by exists (fresh_group g).
    + by intros dg (g & -> & ->)%fmap_Some.
  - intros name dg. cbn [dm_groups dm_health]. rewrite Hlk. intros (g & Hg & ->)%fmap_Some.
    split; [done|]. intros mh ([k m'] & -> & _)%list_elem_of_fmap. apply Healthy_cold.
Qed.

Lemma prime_links_agree c0 links (w : World E effect) :
  wp (prime_links (health_spec (c_Wans cfg) []) c0 links) (λ '(h, c) _,
    h = health_spec (c_Wans cfg) (HLink <$> links) ∧
    agree_outside (ch_Flipped c) (health_spec (c_Wans cfg) []) h) w.
Proof.
  unfold prime_links. apply (wp_foldM _ _ (λ dn '(h, c) _, h = health_spec (c_Wans cfg) (HLink <$> dn) ∧
    agree_outside (ch_Flipped c) (health_spec (c_Wans cfg) []) h)); [done| |done].
  intros dn e rest [h c] w1 _ [-> Ha]. apply wp_bind.
  eapply wp_mono; [apply (handle_change_wp (HLink <$> dn) (HLink e))|]. intros [h' c'] w2 [Hh Ha'].
  apply wp_ret. cbn [ch_Flipped]. split; [by rewrite fmap_app|].
  intros name Hn. rewrite not_elem_of_app in Hn. rewrite Ha', Ha by tauto. done.
Qed.

Lemma prime_tracks snap d (w : World E effect) :
  tracks cfg [] d → wp (prime version d snap) (λ d' w',
    tracked (HLink <$> ss_links snap) d' w' ∧ groups_wf d' ∧ dm_cfg d' = cfg ∧
    ∀ name dg, dm_groups d !! name = Some dg →
      ∃ dg', dm_groups d' !! name = Some dg' ∧ once (dm_health d') dg dg') w.
Proof.
  intros [Hc Hh Hwf Hs]. unfold prime. apply wp_bind. unfold wp at 1, ctx_Err. cbn [fst snd].
  destruct (cancelled w) eqn:Hcan.
  { apply wp_ret. split; [left; by apply cancelled_step|]. do 2 (split; [done|]).
    intros name dg Hdg. exists dg. split; [done|by left]. }
  cbn [set_gateways dm_health]. apply wp_bind. rewrite Hh.
  eapply wp_mono; [apply prime_links_agree|]. intros [h c] w1 [-> Ha].
  eapply wp_mono; [apply (publishHealthChange_tracks (HLink <$> ss_links snap) (health_spec (c_Wans cfg) []));
    try done; intros name dg Hdg; rewrite <- Hh; by apply (Hs name)|].
  intros d' w2 (Ht & (Hc' & Hh' & _) & Hwf' & Ho). split; [done|]. split; [done|]. split; [by rewrite Hc'|].
  intros name dg Hdg. destruct (Ho name dg Hdg) as (dg' & Hdg' & Hon). exists dg'. split; [done|].
  by rewrite Hh'.
Qed.

(** The Health events among the daemon's. *)
Definition health_events (evs : list devent) : list hevent :=
  omap (λ ev, match ev with
              | DProbeResult r => Some (HProbe r)
              | DLinkEvent e => Some (HLink e)
              | DRouteEvent _ => None
              end) evs.

Lemma observeRoute_intents e d wans (w : World E effect) :
  wp (observeRoute version e d wans) (λ r _, same_intents d r.1) w.
Proof.
  revert d w. induction wans as [|[n wan] wans IH]; intros d w; cbn [observeRoute]; [by apply wp_ret|].
  destruct (negb _); [apply IH|]. apply wp_bind. unfold wp at 1, range. cbn [fst snd]. apply wp_bind.
  eapply wp_mono; [apply forward_loop_intents; intros ar g; eauto|]. intros [d' stopped] w1 Hd.
  destruct stopped; [by apply wp_ret|]. eapply wp_mono; [apply IH|]. intros r w2 Hr. by etransitivity.
Qed.

Lemma handleRouteEvent_intents d e (w : World E effect) :
  wp (handleRouteEvent version d e) (λ d' _, same_intents d d') w.
Proof.
  unfold handleRouteEvent. set (d1 := set_gateways d _). assert (same_intents d d1) as Hd1 by done.
  apply wp_bind. unfold wp at 1, range. cbn [fst snd]. apply wp_bind.
  eapply wp_mono; [apply observeRoute_intents|]. intros [d2 stopped] w1 Hd2. cbn [fst] in Hd2.
  assert (same_intents d d2) as Hd by (by etransitivity).
  destruct stopped; [by apply wp_ret|]. case_match; [|by apply wp_ret].
  apply wp_bind, wp_any. intros [err|] w2; [by apply wp_ret|]. by apply wp_bind, wp_any.
Qed.

Lemma dispatch_tracks events ev d (w : World E effect) :
  tracks cfg events d → wp (dispatch version d ev) (tracked (events ++ health_events [ev])) w.
Proof.
  intros Ht. destruct ev as [r|e|e]; cbn [dispatch].
  - unfold handleProbeResult. apply wp_bind. rewrite (tr_health _ _ _ Ht).
    eapply wp_mono; [apply (handle_change_wp events (HProbe r))|]. intros [h c] w1 [-> Ha].
    apply wp_bind. eapply wp_mono.
    { apply (publishHealthChange_tracks (events ++ [HProbe r]) (health_spec (c_Wans cfg) events)); try apply Ht; try done.
      rewrite <- (tr_health _ _ _ Ht). apply Ht. }
    intros d1 w2 [Hd1 _]. case_bool_decide; [by apply wp_ret|].
    destruct Hd1 as [Hcan|Hd1].
    { apply (wp_extends _). intros d2 w3 Hext. left. by eapply extends_cancelled. }
    unfold retryGroupDecisions. apply wp_bind. unfold wp at 1, range. cbn [fst snd]. apply wp_bind.
    eapply wp_mono; [apply forward_loop_intents; intros ar g; eauto|]. intros [d2 s] w3 Hd2.
    apply wp_ret. right. by eapply same_intents_tracks.
  - unfold handleLinkEvent. apply wp_bind. rewrite (tr_health _ _ _ Ht).
    eapply wp_mono; [apply (handle_change_wp events (HLink e))|]. intros [h c] w1 [-> Ha].
    eapply wp_mono.
    { apply (publishHealthChange_tracks (events ++ [HLink e]) (health_spec (c_Wans cfg) events)); try apply Ht; try done.
      rewrite <- (tr_health _ _ _ Ht). apply Ht. }
    by intros d1 w2 [Hd1 _].
  - eapply wp_mono; [apply handleRouteEvent_intents|]. intros d' w1 Hd. right. cbn. rewrite app_nil_r.
    by apply (same_intents_tracks _ d).
Qed.

(** The events the loop is given. *)
Definition turn_events (turns : list turn) : list devent :=
  omap (λ t, match t with TEvent ev => Some ev | _ => None end) turns.

Lemma eventLoop_tracks turns : ∀ events d acks (w : World E effect),
  tracks cfg events d →
  wp (eventLoop version d acks turns) (λ '(d', _) w', tracked (events ++ health_events (turn_events turns)) d' w') w.
Proof.
  induction turns as [|t turns IH]; intros events d acks w Ht; cbn [eventLoop].
  { apply wp_ret. right. by rewrite app_nil_r. }
  destruct t as [| |ev]; [| by apply IH|]; (apply wp_bind; unfold wp at 1, ctx_Err; cbn [fst snd];
    destruct (cancelled w) eqn:Hcan; [apply wp_ret; left; by apply cancelled_step|]); [by apply IH|].
  apply wp_bind. eapply wp_mono; [by apply dispatch_tracks|]. intros d1 w1 [Hc|Hd1].
  - apply (wp_extends _). intros [d2 n] w2 Hext. left. by eapply extends_cancelled.
  - eapply wp_mono; [by apply IH|]. intros [d2 n] w2. cbn [turn_events omap list_omap].
    unfold health_events. cbn [omap list_omap]. destruct ev; by rewrite <- ?app_assoc, ?app_nil_r.
Qed.

Lemma life_tracks snap turns (w : World E effect) :
  wp (life version cfg snap turns) (λ r w', match r with
    | inl _ => True
    | inr (d, _) => tracked ((HLink <$> ss_links snap) ++ health_events (turn_events turns)) d w'
    end) w.
Proof.
  unfold life. apply wp_bind. eapply wp_mono; [apply newDaemon_tracks|]. intros d w1 [Hd _].
  apply wp_bind, wp_any. intros [err|] w2; [by apply wp_ret|].
  apply wp_bind. eapply wp_mono; [by apply prime_tracks|]. intros d1 w3 [[Hcan|Hd1] _]; apply wp_bind.
  - apply (wp_extends _). intros [d2 n] w4 Hext. apply wp_ret. left. by eapply extends_cancelled.
  - eapply wp_mono; [by apply eventLoop_tracks|]. intros [d2 n] w4 Hd2. by apply wp_ret.
Qed.

Lemma prime_once snap (w : World E effect) :
  wp (d ← newDaemon cfg; prime version d snap) (λ d w',
    tracked (HLink <$> ss_links snap) d w' ∧
    ∀ name dg, dm_groups d !! name = Some dg →
      c_Groups cfg !! name = Some (d_cfg dg) ∧
      (dg = fresh_group (d_cfg dg) ∨
       d_decisionsTotal dg = 1 ∧ a_has (intent dg) = true ∧ group_synced (dm_health d) dg)) w.
Proof.
  apply wp_bind. eapply wp_mono; [apply newDaemon_tracks|]. intros d0 w1 [Hd0 Hf].
  eapply wp_mono; [by apply prime_tracks|]. intros d w2 (Ht & Hwf & Hc & Ho). split; [done|].
  intros name dg Hdg. pose proof (proj2 Hwf _ _ Hdg) as Hg. rewrite Hc in Hg. split; [done|].
  assert (Hg0 : c_Groups (dm_cfg d0) !! name = Some (d_cfg dg)) by (by rewrite (tr_cfg _ _ _ Hd0)).
  destruct (proj1 (tr_wf _ _ _ Hd0) _ _ Hg0) as (dg0 & Hdg0 & Hcd).
  pose proof (Hf _ _ Hdg0) as Hfr. rewrite Hcd in Hfr. subst dg0.
  destruct (Ho _ _ Hdg0) as (dg' & Hdg' & Hon). assert (dg' = dg) as -> by congruence.
  destruct Hon as [-> |(Hn & Hs & Htot)]; [by left|right]. split; [done|]. split; [|done].
  destruct (a_has (intent dg)) eqn:Hi; [done|]. destruct Hn.
  unfold group_synced, best in Hs |- *. rewrite Hi in Hs. by destruct Hs as [_ Hs].
Qed.

(** Every challenge the loop reaches is acknowledged. *)
Definition challenges (turns : list turn) : nat :=
  length (omap (λ t, match t with TWatchdog => Some () | _ => None end) turns).

Lemma eventLoop_acks turns : ∀ d acks (w : World E effect),
  wp (eventLoop version d acks turns) (λ '(_, n) w', cancelled w' = true ∨ n = (acks + challenges turns)%nat) w.
Proof.
  induction turns as [|t turns IH]; intros d acks w; cbn [eventLoop].
  { apply wp_ret. right. cbn. lia. }
  destruct t as [| |ev].
  - apply wp_bind. unfold wp at 1, ctx_Err. cbn [fst snd]. destruct (cancelled w) eqn:Hc; [|apply IH].
    apply wp_ret. left. by apply cancelled_step.
  - eapply wp_mono; [apply IH|]. intros [d' n] w' [Hc|Hn]; [by left|right].
    unfold challenges in *. cbn [omap list_omap length]. lia.
  - apply wp_bind. unfold wp at 1, ctx_Err. cbn [fst snd]. destruct (cancelled w) eqn:Hc.
    { apply wp_ret. left. by apply cancelled_step. }
    apply wp_bind, wp_any. intros d1 w1. apply IH.
Qed.

Lemma life_acks snap turns (w : World E effect) :
  wp (life version cfg snap turns) (λ r w', match r with
    | inl _ => True
    | inr (_, n) => cancelled w' = true ∨ n = challenges turns
    end) w.
Proof.
  unfold life. apply wp_bind, wp_any. intros d w1. apply wp_bind, wp_any. intros [err|] w2; [by apply wp_ret|].
  apply wp_bind, wp_any. intros d1 w3. apply wp_bind. eapply wp_mono; [apply eventLoop_acks|].
  intros [d2 n] w4 Hn. by apply wp_ret.
Qed.

End tracking.

(** ** Properties *)

(** C1. The daemon follows its links and probes: from a valid configuration,
    once the rules are installed, the startup snapshots primed and any sequence
    of probe, link and route events and watchdog challenges served, whatever
    the kernel, the State writer and the Hooks answer and in any map order, as
    long as the daemon has not been stopped, WAN Health is that of the history
    of link and probe events, every configured Group has its Decision module,
    which wants the healthy Member that comes first by (priority, name), or
    none if no Member is healthy, and every challenge was acknowledged. *)
Theorem daemon_tracks_health {E} `{HK : Kernel E, HSS : StateSink E, HHS : HookSink E, HKL : !KernelLaws E}
    version cfg snap turns (w : World E effect) :
  Valid cfg →
  let '(r, w') := life version cfg snap turns w in
  cancelled w' = false →
  match r with
  | inl _ => True
  | inr (d, acks) =>
      dm_health d = health_spec (c_Wans cfg)
        ((HLink <$> ss_links snap) ++ health_events (turn_events turns)) ∧
      (∀ name g, c_Groups cfg !! name = Some g →
         ∃ dg, dm_groups d !! name = Some dg ∧ d_cfg dg = g ∧
           best (members_of (dm_health d) g) (intent dg)) ∧
      acks = challenges turns
  end.
Proof.
  intros Hv. pose proof (life_tracks version cfg (Valid_well_keyed _ Hv) snap turns w) as H.
  pose proof (life_acks version cfg snap turns w) as Ha. unfold wp in H, Ha.
  destruct (life _ _ _ _ w) as [[err|[d n]] w']; [done|]. cbn [fst snd] in *. intros Hc.
  destruct H as [?|[H1 H2 H3 H4]]; [congruence|]. destruct Ha as [?| ->]; [congruence|].
  split; [done|]. split; [|done]. intros name g Hg. rewrite <- H1 in Hg.
  destruct (proj1 H3 _ _ Hg) as (dg & Hdg & <-). exists dg. split; [done|]. split; [done|]. by apply (H4 name).
Qed.

Import Example.

Lemma daemon_tracks_health_witness :
  let r := life "1.0" example_config Example.snapshot Example.turns Example.world in
  cancelled r.2 = false ∧
  match r.1 with
  | inl _ => False
  | inr (d, acks) =>
      intent <$> (dm_groups d !! "home") = Some (mkActive "lte" true) ∧
      dm_health d = health_spec (c_Wans example_config)
        ((HLink <$> ss_links Example.snapshot) ++ health_events (turn_events Example.turns)) ∧
      acks = 1%nat
  end.
Proof.
  intros r. assert (Hc : cancelled r.2 = false) by (by vm_compute). split; [done|].
  assert (Hi : match r.1 with inl _ => False
               | inr (d, _) => intent <$> (dm_groups d !! "home") = Some (mkActive "lte" true) end) by (by vm_compute).
  pose proof (daemon_tracks_health "1.0" example_config Example.snapshot Example.turns Example.world
    example_config_valid) as H.
  unfold r in *. destruct (life _ _ _ _ _) as [[err|[d n]] w']; [done|]. cbn [fst snd] in *.
  destruct (H Hc) as (H1 & _ & H3). split; [exact Hi|]. split; [exact H1|exact H3].
Defined.

(** C11. One startup Decision: after the startup snapshots are primed, stopped or
    not and whatever the writes did, a Group has not decided at all, or has
    decided exactly once, onto the healthy Member that comes first by
    (priority, name) once every link of the snapshot is known, in whatever
    order the snapshot lists the links; and if the daemon was not stopped a
    Group with a healthy Member has decided. *)
Theorem startup_one_decision {E} `{HK : Kernel E, HSS : StateSink E, HHS : HookSink E, HKL : !KernelLaws E}
    version cfg snap (w : World E effect) :
  Valid cfg →
  let '(d, w') := (d ← newDaemon cfg; prime version d snap) w in
  ∀ name dg, dm_groups d !! name = Some dg →
    c_Groups cfg !! name = Some (d_cfg dg) ∧
    (d_decisionsTotal dg = 0 ∧ intent dg = NoActive ∨
     d_decisionsTotal dg = 1 ∧ a_has (intent dg) = true ∧
       best (members_of (dm_health d) (d_cfg dg)) (intent dg)) ∧
    (cancelled w' = false →
       dm_health d = health_spec (c_Wans cfg) (HLink <$> ss_links snap) ∧
       best (members_of (dm_health d) (d_cfg dg)) (intent dg)).
Proof.
  intros Hv. pose proof (prime_once version cfg (Valid_well_keyed _ Hv) snap w) as H. unfold wp in H.
  destruct ((d ← newDaemon cfg; prime version d snap) w) as [d w']. cbn [fst snd] in H.
  destruct H as [Ht H]. intros name dg Hdg. destruct (H name dg Hdg) as [Hg Ho]. split; [done|]. split.
  - destruct Ho as [-> |Ho]; [by left|by right].
  - intros Hc. destruct Ht as [?|[_ Hh _ Hs]]; [congruence|]. split; [done|]. by apply (Hs name).
Qed.

Lemma startup_one_decision_witness :
  let r := (d ← newDaemon example_config; prime "1.0" d Example.snapshot) Example.world in
  ∃ dg, dm_groups r.1 !! "home" = Some dg ∧ d_decisionsTotal dg = 1 ∧ intent dg = mkActive "fiber" true ∧
    c_Groups example_config !! "home" = Some (d_cfg dg).
Proof.
  intros r.
  assert (Hi : match dm_groups r.1 !! "home" with
               | Some dg => d_decisionsTotal dg = 1 ∧ intent dg = mkActive "fiber" true
               | None => False end) by (by vm_compute).
  pose proof (startup_one_decision "1.0" example_config Example.snapshot Example.world example_config_valid) as H.
  unfold r in *. destruct ((d ← newDaemon example_config; prime "1.0" d Example.snapshot) Example.world) as [d w'].
  cbn [fst] in *. destruct (dm_groups d !! "home") as [dg|] eqn:Hdg; [|done].
  exists dg. destruct (H _ _ Hdg) as [Hg _]. by destruct Hi.
Defined.
