(* ===== verification/Publication.v ===== *)
(** * What the handlers do to the outside, and in which order

    The effects of [daemon.go] other than metrics: route writes in scope, a
    committed Selection's conntrack flushes, State and Hook in this order, and
    nothing at all once the context is cancelled. *)
From S2P Require Import Prelude GoFloat Icmp Aggregate Runtime Metrics NetIP Selector State Config Rtnl Routes Health Decision Apply Gateway Daemon.

#[local] Open Scope Z_scope.

(** ** Actions *)

(** An effect that changes the outside: neither a metric nor a lookup. *)
Definition is_action (e : effect) : bool :=
  match e with EMetric _ | EIfIndex _ _ | EAddrs _ _ => false | _ => true end.

Definition is_metric (e : effect) : bool := match e with EMetric _ => true | _ => false end.

Definition actions (l : list effect) : list effect := filter (λ e, is_action e = true) l.

Lemma actions_app l1 l2 : actions (l1 ++ l2) = actions l1 ++ actions l2.
Proof. apply filter_app. Qed.

(** The lookups of interface indices. *)
Definition is_lookup (e : effect) : bool := match e with EIfIndex _ _ => true | _ => false end.

Definition lookups (l : list effect) : list effect := filter (λ e, is_lookup e = true) l.

Lemma lookups_app l1 l2 : lookups (l1 ++ l2) = lookups l1 ++ lookups l2.
Proof. apply filter_app. Qed.

(** Route writes, each with the kernel's answer. *)
Definition answered (writes : list (DefaultRoute * option error)) : list effect :=
  (λ '(r, answer), EWriteRoute r answer) <$> writes.

Lemma answered_app ws1 ws2 : answered (ws1 ++ ws2) = answered ws1 ++ answered ws2.
Proof. apply fmap_app. Qed.

#[export] Instance answered_inj : Inj (=) (=) answered.
Proof. apply list_fmap_eq_inj. by intros [r a] [r' a'] [= -> ->]. Qed.

(** None refused. *)
Definition accepted (writes : list (DefaultRoute * option error)) : Prop := Forall (λ w, w.2 = None) writes.

(** ** Specifications *)

(** The route a Group wants on a WAN in a Family: by the interface alone for a
    point-to-point WAN, else through the cached Gateway, and none while that is
    unknown. *)
Definition route_of (d : daemon) (g : Group) (wan : Wan) (ifindex : Z) (fam : Family) : option DefaultRoute :=
  if w_PointToPoint wan then Some (mkDefaultRoute fam (g_table g) None ifindex true)
  else match gw_get (dm_gateways d) (w_Interface wan) (Family_int fam) with
       | Some (Some gw) => Some (mkDefaultRoute fam (g_table g) (Some gw) ifindex false)
       | _ => None
       end.

(** The routes of the probed Families among [families], or of every probed
    one, in order. *)
Definition routes_wanted (d : daemon) (g : Group) (wan : Wan) (ifindex : Z) (families : list Family) : list DefaultRoute :=
  let probed := Config.Families (p_Targets (w_Probe wan)) in
  omap (λ fam, if decide (fam ∈ probed) then route_of d g wan ifindex fam else None)
    (match families with [] => probed | _ => families end).

Section routes.
Context {E : Type} `{HK : Kernel E, HSS : StateSink E, HHS : HookSink E, HKL : !KernelLaws E} (version : string).

(** An effect of none of these kinds. *)
Definition plain (e : effect) : Prop := is_action e = false ∧ is_lookup e = false.

Lemma plain_none l : Forall plain l → actions l = [] ∧ lookups l = [].
Proof.
  induction 1 as [|e l [Ha He] _ [IHa IHe]]; [done|]. unfold actions, lookups in *.
  rewrite !filter_cons_False by congruence. done.
Qed.

(** A run of route writes: what was written and answered, and nothing else. *)
Definition only_writes (ws : list (DefaultRoute * option error)) (l : list effect) : Prop :=
  actions l = answered ws ∧ lookups l = [].

Lemma only_writes_app ws1 ws2 l1 l2 : only_writes ws1 l1 → only_writes ws2 l2 → only_writes (ws1 ++ ws2) (l1 ++ l2).
Proof. intros [H1 H2] [H3 H4]. unfold only_writes. by rewrite actions_app, lookups_app, answered_app, H1, H2, H3, H4. Qed.

Lemma writeOne_effects d g wan i fam (w : World E effect) :
  wlog (writeOne d g wan i fam) (λ hard l w',
    ∃ ws, only_writes ws l ∧ ws.*1 = option_list (route_of d g wan i fam) ∧ (hard = false ↔ accepted ws)) w.
Proof.
  unfold writeOne, route_of. set (r := if w_PointToPoint wan then _ else _).
  clearbody r.
  destruct r as [r|]; [|by apply wlog_ret; exists []; repeat constructor].
  apply wlog_bind, wlog_silent; [apply _|]. intros started w1.
  apply wlog_bind. unfold kernel_WriteRoute. apply wlog_bind, wlog_silent; [apply _|]. intros err w2.
  apply wlog_bind, wlog_emit. intros w3 _. apply wlog_ret. apply wlog_bind, wlog_silent; [apply _|]. intros ended w4.
  apply wlog_bind, wlog_emit. intros w5 _. destruct err as [err|].
  - apply wlog_bind, wlog_emit. intros w6 _. apply wlog_ret. exists [(r, Some err)].
    split; [done|]. split; [done|]. split; [done|]. by intros [? _]%Forall_cons.
  - apply wlog_ret. exists [(r, None)]. split; [done|]. split; [done|]. split; [|done]. by repeat constructor.
Qed.

(** The writes of a list of Families: a prefix of the routes wanted, all of
    them unless cancelled, and an error exactly when one was refused. *)
Definition written (wanted : list DefaultRoute) (n : nat) (ws : list (DefaultRoute * option error))
    (err : option error) (w' : World E effect) : Prop :=
  ws.*1 `prefix_of` wanted ∧
  (err = None → ws.*1 = wanted ∧ accepted ws ∧ n = 0%nat) ∧
  (cancelled w' = false → ws.*1 = wanted ∧ (accepted ws → n = 0%nat → err = None)).

Lemma written_cons wanted r n ws0 (hard : bool) ws err w' :
  ws0.*1 = option_list r → (hard = false ↔ accepted ws0) →
  written wanted (if hard then S n else n) ws err w' → written (option_list r ++ wanted) n (ws0 ++ ws) err w'.
Proof.
  intros Ha He (Hp & H1 & H2). unfold written. rewrite fmap_app, Ha. split; [by apply prefix_app|]. split.
  - intros Hn. destruct (H1 Hn) as (-> & Hacc & Hz). split; [done|]. destruct hard; [done|].
    split; [|done]. apply Forall_app. split; [by apply He|done].
  - intros Hc. destruct (H2 Hc) as [-> H]. split; [done|]. intros [Hacc0 Hacc]%Forall_app Hz.
    apply H; [done|]. by apply He in Hacc0 as ->.
Qed.

Lemma writeFamilies_effects d g wan i fams : ∀ n (w : World E effect),
  wlog (writeFamilies d g wan i n fams) (λ err l w', ∃ ws, only_writes ws l ∧ written
    (omap (λ fam, if decide (fam ∈ Config.Families (p_Targets (w_Probe wan)))
                  then route_of d g wan i fam else None) fams) n ws err w') w.
Proof.
  induction fams as [|fam fams IH]; intros n w; cbn [writeFamilies].
  - apply wlog_ret. exists []. split; [done|]. split; [done|].
    split; [|intros _; split; [done|]]; case_bool_decide; try done; [intros _; split; [done|]; split; [by constructor|lia]|lia].
  - cbn [omap list_omap]. destruct (decide (fam ∈ _)) as [Hin|Hin];
      [rewrite bool_decide_eq_true_2 by done|rewrite bool_decide_eq_false_2 by done]; cbn [negb]; [|apply IH].
    apply wlog_bind, wlog_ctx_Err; intros Hc.
    { intros w1 Hc1. apply wlog_ret. exists []. split; [done|]. split; [apply prefix_nil|]. split; [done|]. congruence. }
    apply wlog_bind. eapply wlog_mono; [apply writeOne_effects|]. intros hard l w1 (ws & Ha & Hr & He).
    eapply wlog_mono; [apply IH|]. intros err l' w2 (ws' & Ha' & Hw). exists (ws ++ ws').
    split; [by apply (only_writes_app _ _ l l')|].
    pose proof (written_cons _ _ _ _ _ _ _ _ Hr He Hw) as Hw'. by destruct (route_of d g wan i fam).
Qed.

(** What [applyRoutes] does: an unknown WAN or a failed interface lookup is an
    error without a write. *)
Definition applied (d : daemon) (g : Group) (sel : string) (fams : list Family) (err : option error)
    (l : list effect) (w' : World E effect) : Prop :=
  match c_Wans (dm_cfg d) !! sel with
  | None => is_Some err ∧ actions l = [] ∧ lookups l = []
  | Some wan => ∃ index, lookups l = [EIfIndex (w_Interface wan) index] ∧
      match index with
      | inl _ => is_Some err ∧ actions l = []
      | inr i => ∃ ws, actions l = answered ws ∧ written (routes_wanted d g wan i fams) 0 ws err w'
      end
  end.

Lemma applyRoutes_effects d g sel fams (w : World E effect) : wlog (applyRoutes d g sel fams) (applied d g sel fams) w.
Proof.
  unfold applyRoutes, applied. destruct (c_Wans _ !! sel) as [wan|]; [|by apply wlog_ret].
  apply wlog_bind. unfold kernel_IfIndex. apply wlog_bind, wlog_silent; [apply _|]. intros index w1.
  apply wlog_bind, wlog_emit. intros w2 _. apply wlog_ret. destruct index as [err|i].
  - apply wlog_bind, wlog_emit. intros w3 _. apply wlog_ret. by exists (inl err).
  - eapply wlog_mono; [apply writeFamilies_effects|]. intros err l w3 (ws & [Ha Hl] & Hw).
    exists (inr i). rewrite lookups_app, Hl. split; [done|]. exists ws. by rewrite actions_app, Ha.
Qed.

(** ** Decisions *)

Lemma publishSelected_plain g : Emits plain (publishSelected (E:=E) g).
Proof. unfold publishSelected, forM, Set_. emitting. Qed.

(** Only routes of table [t] are written. *)
Definition writes_table (t : Z) (ws : list (DefaultRoute * option error)) : Prop :=
  Forall (λ w, dr_Table w.1 = t) ws.

Lemma routes_wanted_table d g wan i fams : Forall (λ r, dr_Table r = g_table g) (routes_wanted d g wan i fams).
Proof.
  apply Forall_forall. intros r. unfold routes_wanted. rewrite list_elem_of_omap. intros (fam & _ & Hr).
  case_decide; [|done]. unfold route_of in Hr. repeat case_match; by simplify_eq.
Qed.

Lemma written_table d g wan i fams n ws err w' :
  written (routes_wanted d g wan i fams) n ws err w' → writes_table (g_table g) ws.
Proof.
  intros (Hp & _). pose proof (routes_wanted_table d g wan i fams) as H. destruct Hp as [k Hk].
  rewrite Hk in H. apply Forall_app in H as [H _]. by apply Forall_fmap in H.
Qed.

(** The whole of a WAN's routes, through the index the kernel gave for its
    interface, none refused. *)
Definition all_written (d : daemon) (g : Group) (name : string) (ws : list (DefaultRoute * option error))
    (l : list effect) : Prop :=
  ∃ wan i, c_Wans (dm_cfg d) !! name = Some wan ∧ lookups l = [EIfIndex (w_Interface wan) (inr i)] ∧
    ws.*1 = routes_wanted d g wan i [] ∧ accepted ws.

Lemma applyRoutes_outcome d g sel (w : World E effect) :
  wlog (applyRoutes d g sel []) (λ err l _, ∃ ws, actions l = answered ws ∧ writes_table (g_table g) ws ∧
    (err = None → all_written d g sel ws l)) w.
Proof.
  eapply wlog_mono; [apply applyRoutes_effects|]. intros err l w'. unfold applied.
  destruct (c_Wans _ !! sel) as [wan|] eqn:Hw; [|intros ([e ->] & Ha & _); exists []; by repeat constructor].
  intros ([e|i] & Hlk & H).
  { destruct H as [[e' ->] Ha]. exists []. by repeat constructor. }
  destruct H as (ws & Ha & Hw'). exists ws. split; [done|]. split; [by eapply written_table|].
  intros ->. destruct Hw' as (_ & H1 & _). destruct (H1 eq_refl) as (Hr & Hacc & _). by exists wan, i.
Qed.

(** The routes a commit asks for. *)
Definition commits_routes (d : daemon) (g : Group) (next : Active) (ws : list (DefaultRoute * option error))
    (l : list effect) : Prop :=
  if a_has next then all_written d g (a_wan next) ws l else ws = [] ∧ lookups l = [].

Lemma all_written_plain d g name ws l1 l l2 :
  lookups l1 = [] → lookups l2 = [] → all_written d g name ws l → all_written d g name ws (l1 ++ l ++ l2).
Proof.
  intros H1 H2 (wan & i & Hw & Hl & Hr). exists wan, i. split; [done|].
  by rewrite !lookups_app, H1, H2, Hl.
Qed.

Lemma commits_routes_plain d g next ws l1 l l2 :
  lookups l1 = [] → lookups l2 = [] → commits_routes d g next ws l → commits_routes d g next ws (l1 ++ l ++ l2).
Proof.
  intros H1 H2. unfold commits_routes. destruct (a_has next); [by apply all_written_plain|].
  intros [-> Hl]. split; [done|]. by rewrite !lookups_app, H1, H2, Hl.
Qed.

Lemma commit_effects d dg next (w : World E effect) :
  wlog (commit (applyRoutes d (d_cfg dg)) dg next) (λ '(dg', c) l _,
    ∃ ws, actions l = answered ws ∧ writes_table (g_table (d_cfg dg)) ws ∧ d_cfg dg' = d_cfg dg ∧
    match c with
    | None => d_selection dg' = d_selection dg
    | Some c => cm_Old c = d_selection dg ∧ cm_New c = next ∧ d_selection dg' = next ∧
        commits_routes d (d_cfg dg) next ws l
    end) w.
Proof.
  unfold commit. apply wlog_bind.
  apply (wlog_mono _ (λ err l _, ∃ ws, actions l = answered ws ∧ writes_table (g_table (d_cfg dg)) ws ∧
    (err = None → commits_routes d (d_cfg dg) next ws l))).
  { unfold commits_routes. destruct (a_has next); [apply applyRoutes_outcome|]. apply wlog_ret. exists [].
    by repeat constructor. }
  intros [err|] l w1 (ws & Ha & Ht & Hw); [by apply wlog_ret; rewrite app_nil_r; exists ws|].
  apply wlog_bind, wlog_silent; [apply _|]. intros at_ w2. cbn [app].
  apply wlog_bind, (wlog_emits plain); [apply publishSelected_plain|].
  intros [] lm w3 [Hma Hml]%plain_none. apply wlog_ret. rewrite app_nil_r. exists ws.
  rewrite actions_app, Hma, app_nil_r. do 3 (split; [done|]). cbn [cm_Old cm_New d_selection].
  do 3 (split; [done|]). by apply (commits_routes_plain _ _ _ _ [] l lm), Hw.
Qed.

Lemma Recompute_effects d dg members reason (w : World E effect) :
  wlog (Recompute (applyRoutes d (d_cfg dg)) dg members reason) (λ '(dg', c) l _,
    ∃ ws, actions l = answered ws ∧ writes_table (g_table (d_cfg dg)) ws ∧ d_cfg dg' = d_cfg dg ∧
    match c with
    | None => d_selection dg' = d_selection dg
    | Some c => cm_Old c = d_selection dg ∧ d_selection dg' = cm_New c ∧
        commits_routes d (d_cfg dg) (cm_New c) ws l
    end) w.
Proof.
  unfold Recompute. destruct (Select _ _) as [err|sel].
  { apply wlog_ret. exists []. by repeat constructor. }
  case_decide. { apply wlog_ret. exists []. by repeat constructor. }
  apply wlog_bind, (wlog_emits plain); [unfold Inc; emitting|].
  intros [] lm w1 [Hma Hml]%plain_none.
  eapply wlog_mono; [apply (commit_effects d (mkDGroup (d_cfg dg) _ _ _ _ _))|].
  intros [dg' c] l w2 (ws & Ha & Ht & Hc & Hsel). cbn [d_cfg d_selection] in *. exists ws.
  rewrite actions_app, Hma. do 3 (split; [done|]).
  destruct c as [c|]; [|done]. destruct Hsel as (? & Hn & ? & Hw). rewrite Hn. split; [done|]. split; [done|].
  rewrite <- (app_nil_r l). by apply commits_routes_plain.
Qed.

(** ** Publication *)

(** The Family of an address, as its length tells. *)
Definition address_family (ip : IP) : Family := match To4 ip with None => FamilyV6 | Some _ => FamilyV4 end.

(** The Selection a commit takes connections away from: the old one of a
    switch, or the one vacated earlier when a Group comes up on another WAN. *)
Definition vacated_by (d : daemon) (g : Group) (c : Commit) : option Active :=
  match Commit_Event c with
  | Some EventSwitch => Some (cm_Old c)
  | Some EventUp =>
      match dm_vacated d !! g_name g with
      | Some old => if bool_decide (a_wan old = a_wan (cm_New c)) then None else Some old
      | None => None
      end
  | _ => None
  end.

(** What a Group remembers as vacated. *)
Definition vacated_after (d : daemon) (g : Group) (c : Commit) : gmap string Active :=
  match Commit_Event c with
  | Some EventDown => <[g_name g := cm_Old c]> (dm_vacated d)
  | Some EventUp => delete (g_name g) (dm_vacated d)
  | _ => dm_vacated d
  end.

(** The flushes [fl] of every address the kernel gave for the vacated WAN's
    interface, in a run of effects [l]. *)
Definition flushes (d : daemon) (old : option Active) (fl l : list effect) : Prop :=
  match old with
  | None => fl = []
  | Some old =>
      match c_Wans (dm_cfg d) !! a_wan old with
      | None => fl = []
      | Some wan => ∃ addrs, EAddrs (w_Interface wan) addrs ∈ l ∧
          fl = match addrs with
               | inl _ => []
               | inr addrs => (λ ip, EFlush (address_family ip) ip) <$> addrs
               end
      end
  end.

Lemma flushes_app d old fl l1 l l2 : flushes d old fl l → flushes d old fl (l1 ++ l ++ l2).
Proof.
  unfold flushes. destruct old as [old|]; [|done]. destruct (c_Wans _ !! _) as [wan|]; [|done].
  intros (addrs & Hin & ->). exists addrs. split; [|done]. set_solver.
Qed.

Lemma flushVacated_effects d g old (w : World E effect) :
  wlog (flushVacatedConntrack d g old) (λ _ l _, flushes d (Some old) (actions l) l) w.
Proof.
  unfold flushVacatedConntrack, flushes. destruct (c_Wans _ !! _) as [wan|]; [|by apply wlog_ret].
  apply wlog_bind. unfold kernel_InterfaceAddrs. apply wlog_bind, wlog_silent; [apply _|]. intros addrs w1.
  apply wlog_bind, wlog_emit. intros w2 _. apply wlog_ret. destruct addrs as [err|addrs].
  { apply wlog_emit. intros w3 _. exists (inl err). split; [by left|done]. }
  apply (wlog_mono _ (λ _ l _, actions l = (λ ip, EFlush (address_family ip) ip) <$> addrs)).
  - apply (wlog_foldM _ _ (λ dn _ l _, actions l = (λ ip, EFlush (address_family ip) ip) <$> dn)); [done| |].
    + intros dn ip rest [] lg w3 _ Hlg. unfold kernel_FlushConntrack. fold (address_family ip).
      apply wlog_bind, wlog_bind, wlog_emit. intros w4 _. apply wlog_silent; [apply _|]. intros [r err] w5.
      destruct err; [apply wlog_emit; intros w6 _|apply wlog_ret];
        by rewrite actions_app, Hlg, fmap_app.
    + done.
  - intros [] l w3 Hl. exists (inr addrs). split; [by left|]. by rewrite <- Hl.
Qed.

Lemma writeState_effects d t (w : World E effect) :
  wlog (writeStateSnapshot version d t) (λ _ l _, actions l = [EPublish (stateSnapshot version d t)]) w.
Proof.
  unfold writeStateSnapshot, stateW_Write. apply wlog_bind, wlog_bind, wlog_emit. intros w1 _.
  apply wlog_silent; [apply _|]. intros err w2. destruct err; [by apply wlog_ret|].
  by apply wlog_emit.
Qed.

Lemma publishDecision_no_lookup d g c : Emits (λ e, is_lookup e = false) (publishDecision (E:=E) version d g c).
Proof.
  unfold publishDecision, flushVacatedConntrack, kernel_InterfaceAddrs, kernel_FlushConntrack, forM, writeStateSnapshot,
    stateW_Write, notifyHooks, hooks_Notify, Inc. emitting.
Qed.

Lemma lookups_none l : Forall (λ e, is_lookup e = false) l → lookups l = [].
Proof.
  induction 1 as [|e l He _ IH]; [done|]. unfold lookups. rewrite filter_cons_False; [done|]. by rewrite He.
Qed.

(** A published commit: flushes, then State, then the Hook. *)
Lemma publishDecision_effects d g c (w : World E effect) :
  wlog (publishDecision version d g (Some c)) (λ d' l _,
    d' = set_vacated d (vacated_after d g c) ∧
    ∃ fl, flushes d (vacated_by d g c) fl l ∧
    actions l = fl ++ EPublish (stateSnapshot version d' (cm_At c)) ::
      match Commit_Event c with Some ev => [ENotify (hookContext d' g ev c)] | None => [] end) w.
Proof.
  unfold publishDecision. cbn zeta. apply wlog_bind.
  apply (wlog_mono _ (λ d' l _, d' = set_vacated d (vacated_after d g c) ∧ flushes d (vacated_by d g c) (actions l) l)).
  { unfold vacated_after, vacated_by. destruct (Commit_Event c) as [[]|].
    - destruct (dm_vacated d !! g_name g) as [old|] eqn:Ho.
      + case_bool_decide; [by apply wlog_ret|].
        apply wlog_bind. eapply wlog_mono; [apply flushVacated_effects|]. intros [] l w1 Hl.
        apply wlog_ret. by rewrite app_nil_r.
      + apply wlog_ret. split; [|done]. rewrite delete_id by done. by destruct d.
    - by apply wlog_ret.
    - apply wlog_bind. eapply wlog_mono; [apply flushVacated_effects|]. intros [] l w1 Hl.
      apply wlog_ret. rewrite app_nil_r. by destruct d.
    - apply wlog_ret. by destruct d. }
  intros d' l1 w1 [Hd Hl]. apply wlog_bind. eapply wlog_mono; [apply writeState_effects|].
  intros [] l2 w2 H2. destruct (Commit_Event c) as [ev|].
  - apply wlog_bind. unfold notifyHooks, hooks_Notify. apply wlog_bind, wlog_bind, wlog_emit. intros w3 _.
    apply wlog_silent; [apply _|]. intros b w4. apply wlog_ret, wlog_ret. split; [done|].
    eexists. split; [by apply (flushes_app _ _ _ [] l1)|]. by rewrite !actions_app, H2.
  - apply wlog_ret. split; [done|]. eexists. split; [by apply (flushes_app _ _ _ [] l1)|]. by rewrite !actions_app, H2.
Qed.

#[export] Instance silent_MemberHealth h g : Silent (Health.MemberHealth (E:=E) (Ev:=effect) h g).
Proof. unfold Health.MemberHealth. apply _. Qed.

(** One Group's Decision, from the write to the Hook. *)
Lemma recomputeGroup_effects wan reason d name dg (w : World E effect) :
  dm_groups d !! name = Some dg → groupContainsWAN (d_cfg dg) wan = true →
  wlog (recomputeGroup version wan reason d (name, d_cfg dg)) (λ d' l _,
    ∃ dg' ws rest, actions l = answered ws ++ rest ∧ writes_table (g_table (d_cfg dg)) ws ∧
      dm_groups d' = <[name := dg']> (dm_groups d) ∧
      (d_selection dg' = d_selection dg ∧ rest = [] ∨
       ∃ c fl, cm_Old c = d_selection dg ∧ cm_New c = d_selection dg' ∧
         commits_routes d (d_cfg dg) (cm_New c) ws l ∧
         flushes d (vacated_by d (d_cfg dg) c) fl l ∧
         rest = fl ++ EPublish (stateSnapshot version d' (cm_At c)) ::
           match Commit_Event c with Some ev => [ENotify (hookContext d' (d_cfg dg) ev c)] | None => [] end)) w.
Proof.
  intros Hdg Hc. unfold recomputeGroup. rewrite Hc, Hdg. cbn [negb].
  apply wlog_bind, wlog_silent; [apply _|]. intros members w1.
  apply wlog_bind. eapply wlog_mono; [apply Recompute_effects|]. intros [dg' [c|]] lw w2 (ws & Ha & Ht & Hcfg & Hsel).
  - destruct Hsel as (Hold & Hnew & Hw).
    eapply wlog_mono; [apply wlog_and_emits; [apply publishDecision_no_lookup|apply publishDecision_effects]|].
    intros d' l w3 [(Hd' & fl & Hfl & Hl) Hlk%lookups_none].
    cbn [app]. exists dg', ws, (actions l). rewrite actions_app, Ha. split; [done|]. split; [done|].
    split; [by rewrite Hd'|]. right. exists c, fl. split; [done|]. split; [done|].
    split; [by apply (commits_routes_plain _ _ _ _ [] lw l)|].
    split; [rewrite <- (app_nil_r l); by apply flushes_app|done].
  - cbn [publishDecision]. apply wlog_ret. cbn [app]. exists dg', ws, []. rewrite !app_nil_r.
    split; [done|]. split; [done|]. split; [done|]. by left.
Qed.

End routes.

(** ** After cancellation *)

Section stopped.
Context {E : Type} `{HK : Kernel E, HSS : StateSink E, HHS : HookSink E, HKL : !KernelLaws E} (version : string).

(** Entered cancelled, a computation has no action and makes no call. *)
Definition stopped {A} (m : M E effect A) (Q : A → Prop) : Prop :=
  ∀ w, cancelled w = true →
    wlog m (λ x l w', Q x ∧ Forall (λ e, is_metric e = true) l ∧ w_env w' = w_env w ∧ cancelled w' = true) w.

Lemma stopped_ret {A} (x : A) (Q : A → Prop) : Q x → stopped (mret x) Q.
Proof. intros HQ w Hc. by apply wlog_ret. Qed.

Lemma stopped_bind {A B} (m : M E effect A) (f : A → M E effect B) (Q : A → Prop) (R : B → Prop) :
  stopped m Q → (∀ x, Q x → stopped (f x) R) → stopped (x ← m; f x) R.
Proof.
  intros Hm Hf w Hc. apply wlog_bind. eapply wlog_mono; [by apply Hm|].
  intros x l w1 (HQ & Ha & He & Hc1). eapply wlog_mono; [by apply (Hf x HQ)|].
  intros y l' w2 (HR & Ha' & He' & Hc2). split; [done|]. split; [by apply Forall_app|].
  split; [congruence|done].
Qed.

Lemma stopped_ctx_Err : stopped ctx_Err (λ err, err = Some ErrCanceled).
Proof. intros w Hc. exists []. rewrite app_nil_r. unfold ctx_Err. rewrite Hc. cbn. by rewrite cancelled_step. Qed.

Lemma stopped_range {A} (m : gmap string A) : stopped (range m) (λ _, True).
Proof. intros w Hc. exists []. rewrite app_nil_r. cbn. by rewrite cancelled_step. Qed.

(** Metrics are still counted. *)
Lemma stopped_metrics {A} (m : M E effect A) `{!Extending m, !Quiet m} :
  Emits (λ e, is_metric e = true) m → stopped m (λ _, True).
Proof.
  intros Hm w Hc. destruct (Hm w) as (l & Hl & HP). exists l. split; [done|]. split; [done|].
  split; [done|]. split; [apply quiet|]. by apply (extends_cancelled w), Hc; apply extending.
Qed.

Lemma stopped_foldM {A B} (f : B → A → M E effect B) (I : B → Prop) l : ∀ b,
  (∀ b x, I b → stopped (f b x) I) → I b → stopped (foldM f b l) I.
Proof.
  induction l as [|x l IH]; intros b Hf HI; cbn [foldM]; [by apply stopped_ret|].
  apply (stopped_bind _ _ I); [by apply Hf|]. intros b' HI'. by apply IH.
Qed.

Lemma stopped_loop {A} (body : daemon → A → M E effect daemon) d l : stopped (loop_live body d l) (λ r, r.1 = d).
Proof.
  destruct l as [|x l]; cbn [loop_live]; [by apply stopped_ret|].
  eapply stopped_bind; [apply stopped_ctx_Err|]. intros err ->. by apply stopped_ret.
Qed.

Lemma stopped_recomputeAffected reason d wan : stopped (recomputeAffectedGroups version reason d wan) (λ d', d' = d).
Proof.
  unfold recomputeAffectedGroups. eapply stopped_bind; [apply stopped_range|]. intros entries _.
  eapply stopped_bind; [apply stopped_loop|]. intros [d' b] Hd. by apply stopped_ret.
Qed.

Lemma stopped_republish d t (b : bool) :
  stopped (if b then err ← ctx_Err; match err with Some _ => mret d | None => _ ← writeStateSnapshot version d t; mret d end
           else mret d) (λ d', d' = d).
Proof.
  destruct b; [|by apply stopped_ret]. eapply stopped_bind; [apply stopped_ctx_Err|]. intros err ->. by apply stopped_ret.
Qed.

Lemma stopped_publishHealthChange d c reason : stopped (publishHealthChange version d c reason) (λ d', d' = d).
Proof.
  unfold publishHealthChange. apply (stopped_bind _ _ (λ d', d' = d)).
  - apply stopped_foldM; [|done]. intros d' wan ->. apply stopped_recomputeAffected.
  - intros d' ->. apply stopped_republish.
Qed.

Lemma stopped_observeRoute e d wans : stopped (observeRoute version e d wans) (λ r, r.1 = d).
Proof.
  induction wans as [|[n wan] wans IH]; cbn [observeRoute]; [by apply stopped_ret|].
  destruct (negb _); [done|]. eapply stopped_bind; [apply stopped_range|]. intros entries _.
  eapply stopped_bind; [apply stopped_loop|]. intros [d' b] Hd. cbn [fst] in Hd. subst d'.
  destruct b; [by apply stopped_ret|done].
Qed.

(** Health folds an event with metrics only. *)
Lemma stopped_handle_change h ev : stopped (handle_change h ev) (λ _, True).
Proof.
  destruct ev as [r|e]; cbn [handle_change]; (apply stopped_metrics; [apply _|..]).
  - unfold Health.Probe, recordProbe, recordStats, forM, Set_. quiet_by.
  - unfold Health.Probe, recordProbe, recordStats, forM, Set_. emitting.
  - unfold Health.Link, link_one, recordLink, forM, Set_, Inc. quiet_by.
  - unfold Health.Link, link_one, recordLink, forM, Set_, Inc. emitting.
Qed.

(** A handler keeps the Groups and what they vacated. *)
Definition same_groups (d d' : daemon) : Prop :=
  dm_cfg d' = dm_cfg d ∧ dm_groups d' = dm_groups d ∧ dm_vacated d' = dm_vacated d.

Lemma stopped_mono {A} (m : M E effect A) (Q R : A → Prop) : stopped m Q → (∀ x, Q x → R x) → stopped m R.
Proof. intros Hm HQ w Hc. eapply wlog_mono; [by apply Hm|]. naive_solver. Qed.

Lemma stopped_dispatch d ev : stopped (dispatch version d ev) (same_groups d).
Proof.
  destruct ev as [r|e|e]; cbn [dispatch].
  - unfold handleProbeResult. eapply stopped_bind; [apply (stopped_handle_change _ (HProbe r))|]. intros [h c] _.
    eapply stopped_bind; [apply stopped_publishHealthChange|]. intros d1 ->.
    case_bool_decide; [by apply stopped_ret|]. unfold retryGroupDecisions.
    eapply stopped_bind; [apply stopped_range|]. intros entries _.
    eapply stopped_bind; [apply stopped_loop|]. intros [d2 b] Hd. cbn [fst] in Hd. subst d2. by apply stopped_ret.
  - unfold handleLinkEvent. eapply stopped_bind; [apply (stopped_handle_change _ (HLink e))|]. intros [h c] _.
    eapply stopped_mono; [apply stopped_publishHealthChange|]. by intros d1 ->.
  - unfold handleRouteEvent. eapply stopped_bind; [apply stopped_range|]. intros wans _.
    eapply stopped_bind; [apply stopped_observeRoute|]. intros [d1 b] Hd. cbn [fst] in Hd. subst d1.
    destruct b; [by apply stopped_ret|]. eapply stopped_mono; [apply stopped_republish|]. by intros d1 ->.
Qed.

End stopped.

(** ** Start-up *)

Section bootstrap.
Context {E : Type} `{HK : Kernel E, HSS : StateSink E, HHS : HookSink E, HKL : !KernelLaws E} (version : string).

(** The rules of a Group, v4 first. *)
Definition group_rules (g : Group) : list FwmarkRule :=
  (λ fam, mkFwmarkRule fam (g_mark g) (g_table g)) <$> AllFamilies.

(** A rule the kernel granted. *)
Definition granted (r : FwmarkRule) : effect := EEnsureRule r None.

(** Rules asked for in order, up to the first the kernel refused. *)
Definition ensured (wanted : list FwmarkRule) (err : option error) (l : list effect) : Prop :=
  match err with
  | None => actions l = granted <$> wanted
  | Some err => ∃ dn r rest, wanted = dn ++ r :: rest ∧
      actions l = (granted <$> dn) ++ [EEnsureRule r (Some err)]
  end.

Lemma ensureGroupRules_effects g fams (w : World E effect) :
  wlog (ensureGroupRules g fams)
    (λ err l _, ensured ((λ fam, mkFwmarkRule fam (g_mark g) (g_table g)) <$> fams) err l) w.
Proof.
  revert w. induction fams as [|fam fams IH]; intros w; cbn [ensureGroupRules]; [by apply wlog_ret|].
  set (r := mkFwmarkRule _ _ _). apply wlog_bind. unfold kernel_EnsureRule. apply wlog_bind, wlog_silent; [apply _|].
  intros [n err] w1. apply wlog_bind, wlog_emit. intros w2 _. apply wlog_ret. destruct err as [err|].
  - apply wlog_bind, wlog_emit. intros w3 _. apply wlog_ret.
    by exists [], r, ((λ fam, mkFwmarkRule fam (g_mark g) (g_table g)) <$> fams).
  - eapply wlog_mono; [apply IH|]. intros err l w3 H. rewrite fmap_cons. fold r.
    destruct err as [err|]; cbn [ensured] in *.
    + destruct H as (dn & r' & rest & -> & Ha). exists (r :: dn), r', rest.
      split; [done|]. by rewrite actions_app, Ha.
    + by rewrite actions_app, H.
Qed.

Lemma bootstrap_effects d (w : World E effect) :
  wlog (bootstrap version d) (λ err l _,
    ∃ groups lw rest, groups ≡ₚ map_to_list (c_Groups (dm_cfg d)) ∧
      ensured (groups ≫= λ '(_, g), group_rules g) err lw ∧ actions l = actions lw ++ rest ∧
      rest = match err with None => [EPublish (stateSnapshot version d zero_time)] | Some _ => [] end) w.
Proof.
  unfold bootstrap. apply wlog_bind. exists []. rewrite app_nil_r. split; [done|]. unfold range. cbn [fst snd].
  set (groups := shuffle _ _).
  assert (Hp : groups ≡ₚ map_to_list (c_Groups (dm_cfg d))) by apply shuffle_Permutation.
  apply wlog_bind, (wlog_foldM _ _ (λ dn err l _,
    match err with
    | None => ensured (dn ≫= λ '(_, g), group_rules g) err l
    | Some _ => ∀ more, ensured ((dn ≫= λ '(_, g), group_rules g) ++ more) err l
    end)); [done| |].
  - intros dn [k g] rest err lg w1 _ HI. rewrite bind_app. cbn [mbind list_bind]. rewrite app_nil_r. destruct err as [err|].
    + apply wlog_ret. intros more. rewrite app_nil_r, <- app_assoc. apply HI.
    + eapply wlog_mono; [apply ensureGroupRules_effects|]. intros err l w2 H. fold (group_rules g) in H.
      destruct err as [err|]; cbn [ensured] in *.
      * intros more. destruct H as (dn' & r & rest' & -> & Ha).
        exists ((dn ≫= λ '(_, g), group_rules g) ++ dn'), r, (rest' ++ more).
        split; [by rewrite <- !app_assoc|]. by rewrite actions_app, HI, Ha, !fmap_app, <- app_assoc.
      * by rewrite actions_app, HI, H, fmap_app.
  - intros err lg w1 HI. destruct err as [err|].
    + apply wlog_ret. exists groups, lg, []. split; [done|]. specialize (HI []). rewrite app_nil_r in HI.
      split; [done|]. by rewrite !app_nil_r.
    + apply wlog_bind. eapply wlog_mono; [apply writeState_effects|]. intros [] l w2 Hl.
      apply wlog_ret. exists groups, lg, (actions l). split; [done|]. split; [done|].
      split; [|exact Hl]. cbn [app]. by rewrite app_nil_r, actions_app.
Qed.
End bootstrap.

(** ** Properties *)

Import Example.

(** A daemon whose Group has no Selection yet, over a Health and Gateways. *)
Definition example_daemon (h : Health.Wans) (gws : gatewayCache) : daemon :=
  mkDaemon example_config h {[ "home" := mkDGroup example_group NoActive zero_time 0 None false ]} gws ∅ zero_time.

Definition example_gateways : gatewayCache :=
  gw_set newGatewayCache "eth0" RouteFamilyV4 (Some [192; 0; 2; 1]).

(** C4. A Decision in order: when a Group is recomputed, whatever the kernel,
    the State writer and the Hook notifier answer, it first writes routes of
    its own table only; if it commits nothing its Selection is unchanged and
    nothing else happens; if it commits a WAN, before anything else every route
    of that WAN was written, through the index the kernel gave for its interface
    in the one lookup made, and the kernel accepted each; then the connections of
    the WAN just vacated are flushed, on a switch or on coming up on another WAN
    than the one last vacated and on no other commit, for every address the
    kernel gave for its interface; then one State is published, which shows the
    committed Selection under the commit's stamp; and last one Hook is handed
    over, exactly when the commit is an up, down or switch, with that event, both
    WANs and the same stamp. *)
Theorem decision_order {E} `{HK : Kernel E, HSS : StateSink E, HHS : HookSink E, HKL : !KernelLaws E}
    version wan reason d name dg (w : World E effect) :
  dm_groups d !! name = Some dg → groupContainsWAN (d_cfg dg) wan = true →
  let '(d', w') := recomputeGroup version wan reason d (name, d_cfg dg) w in
  ∃ l dg' writes rest, w_log w' = w_log w ++ l ∧ actions l = answered writes ++ rest ∧
    Forall (λ wr, dr_Table wr.1 = g_table (d_cfg dg)) writes ∧
    dm_groups d' = <[name := dg']> (dm_groups d) ∧
    (d_selection dg' = d_selection dg ∧ rest = [] ∨
     ∃ c fl s hook, cm_Old c = d_selection dg ∧ cm_New c = d_selection dg' ∧
       (if a_has (cm_New c) then ∃ wn i,
          c_Wans (dm_cfg d) !! a_wan (cm_New c) = Some wn ∧ lookups l = [EIfIndex (w_Interface wn) (inr i)] ∧
          writes.*1 = routes_wanted d (d_cfg dg) wn i [] ∧ Forall (λ wr, wr.2 = None) writes
        else writes = []) ∧
       flushes d (vacated_by d (d_cfg dg) c) fl l ∧
       rest = fl ++ EPublish s :: (ENotify <$> option_list hook) ∧
       st_Groups s !! name = Some (DSnapshot dg') ∧ st_UpdatedAt s = cm_At c ∧
       hc_Event <$> hook = Commit_Event c ∧
       ∀ h, hook = Some h → hc_WanOld h = a_wan (cm_Old c) ∧ hc_WanNew h = a_wan (cm_New c) ∧
         hc_Timestamp h = cm_At c ∧ hc_Group h = g_name (d_cfg dg)).
Proof.
  intros Hdg Hc. pose proof (recomputeGroup_effects version wan reason d name dg w Hdg Hc) as H. unfold wlog, wp in H.
  destruct (recomputeGroup _ _ _ _ _ w) as [d' w']. cbn [fst snd] in H.
  destruct H as (l & Hl & dg' & ws & rest & Ha & Hf & Hg & Hor).
  exists l, dg', ws, rest. do 4 (split; [done|]).
  destruct Hor as [?|(c & fl & Hold & Hnew & Hw & Hfl & ->)]; [by left|right].
  exists c, fl, (stateSnapshot version d' (cm_At c)), ((λ ev, hookContext d' (d_cfg dg) ev c) <$> Commit_Event c).
  split; [done|]. split; [done|]. split.
  { unfold commits_routes in Hw. destruct (a_has (cm_New c)); [exact Hw|by destruct Hw]. }
  split; [done|]. split; [by destruct (Commit_Event c)|]. split; [|split; [done|split]].
  - cbn [stateSnapshot st_Groups]. by rewrite Hg, fmap_insert, lookup_insert_eq.
  - by destruct (Commit_Event c).
  - intros h Hh. destruct (Commit_Event c); [|done]. by injection Hh as <-.
Qed.

(** The example Group takes its first Selection. *)
Lemma decision_order_witness :
  let h := health_spec (c_Wans example_config) [HLink (mkLinkEvent "eth0" CarrierUp OperstateUp zero_time)] in
  let d := example_daemon h example_gateways in
  let '(d', w') := recomputeGroup "1.0" "fiber" "carrier" d ("home", example_group) Example.world in
  ∃ dg' s hook writes, dm_groups d' !! "home" = Some dg' ∧ d_selection dg' = mkActive "fiber" true ∧
    actions (w_log w') = answered writes ++ [EPublish s; ENotify hook] ∧
    writes = [(mkDefaultRoute FamilyV4 100 (Some [192; 0; 2; 1]) 2 false, None)] ∧
    st_Groups s !! "home" = Some (DSnapshot dg') ∧ hc_Timestamp hook = st_UpdatedAt s.
Proof.
  intros h d. set (dg := mkDGroup example_group NoActive zero_time 0 None false).
  pose proof (decision_order "1.0" "fiber" "carrier" d "home" dg Example.world eq_refl eq_refl) as H.
  change (d_cfg dg) with example_group in H.
  assert (Hsel : d_selection <$> (dm_groups (recomputeGroup "1.0" "fiber" "carrier" d ("home", example_group) Example.world).1 !! "home")
    = Some (mkActive "fiber" true)) by (by vm_compute).
  assert (Hlook : lookups (w_log (recomputeGroup "1.0" "fiber" "carrier" d ("home", example_group) Example.world).2)
    = [EIfIndex "eth0" (inr 2)]) by (by vm_compute).
  destruct (recomputeGroup _ _ _ _ _ _) as [d' w']. cbn [fst snd] in Hsel, Hlook.
  destruct H as (l & dg' & writes & rest & Hl & Ha & _ & Hg & Hor). cbn [w_log Example.world app] in Hl.
  rewrite Hg, lookup_insert_eq in Hsel. injection Hsel as Hsel. rewrite Hg, lookup_insert_eq, Hl, Ha.
  destruct Hor as [[Hs _]|(c & fl & s & hook & Hold & Hnew & Hw & Hfl & -> & Hst & Hat & Hev & Hh)].
  { by rewrite Hs in Hsel. }
  assert (Hc : c = mkCommit NoActive (mkActive "fiber" true) (cm_At c)) by (destruct c; cbn in *; congruence).
  rewrite Hc in Hfl, Hev, Hw. destruct hook as [hook|]; [|done].
  cbn [a_has cm_New] in Hw. destruct Hw as (wn & i & Hwn & Hlk & Hws & Hacc). injection Hwn as <-.
  rewrite Hl in Hlook. rewrite Hlook in Hlk. injection Hlk as <-.
  assert (Hv : vacated_by d example_group (mkCommit NoActive (mkActive "fiber" true) (cm_At c)) = None) by done.
  rewrite Hv in Hfl. cbn [flushes] in Hfl. subst fl. exists dg', s, hook, writes.
  split; [done|]. split; [exact Hsel|]. split; [done|]. split.
  { vm_compute in Hws. destruct writes as [|[r a] [|]]; try done. injection Hws as ->.
    apply Forall_cons in Hacc as [Hacc _]. cbn in Hacc. by subst a. }
  split; [done|]. rewrite Hat. by destruct (Hh hook eq_refl) as (_ & _ & ? & _).
Defined.

(** C9. Apply in scope: it writes nothing for an unknown WAN, without a lookup,
    nor when the kernel does not give the index of the WAN's interface, and
    reports an error; else it asks the kernel, in order, for the routes wanted:
    one per requested Family that is probed (all probed ones if none is
    requested), in the Group's table, through the index the kernel gave, by that
    interface alone for a point-to-point WAN and else through the Gateway cached
    for that interface and Family, skipping a Family with no usable Gateway. A
    refused write does not keep the others from being tried. Success means that
    all were asked for and the kernel accepted each; without cancellation all are
    asked for, and the result is an error exactly when the kernel refused one. *)
Theorem routes_scoped {E} `{HK : Kernel E, HSS : StateSink E, HHS : HookSink E, HKL : !KernelLaws E}
    d g selection families (w : World E effect) :
  let '(err, w') := applyRoutes d g selection families w in
  ∃ l, w_log w' = w_log w ++ l ∧
  match c_Wans (dm_cfg d) !! selection with
  | None => is_Some err ∧ actions l = [] ∧ lookups l = []
  | Some wan => ∃ index, lookups l = [EIfIndex (w_Interface wan) index] ∧
      match index with
      | inl _ => is_Some err ∧ actions l = []
      | inr i =>
          let wanted := routes_wanted d g wan i families in
          (∃ writes, actions l = answered writes ∧ writes.*1 `prefix_of` wanted ∧
            (err = None → writes.*1 = wanted ∧ Forall (λ wr, wr.2 = None) writes) ∧
            (cancelled w' = false → writes.*1 = wanted ∧ (err = None ↔ Forall (λ wr, wr.2 = None) writes))) ∧
          ∀ r, r ∈ wanted →
            dr_Table r = g_table g ∧ dr_IfIndex r = i ∧
            dr_Family r ∈ Config.Families (p_Targets (w_Probe wan)) ∧
            (families ≠ [] → dr_Family r ∈ families) ∧
            dr_PointToPoint r = w_PointToPoint wan ∧
            if w_PointToPoint wan then dr_Gateway r = None
            else is_Some (dr_Gateway r) ∧
                 gw_get (dm_gateways d) (w_Interface wan) (Family_int (dr_Family r)) = Some (dr_Gateway r)
      end
  end.
Proof.
  pose proof (applyRoutes_effects d g selection families w) as H. unfold wlog, wp in H.
  destruct (applyRoutes _ _ _ _ w) as [err w']. cbn [fst snd] in H. destruct H as (l & Hl & H). unfold applied in H.
  exists l. split; [done|]. destruct (c_Wans _ !! selection) as [wan|]; [|done].
  destruct H as ([e|i] & Hlk & H); [by exists (inl e)|]. exists (inr i). split; [done|]. cbn zeta. split.
  - destruct H as (ws & Ha & Hp & H1 & H2). exists ws. split; [done|]. split; [done|].
    split; [by intros He; destruct (H1 He) as (?&?&?)|]. intros Hc. destruct (H2 Hc) as [-> He]. split; [done|].
    split; [intros Hn; by destruct (H1 Hn) as (?&?&?)|]. intros Hn. by apply He.
  - intros r. unfold routes_wanted. rewrite list_elem_of_omap. intros (fam & Hfam & Hr). case_decide; [|done].
    unfold route_of in Hr. destruct (w_PointToPoint wan).
    + injection Hr as <-. cbn. split_and!; try done. by destruct families.
    + destruct (gw_get _ _ _) as [[gw|]|] eqn:Hg; try done. injection Hr as <-. cbn.
      split_and!; try done. by destruct families.
Qed.

(** A kernel that refuses every write: the write is asked for, and reported. *)
Module Refusing.
#[export] Instance kernel : Kernel nat := {
  EnsureRule _ := call (λ n, ((0, Some (Errorf "refused")), S n));
  IfIndex name := call (λ n, (inr 2, S n));
  WriteRoute _ := call (λ n, (Some (Errorf "refused"), S n));
  InterfaceAddrs _ := call (λ n, (inr [], S n));
  FlushConntrack _ _ := call (λ n, ((mkFlushResult false 0, None), S n))
}.
#[export] Instance kernel_laws : KernelLaws nat.
Proof. split; intros; apply _. Qed.
End Refusing.

Lemma routes_scoped_witness :
  let route := mkDefaultRoute FamilyV4 100 (Some [192; 0; 2; 1]) 2 false in
  (let '(err, w') := applyRoutes (example_daemon ∅ example_gateways) example_group "fiber" [] Example.world in
   actions (w_log w') = [EWriteRoute route None] ∧ err = None) ∧
  (let '(err, w') := applyRoutes (HK:=Refusing.kernel) (example_daemon ∅ example_gateways) example_group "fiber" [] Example.world in
   actions (w_log w') = [EWriteRoute route (Some (Errorf "refused"))] ∧ err ≠ None).
Proof.
  intros route. split.
  - pose proof (routes_scoped (example_daemon ∅ example_gateways) example_group "fiber" [] Example.world) as H.
    assert (Hc : cancelled (applyRoutes (example_daemon ∅ example_gateways) example_group "fiber" [] Example.world).2 = false)
      by (by vm_compute).
    assert (Ha : actions (w_log (applyRoutes (example_daemon ∅ example_gateways) example_group "fiber" [] Example.world).2)
      = [EWriteRoute route None]) by (by vm_compute).
    destruct (applyRoutes _ _ _ _ _) as [err w']. cbn [fst snd] in *. destruct H as (l & H1 & index & _ & H).
    cbn [w_log Example.world app] in H1. subst l. split; [exact Ha|].
    destruct index as [e|i]; [by destruct H as [_ H]; rewrite Ha in H|].
    destruct H as [(ws & Hw & _ & _ & H2) _]. destruct (H2 Hc) as [_ ->]. rewrite Ha in Hw.
    apply (inj answered [(route, None)]) in Hw as <-. by repeat constructor.
  - pose proof (routes_scoped (HK:=Refusing.kernel) (HKL:=Refusing.kernel_laws) (example_daemon ∅ example_gateways) example_group "fiber" [] Example.world) as H.
    assert (Ha : actions (w_log (applyRoutes (HK:=Refusing.kernel) (example_daemon ∅ example_gateways) example_group "fiber" [] Example.world).2)
      = [EWriteRoute route (Some (Errorf "refused"))]) by (by vm_compute).
    destruct (applyRoutes _ _ _ _ _) as [err w']. cbn [fst snd] in *. destruct H as (l & H1 & index & _ & H).
    cbn [w_log Example.world app] in H1. subst l. split; [exact Ha|]. intros ->.
    destruct index as [e|i]; [by destruct H as [[? ?] _]|].
    destruct H as [(ws & Hw & _ & H2 & _) _]. destruct (H2 eq_refl) as [_ Hacc]. rewrite Ha in Hw.
    apply (inj answered [(route, Some _)]) in Hw as <-. by apply Forall_cons in Hacc as [? _].
Defined.

(** C12. Stopping: a handler entered after the daemon was stopped makes no call
    to the kernel, the State writer or the Hooks, writes no route, flushes no
    connection, publishes nothing and changes no Group; at most it folds its
    event into WAN Health and the Gateway cache and counts metrics. The event
    loop does not even dispatch an event then: it returns with the state as it
    was. And priming a stopped daemon does nothing. *)
Theorem stopped_does_nothing {E} `{HK : Kernel E, HSS : StateSink E, HHS : HookSink E, HKL : !KernelLaws E}
    version d ev acks turns snap (w : World E effect) :
  cancelled w = true →
  (let '(d', w') := dispatch version d ev w in
   w_env w' = w_env w ∧ dm_groups d' = dm_groups d ∧ dm_vacated d' = dm_vacated d ∧
   ∃ l, w_log w' = w_log w ++ l ∧ Forall (λ e, match e with EMetric _ => True | _ => False end) l) ∧
  (let '(r, w') := eventLoop version d acks (TEvent ev :: turns) w in
   r = (d, acks) ∧ w_env w' = w_env w ∧ w_log w' = w_log w) ∧
  (let '(d', w') := prime version d snap w in d' = d ∧ w_env w' = w_env w ∧ w_log w' = w_log w).
Proof.
  intros Hc. split; [|split].
  - pose proof (stopped_dispatch version d ev w Hc) as H. unfold wlog, wp in H.
    destruct (dispatch _ _ _ w) as [d' w']. cbn [fst snd] in H.
    destruct H as (l & Hl & (_ & Hg & Hv) & Ha & He & _). do 3 (split; [done|]). exists l. split; [done|].
    eapply Forall_impl; [exact Ha|]. by intros [].
  - cbn [eventLoop]. unfold mbind, M_bind, ctx_Err. by rewrite Hc.
  - unfold prime, mbind, M_bind, ctx_Err. by rewrite Hc.
Qed.

Lemma stopped_does_nothing_witness :
  let w : World nat effect := mkWorld (mkSchedule (Some 0%nat) (λ _, 7%positive) (λ _ _, 0%nat)) 0 0%nat [] in
  let d := example_daemon ∅ example_gateways in
  let '(d', w') := dispatch "1.0" d (DLinkEvent (mkLinkEvent "eth0" CarrierUp OperstateUp zero_time)) w in
  w_env w' = 0%nat ∧ dm_groups d' = dm_groups d.
Proof.
  intros w d.
  destruct (stopped_does_nothing "1.0" d (DLinkEvent (mkLinkEvent "eth0" CarrierUp OperstateUp zero_time)) 0 []
    (mkStartupSnapshot [] []) w eq_refl) as [H _].
  destruct (dispatch _ _ _ w) as [d' w']. destruct H as (H1 & H2 & _). split; [exact H1|exact H2].
Defined.

(** C25. Bootstrap: the rule of every Group in both Families is asked for, Group
    by Group and v4 first. It succeeds exactly when the kernel granted every one;
    then the first State is published, once. At the first refusal it stops: the
    rules before it were granted, no further one is asked for, nothing is
    published, and the refusal is the result. *)
Theorem bootstrap_rules {E} `{HK : Kernel E, HSS : StateSink E, HHS : HookSink E, HKL : !KernelLaws E}
    version d (w : World E effect) :
  let '(err, w') := bootstrap version d w in
  ∃ l groups, w_log w' = w_log w ++ l ∧ groups ≡ₚ map_to_list (c_Groups (dm_cfg d)) ∧
  let wanted := groups ≫= λ '(_, g),
    [mkFwmarkRule FamilyV4 (g_mark g) (g_table g); mkFwmarkRule FamilyV6 (g_mark g) (g_table g)] in
  match err with
  | None => actions l = ((λ r, EEnsureRule r None) <$> wanted) ++ [EPublish (stateSnapshot version d zero_time)]
  | Some err => ∃ dn r rest, wanted = dn ++ r :: rest ∧
      actions l = ((λ r, EEnsureRule r None) <$> dn) ++ [EEnsureRule r (Some err)]
  end.
Proof.
  pose proof (bootstrap_effects version d w) as H. unfold wlog, wp in H.
  destruct (bootstrap _ _ w) as [err w']. cbn [fst snd] in H.
  destruct H as (l & Hl & groups & lw & rest & Hp & He & Ha & ->). exists l, groups. split; [done|]. split; [done|].
  cbn zeta. destruct err as [err|]; cbn [ensured] in He.
  - destruct He as (dn & r & rest & Hw & Hr). exists dn, r, rest. split; [done|].
    by rewrite Ha, app_nil_r, Hr.
  - by rewrite Ha, He.
Qed.

Lemma bootstrap_rules_witness :
  (let '(err, w') := bootstrap "1.0" (example_daemon ∅ newGatewayCache) Example.world in
   err = None ∧ length (actions (w_log w')) = 3%nat) ∧
  (let '(err, w') := bootstrap (HK:=Refusing.kernel) "1.0" (example_daemon ∅ newGatewayCache) Example.world in
   err = Some (Errorf "refused") ∧ length (actions (w_log w')) = 1%nat).
Proof.
  split.
  - pose proof (bootstrap_rules "1.0" (example_daemon ∅ newGatewayCache) Example.world) as H.
    assert (Hn : (bootstrap "1.0" (example_daemon ∅ newGatewayCache) Example.world).1 = None) by (by vm_compute).
    destruct (bootstrap _ _ _) as [err w']. cbn [fst] in Hn. subst err. split; [done|].
    destruct H as (l & groups & Hl & Hp & Ha). rewrite Hl. cbn [w_log Example.world app].
    rewrite Ha, length_app, length_fmap. cbn [length].
    cbn [example_daemon dm_cfg example_config c_Groups] in Hp. rewrite map_to_list_singleton in Hp.
    apply Permutation_singleton_r in Hp as ->. by vm_compute.
  - pose proof (bootstrap_rules (HK:=Refusing.kernel) (HKL:=Refusing.kernel_laws) "1.0" (example_daemon ∅ newGatewayCache) Example.world) as H.
    assert (Hn : (bootstrap (HK:=Refusing.kernel) "1.0" (example_daemon ∅ newGatewayCache) Example.world).1
      = Some (Errorf "refused")) by (by vm_compute).
    assert (Hlen : length (actions (w_log (bootstrap (HK:=Refusing.kernel) "1.0" (example_daemon ∅ newGatewayCache) Example.world).2))
      = 1%nat) by (by vm_compute).
    destruct (bootstrap _ _ _) as [err w']. cbn [fst snd] in *. subst err. split; [done|].
    destruct H as (l & groups & Hl & Hp & dn & r & rest & Hw & Ha). rewrite Hl in *. cbn [w_log Example.world app] in *.
    rewrite Ha, length_app, length_fmap in *. exact Hlen.
Defined.

(** ** Stopping in the middle of a write

    A kernel that remembers whether the daemon was stopped by the time its
    last route write returned. *)
Module StopDuringWrite.
#[export] Instance kernel : Kernel bool := {
  EnsureRule _ := call (λ b, ((0, None), b));
  IfIndex name := call (λ b, (inr 2, b));
  WriteRoute _ := λ w,
    (None, mkWorld (w_sched w) (S (w_tick w)) (cancelled (step w)) (w_log w));
  InterfaceAddrs _ := call (λ b, (inr [], b));
  FlushConntrack _ _ := call (λ b, ((mkFlushResult false 0, None), b))
}.
#[export] Instance state_sink : StateSink bool := λ _ b, (None, b).
#[export] Instance hook_sink : HookSink bool := λ _ b, (true, b).
End StopDuringWrite.

Import StopDuringWrite.

(** The daemon is stopped while the last route write of a Decision is with the
    kernel: the Decision is still committed, State published and the Hook
    handed over, all of them after the stop. *)
Lemma stop_during_last_write :
  let h := health_spec (c_Wans example_config) [HLink (mkLinkEvent "eth0" CarrierUp OperstateUp zero_time)] in
  let gws := gw_set example_gateways "eth0" RouteFamilyV6 (Some [254; 128; 0; 0; 0; 0; 0; 0; 0; 0; 0; 0; 0; 0; 0; 1]) in
  let w : World bool effect := mkWorld (mkSchedule (Some 9%nat) (λ _, 7%positive) (λ _ _, 0%nat)) 0 false [] in
  let '(d', w') := recomputeGroup "1.0" "fiber" "carrier" (example_daemon h gws) ("home", example_group) w in
  w_env w' = true ∧
  (d_selection <$> dm_groups d' !! "home") = Some (mkActive "fiber" true) ∧
  (λ e, match e with EWriteRoute _ _ => 1 | EPublish _ => 2 | ENotify _ => 3 | _ => 0 end) <$> actions (w_log w') = [1; 1; 2; 3].
Proof. by vm_compute. Qed.
