(* ===== verification/Gauges.v ===== *)
(** * The values of the gauges

    The value of a gauge's series is the one last set. What the operations of
    Health and of a Group set, and what it means that the gauges agree with a
    State: WAN Health, links, probe statistics and Selections. *)
From stdpp Require Import pretty.
From S2P Require Import Prelude GoFloat Icmp Aggregate Hysteresis Runtime Metrics NetIP Selector State Config.
From S2P Require Import Rtnl Routes Health Decision Apply Gateway Daemon Coordination.

#[local] Open Scope Z_scope.

(** ** The value of a series *)

(** The value of a series after the operations [l], [v] before them. *)
Fixpoint gauge_from (v : option float64) (m : Metric) (labels : list string) (l : list effect) : option float64 :=
  match l with
  | [] => v
  | EMetric (MSet m' labels' x) :: l =>
      gauge_from (if decide (m' = m) then if decide (labels' = labels) then Some x else v else v) m labels l
  | _ :: l => gauge_from v m labels l
  end.

Definition gauge (m : Metric) (labels : list string) (l : list effect) : option float64 := gauge_from None m labels l.

Lemma gauge_from_app v m labels l1 l2 :
  gauge_from v m labels (l1 ++ l2) = gauge_from (gauge_from v m labels l1) m labels l2.
Proof. revert v. induction l1 as [|[[]| | | | | | | |] l1 IH]; intros v0; cbn; by rewrite ?IH. Qed.

Lemma gauge_app m labels l1 l2 : gauge m labels (l1 ++ l2) = gauge_from (gauge m labels l1) m labels l2.
Proof. apply gauge_from_app. Qed.

(** [e] sets no series that satisfies [P]. *)
Definition spares (P : Metric → list string → Prop) (e : effect) : Prop :=
  match e with EMetric (MSet m labels _) => ¬ P m labels | _ => True end.

(** [e] publishes no State, and sets only series that satisfy [P]. *)
Definition sets_only (P : Metric → list string → Prop) (e : effect) : Prop :=
  match e with EMetric (MSet m labels _) => P m labels | EPublish _ => False | _ => True end.

Lemma gauge_from_spared (P : Metric → list string → Prop) v m labels l :
  Forall (spares P) l → P m labels → gauge_from v m labels l = v.
Proof.
  intros Hl HP. revert v. induction Hl as [|e l He Hl IH]; intros v0; [done|].
  destruct e as [[m' labels' x| |]| | | | | | | |]; cbn; try apply IH. rewrite IH.
  destruct (decide (m' = m)) as [-> |]; [|done]. destruct (decide (labels' = labels)) as [-> |]; [|done].
  by destruct He.
Qed.

Lemma gauge_spared (P : Metric → list string → Prop) m labels l0 l :
  Forall (spares P) l → P m labels → gauge m labels (l0 ++ l) = gauge m labels l0.
Proof. intros Hl HP. rewrite gauge_app. by eapply gauge_from_spared. Qed.

Lemma sets_only_mono (P Q : Metric → list string → Prop) l :
  (∀ m labels, P m labels → Q m labels) → Forall (sets_only P) l → Forall (sets_only Q) l.
Proof. intros HPQ Hl. eapply Forall_impl; [exact Hl|]. intros [[]| | | | | | | |]; cbn; auto. Qed.

Lemma sets_only_spares (P Q : Metric → list string → Prop) l :
  (∀ m labels, P m labels → ¬ Q m labels) → Forall (sets_only P) l → Forall (spares Q) l.
Proof. intros HPQ Hl. eapply Forall_impl; [exact Hl|]. intros [[]| | | | | | | |]; cbn; auto. Qed.

Lemma gauge_from_other v m labels (P : Metric → list string → Prop) l :
  Forall (sets_only P) l → ¬ P m labels → gauge_from v m labels l = v.
Proof.
  intros Hl HP. apply (gauge_from_spared (λ m' labels', m' = m ∧ labels' = labels)); [|done].
  eapply sets_only_spares; [|exact Hl]. by intros ? ? ? [-> ->].
Qed.

(** One operation per element: each of these series holds its element's value. *)
Lemma gauge_from_fmap {A} v m (lab : A → list string) (val : A → float64) x (xs : list A) :
  (∀ y, y ∈ xs → lab y = lab x → val y = val x) → x ∈ xs →
  gauge_from v m (lab x) ((λ y, EMetric (MSet m (lab y) (val y))) <$> xs) = Some (val x).
Proof.
  intros Hval Hx. assert (Hg : ∀ xs v, (∀ y, y ∈ xs → lab y = lab x → val y = val x) →
    x ∈ xs ∨ v = Some (val x) →
    gauge_from v m (lab x) ((λ y, EMetric (MSet m (lab y) (val y))) <$> xs) = Some (val x)); [|by apply Hg; [|left]].
  clear. induction xs as [|y xs IH]; intros v Hval Hx.
  - destruct Hx as [Hx| ->]; [by apply not_elem_of_nil in Hx|done].
  - cbn. rewrite decide_True by done. apply IH; [intros; apply Hval; [by right|done]|].
    destruct (decide (lab y = lab x)) as [Hl|Hl].
    + right. f_equal. apply Hval; [by left|done].
    + destruct Hx as [[->|?]%elem_of_cons| ->]; [done|by left|by right].
Qed.

(** ** Agreement with a State *)

(** The gauges of one WAN. *)
Record wan_agrees (name : string) (sw : SWan) (l : list effect) : Prop := {
  wa_healthy v : gauge WanHealthy [name] l = Some v → v = boolToFloat (sw_Healthy sw);
  wa_carrier : ∃ c, sw_Carrier sw = Carrier_String c ∧ gauge WanCarrier [name] l = Some (carrierValue c);
  wa_operstate o : o ∈ operstates →
    gauge WanOperstate [name; Operstate_String o] l = Some (boolToFloat (bool_decide (sw_Operstate sw = Operstate_String o)));
  wa_family f fh : sw_Families sw !! f = Some fh →
    gauge ProbeRTT [name; f] l = Some (gaugeValue (fh_RTTSeconds fh)) ∧
    gauge ProbeJitter [name; f] l = Some (gaugeValue (fh_JitterSeconds fh)) ∧
    gauge ProbeLoss [name; f] l = Some (gaugeValue (fh_LossRatio fh)) ∧
    ∀ v, gauge WanFamilyHealthy [name; f] l = Some v → v = boolToFloat (fh_Healthy fh)
}.

(** The gauges of one Group. *)
Definition group_agrees (name : string) (g : Group) (sg : SGroup) (l : list effect) : Prop :=
  ∀ k m, g_members g !! k = Some m →
    gauge GroupSelected [name; m_wan m] l = Some (boolToFloat (bool_decide (sg_Selection sg = Some (m_wan m)))).

Definition agrees (cfg : Config) (s : State) (l : list effect) : Prop :=
  (∀ name sw, st_Wans s !! name = Some sw → wan_agrees name sw l) ∧
  ∀ name sg, st_Groups s !! name = Some sg → ∃ g, c_Groups cfg !! name = Some g ∧ group_agrees name g sg l.

(** ** The gauges of a WAN's Health *)

(** The gauges of a Family's statistics. *)
Definition stats_gauges (name : string) (fam : Family) (stats : FamilyStats) (l : list effect) : Prop :=
  gauge ProbeRTT [name; Family_String fam] l = Some (gaugeValue (seconds (fs_RTTMicros stats))) ∧
  gauge ProbeJitter [name; Family_String fam] l = Some (gaugeValue (seconds (fs_JitterMicros stats))) ∧
  gauge ProbeLoss [name; Family_String fam] l = Some (gaugeValue (fs_LossRatio stats)).

Record wan_gauges (name : string) (ws : wan) (l : list effect) : Prop := {
  wg_name : wn_name ws = name;
  wg_healthy v : gauge WanHealthy [name] l = Some v → v = boolToFloat (wan_healthy ws);
  wg_carrier : gauge WanCarrier [name] l = Some (carrierValue (wn_carrier ws));
  wg_operstate o : o ∈ operstates →
    gauge WanOperstate [name; Operstate_String o] l = Some (boolToFloat (o =? knownOperstate (wn_operstate ws)));
  wg_family fam fs : wn_families ws !! fam = Some fs →
    stats_gauges name fam (f_stats fs) l ∧
    ∀ v, gauge WanFamilyHealthy [name; Family_String fam] l = Some v → v = boolToFloat (f_healthy fs)
}.

Definition health_gauges (h : Health.Wans) (l : list effect) : Prop := ∀ name ws, h !! name = Some ws → wan_gauges name ws l.

(** The series of a WAN, and those of Health as a whole. *)
Definition wan_series (name : string) (m : Metric) (labels : list string) : Prop :=
  m ≠ GroupSelected ∧ head labels = Some name.

Lemma wan_gauges_spared name ws l0 l :
  wan_gauges name ws l0 → Forall (spares (wan_series name)) l → wan_gauges name ws (l0 ++ l).
Proof.
  intros [H1 H2 H3 H4 H5] Hl. assert (Hs : ∀ m labels, m ≠ GroupSelected → head labels = Some name →
    gauge m labels (l0 ++ l) = gauge m labels l0) by (intros; by apply (gauge_spared (wan_series name))).
  split; [done|..]; unfold stats_gauges; intros *; rewrite !Hs by done; [apply H2|apply H3|apply H4|apply H5].
Qed.

#[export] Instance Family_String_inj : Inj (=) (=) Family_String.
Proof.
  intros [| |n] [| |n'] H; try done. cbn in H. apply (inj (String.append "Family(")) in H.
  f_equal. apply (inj pretty). revert H. generalize (pretty n) (pretty n'). clear. intros s s' H.
  assert (Happ : ∀ a b : string, a +:+ ")" = b +:+ ")" → a = b).
  { induction a as [|x a IH]; intros [|y b] Heq; cbn in Heq; try done.
    - injection Heq as _ Heq. by destruct b.
    - injection Heq as _ Heq. by destruct a.
    - injection Heq as -> Heq. f_equal. by apply IH. }
  by apply Happ.
Qed.

Lemma Operstate_String_known o o' : o ∈ operstates → o' ∈ operstates → Operstate_String o = Operstate_String o' → o = o'.
Proof.
  intros Ho Ho' Heq.
  assert (Hall : forallb (λ o, forallb (λ o', bool_decide (Operstate_String o = Operstate_String o' → o = o')) operstates) operstates = true)
    by (by vm_compute).
  rewrite List.forallb_forall in Hall. apply list_elem_of_In in Ho, Ho'. specialize (Hall o Ho).
  rewrite List.forallb_forall in Hall. specialize (Hall o' Ho'). by apply bool_decide_eq_true in Hall; apply Hall.
Qed.

Lemma knownOperstate_known o : knownOperstate o ∈ operstates.
Proof.
  unfold knownOperstate. destruct (existsb _ _) eqn:H.
  - apply existsb_exists in H as (o' & Hin & ->%Z.eqb_eq). by apply list_elem_of_In.
  - by apply (bool_decide_unpack _); vm_compute.
Qed.

(** The State of a WAN is what its gauges tell. *)
Lemma snapshot_wan_agrees name ws sw l :
  wan_gauges name ws l → sw_Carrier sw = Carrier_String (wn_carrier ws) →
  sw_Operstate sw = sw_Operstate (snapshot_wan ws) → sw_Healthy sw = wan_healthy ws →
  sw_Families sw = sw_Families (snapshot_wan ws) → wan_agrees name sw l.
Proof.
  intros [H1 H2 H3 H4 H5] Hc Ho Hh Hf. split.
  - intros v Hv. rewrite Hh. by apply H2.
  - by eexists.
  - intros o Hin. rewrite Ho, (H4 o Hin). cbn [sw_Operstate snapshot_wan]. do 2 f_equal. symmetry.
    destruct (Z.eqb_spec o (knownOperstate (wn_operstate ws))) as [-> |Hne]; [by rewrite bool_decide_eq_true_2|].
    apply bool_decide_eq_false_2. intros Heq. apply Hne. symmetry. apply Operstate_String_known; [apply knownOperstate_known|done|done].
  - intros f fh Hlk. rewrite Hf in Hlk. cbn [sw_Families snapshot_wan] in Hlk.
    apply elem_of_list_to_map_2, list_elem_of_fmap in Hlk as ([fam fs] & [= -> ->] & Hin%elem_of_map_to_list).
    destruct (H5 fam fs Hin) as [(?&?&?) ?]. by split_and!.
Qed.

(** ** What Health sets *)

Definition stats_ops (wan : string) (fam : Family) (stats : FamilyStats) : list effect :=
  let f := Family_String fam in
  [EMetric (MSet ProbeRTT [wan; f] (gaugeValue (seconds (fs_RTTMicros stats))));
   EMetric (MSet ProbeJitter [wan; f] (gaugeValue (seconds (fs_JitterMicros stats))));
   EMetric (MSet ProbeLoss [wan; f] (gaugeValue (fs_LossRatio stats)))] ++
  ((λ t, EMetric (MSet ProbeTargetRTT [wan; f; ts_Target t] (gaugeValue (seconds (ts_RTTMicros t))))) <$> fs_PerTarget stats).

Definition link_ops (ws : wan) : list effect :=
  EMetric (MSet WanCarrier [wn_name ws] (carrierValue (wn_carrier ws))) ::
  ((λ o, EMetric (MSet WanOperstate [wn_name ws; Operstate_String o] (boolToFloat (o =? knownOperstate (wn_operstate ws))))) <$> operstates).

(** The series of a Family's statistics, and those of a link. *)
Definition stats_series (wan f : string) (m : Metric) (labels : list string) : Prop :=
  m ∈ [ProbeRTT; ProbeJitter; ProbeLoss] ∧ labels = [wan; f] ∨ m = ProbeTargetRTT ∧ head labels = Some wan.
Definition link_series (wan : string) (m : Metric) (labels : list string) : Prop :=
  m ∈ [WanCarrier; WanOperstate] ∧ head labels = Some wan.

Lemma stats_ops_only wan fam stats : Forall (sets_only (stats_series wan (Family_String fam))) (stats_ops wan fam stats).
Proof.
  apply Forall_app. split; [repeat constructor; left; (split; [set_solver|done])|].
  apply Forall_fmap, Forall_forall. intros t _. by right.
Qed.

Lemma link_ops_only ws : Forall (sets_only (link_series (wn_name ws))) (link_ops ws).
Proof.
  constructor; [split; [set_solver|done]|]. apply Forall_fmap, Forall_forall. intros o _. split; [set_solver|done].
Qed.

Lemma stats_series_wan wan f m labels : stats_series wan f m labels → wan_series wan m labels.
Proof. intros [[Hm ->]|[-> Hl]]; split; [set_solver|done|done|done]. Qed.

Lemma link_series_wan wan m labels : link_series wan m labels → wan_series wan m labels.
Proof. intros [Hm Hl]. split; [set_solver|done]. Qed.

Lemma wan_series_inj n n' m labels : wan_series n m labels → wan_series n' m labels → n = n'.
Proof. intros [_ H1] [_ H2]. congruence. Qed.

Lemma stats_gauges_set name fam stats l : stats_gauges name fam stats (l ++ stats_ops name fam stats).
Proof.
  assert (Hrest : ∀ v m labels, m ≠ ProbeTargetRTT → gauge_from v m labels ((λ t, EMetric (MSet ProbeTargetRTT
    [name; Family_String fam; ts_Target t] (gaugeValue (seconds (ts_RTTMicros t))))) <$> fs_PerTarget stats) = v).
  { intros v m labels Hm. apply (gauge_from_other _ _ _ (λ m _, m = ProbeTargetRTT)); [|done].
    by apply Forall_fmap, Forall_forall. }
  unfold stats_gauges, stats_ops. rewrite !gauge_app, !gauge_from_app, !Hrest by done. cbn.
  split_and!; by repeat case_decide.
Qed.

Lemma stats_gauges_kept name fam stats fam' stats' l :
  fam' ≠ fam → stats_gauges name fam' stats' l → stats_gauges name fam' stats' (l ++ stats_ops name fam stats).
Proof.
  intros Hne. unfold stats_gauges. rewrite !gauge_app, !(gauge_from_other _ _ _ _ _ (stats_ops_only name fam stats)); [done|..];
    intros [[_ [= ?%(inj Family_String)]]|[? _]]; congruence.
Qed.

Lemma link_gauges_set ws l :
  gauge WanCarrier [wn_name ws] (l ++ link_ops ws) = Some (carrierValue (wn_carrier ws)) ∧
  ∀ o, o ∈ operstates →
    gauge WanOperstate [wn_name ws; Operstate_String o] (l ++ link_ops ws) = Some (boolToFloat (o =? knownOperstate (wn_operstate ws))).
Proof.
  rewrite !gauge_app. unfold link_ops. split.
  - cbn [gauge_from]. rewrite (gauge_from_other _ _ _ (λ m _, m = WanOperstate)); [by rewrite !decide_True by done| |done].
    by apply Forall_fmap, Forall_forall.
  - intros o Ho. rewrite gauge_app. cbn [gauge_from].
    apply (gauge_from_fmap _ _ (λ o, [wn_name ws; Operstate_String o])); [|done].
    intros y Hy [= Heq]. by rewrite (Operstate_String_known y o).
Qed.

Section health.
Context {E : Type}.

Lemma wlog_forM_emit {A} (f : A → M E effect unit) (ev : A → effect) (l : list A) (w : World E effect) :
  (∀ x, f x = emit (ev x)) → wlog (forM l f) (λ _ lg _, lg = ev <$> l) w.
Proof.
  intros Hf. apply (wlog_foldM _ _ (λ dn _ lg _, lg = ev <$> dn)); [done| |done].
  intros dn x rest [] lg w1 _ ->. rewrite Hf. apply wlog_emit. intros w2 _. by rewrite fmap_app.
Qed.

Lemma recordStats_log wan fam stats (w : World E effect) :
  wlog (recordStats wan fam stats) (λ _ lg _, lg = stats_ops wan fam stats) w.
Proof.
  unfold recordStats. do 3 (apply wlog_bind, wlog_emit; intros ? _).
  eapply wlog_mono; [by apply (wlog_forM_emit _ (λ t, EMetric (MSet ProbeTargetRTT
    [wan; Family_String fam; ts_Target t] (gaugeValue (seconds (ts_RTTMicros t))))))|].
  by intros [] lg w4 ->.
Qed.

Definition verdict_ops (ws : wan) (fam : Family) (fs : family) : list effect :=
  [EMetric (MSet WanFamilyHealthy [wn_name ws; Family_String fam] (boolToFloat (f_healthy fs)));
   EMetric (MSet WanHealthy [wn_name ws] (boolToFloat (wan_healthy ws)))].

Lemma recordProbe_log ws fs r (w : World E effect) :
  wlog (recordProbe ws fs r) (λ _ lg _,
    lg = stats_ops (wn_name ws) (pr_Family r) (pr_Stats r) ++ verdict_ops ws (pr_Family r) fs) w.
Proof.
  unfold recordProbe. apply wlog_bind. eapply wlog_mono; [apply recordStats_log|]. intros [] lg w1 ->.
  apply wlog_bind, wlog_emit. intros w2 _. by apply wlog_emit.
Qed.

Lemma recordLink_log ws (w : World E effect) : wlog (recordLink ws) (λ _ lg _, lg = link_ops ws) w.
Proof.
  unfold recordLink. apply wlog_bind, wlog_emit. intros w1 _. cbv zeta.
  eapply wlog_mono; [by apply (wlog_forM_emit _ (λ o, EMetric (MSet WanOperstate
    [wn_name ws; Operstate_String o] (boolToFloat (o =? knownOperstate (wn_operstate ws))))))|].
  by intros [] lg w2 ->.
Qed.

(** A folded result leaves its WAN's gauges at the values of the new state. *)
Lemma probe_ops_gauges name ws ws' fam fs l :
  wan_gauges name ws l → wn_name ws' = name → wn_carrier ws' = wn_carrier ws → wn_operstate ws' = wn_operstate ws →
  wn_families ws' = <[fam := fs]> (wn_families ws) →
  wan_gauges name ws' (l ++ stats_ops name fam (f_stats fs) ++ verdict_ops ws' fam fs).
Proof.
  intros [H1 H2 H3 H4 H5] Hn Hc Ho Hf. unfold verdict_ops. rewrite Hn.
  pose proof (stats_ops_only name fam (f_stats fs)) as Hst.
  set (vs := [EMetric (MSet WanFamilyHealthy _ _); _]).
  assert (Hsame : ∀ m labels, m ∈ [WanCarrier; WanOperstate] →
    gauge m labels (l ++ stats_ops name fam (f_stats fs) ++ vs) = gauge m labels l).
  { intros m labels Hm. rewrite gauge_app, gauge_from_app, (gauge_from_other _ _ _ _ _ Hst).
    - cbn. by rewrite !decide_False by set_solver.
    - intros [[? _]|[? _]]; set_solver. }
  split; [done|..].
  - intros v. rewrite app_assoc, gauge_app. cbn. rewrite !decide_True by done. by intros [= <-].
  - by rewrite Hsame, Hc by set_solver.
  - intros o Hin. rewrite Hsame, Ho by set_solver. by apply H4.
  - intros fam' fs' Hlk. rewrite Hf in Hlk. rewrite app_assoc.
    assert (Hvs : ∀ stats l, stats_gauges name fam' stats l → stats_gauges name fam' stats (l ++ vs))
      by (intros stats l0; unfold stats_gauges; by rewrite !gauge_app).
    rewrite (gauge_app WanFamilyHealthy). cbn [vs gauge_from].
    rewrite (decide_False (P := WanHealthy = WanFamilyHealthy)), (decide_True (P := WanFamilyHealthy = _)) by done.
    apply lookup_insert_Some in Hlk as [[<- <-]|[Hne Hlk]].
    + split; [apply Hvs, stats_gauges_set|]. rewrite decide_True by done. by intros v [= <-].
    + destruct (H5 _ _ Hlk) as [Hs Hv]. split; [by apply Hvs, stats_gauges_kept|].
      rewrite decide_False by (intros [= ?%(inj Family_String)]; congruence).
      rewrite gauge_app, (gauge_from_other _ _ _ _ _ Hst); [done|]. intros [[? _]|[? _]]; set_solver.
Qed.

Lemma probe_ops_only ws ws' fam fs stats :
  wn_name ws' = wn_name ws →
  Forall (sets_only (wan_series (wn_name ws))) (stats_ops (wn_name ws') fam stats ++ verdict_ops ws' fam fs).
Proof.
  intros Hn. unfold verdict_ops. rewrite Hn. apply Forall_app. split.
  - eapply sets_only_mono; [apply stats_series_wan|apply stats_ops_only].
  - by repeat constructor.
Qed.

(** Health's own gauges follow an operation that sets one WAN's series. *)
Lemma health_gauges_insert h name ws l lg :
  health_gauges h l → wan_gauges name ws (l ++ lg) → Forall (sets_only (wan_series name)) lg →
  health_gauges (<[name := ws]> h) (l ++ lg).
Proof.
  intros Hh Hw Ho n ws' [[<- <-]|[Hne Hlk]]%lookup_insert_Some; [done|].
  apply wan_gauges_spared; [by apply Hh|]. eapply sets_only_spares; [|exact Ho].
  intros m labels H1 H2. apply Hne. by eapply wan_series_inj.
Qed.

Lemma Probe_gauges h r l (w : World E effect) : health_gauges h l →
  wlog (Probe h r) (λ '(h', _) lg _, health_gauges h' (l ++ lg)) w.
Proof.
  intros Hh. unfold Probe.
  destruct (h !! pr_Wan r) as [ws|] eqn:Hw; [|apply wlog_ret; by rewrite app_nil_r].
  destruct (wn_families ws !! pr_Family r) as [fs|] eqn:Hf; [|apply wlog_ret; by rewrite app_nil_r].
  cbn zeta. pose proof (wg_name _ _ _ (Hh _ _ Hw)) as Hn.
  set (fs1 := mkFamily _ (pr_Stats r) _ _ _).
  assert (Hfold : ∀ ws' fs' c, (if f_cooked fs1 || fs_WindowFilled (pr_Stats r)
      then fold (set_family ws (pr_Family r) fs1) (pr_Family r) fs1 (pr_Stats r)
      else (set_family ws (pr_Family r) fs1, fs1, noChange)) = (ws', fs', c) →
    ws' = set_family ws (pr_Family r) fs' ∧ f_stats fs' = pr_Stats r).
  { intros ws' fs' c. destruct (_ || _); [|by intros [= <- <- <-]].
    unfold fold. intros [= <- <- <-]. by rewrite set_family_twice. }
  destruct (if _ || _ then _ else _) as [[ws' fs'] c] eqn:Hc. destruct (Hfold _ _ _ eq_refl) as [-> Hs].
  apply wlog_bind. eapply wlog_mono; [apply recordProbe_log|]. intros [] lg w1 ->.
  apply wlog_ret. rewrite app_nil_r, <- Hs, <- Hn. apply health_gauges_insert; [done| |by apply probe_ops_only].
  cbn [set_family wn_name]. apply (probe_ops_gauges _ ws); [rewrite Hn; exact (Hh _ _ Hw)|done..].
Qed.

(** A visited link leaves its WAN's gauges at the values of the new state. *)
Lemma link_ops_gauges name ws c o l pre :
  wan_gauges name ws l → Forall (sets_only (λ _ _, False)) pre →
  wan_gauges name (set_link ws c o)
    (l ++ pre ++ link_ops (set_link ws c o) ++
     [EMetric (MSet WanHealthy [name] (boolToFloat (wan_healthy (set_link ws c o))))]).
Proof.
  intros [H1 H2 H3 H4 H5] Hpre. set (ws' := set_link ws c o). set (h := [EMetric _]).
  assert (Hn : wn_name ws' = name) by done.
  pose proof (link_ops_only ws') as Hlo. rewrite Hn in Hlo.
  assert (Hp : ∀ v m labels, gauge_from v m labels pre = v)
    by (intros; apply (gauge_from_other _ _ _ _ _ Hpre); intros []).
  assert (Hh : ∀ v m labels, m ≠ WanHealthy → gauge_from v m labels h = v).
  { intros v m labels Hm. apply (gauge_from_other _ _ _ (λ m _, m = WanHealthy)); [by repeat constructor|done]. }
  assert (Hl : ∀ v m labels, m ∉ [WanCarrier; WanOperstate] → gauge_from v m labels (link_ops ws') = v)
    by (intros v m labels Hm; apply (gauge_from_other _ _ _ _ _ Hlo); by intros [? _]).
  destruct (link_gauges_set ws' (l ++ pre)) as [Hc Ho]. rewrite Hn in Hc, Ho.
  split; [done|..]; rewrite ?app_assoc.
  - intros v. rewrite gauge_app. cbn. rewrite !decide_True by done. by intros [= <-].
  - by rewrite gauge_app, Hh.
  - intros o' Hin. rewrite gauge_app, Hh by done. by apply Ho.
  - intros fam fs Hlk. unfold stats_gauges. rewrite !gauge_app, !Hh, !Hl, !Hp by (done || set_solver). by apply H5.
Qed.

Lemma link_one_gauges e h c name ws l (w : World E effect) :
  health_gauges h l → h !! name = Some ws →
  wlog (link_one e (h, c) (name, ws)) (λ '(h', _) lg _,
    health_gauges h' (l ++ lg) ∧ ∀ k, k ≠ name → h' !! k = h !! k) w.
Proof.
  intros Hh Hw. unfold link_one.
  destruct (negb _); [apply wlog_ret; rewrite app_nil_r; done|].
  pose proof (Hh _ _ Hw) as Hg. pose proof (wg_name _ _ _ Hg) as Hn. set (ws' := set_link _ _ _).
  apply wlog_bind. apply (wlog_emits (sets_only (λ _ _, False))).
  { destruct (negb _); [by apply emits_emit|apply emits_ret]. }
  intros [] pre w1 Hpre. apply wlog_bind. eapply wlog_mono; [apply recordLink_log|]. intros [] lg w2 ->.
  apply wlog_bind, wlog_emit. intros w3 _. apply wlog_ret. rewrite app_nil_r.
  split; [|intros k Hk; by rewrite lookup_insert_ne].
  cbn [set_link wn_name ws']. rewrite Hn. apply health_gauges_insert; [done|by apply link_ops_gauges|].
  apply Forall_app. split; [by eapply sets_only_mono; [|exact Hpre]|].
  apply Forall_app. split; [|by repeat constructor].
  eapply sets_only_mono; [apply link_series_wan|]. rewrite <- Hn. apply (link_ops_only ws').
Qed.

Lemma Link_gauges h e l (w : World E effect) : health_gauges h l →
  wlog (Link h e) (λ '(h', _) lg _, health_gauges h' (l ++ lg)) w.
Proof.
  intros Hh. unfold Link. apply wlog_bind, wlog_silent_wp; [apply _|]. unfold wp at 1, range. cbn [fst snd].
  set (entries := shuffle _ _). assert (Hp : entries ≡ₚ map_to_list h) by apply shuffle_Permutation.
  assert (Hnd : NoDup entries.*1) by (rewrite Hp; apply NoDup_fst_map_to_list).
  apply wlog_bind. apply (wlog_foldM _ _ (λ dn '(h', _) lg _,
    health_gauges h' (l ++ lg) ∧ ∀ k, k ∉ dn.*1 → h' !! k = h !! k)).
  - by rewrite app_nil_r.
  - intros dn [name ws] rest [h1 c1] lg w1 Hl [Hh1 Hsame].
    assert (Hws : h1 !! name = Some ws).
    { rewrite Hsame.
      - apply elem_of_map_to_list. rewrite <- Hp, Hl. apply elem_of_app. right. by left.
      - rewrite Hl, fmap_app in Hnd. apply NoDup_app in Hnd as (_ & Hd & _). intros Hin. apply (Hd _ Hin). by left. }
    eapply wlog_mono; [by apply link_one_gauges|]. intros [h2 c2] lg2 w2 [Hh2 Hs2].
    rewrite <- app_assoc in Hh2. split; [done|]. intros k. rewrite fmap_app, not_elem_of_app. csimpl.
    rewrite list_elem_of_singleton. intros [? ?]. rewrite Hs2 by done. by apply Hsame.
  - intros [h1 c1] lg w1 [Hh1 _]. apply wlog_ret. by rewrite app_nil_r.
Qed.

(** A WAN's first gauges. *)
Lemma newWan_gauges name cfg (w : World E effect) :
  wlog (newWan name cfg) (λ ws lg _,
    Forall (sets_only (wan_series name)) lg ∧
    ∀ l, Forall (spares (wan_series name)) l → wan_gauges name ws (l ++ lg)) w.
Proof.
  unfold newWan. apply wlog_bind. apply (wlog_foldM _ _ (λ _ ws lg _,
    wn_name ws = name ∧ Forall (sets_only (λ m labels, ∃ fam, stats_series name (Family_String fam) m labels)) lg ∧
    ∀ fam fs l, wn_families ws !! fam = Some fs → stats_gauges name fam (f_stats fs) (l ++ lg))).
  - split; [done|]. split; [done|]. cbn. by intros fam fs l ?%lookup_empty_Some.
  - intros dn fam rest ws lg w1 _ (Hn & Ho & Hs). apply wlog_bind. eapply wlog_mono; [apply recordStats_log|].
    intros [] lg' w2 ->. apply wlog_ret. rewrite app_nil_r. split; [done|]. split.
    + apply Forall_app. split; [done|]. eapply sets_only_mono; [|apply stats_ops_only]. eauto.
    + intros fam' fs' l. rewrite app_assoc. cbn [set_family wn_families].
      intros [[<- <-]|[Hne Hlk]]%lookup_insert_Some; [apply stats_gauges_set|].
      apply stats_gauges_kept; [done|by apply Hs].
  - intros ws lg w1 (Hn & Ho & Hs). apply wlog_bind. eapply wlog_mono; [apply recordLink_log|].
    intros [] lg' w2 ->. apply wlog_ret. rewrite app_nil_r. pose proof (link_ops_only ws) as Hlo. rewrite Hn in Hlo.
    assert (Hno : ∀ m labels, m ∈ [WanHealthy; WanFamilyHealthy] →
      Forall (spares (λ m' labels', m' = m ∧ labels' = labels)) (lg ++ link_ops ws)).
    { intros m labels Hm. apply Forall_app. split; (eapply sets_only_spares; [|done]).
      - intros ? ? [f [[? _]|[? _]]] [-> _]; set_solver.
      - intros ? ? [? _] [-> _]. set_solver. }
    split.
    + apply Forall_app. split; (eapply sets_only_mono; [|done]).
      * intros m labels [f Hf]. by eapply stats_series_wan.
      * apply link_series_wan.
    + intros l Hl. assert (Hnone : ∀ m labels, m ∈ [WanHealthy; WanFamilyHealthy] → head labels = Some name →
        gauge m labels (l ++ lg ++ link_ops ws) = None).
      { intros m labels Hm Hd. rewrite (gauge_spared _ m labels _ _ (Hno _ _ Hm)) by done.
        apply (gauge_from_spared (wan_series name)); [done|]. split; [set_solver|done]. }
      rewrite <- Hn in *. destruct (link_gauges_set ws (l ++ lg)) as [Hc Hop]. split; [done|..].
      * intros v. rewrite Hnone by (done || set_solver). done.
      * by rewrite app_assoc.
      * rewrite app_assoc. exact Hop.
      * intros fam fs Hlk. split; [|intros v; rewrite Hnone by (done || set_solver); done].
        rewrite app_assoc. destruct (Hs fam fs l Hlk) as (?&?&?). unfold stats_gauges.
        rewrite !(gauge_app _ _ (l ++ lg)), !(gauge_from_other _ _ _ _ _ Hlo); [done|..]; intros [? _]; set_solver.
Qed.

Lemma New_gauges cfgs l (w : World E effect) : Forall (spares (λ _ _, True)) l →
  wlog (Health.New cfgs) (λ h lg _, health_gauges h (l ++ lg)) w.
Proof.
  intros Hl0. unfold Health.New. apply wlog_bind, wlog_silent_wp; [apply _|]. unfold wp at 1, range. cbn [fst snd].
  set (entries := shuffle _ _). assert (Hp : entries ≡ₚ map_to_list cfgs) by apply shuffle_Permutation.
  assert (Hnd : NoDup entries.*1) by (rewrite Hp; apply NoDup_fst_map_to_list).
  apply (wlog_foldM _ _ (λ dn h lg _, health_gauges h (l ++ lg) ∧
    Forall (sets_only (λ m labels, ∃ n, n ∈ dn.*1 ∧ wan_series n m labels)) lg)).
  - split; [|done]. by intros n ws Hlk%lookup_empty_Some.
  - intros dn [name cfg] rest h lg w1 Hl [Hh Ho]. apply wlog_bind. eapply wlog_mono; [apply newWan_gauges|].
    intros ws lg' w2 [Ho' Hg]. apply wlog_ret. rewrite app_nil_r.
    assert (Hnew : name ∉ dn.*1).
    { rewrite Hl, fmap_app in Hnd. apply NoDup_app in Hnd as (_ & Hd & _). intros Hin. apply (Hd _ Hin). by left. }
    split.
    + rewrite app_assoc. apply health_gauges_insert; [done| |done]. apply Hg. apply Forall_app. split.
      * eapply Forall_impl; [exact Hl0|]. intros [[]| | | | | | | |]; cbn; auto.
      * eapply sets_only_spares; [|exact Ho]. intros m labels (n & Hn & H1) H2. apply Hnew.
        by rewrite <- (wan_series_inj _ _ _ _ H1 H2).
    + apply Forall_app. split; (eapply sets_only_mono; [|done]).
      * intros m labels (n & Hn & H1). exists n. rewrite fmap_app. set_solver.
      * intros m labels H1. exists name. rewrite fmap_app. set_solver.
  - intros h lg w1 [Hh _]. done.
Qed.
End health.

(** ** What a Group sets *)

(** The gauges of a Group's Selection. *)
Definition selected_gauges (g : DGroup) (l : list effect) : Prop :=
  ∀ k m, g_members (d_cfg g) !! k = Some m →
    gauge GroupSelected [g_name (d_cfg g); m_wan m] l =
      Some (boolToFloat (bool_decide (sg_Selection (DSnapshot g) = Some (m_wan m)))).

Definition group_series (name : string) (m : Metric) (labels : list string) : Prop :=
  m = GroupSelected ∧ head labels = Some name.

Lemma selected_gauges_spared g l lg :
  selected_gauges g l → Forall (spares (group_series (g_name (d_cfg g)))) lg → selected_gauges g (l ++ lg).
Proof. intros Hg Hl k m Hm. rewrite (gauge_spared _ _ _ _ _ Hl) by done. by eapply Hg. Qed.

(** One operation of a Group: from its state [g] to [g'] with the effects [lg]. *)
Definition group_step (g g' : DGroup) (lg : list effect) : Prop :=
  d_cfg g' = d_cfg g ∧ Forall (sets_only (group_series (g_name (d_cfg g)))) lg ∧
  ∀ l, selected_gauges g l → selected_gauges g' (l ++ lg).

Abbreviation neutral := (sets_only (λ _ _, False)).

Lemma group_step_neutral g g' lg :
  d_cfg g' = d_cfg g → d_selection g' = d_selection g → Forall neutral lg → group_step g g' lg.
Proof.
  intros Hc Hs Hlg. split; [done|]. split; [by eapply sets_only_mono; [|exact Hlg]|].
  intros l Hg k m. rewrite Hc. intros Hm. unfold DSnapshot. cbn [sg_Selection]. rewrite Hs.
  rewrite (gauge_spared (λ _ _, True)); [by eapply Hg| |done]. by eapply sets_only_spares; [|exact Hlg].
Qed.

Section group.
Context {E : Type}.

Lemma publishSelected_log g (w : World E effect) :
  wlog (publishSelected g) (λ _ lg _, Forall (sets_only (group_series (g_name (d_cfg g)))) lg ∧
    ∀ l, selected_gauges g (l ++ lg)) w.
Proof.
  unfold publishSelected. apply wlog_bind, wlog_silent_wp; [apply _|]. unfold wp at 1, range. cbn [fst snd].
  set (entries := shuffle _ _). assert (Hp : entries ≡ₚ map_to_list (g_members (d_cfg g))) by apply shuffle_Permutation.
  set (lab := λ e : string * Member, [g_name (d_cfg g); m_wan e.2]).
  set (val := λ e : string * Member, boolToFloat (bool_decide (sg_Selection (DSnapshot g) = Some (m_wan e.2)))).
  apply (wlog_mono _ (λ _ lg _, lg = (λ e, EMetric (MSet GroupSelected (lab e) (val e))) <$> entries)).
  - apply wlog_forM_emit. intros [k m]. unfold lab, val, DSnapshot, boolToFloat, Set_. cbn [sg_Selection snd].
    destruct (a_has _); cbn [andb]; [|by rewrite bool_decide_false].
    by repeat case_bool_decide; try congruence.
  - intros [] lg w1 ->. split.
    + apply Forall_fmap, Forall_forall. by intros.
    + intros l k m Hm. rewrite gauge_app.
      apply (gauge_from_fmap _ _ lab val (k, m)); [|by rewrite Hp; apply elem_of_map_to_list].
      intros [k' m'] _ [= Heq]. unfold val. cbn. by rewrite Heq.
Qed.

Context (ar : ApplyRoutes (E:=E) (Ev:=effect)) (Har : ∀ n f, Emits neutral (ar n f)).

(** An operation and the Group it leaves. *)
Definition stepping (m : M E effect (DGroup * option Commit)) (g : DGroup) : Prop :=
  ∀ w, wlog m (λ r lg _, group_step g r.1 lg) w.

Lemma stepping_ret g c : stepping (mret (g, c)) g.
Proof. intros w. apply wlog_ret. by apply group_step_neutral. Qed.

Lemma stepping_commit g g0 next :
  d_cfg g0 = d_cfg g → d_selection g0 = d_selection g → stepping (commit ar g0 next) g.
Proof.
  intros Hc Hs w. unfold commit. apply wlog_bind. apply (wlog_emits neutral).
  { destruct (a_has next); [apply Har|apply emits_ret]. }
  intros [err|] lg w1 Hlg; [apply wlog_ret; rewrite app_nil_r; by apply group_step_neutral|].
  apply wlog_bind, wlog_silent; [apply _|]. intros at_ w2. cbv zeta. set (g1 := mkDGroup _ _ _ _ _ _).
  apply wlog_bind. eapply wlog_mono; [apply publishSelected_log|]. intros [] lg' w3 [Ho Hg].
  apply wlog_ret. rewrite app_nil_l, app_nil_r. cbn [fst]. split; [done|].
  assert (Hn : d_cfg g1 = d_cfg g) by done. split.
  - apply Forall_app. split; [by eapply sets_only_mono; [|exact Hlg]|]. by rewrite <- Hn.
  - intros l _. rewrite app_assoc. apply Hg.
Qed.

Lemma refresh_neutral g fams (w : World E effect) :
  wlog (refresh ar g fams) (λ g' lg _, d_cfg g' = d_cfg g ∧ d_selection g' = d_selection g ∧ Forall neutral lg) w.
Proof.
  unfold refresh. apply wlog_bind. apply (wlog_emits neutral); [apply Har|]. intros err lg w1 Hlg.
  destruct err; apply wlog_ret; by rewrite app_nil_r.
Qed.

Lemma stepping_refresh g fams : stepping (g' ← refresh ar g fams; mret (g', None)) g.
Proof.
  intros w. apply wlog_bind. eapply wlog_mono; [apply refresh_neutral|]. intros g' lg w1 (?&?&?).
  apply wlog_ret. rewrite app_nil_r. by apply group_step_neutral.
Qed.

Lemma stepping_Recompute g ms reason : stepping (Recompute ar g ms reason) g.
Proof.
  unfold Recompute. destruct (Select _ _) as [err|sel]; [apply stepping_ret|].
  case_decide; [apply stepping_ret|]. intros w. apply wlog_bind, wlog_emit. intros w1 _.
  eapply wlog_mono; [by apply stepping_commit|]. intros [g' c] lg w2 (Hc & Ho & Hg). split; [done|]. split.
  - by constructor.
  - intros l Hl. change (l ++ [?e] ++ lg) with (l ++ [e] ++ lg). rewrite app_assoc. apply Hg.
    apply selected_gauges_spared; [done|by repeat constructor].
Qed.

Lemma stepping_DProbe g wan : stepping (DProbe ar g wan) g.
Proof.
  unfold DProbe. destruct (d_pending g).
  - destruct (_ || _); [apply stepping_ret|by apply stepping_commit].
  - destruct (_ && _); [apply stepping_refresh|apply stepping_ret].
Qed.

Lemma stepping_RouteObserved g wan fam : stepping (RouteObserved ar g wan fam) g.
Proof.
  unfold RouteObserved. destruct (_ || _); [apply stepping_ret|].
  destruct (d_pending g); [by apply stepping_commit|apply stepping_refresh].
Qed.
End group.
