(* ===== verification/StateGauges.v ===== *)
(** * The gauges tell what state.json tells

    Through start-up and every handler the daemon's state and the gauges stay
    consistent, so every State that is published agrees with the gauges of that
    moment. *)
From S2P Require Import Prelude GoFloat Icmp Aggregate Hysteresis Runtime Metrics NetIP Selector State Config.
From S2P Require Import Rtnl Routes Health Decision Apply Gateway Daemon Coordination Gauges.

#[local] Open Scope Z_scope.

(** ** The daemon *)

(** The kernel calls, flushes and Hooks of a handler set no gauge. *)
Section neutral.
Context {E : Type} `{HK : Kernel E, HSS : StateSink E, HHS : HookSink E, HKL : !KernelLaws E} (version : string).

Ltac neutral_by :=
  repeat first
    [ progress intros
    | apply emits_ret
    | apply emits_emit; exact I
    | apply emits_bind
    | apply emits_foldM
    | typeclasses eauto
    | apply emits_silent; typeclasses eauto
    | case_match ].

#[local] Instance neutral_writeOne d g wan i fam : Emits neutral (writeOne (E:=E) d g wan i fam).
Proof. unfold writeOne, kernel_WriteRoute. neutral_by. Qed.
#[local] Instance neutral_writeFamilies d g wan i n fams : Emits neutral (writeFamilies (E:=E) d g wan i n fams).
Proof. revert n. induction fams; intros n; cbn [writeFamilies]; neutral_by. Qed.
Lemma neutral_applyRoutes d g sel fams : Emits neutral (applyRoutes (E:=E) d g sel fams).
Proof. unfold applyRoutes, kernel_IfIndex. neutral_by. Qed.
Lemma neutral_flush d g old : Emits neutral (flushVacatedConntrack (E:=E) d g old).
Proof. unfold flushVacatedConntrack, forM, kernel_FlushConntrack, kernel_InterfaceAddrs. neutral_by. Qed.
Lemma neutral_notifyHooks d g ev c : Emits neutral (notifyHooks (E:=E) d g ev c).
Proof. unfold notifyHooks, hooks_Notify. neutral_by. Qed.
Lemma neutral_ensureGroupRules g fams : Emits neutral (ensureGroupRules (E:=E) g fams).
Proof. induction fams; cbn [ensureGroupRules]; unfold kernel_EnsureRule; neutral_by. Qed.
End neutral.

(** Every State of a log agrees with the gauges before it. *)
Definition log_agrees (cfg : Config) (l : list effect) : Prop :=
  ∀ i s, l !! i = Some (EPublish s) → agrees cfg s (take i l).

Lemma log_agrees_app cfg l lg P :
  log_agrees cfg l → Forall (sets_only P) lg → log_agrees cfg (l ++ lg).
Proof.
  intros Hl Ho i s [Hi|[Hge Hi]]%lookup_app_Some.
  - rewrite take_app_le by (apply lookup_lt_Some in Hi; lia). by apply Hl.
  - rewrite Forall_forall in Ho. by destruct (Ho (EPublish s)); eapply list_elem_of_lookup_2.
Qed.

Lemma log_agrees_publish cfg l s : log_agrees cfg l → agrees cfg s l → log_agrees cfg (l ++ [EPublish s]).
Proof.
  intros Hl Hs i s' [Hi|[Hge Hi]]%lookup_app_Some.
  - rewrite take_app_le by (apply lookup_lt_Some in Hi; lia). by apply Hl.
  - apply list_lookup_singleton_Some in Hi as [Hi [= <-]]. by rewrite take_app_length' by lia.
Qed.

(** The daemon's state and the gauges after the effects [l] are consistent. *)
Record consistent (cfg : Config) (d : daemon) (l : list effect) : Prop := {
  cs_health : health_gauges (dm_health d) l;
  cs_groups key dg : dm_groups d !! key = Some dg →
    c_Groups cfg !! key = Some (d_cfg dg) ∧ g_name (d_cfg dg) = key ∧ selected_gauges dg l;
  cs_log : log_agrees cfg l
}.

Lemma consistent_agrees cfg d l version t : consistent cfg d l → agrees cfg (stateSnapshot version d t) l.
Proof.
  intros [Hh Hg _]. split.
  - intros name sw. unfold stateSnapshot, Health.Snapshot. cbn [st_Wans].
    rewrite !lookup_fmap. destruct (dm_health d !! name) as [ws|] eqn:Hw; [|done]. intros [= <-].
    by eapply snapshot_wan_agrees; [apply Hh|..].
  - intros name sg. unfold stateSnapshot. cbn [st_Groups]. rewrite lookup_fmap.
    destruct (dm_groups d !! name) as [dg|] eqn:Hd; [|done]. intros [= <-].
    destruct (Hg _ _ Hd) as (Hc & Hn & Hs). exists (d_cfg dg). split; [done|].
    intros k m Hm. rewrite <- Hn. by eapply Hs.
Qed.

(** Effects that set no gauge keep it, and it survives a handler's bookkeeping. *)
Lemma consistent_neutral cfg d l lg : consistent cfg d l → Forall neutral lg → consistent cfg d (l ++ lg).
Proof.
  intros [Hh Hg Hl] Hlg.
  assert (Hsp : ∀ P, Forall (spares P) lg) by (intros P; by eapply sets_only_spares; [|exact Hlg]).
  split.
  - intros n ws Hn. by apply wan_gauges_spared; [apply Hh|].
  - intros key dg Hd. destruct (Hg _ _ Hd) as (?&?&?). split_and!; [done..|by apply selected_gauges_spared].
  - by eapply log_agrees_app.
Qed.

Lemma consistent_core cfg d d' l :
  dm_health d' = dm_health d → dm_groups d' = dm_groups d → consistent cfg d l → consistent cfg d' l.
Proof. intros Hh Hg [H1 H2 H3]. split; [by rewrite Hh|by rewrite Hg|done]. Qed.

Lemma consistent_publish cfg d l version t :
  consistent cfg d l → consistent cfg d (l ++ [EPublish (stateSnapshot version d t)]).
Proof.
  intros Hd. pose proof (consistent_agrees _ _ _ version t Hd) as Ha. destruct Hd as [Hh Hg Hl].
  assert (Hsp : ∀ P, Forall (spares P) [EPublish (stateSnapshot version d t)]) by (intros P; by repeat constructor).
  split.
  - intros n ws Hn. by apply wan_gauges_spared; [apply Hh|].
  - intros key dg Hk. destruct (Hg _ _ Hk) as (?&?&?). split_and!; [done..|by apply selected_gauges_spared].
  - by apply log_agrees_publish.
Qed.

(** A Group whose gauges were set keeps it, and so does a Group's operation. *)
Lemma consistent_insert cfg d l key g lg :
  consistent cfg d l → c_Groups cfg !! key = Some (d_cfg g) → g_name (d_cfg g) = key →
  Forall (sets_only (group_series key)) lg → selected_gauges g (l ++ lg) →
  consistent cfg (set_group d key g) (l ++ lg).
Proof.
  intros [Hh Hg Hl] Hc Hn Ho Hs. split; [| |by eapply log_agrees_app].
  - intros n ws Hw. apply wan_gauges_spared; [by apply Hh|]. eapply sets_only_spares; [|exact Ho].
    intros m labels [-> _] [? _]. done.
  - intros key' dg. cbn [set_group dm_groups]. intros [[<- <-]|[Hne Hd]]%lookup_insert_Some; [done|].
    destruct (Hg _ _ Hd) as (?&Hn'&?). split_and!; [done..|]. apply selected_gauges_spared; [done|].
    eapply sets_only_spares; [|exact Ho]. intros m labels [_ H1] [_ H2]. congruence.
Qed.

Lemma consistent_group cfg d l key g g' lg :
  consistent cfg d l → dm_groups d !! key = Some g → group_step g g' lg →
  consistent cfg (set_group d key g') (l ++ lg).
Proof.
  intros Hd Hk (Hc & Ho & Hs). destruct (cs_groups _ _ _ Hd _ _ Hk) as (Hck & <- & Hsel).
  apply consistent_insert; rewrite ?Hc; auto.
Qed.

Section handlers.
Context {E : Type} `{HK : Kernel E, HSS : StateSink E, HHS : HookSink E, HKL : !KernelLaws E} (version : string).
Context (cfg : Config).

#[local] Existing Instances neutral_applyRoutes neutral_flush neutral_notifyHooks neutral_ensureGroupRules.

(** Running [m] from [d] keeps the daemon and the gauges consistent. *)
Definition keeping {A} (m : M E effect A) (d : daemon) (proj : A → daemon) : Prop :=
  ∀ w, consistent cfg d (w_log w) → wp m (λ r w', consistent cfg (proj r) (w_log w')) w.

Lemma keeping_ret {A} (x : A) d proj : (∀ l, consistent cfg d l → consistent cfg (proj x) l) → keeping (mret x) d proj.
Proof. intros H w Hw. apply wp_ret. by apply H. Qed.

Lemma keeping_bind {A B} (m : M E effect A) (f : A → M E effect B) d p q :
  keeping m d p → (∀ x, keeping (f x) (p x) q) → keeping (x ← m; f x) d q.
Proof. intros Hm Hf w Hw. apply wp_bind. eapply wp_mono; [by apply Hm|]. intros x w1 H1. by apply Hf. Qed.

Lemma keeping_neutral {A} (m : M E effect A) d : Emits neutral m → keeping m d (λ _, d).
Proof.
  intros Hm w Hw. apply (wp_emits neutral); [done|]. intros x w' l -> Hl. by apply consistent_neutral.
Qed.

(** A step that sets no gauge, before the rest. *)
Lemma keeping_skip {A B} (m : M E effect A) (f : A → M E effect B) d q :
  Emits neutral m → (∀ x, keeping (f x) d q) → keeping (x ← m; f x) d q.
Proof. intros Hm Hf. eapply keeping_bind; [by apply keeping_neutral|done]. Qed.

Lemma keeping_silent {A B} (m : M E effect A) (f : A → M E effect B) d q :
  Silent m → (∀ x, keeping (f x) d q) → keeping (x ← m; f x) d q.
Proof. intros Hm. apply keeping_skip. by apply emits_silent. Qed.

Lemma keeping_from {A} (m : M E effect A) d d' proj :
  dm_health d = dm_health d' → dm_groups d = dm_groups d' → keeping m d' proj → keeping m d proj.
Proof. intros Hh Hg Hm w Hw. apply Hm. by eapply consistent_core. Qed.

Lemma keeping_writeStateSnapshot d t : keeping (writeStateSnapshot version d t) d (λ _, d).
Proof.
  unfold writeStateSnapshot, stateW_Write. eapply keeping_bind.
  - intros w Hw. apply wp_bind. unfold wp at 1, emit. cbn [fst snd].
    apply (wp_emits neutral); [by apply emits_silent, _|]. intros err w' l -> Hl.
    apply consistent_neutral; [|exact Hl]. cbn [w_log]. by apply consistent_publish.
  - intros [err|]; [by apply keeping_ret|]. apply keeping_neutral. by apply emits_emit.
Qed.

Lemma keeping_publishDecision d g c : keeping (publishDecision version d g c) d id.
Proof.
  unfold publishDecision. destruct c as [c|]; [|by apply keeping_ret].
  eapply (keeping_bind _ _ _ id).
  - repeat case_match; try (apply keeping_skip; [apply _|intros []]); apply keeping_ret; try done;
      intros l; by apply consistent_core.
  - intros d1. eapply keeping_bind; [apply keeping_writeStateSnapshot|]. intros [].
    case_match; [apply keeping_skip; [apply _|intros []]|]; by apply keeping_ret.
Qed.

(** A Group's operation and its publication. *)
Lemma keeping_group d key dg g (m : M E effect (DGroup * option Commit)) :
  dm_groups d !! key = Some dg → stepping m dg →
  keeping ('(dg', committed) ← m; publishDecision version (set_group d key dg') g committed) d id.
Proof.
  intros Hd Hm. eapply (keeping_bind _ _ _ (λ r, set_group d key r.1)).
  - intros w Hw. pose proof (Hm w) as H. unfold wlog in H. eapply wp_mono; [exact H|].
    intros [dg' c] w' (lg & -> & Hs). by eapply consistent_group.
  - intros [dg' c]. apply keeping_publishDecision.
Qed.

Lemma keeping_foldM {A} (body : daemon → A → M E effect daemon) d l :
  (∀ d x, keeping (body d x) d id) → keeping (foldM body d l) d id.
Proof.
  intros Hb. revert d. induction l as [|x l IH]; intros d; cbn [foldM]; [by apply keeping_ret|].
  eapply keeping_bind; [apply Hb|apply IH].
Qed.

Lemma keeping_loop_live {A} (body : daemon → A → M E effect daemon) d l :
  (∀ d x, keeping (body d x) d id) → keeping (loop_live body d l) d fst.
Proof.
  intros Hb. revert d. induction l as [|x l IH]; intros d; cbn [loop_live]; [by apply keeping_ret|].
  apply keeping_silent; [apply _|]. intros [err|]; [by apply keeping_ret|].
  eapply keeping_bind; [apply Hb|apply IH].
Qed.

Lemma keeping_recomputeGroup wan reason d entry : keeping (recomputeGroup version wan reason d entry) d id.
Proof.
  unfold recomputeGroup. destruct entry as [name g]. destruct (negb _); [by apply keeping_ret|].
  destruct (dm_groups d !! name) as [dg|] eqn:Hd; [|by apply keeping_ret].
  apply keeping_silent; [unfold Health.MemberHealth; apply _|]. intros members.
  apply (keeping_group _ _ dg); [done|]. apply stepping_Recompute. apply _.
Qed.

Lemma keeping_publishHealthChange d c reason : keeping (publishHealthChange version d c reason) d id.
Proof.
  unfold publishHealthChange. eapply keeping_bind.
  - apply keeping_foldM. intros d1 wan. unfold recomputeAffectedGroups.
    apply keeping_silent; [apply _|]. intros entries. eapply keeping_bind.
    + apply keeping_loop_live. intros. apply keeping_recomputeGroup.
    + intros [d2 b]. by apply keeping_ret.
  - intros d1. destruct (ch_Republish c); [|by apply keeping_ret]. apply keeping_silent; [apply _|].
    intros [err|]; [by apply keeping_ret|].
    eapply keeping_bind; [apply keeping_writeStateSnapshot|]. intros []. by apply keeping_ret.
Qed.

Lemma keeping_forward op d entry :
  (∀ ar g, (∀ n f, Emits neutral (ar n f)) → stepping (op ar g) g) → keeping (forward version op d entry) d id.
Proof.
  intros Hop. unfold forward. destruct entry as [name ?].
  destruct (dm_groups d !! name) as [dg|] eqn:Hd; [|by apply keeping_ret].
  apply (keeping_group _ _ dg); [done|]. apply Hop. apply _.
Qed.

Lemma keeping_observeRoute e d wans : keeping (observeRoute version e d wans) d fst.
Proof.
  revert d. induction wans as [|[n wan] wans IH]; intros d; cbn [observeRoute]; [by apply keeping_ret|].
  destruct (negb _); [apply IH|]. apply keeping_silent; [apply _|]. intros entries. eapply keeping_bind.
  - apply keeping_loop_live. intros. apply keeping_forward. intros. by apply stepping_RouteObserved.
  - intros [d1 [|]]; [by apply keeping_ret|apply IH].
Qed.

(** Health and its gauges move together. *)
Lemma consistent_health d h l lg :
  consistent cfg d l → health_gauges h (l ++ lg) → Forall (sets_only (λ m _, m ≠ GroupSelected)) lg →
  consistent cfg (set_health d h) (l ++ lg).
Proof.
  intros [Hh Hg Hl] Hh' Ho. split; [done| |by eapply log_agrees_app].
  intros key dg Hd. destruct (Hg _ _ Hd) as (?&?&?). split_and!; [done..|].
  apply selected_gauges_spared; [done|]. eapply sets_only_spares; [|exact Ho]. intros m labels Hm [? _]. done.
Qed.

Ltac health_by :=
  repeat first
    [ progress intros
    | apply emits_ret
    | apply emits_emit; done
    | apply emits_bind
    | apply emits_foldM
    | apply emits_silent; typeclasses eauto
    | case_match ].

Lemma keeping_Probe d r : keeping (Health.Probe (dm_health d) r) d (λ x, set_health d x.1).
Proof.
  intros w Hw. assert (He : Emits (sets_only (λ m _, m ≠ GroupSelected)) (Health.Probe (E:=E) (dm_health d) r)).
  { unfold Health.Probe, recordProbe, recordStats, forM. health_by. }
  pose proof (wlog_and_emits _ _ _ _ He (Probe_gauges _ r _ w (cs_health _ _ _ Hw))) as H.
  unfold wlog in H. eapply wp_mono; [exact H|]. intros [h c] w' (lg & -> & Hh & Ho). by apply consistent_health.
Qed.

Lemma keeping_Link d e : keeping (Health.Link (dm_health d) e) d (λ x, set_health d x.1).
Proof.
  intros w Hw. assert (He : Emits (sets_only (λ m _, m ≠ GroupSelected)) (Health.Link (E:=E) (dm_health d) e)).
  { unfold Health.Link, link_one, recordLink, forM. health_by. }
  pose proof (wlog_and_emits _ _ _ _ He (Link_gauges _ e _ w (cs_health _ _ _ Hw))) as H.
  unfold wlog in H. eapply wp_mono; [exact H|]. intros [h c] w' (lg & -> & Hh & Ho). by apply consistent_health.
Qed.

Lemma keeping_dispatch d ev : keeping (dispatch version d ev) d id.
Proof.
  destruct ev as [r|e|e]; cbn [dispatch].
  - unfold handleProbeResult. eapply keeping_bind; [apply keeping_Probe|]. intros [h c]. cbn [fst].
    eapply keeping_bind; [apply keeping_publishHealthChange|]. intros d1. unfold id.
    case_bool_decide; [by apply keeping_ret|]. unfold retryGroupDecisions.
    apply keeping_silent; [apply _|]. intros entries. eapply keeping_bind.
    + apply keeping_loop_live. intros. apply keeping_forward. intros. by apply stepping_DProbe.
    + intros [d2 b]. by apply keeping_ret.
  - unfold handleLinkEvent. eapply keeping_bind; [apply keeping_Link|]. intros [h c].
    apply keeping_publishHealthChange.
  - unfold handleRouteEvent. apply keeping_silent; [apply _|]. intros wans. eapply keeping_bind.
    + eapply keeping_from; [..|apply keeping_observeRoute]; done.
    + intros [d1 [|]]; [by apply keeping_ret|]. cbn [fst]. case_match; [|by apply keeping_ret].
      apply keeping_silent; [apply _|]. intros [err|]; [by apply keeping_ret|].
      eapply keeping_bind; [apply keeping_writeStateSnapshot|]. intros []. by apply keeping_ret.
Qed.

Lemma keeping_prime_links d h c links :
  keeping (prime_links h c links) (set_health d h) (λ x, set_health d x.1).
Proof.
  unfold prime_links. revert h c. induction links as [|e links IH]; intros h c; cbn [foldM]; [by apply keeping_ret|].
  eapply (keeping_bind _ _ _ (λ x, set_health d x.1)); [|intros [h1 c1]; apply IH].
  eapply keeping_bind; [apply (keeping_Link (set_health d h))|]. intros [h1 c1]. by apply keeping_ret.
Qed.

Lemma keeping_prime d snap : keeping (prime version d snap) d id.
Proof.
  unfold prime. apply keeping_silent; [apply _|]. intros [err|]; [by apply keeping_ret|].
  set (d1 := set_gateways d _). apply (keeping_from _ _ (set_health d1 (dm_health d1))); [done..|].
  eapply keeping_bind; [apply keeping_prime_links|]. intros [h c]. cbn [fst]. apply keeping_publishHealthChange.
Qed.

Lemma keeping_eventLoop d acks turns : keeping (eventLoop version d acks turns) d fst.
Proof.
  revert d acks. induction turns as [|[| |ev] turns IH]; intros d acks; cbn [eventLoop]; [by apply keeping_ret|..].
  - apply keeping_silent; [apply _|]. intros [err|]; [by apply keeping_ret|apply IH].
  - apply IH.
  - apply keeping_silent; [apply _|]. intros [err|]; [by apply keeping_ret|].
    eapply keeping_bind; [apply keeping_dispatch|]. intros d1. apply IH.
Qed.

Lemma keeping_bootstrap d : keeping (bootstrap version d) d (λ _, d).
Proof.
  unfold bootstrap. apply keeping_silent; [apply _|]. intros entries. apply keeping_skip.
  { apply emits_foldM. intros [err|] [n g] _; [apply emits_ret|apply _]. }
  intros [err|]; [by apply keeping_ret|].
  eapply keeping_bind; [apply keeping_writeStateSnapshot|]. intros []. by apply keeping_ret.
Qed.

Lemma newDaemon_consistent (Hnames : map_Forall (λ key g, g_name g = key) (c_Groups cfg)) (w : World E effect) :
  w_log w = [] → wp (newDaemon cfg) (λ d w', consistent cfg d (w_log w')) w.
Proof.
  intros Hw. unfold newDaemon. apply wp_bind.
  assert (He : Emits (sets_only (λ m _, m ≠ GroupSelected)) (Health.New (E:=E) (c_Wans cfg))).
  { unfold Health.New, newWan, recordStats, recordLink, forM. health_by. }
  pose proof (wlog_and_emits _ _ _ _ He (New_gauges (c_Wans cfg) [] w ltac:(constructor))) as H.
  unfold wlog in H. eapply wp_mono; [exact H|]. intros h w1 (lg & Hl & Hh & Ho). rewrite Hw in Hl. cbn in Hl, Hh.
  apply wp_bind. unfold wp at 1, now. cbn [fst snd].
  apply wp_bind. unfold wp at 1, range. cbn [fst snd]. set (entries := shuffle _ _).
  assert (Hp : entries ≡ₚ map_to_list (c_Groups cfg)) by apply shuffle_Permutation.
  apply wp_bind. apply (wp_foldM _ _ (λ _ m w', consistent cfg (mkDaemon cfg h m newGatewayCache ∅ (Npos (sch_clock (w_sched w1) (w_tick w1)))) (w_log w'))).
  - cbn [w_log step]. rewrite Hl. split; [done|cbn; by intros ? ? ?%lookup_empty_Some|].
    apply (log_agrees_app cfg [] lg) in Ho; [done|]. intros i s Hi. by rewrite lookup_nil in Hi.
  - intros dn [name g] rest m w2 Hent Hm. apply wp_bind. unfold DNew. apply wp_bind.
    pose proof (publishSelected_log (mkDGroup g NoActive zero_time 0 None false) w2) as Hp2. unfold wlog in Hp2.
    eapply wp_mono; [exact Hp2|]. intros [] w3 (lg2 & Hl2 & Ho2 & Hg2). do 2 apply wp_ret. rewrite Hl2.
    assert (Hg : c_Groups cfg !! name = Some g).
    { apply elem_of_map_to_list. rewrite <- Hp, Hent. apply elem_of_app. right. by left. }
    pose proof (Hnames _ _ Hg) as Hn. cbn in Hn, Ho2. rewrite Hn in Ho2.
    by apply (consistent_insert cfg (mkDaemon _ _ m _ _ _)).
  - intros m w3 Hm. by apply wp_ret.
Qed.
Lemma life_consistent snap turns (w : World E effect) : Valid cfg → w_log w = [] →
  wp (life version cfg snap turns) (λ r w', ∃ d, consistent cfg d (w_log w') ∧
    match r with inl _ => True | inr (d', _) => d' = d end) w.
Proof.
  intros Hv Hw. unfold life. apply wp_bind. eapply wp_mono; [apply newDaemon_consistent; [|done]|].
  { intros key g Hg. by destruct (v_groups _ Hv key g Hg). }
  intros d w1 Hd. apply wp_bind. eapply wp_mono; [by apply keeping_bootstrap|].
  intros [err|] w2 Hd2; [apply wp_ret; by exists d|].
  apply wp_bind. eapply wp_mono; [by apply keeping_prime|]. intros d1 w3 Hd3.
  apply wp_bind. eapply wp_mono; [by apply keeping_eventLoop|]. intros [d2 n] w4 Hd4. apply wp_ret. by exists d2.
Qed.
End handlers.

(** ** The property *)

(** C7. The metrics tell what state.json tells. In any life of the daemon, for
    every State it publishes, the gauges at that moment report the same values:
    each WAN's carrier, each of the seven operstates, the RTT, jitter and loss
    of each Family (NaN for null), the WAN's and the Families' verdicts once a
    first result or link event has set them, and for every Member of a Group
    whether it is the Selection. It holds wherever the daemon is stopped, and
    of the State the daemon would publish at the end. *)
Theorem gauges_tell_state {E} `{HK : Kernel E, HSS : StateSink E, HHS : HookSink E, HKL : !KernelLaws E}
    version cfg snap turns (w : World E effect) :
  Valid cfg → w_log w = [] →
  let '(r, w') := life version cfg snap turns w in
  (∀ i s, w_log w' !! i = Some (EPublish s) → agrees cfg s (take i (w_log w'))) ∧
  match r with
  | inl _ => True
  | inr (d, _) => ∀ t, agrees cfg (stateSnapshot version d t) (w_log w')
  end.
Proof.
  intros Hv Hw. pose proof (life_consistent version cfg snap turns w Hv Hw) as H. unfold wp in H.
  destruct (life version cfg snap turns w) as [r w']. cbn [fst snd] in H. destruct H as (d & Hd & Hr).
  split; [apply (cs_log _ _ _ Hd)|]. destruct r as [err|[d' acks]]; [done|]. subst d'.
  intros t. by apply consistent_agrees.
Qed.

#[local] Existing Instances Daemon.Example.kernel Daemon.Example.kernel_laws Daemon.Example.state_sink
  Daemon.Example.hook_sink.

(** The example host's fourth State, after eth0 went down, has the Selection
    moved, and the gauges before it say so. *)
Lemma gauges_tell_state_witness :
  let '(r, w') := life "1.0" example_config Daemon.Example.snapshot Daemon.Example.turns Daemon.Example.world in
  ∃ s, w_log w' !! 84%nat = Some (EPublish s) ∧ agrees example_config s (take 84 (w_log w')) ∧
    sg_Selection <$> (st_Groups s !! "home") = Some (Some "lte") ∧
    gauge GroupSelected ["home"; "lte"] (take 84 (w_log w')) = Some f64_one ∧
    gauge GroupSelected ["home"; "fiber"] (take 84 (w_log w')) = Some f64_zero.
Proof.
  set (l := life _ _ _ _ _).
  assert (Hs : match w_log l.2 !! 84%nat with
    | Some (EPublish s) => sg_Selection <$> (st_Groups s !! "home") = Some (Some "lte")
    | _ => False end) by (by vm_compute).
  assert (Hg : gauge GroupSelected ["home"; "lte"] (take 84 (w_log l.2)) = Some f64_one ∧
    gauge GroupSelected ["home"; "fiber"] (take 84 (w_log l.2)) = Some f64_zero) by (split; vm_compute; reflexivity).
  pose proof (gauges_tell_state "1.0" example_config Daemon.Example.snapshot Daemon.Example.turns
    Daemon.Example.world example_config_valid eq_refl) as H.
  fold l in H. destruct l as [r w']. cbn [fst snd] in *. destruct H as [H _].
  destruct (w_log w' !! 84%nat) as [[| | | | | | | |]|] eqn:Hi; try done. eexists. split; [reflexivity|].
  split; [by apply H|]. split; [exact Hs|exact Hg].
Defined.
