(* ===== verification/Ident.v ===== *)
(** * ICMP identifiers ([ident.go], [probers.go])

    One 16-bit identifier per WAN and Family: a slot derived from the key's
    SHA-256, and linear probing from there. [Sha256] is the hash of the Go
    standard library (FIPS 180-4). *)
From S2P Require Import Prelude GoFloat Icmp NetIP Runtime Selector Config.

#[local] Open Scope Z_scope.

(** ** SHA-256 *)

Module Sha256.

(** The first [n] primes from [k] on, by trial division over those found. *)
Fixpoint primes_from (fuel : nat) (k : Z) (found : list Z) (n : nat) : list Z :=
  match fuel with
  | O => found
  | S fuel =>
      if bool_decide (n ≤ length found)%nat then found
      else primes_from fuel (k + 1)
             (if forallb (λ p, negb (k mod p =? 0)) found then found ++ [k] else found) n
  end.

(** The integer cube root, bit by bit from [bit] down. *)
Fixpoint cbrt_bits (bit : nat) (root x : Z) : Z :=
  let try := root + 2 ^ Z.of_nat bit in
  let root := if try ^ 3 <=? x then try else root in
  match bit with O => root | S bit => cbrt_bits bit root x end.

(** The round constants and the initial hash: the first 32 bits of the
    fractional parts of the cube roots of the first 64 primes, and of the square
    roots of the first 8. *)
Definition K : list Z := Eval vm_compute in
  (λ p, cbrt_bits 40 0 (p * 2 ^ 96) mod 2 ^ 32) <$> primes_from 400 2 [] 64.

Definition H0 : list Z := Eval vm_compute in
  (λ p, Z.sqrt (p * 2 ^ 64) mod 2 ^ 32) <$> primes_from 400 2 [] 8.

Definition u32 (x : Z) : Z := x mod 2 ^ 32.
Definition rotr (n x : Z) : Z := Z.lor (Z.shiftr x n) (u32 (Z.shiftl x (32 - n))).
Definition Sigma0 (x : Z) : Z := Z.lxor (Z.lxor (rotr 2 x) (rotr 13 x)) (rotr 22 x).
Definition Sigma1 (x : Z) : Z := Z.lxor (Z.lxor (rotr 6 x) (rotr 11 x)) (rotr 25 x).
Definition sigma0 (x : Z) : Z := Z.lxor (Z.lxor (rotr 7 x) (rotr 18 x)) (Z.shiftr x 3).
Definition sigma1 (x : Z) : Z := Z.lxor (Z.lxor (rotr 17 x) (rotr 19 x)) (Z.shiftr x 10).
Definition Ch (x y z : Z) : Z := Z.lxor (Z.land x y) (Z.land (Z.lxor x (2 ^ 32 - 1)) z).
Definition Maj (x y z : Z) : Z := Z.lxor (Z.lxor (Z.land x y) (Z.land x z)) (Z.land y z).

(** Big-endian bytes, [n] of them. *)
Fixpoint be_bytes (n : nat) (x : Z) : list Z :=
  match n with O => [] | S n => be_bytes n (Z.shiftr x 8) ++ [Z.land x 255] end.

(** One bit, zeros up to 56 modulo 64, and the length in bits. *)
Definition pad (msg : list Z) : list Z :=
  let n := Z.of_nat (length msg) in
  msg ++ 128 :: repeat 0 (Z.to_nat ((55 - n) mod 64)) ++ be_bytes 8 (8 * n).

(** The bytes of whole 32-bit words. *)
Fixpoint words (l : list Z) : list Z :=
  match l with
  | a :: b :: c :: d :: l =>
      (Z.shiftl a 24 + Z.shiftl b 16 + Z.shiftl c 8 + d) :: words l
  | _ => []
  end.

(** The message schedule, latest word first, [n] more words. *)
Fixpoint extend (n : nat) (ws : list Z) : list Z :=
  match n with
  | O => ws
  | S n =>
      let w i := nth i ws 0 in
      extend n (u32 (sigma1 (w 1%nat) + w 6%nat + sigma0 (w 14%nat) + w 15%nat) :: ws)
  end.

Definition schedule (block : list Z) : list Z := rev (extend 48 (rev block)).

(** One round over the working variables a to h. *)
Definition round (v : list Z) (kw : Z * Z) : list Z :=
  match v with
  | [a; b; c; d; e; f; g; h] =>
      let t1 := u32 (h + Sigma1 e + Ch e f g + kw.1 + kw.2) in
      let t2 := u32 (Sigma0 a + Maj a b c) in
      [u32 (t1 + t2); a; b; c; u32 (d + t1); e; f; g]
  | _ => v
  end.

Definition compress (h : list Z) (block : list Z) : list Z :=
  zip_with (λ x y, u32 (x + y)) h (foldl round h (zip K (schedule block))).

(** The blocks of sixteen words. *)
Fixpoint blocks (n : nat) (ws : list Z) : list (list Z) :=
  match n with O => [] | S n => take 16 ws :: blocks n (drop 16 ws) end.

Definition Sum256 (msg : list Z) : list Z :=
  let ws := words (pad msg) in
  foldl compress H0 (blocks (length ws / 16) ws) ≫= be_bytes 4.

End Sha256.

(** The test vector of the standard, as one number. *)
Example Sum256_abc :
  foldl (λ n b, n * 256 + b) 0 (Sha256.Sum256 (chars "abc")) =
  0xba7816bf8f01cfea414140de5dae2223b00361a396177a9cb410ff61f20015ad.
Proof. by vm_compute. Qed.

(** Three blocks: a message longer than one, against the published digest. *)
Example Sum256_long : take 4 (Sha256.Sum256 (repeat 97 200)) = [0xc2; 0xa9; 0x08; 0xd9].
Proof. by vm_compute. Qed.

(** ** Identifiers *)

(** daemon/internal/probe/ident.go:9-14 (IdentKey): fields *)
Record IdentKey := mkIdentKey { ik_Wan : string; ik_Family : Family }.

#[export] Instance IdentKey_eq_dec : EqDecision IdentKey.
Proof. solve_decision. Defined.

#[export] Instance IdentKey_countable : Countable IdentKey.
Proof.
  refine (inj_countable' (λ k, (ik_Wan k, ik_Family k)) (λ p, mkIdentKey p.1 p.2) _). by intros [].
Defined.

(** daemon/internal/probe/ident.go:56-57 (identSpace): the 16-bit field *)
Definition identSpace : Z := Z.shiftl 1 16.

(** daemon/internal/probe/ident.go:59-66 (initialIdent): the first two bytes of
    the key's hash, big-endian *)
Definition initialIdent (k : IdentKey) : Z :=
  match Sha256.Sum256 (chars (ik_Wan k +:+ "|" +:+ Family_String (ik_Family k))) with
  | a :: b :: _ => Z.lor (Z.shiftl a 8) b
  | _ => 0
  end.

(** daemon/internal/probe/ident.go:39-50 (AllocateIdents): probe the slots from
    [offset] on, [n] of them, up to the first free one *)
Fixpoint probe_slots (owners : gmap Z IdentKey) (start offset : Z) (n : nat) : option Z :=
  match n with
  | O => None
  | S n =>
      let candidate := u16 ((start + offset) mod identSpace) in
      match owners !! candidate with
      | Some _ => probe_slots owners start (offset + 1) n
      | None => Some candidate
      end
  end.

(** daemon/internal/probe/ident.go:33-54 (AllocateIdents): the keys in order *)
Fixpoint allocate (allocated : gmap IdentKey Z) (owners : gmap Z IdentKey) (keys : list IdentKey)
    : error + gmap IdentKey Z :=
  match keys with
  | [] => inr allocated
  | k :: keys =>
      match allocated !! k with
      | Some _ => inl (Errorf "probe: duplicate IdentKey")
      | None =>
          match probe_slots owners (initialIdent k) 0 (Z.to_nat identSpace) with
          | None => inl (Errorf "probe: identifier space exhausted at key")
          | Some candidate =>
              allocate (<[k := candidate]> allocated) (<[candidate := k]> owners) keys
          end
      end
  end.

(** daemon/internal/probe/ident.go:16-54 (AllocateIdents): one identifier per
    key *)
Definition AllocateIdents (keys : list IdentKey) : error + gmap IdentKey Z :=
  if identSpace <? Z.of_nat (length keys) then
    inl (Errorf "probe: keys exceeds 16-bit identifier space")
  else allocate ∅ ∅ keys.

(** daemon/cmd/wanwatchd/probers.go:56-69 (identKeysFor): every WAN and probed
    Family, sorted by WAN *)
Definition identKeysFor (cfg : Config) : list IdentKey :=
  sort_strings (map_to_list (c_Wans cfg)).*1 ≫= λ name,
    match c_Wans cfg !! name with
    | Some wan => mkIdentKey name <$> Families (p_Targets (w_Probe wan))
    | None => []
    end.

(** daemon/cmd/wanwatchd/subscribers.go:57-66 (watchedInterfaces): the
    interfaces of the WANs *)
Definition watchedInterfaces (cfg : Config) : gset string :=
  list_to_set (w_Interface <$> (map_to_list (c_Wans cfg)).*2).

(** ** Lemmas *)

(** The identifiers of [keys]: each key has one, in the 16-bit space, no two the
    same, and it is the first slot from the key's hash on that no earlier key
    took. *)
Record allocation (keys : list IdentKey) (m : gmap IdentKey Z) : Prop := {
  al_dom k : is_Some (m !! k) ↔ k ∈ keys;
  al_range k c : m !! k = Some c → 0 ≤ c < identSpace;
  al_inj k k' c : m !! k = Some c → m !! k' = Some c → k = k';
  al_first dn k rest : keys = dn ++ k :: rest →
    ∃ offset, m !! k = Some ((initialIdent k + offset) mod identSpace) ∧ 0 ≤ offset < identSpace ∧
      ∀ o, 0 ≤ o < offset → ∃ k', k' ∈ dn ∧ m !! k' = Some ((initialIdent k + o) mod identSpace)
}.

Lemma probe_slots_found owners start n : ∀ offset,
  match probe_slots owners start offset n with
  | Some c => ∃ o, offset ≤ o < offset + Z.of_nat n ∧ c = (start + o) mod identSpace ∧
      owners !! c = None ∧ ∀ o', offset ≤ o' < o → is_Some (owners !! ((start + o') mod identSpace))
  | None => ∀ o, offset ≤ o < offset + Z.of_nat n → is_Some (owners !! ((start + o) mod identSpace))
  end.
Proof.
  assert (Hu : ∀ x, u16 (x mod identSpace) = x mod identSpace).
  { intros x. by apply u16_small, Z.mod_pos_bound. }
  induction n as [|n IH]; intros offset; cbn [probe_slots]; [lia|]. rewrite Hu.
  destruct (owners !! _) as [k|] eqn:Hk.
  - specialize (IH (offset + 1)). destruct (probe_slots _ _ _ _) as [c|].
    + destruct IH as (o & Ho & -> & Hc & Hall). exists o. split; [lia|]. split; [done|]. split; [done|].
      intros o' Ho'. destruct (decide (o' = offset)) as [-> |]; [by rewrite Hk|]. apply Hall. lia.
    + intros o Ho. destruct (decide (o = offset)) as [-> |]; [by rewrite Hk|]. apply IH. lia.
  - exists offset. split; [lia|]. split; [done|]. split; [done|]. lia.
Qed.

(** Fewer owners than slots leave one free. *)
Lemma probe_slots_total owners start :
  Z.of_nat (size owners) < identSpace → is_Some (probe_slots owners start 0 (Z.to_nat identSpace)).
Proof.
  intros Hs. pose proof (probe_slots_found owners start (Z.to_nat identSpace) 0) as H.
  destruct (probe_slots _ _ _ _); [done|]. exfalso.
  assert (Hsub : list_to_set (seqZ 0 identSpace) ⊆ dom owners).
  { intros x Hx%elem_of_list_to_set%elem_of_seqZ. apply elem_of_dom.
    specialize (H ((x - start) mod identSpace)).
    replace ((start + (x - start) mod identSpace) mod identSpace) with x in H.
    - apply H. rewrite Z2Nat.id by done. by apply Z.mod_pos_bound.
    - rewrite Zplus_mod_idemp_r. replace (start + (x - start)) with x by lia.
      symmetry. apply Z.mod_small. lia. }
  apply subseteq_size in Hsub. rewrite size_list_to_set in Hsub by apply NoDup_seqZ.
  rewrite length_seqZ, size_dom in Hsub. lia.
Qed.

Lemma allocation_snoc keys m k offset :
  let slot o := (initialIdent k + o) mod identSpace in
  allocation keys m → m !! k = None → 0 ≤ offset < identSpace →
  (∀ k', m !! k' ≠ Some (slot offset)) →
  (∀ o, 0 ≤ o < offset → ∃ k', m !! k' = Some (slot o)) →
  allocation (keys ++ [k]) (<[k := slot offset]> m).
Proof.
  intros slot [Hd Hr Hi Hf] Hk Ho Hfree Htaken.
  assert (Hkk : k ∉ keys) by (rewrite <- Hd, Hk; by intros [? ?]).
  assert (Hold : ∀ k', k' ∈ keys → <[k:=slot offset]> m !! k' = m !! k').
  { intros k' Hk'. apply lookup_insert_ne. by intros ->. }
  split.
  - intros k'. rewrite elem_of_app, list_elem_of_singleton, <- Hd.
    destruct (decide (k' = k)) as [-> |Hne]; [rewrite lookup_insert_eq; split; eauto|].
    rewrite lookup_insert_ne by done. split; [by left|by intros [?|?]].
  - intros k' c [[-> <-]|[_ Hc]]%lookup_insert_Some; [by apply Z.mod_pos_bound|by eapply Hr].
  - intros k1 k2 c [[<- <-]|[Hn1 H1]]%lookup_insert_Some [[Hk2 Hc]|[Hn2 H2]]%lookup_insert_Some.
    + done.
    + by apply Hfree in H2.
    + subst. by apply Hfree in H1.
    + by eapply Hi.
  - intros dn k' rest Heq. destruct rest as [|k2 rest _] using rev_ind.
    + apply app_inj_tail in Heq as [<- <-]. exists offset. rewrite lookup_insert_eq. split; [done|]. split; [done|].
      intros o Hoo. destruct (Htaken o Hoo) as [k2 Hk2]. exists k2.
      assert (k2 ∈ keys) as Hin by (apply Hd; by rewrite Hk2). split; [done|]. by rewrite Hold.
    + rewrite app_comm_cons, app_assoc in Heq. apply app_inj_tail in Heq as [Heq ->].
      destruct (Hf _ _ _ Heq) as (off & Hoff & ? & Hall). exists off.
      rewrite Hold by (rewrite Heq, elem_of_app, elem_of_cons; tauto). split; [done|]. split; [done|].
      intros o Hoo. destruct (Hall o Hoo) as (k3 & Hin & Hk3). exists k3. split; [done|].
      by rewrite Hold by (rewrite Heq, elem_of_app; tauto).
Qed.

Lemma allocate_spec keys : ∀ dn m owners,
  allocation dn m → NoDup dn → (∀ c k, owners !! c = Some k ↔ m !! k = Some c) →
  size owners = length dn → Z.of_nat (length (dn ++ keys)) ≤ identSpace →
  match allocate m owners keys with
  | inr m' => NoDup (dn ++ keys) ∧ allocation (dn ++ keys) m'
  | inl _ => ¬ NoDup (dn ++ keys)
  end.
Proof.
  induction keys as [|k keys IH]; intros dn m owners Hal Hnd Hown Hsize Hlen; cbn [allocate].
  { by rewrite app_nil_r. }
  destruct (m !! k) as [c|] eqn:Hk.
  { rewrite NoDup_app. intros (_ & H & _). apply (H k); [|apply list_elem_of_here].
    apply (al_dom _ _ Hal). by rewrite Hk. }
  assert (Hkd : k ∉ dn) by (rewrite <- (al_dom _ _ Hal), Hk; by intros [? ?]).
  rewrite length_app in Hlen. cbn [length] in Hlen.
  destruct (probe_slots_total owners (initialIdent k)) as [c Hc]; [lia|]. rewrite Hc.
  pose proof (probe_slots_found owners (initialIdent k) (Z.to_nat identSpace) 0) as Hfound. rewrite Hc in Hfound.
  destruct Hfound as (o & Ho & -> & Hfree & Htaken). rewrite Z2Nat.id in Ho by done.
  specialize (IH (dn ++ [k]) (<[k:=(initialIdent k + o) mod identSpace]> m)
    (<[(initialIdent k + o) mod identSpace:=k]> owners)).
  rewrite <- app_assoc in IH. apply IH.
  - apply allocation_snoc; [done|done|lia| |].
    + intros k' Hk'. apply Hown in Hk'. congruence.
    + intros o' Ho'. destruct (Htaken o') as [k' Hk']; [lia|]. exists k'. by apply Hown.
  - apply NoDup_app. split; [done|]. split; [|apply NoDup_singleton].
    intros x Hx ->%list_elem_of_singleton. done.
  - intros c k'. rewrite !lookup_insert_Some, Hown. split.
    + intros [[<- <-]|[Hne H]]; [by left|]. right. split; [congruence|done].
    + intros [[<- <-]|[Hne H]]; [by left|]. right. split; [|done]. intros <-. apply Hown in H. congruence.
  - rewrite map_size_insert_None, length_app by done. cbn. lia.
  - rewrite length_app. cbn [app length]. lia.
Qed.

Lemma AllocateIdents_spec keys :
  match AllocateIdents keys with
  | inr m => Z.of_nat (length keys) ≤ identSpace ∧ NoDup keys ∧ allocation keys m
  | inl _ => identSpace < Z.of_nat (length keys) ∨ ¬ NoDup keys
  end.
Proof.
  unfold AllocateIdents. destruct (identSpace <? Z.of_nat (length keys)) eqn:Hl; bool_to_Prop; [by left|].
  assert (Hal : allocation [] ∅).
  { split; [| | |by intros [] ]; intros k; rewrite ?lookup_empty; try done. split; [by intros []|by intros ?%elem_of_nil]. }
  pose proof (allocate_spec keys [] ∅ ∅ Hal NoDup_nil_2) as H. cbn [app] in H.
  destruct (allocate ∅ ∅ keys); [right|split; [done|]]; apply H; try done; intros; by rewrite !lookup_empty.
Qed.

(** A WAN's keys name it, so the keys of all WANs are distinct. *)
Lemma identKeysFor_NoDup cfg : NoDup (identKeysFor cfg).
Proof.
  unfold identKeysFor. assert (Hnd : NoDup (sort_strings (map_to_list (c_Wans cfg)).*1)).
  { unfold sort_strings. rewrite merge_sort_Permutation. apply NoDup_fst_map_to_list. }
  revert Hnd. generalize (sort_strings (map_to_list (c_Wans cfg)).*1). intros names.
  induction names as [|name names IH]; intros Hnd; [apply NoDup_nil_2|].
  apply NoDup_cons in Hnd as [Hn Hnd]. cbn [mbind list_bind]. apply NoDup_app. split; [|split; [|by apply IH]].
  - destruct (c_Wans cfg !! name); [|apply NoDup_nil_2]. apply NoDup_fmap_2; [by intros ?? [=]|].
    unfold Families. destruct (V4 _), (V6 _); apply (bool_decide_eq_true_1 (NoDup _)); by vm_compute.
  - intros k Hk Hk'. apply Hn. apply list_elem_of_bind in Hk' as (name' & Hk' & Hin).
    assert (ik_Wan k = name' ∧ ik_Wan k = name) as [<- <-]; [|done].
    destruct (c_Wans cfg !! name) in Hk; [|by apply elem_of_nil in Hk].
    destruct (c_Wans cfg !! name') in Hk'; [|by apply elem_of_nil in Hk'].
    apply list_elem_of_fmap in Hk as (? & -> & _). by apply list_elem_of_fmap in Hk' as (? & [= ->] & _).
Qed.

Lemma elem_of_identKeysFor cfg name fam :
  mkIdentKey name fam ∈ identKeysFor cfg ↔
    ∃ wan, c_Wans cfg !! name = Some wan ∧ fam ∈ Families (p_Targets (w_Probe wan)).
Proof.
  unfold identKeysFor. rewrite list_elem_of_bind. split.
  - intros (name' & Hin & _). destruct (c_Wans cfg !! name') as [wan|] eqn:Hw; [|by apply elem_of_nil in Hin].
    apply list_elem_of_fmap in Hin as (fam' & [= -> ->] & Hf). by exists wan.
  - intros (wan & Hw & Hf). exists name. rewrite Hw. split; [apply list_elem_of_fmap; by exists fam|].
    unfold sort_strings. rewrite merge_sort_Permutation. apply list_elem_of_fmap.
    exists (name, wan). split; [done|]. by apply elem_of_map_to_list.
Qed.

(** At most two keys per WAN. *)
Lemma length_identKeysFor cfg : (length (identKeysFor cfg) ≤ 2 * size (c_Wans cfg))%nat.
Proof.
  unfold identKeysFor. assert (Hl : length (sort_strings (map_to_list (c_Wans cfg)).*1) = size (c_Wans cfg)).
  { unfold sort_strings. by rewrite merge_sort_Permutation, length_fmap, length_map_to_list. }
  rewrite <- Hl. generalize (sort_strings (map_to_list (c_Wans cfg)).*1). intros names.
  induction names as [|name names IH]; cbn [mbind list_bind length]; [lia|]. rewrite length_app.
  assert (length (match c_Wans cfg !! name with
    | Some wan => mkIdentKey name <$> Families (p_Targets (w_Probe wan)) | None => [] end) ≤ 2)%nat; [|cbn in *; lia].
  destruct (c_Wans cfg !! name); [|cbn; lia]. rewrite length_fmap. unfold Families. destruct (V4 _), (V6 _); cbn; lia.
Qed.

(** ** Properties *)

(** C34. Identifiers: allocation succeeds exactly when there are at most 65536
    keys, none twice; then each key has one 16-bit identifier, no two keys the
    same, and it is the first slot from the key's hash on that no earlier key
    took, so a key keeps the identifier of its hash unless an earlier key sits
    there. The search for a free slot always ends with one. *)
Theorem ident_allocation keys :
  match AllocateIdents keys with
  | inr m =>
      Z.of_nat (length keys) ≤ 65536 ∧ NoDup keys ∧
      (∀ k, is_Some (m !! k) ↔ k ∈ keys) ∧
      (∀ k c, m !! k = Some c → 0 ≤ c < 65536) ∧
      (∀ k k' c, m !! k = Some c → m !! k' = Some c → k = k') ∧
      (∀ dn k rest, keys = dn ++ k :: rest →
         ∃ offset, m !! k = Some ((initialIdent k + offset) mod 65536) ∧ 0 ≤ offset < 65536 ∧
           ∀ o, 0 ≤ o < offset → ∃ k', k' ∈ dn ∧ m !! k' = Some ((initialIdent k + o) mod 65536))
  | inl _ => 65536 < Z.of_nat (length keys) ∨ ¬ NoDup keys
  end.
Proof.
  pose proof (AllocateIdents_spec keys) as H. destruct (AllocateIdents keys) as [e|m]; [done|].
  destruct H as (Hl & Hnd & [Hd Hr Hi Hf]). split; [done|]. split; [done|]. split; [done|]. split; [done|]. by split.
Qed.

(** Probers: for a configuration of at most 32768 WANs the identifiers are
    always allocated, and every WAN has one for each Family it probes and for
    no other, different from all others. *)
Theorem prober_idents cfg :
  Z.of_nat (size (c_Wans cfg)) ≤ 32768 →
  ∃ m, AllocateIdents (identKeysFor cfg) = inr m ∧
    (∀ name fam, is_Some (m !! mkIdentKey name fam) ↔
       ∃ wan, c_Wans cfg !! name = Some wan ∧ fam ∈ Families (p_Targets (w_Probe wan))) ∧
    (∀ k k' c, m !! k = Some c → m !! k' = Some c → k = k').
Proof.
  intros Hs. pose proof (AllocateIdents_spec (identKeysFor cfg)) as H.
  destruct (AllocateIdents _) as [e|m].
  - destruct H as [H|H]; [|by destruct H; apply identKeysFor_NoDup].
    pose proof (length_identKeysFor cfg). change identSpace with 65536 in H. lia.
  - destruct H as (_ & _ & [Hd _ Hi _]). exists m. split; [done|]. split; [|done].
    intros name fam. by rewrite Hd, elem_of_identKeysFor.
Qed.

Lemma prober_idents_witness :
  ∃ m, AllocateIdents (identKeysFor example_config) = inr m ∧
    m !! mkIdentKey "fiber" FamilyV4 = Some 0x59ff ∧
    is_Some (m !! mkIdentKey "lte" FamilyV4).
Proof.
  destruct (prober_idents example_config) as (m & Hm & Hd & _); [by vm_compute|]. exists m. split; [done|]. split.
  - assert (H : (match AllocateIdents (identKeysFor example_config) with
            | inr m => m !! mkIdentKey "fiber" FamilyV4 | inl _ => None end) = Some 0x59ff) by (by vm_compute).
    by rewrite Hm in H.
  - apply Hd. eexists. split; [done|]. apply list_elem_of_here.
Defined.
