(* ===== verification/Pinger.v ===== *)
(** * The Pinger ([pinger.go], [socket.go])

    One Pinger per WAN and Family: its socket, which follows its interface
    through recreation, the probe cycle, which matches replies to requests by
    identifier and sequence number, and the loop that turns cycles into
    ProbeResults. The connection and the dialer are interfaces. [None] in a
    result is a Go panic, or fuel that ran out in the read loop. *)
From S2P Require Import Prelude GoFloat Icmp Window Aggregate Runtime NetIP.

#[local] Open Scope Z_scope.

(** ** Interfaces *)

(** daemon/internal/probe/pinger.go:16-24 (pingConn): the raw socket; a read
    gives the datagram, and the deadline makes it fail *)
Class PingConn (E : Type) := {
  WriteTo : list Z → IP → E → option error * E;
  ReadFrom : E → (error + list Z) * E;
  Close : E → E
}.

(** daemon/internal/probe/socket.go:11-14 (dialFn): opening the socket and
    looking an interface up; the result is an interface index *)
Class Dialer (E : Type) := {
  dial : Family → string → E → (error + Z) * E;
  ifindex : string → E → (error + Z) * E
}.

Definition ENODEV : error := Errno 19.

(** ** Data *)

(** daemon/internal/probe/pinger.go:26-39 (Pinger): fields; the durations, in
    nanoseconds, pace the loop *)
Record Pinger := mkPinger {
  p_Wan : string; p_Family : Family; p_Interface : string;
  p_Targets : list string; p_Ident : Z; p_Interval : Z; p_Timeout : Z; p_WindowSize : Z
}.

(** daemon/internal/probe/socket.go:26-38 (socket): whether a connection is
    open, the index it is bound to, and whether one was lost *)
Record socket := mkSocket { sk_open : bool; sk_bound : Z; sk_lost : bool }.

(** daemon/internal/probe/pinger.go:121-124 (cycle): a request in flight *)
Record pending := mkPending { pe_target : string; pe_sent : Time }.

Section pinger.
Context {E : Type} `{HC : PingConn E, HD : Dialer E}.
Context (p : Pinger).

Abbreviation M := (M E ProbeResult).

(** ** The socket *)

(** daemon/internal/probe/socket.go:40-50 (newSocket): not open *)
Definition newSocket : socket := mkSocket false 0 false.

(** daemon/internal/probe/socket.go:52-78 (socket.open): dial when none is open;
    an absent interface is retried later, any other error is returned *)
Definition open (s : socket) : M (socket * option error) :=
  if sk_open s then mret (s, None)
  else
    r ← call (dial (p_Family p) (p_Interface p));
    mret match r with
         | inl err =>
             if Is err ENODEV then (mkSocket (sk_open s) (sk_bound s) true, None)
             else (s, Some (Wrapf "probe: open icmp" err))
         | inr bound => (mkSocket true bound false, None)
         end.

(** daemon/internal/probe/socket.go:98-104 (socket.close): close the connection
    if one is open *)
Definition close (s : socket) : M socket :=
  if sk_open s then
    _ ← call (λ e, ((), Close e)); mret (mkSocket false (sk_bound s) (sk_lost s))
  else mret s.

(** daemon/internal/probe/socket.go:80-96 (socket.recheck): after a failed send,
    keep the connection only while the name has the index it is bound to *)
Definition recheck (s : socket) : M socket :=
  if negb (sk_open s) then mret s
  else
    r ← call (ifindex (p_Interface p));
    if match r with inl _ => false | inr i => i =? sk_bound s end then mret s
    else s ← close s; mret (mkSocket (sk_open s) (sk_bound s) true).

(** ** Targets *)

(** daemon/internal/probe/pinger.go:201-212 (resolveTargets): one literal *)
Definition resolveTarget (t : string) : error + IP :=
  match ParseIP t with
  | None => inl (Errorf "probe: target is not a valid IP literal")
  | ip =>
      let isV4 := bool_decide (is_Some (To4 ip)) in
      if bool_decide (p_Family p = FamilyV4) && negb isV4 then
        inl (Errorf "probe: target is not v4 but family=v4")
      else if bool_decide (p_Family p = FamilyV6) && isV4 then
        inl (Errorf "probe: target is v4 but family=v6")
      else inr ip
  end.

(** daemon/internal/probe/pinger.go:195-215 (resolveTargets): all of them, or
    the first error *)
Fixpoint resolveTargets (targets : list string) (out : gmap string IP) : error + gmap string IP :=
  match targets with
  | [] => inr out
  | t :: targets =>
      match resolveTarget t with
      | inl err => inl err
      | inr ip => resolveTargets targets (<[t := ip]> out)
      end
  end.

(** ** The cycle *)

(** Pushing onto the Window of a Target; a missing one is a nil pointer. *)
Definition push_to (windows : gmap string WindowStats) (target : string) (s : Sample)
    : option (gmap string WindowStats) :=
  w ← windows !! target; w ← Push w s; Some (<[target := w]> windows).

(** What a cycle carries: requests in flight, Windows, and the next sequence
    number. *)
Record cycle_state := mkCycle {
  cy_inflight : gmap Z pending; cy_windows : gmap string WindowStats;
  cy_seq : Z; cy_sendFailed : bool
}.

(** daemon/internal/probe/pinger.go:128-140 (cycle): send to one Target *)
Definition send_one (addrs : gmap string IP) (c : cycle_state) (target : string) : M (option cycle_state) :=
  match EchoRequestBytes (p_Family p) (p_Ident p) (cy_seq c) [] with
  | None => mret None
  | Some req =>
      err ← call (WriteTo req (default None (addrs !! target)));
      match err with
      | None =>
          sent ← now;
          mret (Some (mkCycle (<[cy_seq c := mkPending target sent]> (cy_inflight c)) (cy_windows c)
                        (u16 (cy_seq c + 1)) (cy_sendFailed c)))
      | Some _ =>
          mret (windows ← push_to (cy_windows c) target (mkSample 0 true);
                Some (mkCycle (cy_inflight c) windows (u16 (cy_seq c + 1)) true))
      end
  end.

(** daemon/internal/probe/pinger.go:125-141 (cycle): send to every Target *)
Fixpoint send_all (addrs : gmap string IP) (c : cycle_state) (targets : list string) : M (option cycle_state) :=
  match targets with
  | [] => mret (Some c)
  | t :: targets =>
      c ← send_one addrs c t;
      match c with None => mret None | Some c => send_all addrs c targets end
  end.

(** daemon/internal/probe/pinger.go:143-147 (recordLoss): a lost Sample for
    every request still in flight *)
Definition recordLoss (inflight : gmap Z pending) (windows : gmap string WindowStats)
    : M (option (gmap string WindowStats)) :=
  entries ← range inflight;
  mret (foldl (λ ws '(_, e), ws ← ws; push_to ws (pe_target e) (mkSample 0 true)) (Some windows) entries).

(** [time.Since(t).Microseconds()] as a [uint64]. *)
Definition since_micros (now_ sent : Time) : Z := u64 (Z.quot (Z.of_N now_ - Z.of_N sent) 1000).

(** daemon/internal/probe/pinger.go:166-190 (cycle): read replies until none is
    in flight or a read fails; [fuel] bounds the reads *)
Fixpoint drain (fuel : nat) (inflight : gmap Z pending) (windows : gmap string WindowStats)
    : M (option (gmap Z pending * gmap string WindowStats)) :=
  if decide (inflight = ∅) then mret (Some (inflight, windows))
  else
    match fuel with
    | O => mret None
    | S fuel =>
        r ← call ReadFrom;
        match r with
        | inl _ => mret (Some (inflight, windows))
        | inr data =>
            match ParseEchoReply (p_Family p) data with
            | inl _ => drain fuel inflight windows
            | inr (ident, replySeq) =>
                if negb (ident =? p_Ident p) then drain fuel inflight windows
                else match inflight !! replySeq with
                     | None => drain fuel inflight windows
                     | Some entry =>
                         now_ ← now;
                         match push_to windows (pe_target entry)
                                 (mkSample (since_micros now_ (pe_sent entry)) false) with
                         | None => mret None
                         | Some windows => drain fuel (delete replySeq inflight) windows
                         end
                     end
            end
        end
    end.

(** daemon/internal/probe/pinger.go:116-193 (cycle): one Sample per Target, the
    next sequence number, and whether a send failed *)
Definition cycle (fuel : nat) (addrs : gmap string IP) (windows : gmap string WindowStats) (seq : Z)
    : M (option (gmap string WindowStats * Z * bool)) :=
  c ← send_all addrs (mkCycle ∅ windows seq false) (p_Targets p);
  match c with
  | None => mret None
  | Some c =>
      let finish inflight windows :=
        ws ← recordLoss inflight windows;
        mret ((λ ws, (ws, cy_seq c, cy_sendFailed c)) <$> ws) in
      err ← ctx_Err;
      match err with
      | Some _ => finish (cy_inflight c) (cy_windows c)
      | None =>
          r ← drain fuel (cy_inflight c) (cy_windows c);
          match r with
          | None => mret None
          | Some (inflight, windows) => finish inflight windows
          end
      end
  end.

(** ** The loop *)

(** The case the loop's first [select] takes, and for a tick whether the result
    channel or cancellation comes first. *)
Inductive ptick := PDone | PTick (delivered : bool).

#[export] Instance ptick_eq_dec : EqDecision ptick.
Proof. solve_decision. Defined.

Record run_state := mkRun { ru_sock : socket; ru_windows : gmap string WindowStats; ru_seq : Z }.

(** Where a run is: returned, leaving its socket to the deferred close, or
    waiting in its first [select]. *)
Inductive outcome := Returned (err : error) (s : socket) | Waiting (st : run_state).

(** daemon/internal/probe/pinger.go:63-70 (run): a Window per Target *)
Fixpoint new_windows (targets : list string) (out : gmap string WindowStats)
    : error + gmap string WindowStats :=
  match targets with
  | [] => inr out
  | t :: targets =>
      match NewWindow (p_WindowSize p) with
      | None => inl (Errorf "probe: target")
      | Some w => new_windows targets (<[t := w]> out)
      end
  end.

(** daemon/internal/probe/pinger.go:91-93 (run): a lost Sample for every
    Target *)
Definition lose_all (windows : gmap string WindowStats) : M (option (gmap string WindowStats)) :=
  entries ← range windows;
  mret (foldl (λ ws '(t, _), ws ← ws; push_to ws t (mkSample 0 true)) (Some windows) entries).

(** daemon/internal/probe/pinger.go:88-101 (run): the Samples of one tick, with
    no connection or with one *)
Definition sample (fuel : nat) (addrs : gmap string IP) (st : run_state) : M (option run_state) :=
  if negb (sk_open (ru_sock st)) then
    ws ← lose_all (ru_windows st);
    mret ((λ ws, mkRun (ru_sock st) ws (ru_seq st)) <$> ws)
  else
    r ← cycle fuel addrs (ru_windows st) (ru_seq st);
    match r with
    | None => mret None
    | Some (ws, seq, failed) =>
        sock ← (if failed : bool then recheck (ru_sock st) else mret (ru_sock st));
        mret (Some (mkRun sock ws seq))
    end.

(** daemon/internal/probe/pinger.go:102-107 (run): the result of one tick *)
Definition result (ws : gmap string WindowStats) : M (option ProbeResult) :=
  entries ← range ws;
  match Aggregate entries with
  | None => mret None
  | Some stats => t ← now; mret (Some (mkProbeResult (p_Wan p) (p_Family p) stats (Z.of_N t)))
  end.

(** daemon/internal/probe/pinger.go:80-113 (run): the loop *)
Fixpoint run_loop (fuel : nat) (addrs : gmap string IP) (st : run_state) (turns : list ptick)
    : M (option outcome) :=
  match turns with
  | [] => mret (Some (Waiting st))
  | PDone :: turns =>
      err ← ctx_Err;
      match err with
      | Some err => mret (Some (Returned err (ru_sock st)))
      | None => run_loop fuel addrs st turns
      end
  | PTick delivered :: turns =>
      '(sock, err) ← open (ru_sock st);
      match err with
      | Some err => mret (Some (Returned err sock))
      | None =>
          st ← sample fuel addrs (mkRun sock (ru_windows st) (ru_seq st));
          match st with
          | None => mret None
          | Some st =>
              res ← result (ru_windows st);
              match res with
              | None => mret None
              | Some res =>
                  err ← (if delivered : bool then mret None else ctx_Err);
                  match err with
                  | Some err => mret (Some (Returned err (ru_sock st)))
                  | None => _ ← emit res; run_loop fuel addrs st turns
                  end
              end
          end
      end
  end.

(** daemon/internal/probe/pinger.go:56-114 (run): resolve the Targets, make the
    Windows, open the socket, and loop; [NewTicker] panics on an interval that is
    not positive *)
Definition run (fuel : nat) (sock : socket) (turns : list ptick) : M (option outcome) :=
  match resolveTargets (p_Targets p) ∅ with
  | inl err => mret (Some (Returned err sock))
  | inr addrs =>
      match new_windows (p_Targets p) ∅ with
      | inl err => mret (Some (Returned err sock))
      | inr windows =>
          '(sock, err) ← open sock;
          match err with
          | Some err => mret (Some (Returned err sock))
          | None =>
              if p_Interval p <=? 0 then mret None
              else run_loop fuel addrs (mkRun sock windows 0) turns
          end
      end
  end.

(** daemon/internal/probe/pinger.go:42-54 (Run): a run over a new socket, which
    is closed when it returns *)
Definition Run (fuel : nat) (turns : list ptick) : M (option outcome) :=
  r ← run fuel newSocket turns;
  match r with
  | Some (Returned err sock) => sock ← close sock; mret (Some (Returned err sock))
  | r => mret r
  end.

End pinger.

(** ** Opening the socket *)

Section dial.
Context {E Ev : Type}.
(** [net.ListenPacket], telling whether the connection is an [*net.IPConn]; its
    Close; and the three steps of binding: the raw connection, and the two socket
    options, each of which can fail in [Control] or by itself. *)
Context (listen : string → E → (error + bool) * E) (close_conn : E → E).
Context (SyscallConn : E → option error * E).
Context (Control_bind : string → E → (error + (error + Z)) * E).

Abbreviation M := (M E Ev).

(** [os.ErrPermission], which [EPERM] and [EACCES] are. *)
Definition IsPermission (err : error) : bool := Is err (Errno 1) || Is err (Errno 13).

(** daemon/internal/probe/pinger.go:298-309 (wrapBindError): the capability hint *)
Definition wrapBindError (setErr : option error) : option error :=
  match setErr with
  | None => None
  | Some err => if IsPermission err then Some (Wrapf "SO_BINDTODEVICE: (need CAP_NET_RAW)" err) else Some err
  end.

(** daemon/internal/probe/pinger.go:274-291 (bindToDevice): the index the socket
    is bound to *)
Definition bindToDevice (iface : string) : M (error + Z) :=
  raw ← call SyscallConn;
  match raw with
  | Some err => mret (inl err)
  | None =>
      r ← call (Control_bind iface);
      mret match r with
           | inl ctrlErr => inl ctrlErr
           | inr (inl setErr) => match wrapBindError (Some setErr) with Some err => inl err | None => inr 0 end
           | inr (inr index) => inr index
           end
  end.

(** daemon/internal/probe/pinger.go:244-264 (dialICMPVia): listen, check the kind
    of connection, bind; closed on every error *)
Definition dialICMPVia (family : Family) (iface : string) : M (error + Z) :=
  let network := if decide (family = FamilyV6) then "ip6:ipv6-icmp" else "ip4:icmp" in
  pc ← call (listen network);
  match pc with
  | inl err => mret (inl err)
  | inr false =>
      _ ← call (λ e, ((), close_conn e));
      mret (inl (Errorf "probe: net.ListenPacket, want *net.IPConn"))
  | inr true =>
      r ← bindToDevice iface;
      match r with
      | inl err => _ ← call (λ e, ((), close_conn e)); mret (inl err)
      | inr index => mret (inr index)
      end
  end.

End dial.

(** ** Specifications *)

Section spec.
Context {E : Type} `{HC : PingConn E, HD : Dialer E}.
Context (p : Pinger).

(** The datagrams read until a read fails, which it does within [n]. *)
Fixpoint received (n : nat) (e : E) : option (list (list Z)) :=
  match n with
  | O => None
  | S n => match ReadFrom e with
           | (inl _, _) => Some []
           | (inr data, e) => cons data <$> received n e
           end
  end.

(** Which sends succeed, and the connection after them. *)
Fixpoint send_results (addrs : gmap string IP) (targets : list string) (seq : Z) (e : E) : list bool * E :=
  match targets with
  | [] => ([], e)
  | t :: targets =>
      let '(err, e) := WriteTo (default [] (EchoRequestBytes (p_Family p) (p_Ident p) seq []))
                         (default None (addrs !! t)) e in
      let '(oks, e) := send_results addrs targets (u16 (seq + 1)) e in
      (bool_decide (err = None) :: oks, e)
  end.

(** The sequence number of the [i]th Target of a cycle from [seq]. *)
Definition seq_of (seq : Z) (i : nat) : Z := u16 (seq + Z.of_nat i).

(** A datagram answers a request of this Pinger. *)
Definition answers (k : Z) (data : list Z) : bool :=
  match ParseEchoReply (p_Family p) data with
  | inr (ident, seq) => (ident =? p_Ident p) && (seq =? k)
  | inl _ => false
  end.

End spec.

(** ** Windows *)

(** [W] is [W0] with one Sample pushed per entry of [f]. *)
Definition pushed (W0 : gmap string WindowStats) (f : gmap string Sample) (W : gmap string WindowStats) : Prop :=
  ∀ t, W !! t = match f !! t with None => W0 !! t | Some s => W0 !! t ≫= λ w, Push w s end.

Definition wf_windows (W : gmap string WindowStats) (targets : list string) : Prop :=
  ∀ t, t ∈ targets → ∃ w, W !! t = Some w ∧ wf w.

Lemma pushed_refl W : pushed W ∅ W.
Proof. intros t. by rewrite lookup_empty. Qed.

Lemma push_to_pushed W0 f W ts t s :
  wf_windows W0 ts → t ∈ ts → f !! t = None → pushed W0 f W →
  ∃ W', push_to W t s = Some W' ∧ pushed W0 (<[t := s]> f) W'.
Proof.
  intros Hwf Ht Hf Hp. destruct (Hwf t Ht) as (w & Hw & Hwfw).
  destruct (Push_ok w s Hwfw) as (w' & Hw' & _). exists (<[t := w']> W). unfold push_to.
  rewrite (Hp t), Hf, Hw. cbn [mbind option_bind]. rewrite Hw'. split; [done|]. intros t'.
  destruct (decide (t' = t)) as [-> |Hne]; [by rewrite !lookup_insert_eq, Hw|].
  rewrite !lookup_insert_ne by done. apply Hp.
Qed.

Lemma seq_of_S seq i : u16 (seq_of seq i + 1) = seq_of seq (S i).
Proof. unfold seq_of, u16. rewrite Zplus_mod_idemp_l. f_equal. lia. Qed.

Lemma seq_of_inj seq i j : Z.of_nat i < 65536 → Z.of_nat j < 65536 → seq_of seq i = seq_of seq j → i = j.
Proof.
  unfold seq_of, u16. intros Hi Hj H.
  assert ((Z.of_nat i - Z.of_nat j) mod 65536 = 0) as Hm.
  { replace (Z.of_nat i - Z.of_nat j) with ((seq + Z.of_nat i) - (seq + Z.of_nat j)) by lia.
    by rewrite Zminus_mod, H, Z.sub_diag. }
  apply Z.mod_divide in Hm as [k Hk]; [|done]. assert (k = 0) by nia. lia.
Qed.

(** ** The cycle *)

Section cycle.
Context {E : Type} `{HC : PingConn E, HD : Dialer E}.
Context (p : Pinger) (seq : Z) (W0 : gmap string WindowStats) (targets : list string).
Context (Hfew : Z.of_nat (length targets) ≤ 65536) (Hnd : NoDup targets)
  (HW0 : wf_windows W0 targets).

(** Where each of the Targets [dn] stands: [ok] tells the sends that succeeded,
    [m] the requests answered so far. *)
Record standing (dn : list string) (ok m : nat → bool) (f : gmap string Sample) (infl : gmap Z pending) : Prop := {
  sd_lost i t : dn !! i = Some t → ok i = false → f !! t = Some (mkSample 0 true);
  sd_flying i t : dn !! i = Some t → ok i = true → m i = false →
    f !! t = None ∧ ∃ sent, infl !! seq_of seq i = Some (mkPending t sent);
  sd_answered i t : dn !! i = Some t → ok i = true → m i = true →
    infl !! seq_of seq i = None ∧ ∃ s, f !! t = Some s ∧ Lost s = false;
  sd_infl k e : infl !! k = Some e →
    ∃ i, dn !! i = Some (pe_target e) ∧ ok i = true ∧ m i = false ∧ k = seq_of seq i;
  sd_dom t s : f !! t = Some s → t ∈ dn
}.

Lemma echo_request seq0 : ∃ req, EchoRequestBytes (p_Family p) (p_Ident p) seq0 [] = Some req.
Proof.
  destruct (EchoRequestBytes_spec (p_Family p) (p_Ident p) seq0 []) as (c & _ & Hc & _); [constructor|done|eauto].
Qed.

Lemma standing_sent dn ok f infl t sent :
  Z.of_nat (length dn) < 65536 → t ∉ dn → ok (length dn) = true →
  standing dn ok (λ _, false) f infl →
  standing (dn ++ [t]) ok (λ _, false) f (<[seq_of seq (length dn) := mkPending t sent]> infl).
Proof.
  intros Hl Ht Hok [H1 H2 H3 H4 H5].
  assert (Hi : ∀ i t', (dn ++ [t]) !! i = Some t' → dn !! i = Some t' ∨ i = length dn ∧ t' = t).
  { intros i t' [?|[? Hx]]%lookup_app_Some; [by left|right].
    apply list_lookup_singleton_Some in Hx as [? <-]. split; [lia|done]. }
  split.
  - intros i t' [Hd|[-> ->]]%Hi Ho; [by eapply H1|congruence].
  - intros i t' [Hd|[-> ->]]%Hi Ho _.
    + destruct (H2 i t' Hd Ho eq_refl) as [Hf [sent' Hs]]. split; [done|]. exists sent'.
      rewrite lookup_insert_ne; [done|]. intros Heq. apply lookup_lt_Some in Hd.
      apply seq_of_inj in Heq; lia.
    + split; [|exists sent; apply lookup_insert_eq]. destruct (f !! t) eqn:Hf; [|done]. by apply H5 in Hf.
  - done.
  - intros k e [[<- <-]|[_ Hk]]%lookup_insert_Some.
    + exists (length dn). cbn. by rewrite lookup_app_r, Nat.sub_diag by lia.
    + destruct (H4 k e Hk) as (i & ? & ? & ? & ?). exists i. split; [by apply lookup_app_l_Some|done].
  - intros t' s Hf. apply elem_of_app. left. by eapply H5.
Qed.

Lemma standing_failed dn ok f infl t :
  t ∉ dn → ok (length dn) = false → standing dn ok (λ _, false) f infl →
  f !! t = None ∧ standing (dn ++ [t]) ok (λ _, false) (<[t := mkSample 0 true]> f) infl.
Proof.
  intros Ht Hok [H1 H2 H3 H4 H5].
  assert (Hft : f !! t = None) by (destruct (f !! t) eqn:Hf; [by apply H5 in Hf|done]).
  split; [done|].
  assert (Hne : ∀ i t', dn !! i = Some t' → t ≠ t') by (intros i t' Hd ->; by apply list_elem_of_lookup_2 in Hd).
  assert (Hi : ∀ i t', (dn ++ [t]) !! i = Some t' → dn !! i = Some t' ∨ i = length dn ∧ t' = t).
  { intros i t' [?|[? Hx]]%lookup_app_Some; [by left|right].
    apply list_lookup_singleton_Some in Hx as [? <-]. split; [lia|done]. }
  split.
  - intros i t' [Hd|[-> ->]]%Hi Ho; [|apply lookup_insert_eq]. rewrite lookup_insert_ne by eauto. by eapply H1.
  - intros i t' [Hd|[-> ->]]%Hi Ho _; [|congruence]. rewrite lookup_insert_ne by eauto. by apply H2.
  - done.
  - intros k e Hk. destruct (H4 k e Hk) as (i & ? & ? & ? & ?). exists i. split; [by apply lookup_app_l_Some|done].
  - intros t' s [[<- _]|[_ Hf]]%lookup_insert_Some; apply elem_of_app; [right; apply list_elem_of_here|left].
    by eapply H5.
Qed.

Lemma send_all_spec addrs ok rest : ∀ dn c (w : World E ProbeResult) f,
  targets = dn ++ rest → cy_seq c = seq_of seq (length dn) →
  (∀ j b, (send_results p addrs rest (cy_seq c) (w_env w)).1 !! j = Some b → ok (length dn + j)%nat = b) →
  standing dn ok (λ _, false) f (cy_inflight c) → pushed W0 f (cy_windows c) →
  wp (send_all p addrs c rest) (λ r w', ∃ c' f', r = Some c' ∧
    w_env w' = (send_results p addrs rest (cy_seq c) (w_env w)).2 ∧
    cy_seq c' = seq_of seq (length targets) ∧
    cy_sendFailed c' = (cy_sendFailed c || negb (forallb id (send_results p addrs rest (cy_seq c) (w_env w)).1)) ∧
    standing targets ok (λ _, false) f' (cy_inflight c') ∧ pushed W0 f' (cy_windows c')) w.
Proof.
  induction rest as [|t rest IH]; intros dn c w f Ht Hs Hok Hst Hp; cbn [send_all].
  { apply wp_ret. rewrite app_nil_r in Ht. subst dn. exists c, f. cbn. by rewrite orb_false_r. }
  assert (Hlen : Z.of_nat (length dn) < 65536) by (rewrite Ht, length_app in Hfew; cbn in Hfew; lia).
  assert (Htdn : (t ∉ dn) ∧ (t ∈ targets)).
  { rewrite Ht. split; [|apply elem_of_app; right; apply list_elem_of_here]. rewrite Ht in Hnd.
    apply NoDup_app in Hnd as (_ & Hd & _). intros Hin. by apply (Hd t Hin), list_elem_of_here. }
  destruct Htdn as [Htd Htt].
  destruct (echo_request (cy_seq c)) as [req Hreq].
  cbn [send_results] in Hok |- *. rewrite Hreq in Hok |- *. cbn [default from_option id] in Hok |- *.
  apply wp_bind. unfold send_one. rewrite Hreq. apply wp_bind. unfold wp at 1, call.
  destruct (WriteTo req (default None (addrs !! t)) (w_env w)) as [err e1] eqn:Hwr. cbn [fst snd].
  destruct (send_results p addrs rest (u16 (cy_seq c + 1)) e1) as [oks e2] eqn:Hres. cbn [fst snd] in Hok |- *.
  assert (Hok0 := Hok 0%nat _ eq_refl). rewrite Nat.add_0_r in Hok0.
  assert (Hstep : ∀ c1 f1 w1, w_env w1 = e1 → cy_seq c1 = u16 (cy_seq c + 1) →
    standing (dn ++ [t]) ok (λ _, false) f1 (cy_inflight c1) → pushed W0 f1 (cy_windows c1) →
    cy_sendFailed c1 = (cy_sendFailed c || negb (bool_decide (err = None))) →
    wp (send_all p addrs c1 rest) (λ r w', ∃ c' f', r = Some c' ∧ w_env w' = e2 ∧
      cy_seq c' = seq_of seq (length targets) ∧
      cy_sendFailed c' = (cy_sendFailed c || negb (forallb id (bool_decide (err = None) :: oks))) ∧
      standing targets ok (λ _, false) f' (cy_inflight c') ∧ pushed W0 f' (cy_windows c')) w1).
  { intros c1 f1 w1 He Hc1 Hst1 Hp1 Hf1. eapply wp_mono.
    - apply (IH (dn ++ [t]) c1 w1 f1); try done.
      + by rewrite <- app_assoc.
      + rewrite Hc1, Hs, seq_of_S, length_app. cbn. by rewrite Nat.add_1_r.
      + intros j b Hj. rewrite Hc1, He, Hres in Hj. rewrite length_app. cbn.
        specialize (Hok (S j) b Hj). by replace (length dn + 1 + j)%nat with (length dn + S j)%nat by lia.
    - intros r w2 (c' & f' & -> & Hen & Hsq & Hsf & Hst' & Hp'). exists c', f'. split; [done|].
      rewrite Hc1, He, Hres in *. split; [done|]. split; [done|]. split; [|done]. cbn [fst] in Hsf.
      rewrite Hsf, Hf1. cbn. by destruct (cy_sendFailed c), (bool_decide (err = None)). }
  destruct err as [err|].
  - destruct (standing_failed dn ok f (cy_inflight c) t) as [Hft Hst1]; [done|done|done|].
    destruct (push_to_pushed W0 f (cy_windows c) targets t (mkSample 0 true)) as (W' & HW' & Hp'); try done.
    apply wp_ret. rewrite HW'. cbn [mbind option_bind].
    eapply Hstep; [done|done|exact Hst1|exact Hp'|]. cbn. by rewrite orb_true_r.
  - apply wp_bind, (wp_quiet _). intros sent w2 Hw2. apply wp_ret. cbn [w_env] in Hw2.
    eapply Hstep; [done|done| |exact Hp|].
    + cbn. rewrite Hs. by apply standing_sent.
    + cbn. by rewrite orb_false_r.
Qed.

(** Only the marks of the Targets sent to matter. *)
Lemma standing_ext ok m m' f infl :
  (∀ i t, targets !! i = Some t → ok i = true → m' i = m i) →
  standing targets ok m f infl → standing targets ok m' f infl.
Proof.
  intros Hm [H1 H2 H3 H4 H5]. split; [done| | | |done].
  - intros i t Hi Ho Hf. apply H2; try done. by rewrite <- (Hm i t).
  - intros i t Hi Ho Hf. apply H3; try done. by rewrite <- (Hm i t).
  - intros k e Hk. destruct (H4 k e Hk) as (i & Hi & Ho & Hf & ->). exists i. by rewrite (Hm i _ Hi Ho).
Qed.

(** A reply takes its request out of flight and gives the Target its Sample. *)
Lemma standing_reply ok m f infl k e s :
  infl !! k = Some e → Lost s = false → standing targets ok m f infl →
  f !! pe_target e = None ∧ pe_target e ∈ targets ∧
  standing targets ok (λ i, m i || (seq_of seq i =? k)) (<[pe_target e := s]> f) (delete k infl).
Proof.
  intros Hk Hs [H1 H2 H3 H4 H5]. destruct (H4 k e Hk) as (i0 & Hi0 & Hok0 & Hm0 & ->).
  destruct (H2 _ _ Hi0 Hok0 Hm0) as [Hf0 _]. split; [done|]. split; [by eapply list_elem_of_lookup_2|].
  assert (Hlt : ∀ i t, targets !! i = Some t → Z.of_nat i < 65536) by (intros i t ?%lookup_lt_Some; lia).
  assert (Hne : ∀ i t, targets !! i = Some t → i ≠ i0 → t ≠ pe_target e ∧ seq_of seq i ≠ seq_of seq i0).
  { intros i t Hi Hn. split; [intros ->; apply Hn; by eapply NoDup_lookup|].
    intros ?%seq_of_inj; [done|by eapply Hlt..]. }
  split.
  - intros i t Hi Ho. rewrite lookup_insert_ne; [by eapply H1|]. intros <-.
    assert (i = i0) by (by eapply NoDup_lookup). congruence.
  - intros i t Hi Ho [Hm Hq]%orb_false_iff. apply Z.eqb_neq in Hq.
    destruct (Hne i t Hi) as [Ht _]; [by intros ->|]. rewrite lookup_insert_ne, lookup_delete_ne by done. by apply H2.
  - intros i t Hi Ho Hm. destruct (decide (i = i0)) as [-> |Hn].
    + assert (t = pe_target e) as -> by congruence. rewrite lookup_delete_eq, lookup_insert_eq. eauto.
    + destruct (Hne i t Hi Hn) as [Ht Hq]. apply Z.eqb_neq in Hq. rewrite Hq, orb_false_r in Hm.
      apply Z.eqb_neq in Hq. rewrite lookup_insert_ne, lookup_delete_ne by done. by apply H3.
  - intros k' e' [Hkk Hk']%lookup_delete_Some. destruct (H4 k' e' Hk') as (i & Hi & Ho & Hm & ->).
    exists i. rewrite Hm. split; [done|]. split; [done|]. split; [|done]. by apply Z.eqb_neq.
  - intros t s' [[<- _]|[_ Hf]]%lookup_insert_Some; [by eapply list_elem_of_lookup_2|by eapply H5].
Qed.

(** The requests some datagram answers. *)
Definition answered (ds : list (list Z)) (i : nat) : bool := existsb (answers p (seq_of seq i)) ds.

Lemma answers_inv k data : answers p k data = true → ParseEchoReply (p_Family p) data = inr (p_Ident p, k).
Proof.
  unfold answers. destruct (ParseEchoReply _ _) as [|[i q]]; [done|]. rewrite andb_true_iff, !Z.eqb_eq. by intros [-> ->].
Qed.

(** A datagram that answers no request in flight changes nothing. *)
Lemma standing_ignored ok rd f infl data :
  (∀ k, ParseEchoReply (p_Family p) data = inr (p_Ident p, k) → infl !! k = None) →
  standing targets ok (answered rd) f infl → standing targets ok (answered (rd ++ [data])) f infl.
Proof.
  intros Hig Hst. apply (standing_ext _ (answered rd)); [|done]. intros i t Hi Ho. unfold answered.
  rewrite existsb_app. cbn. rewrite orb_false_r. destruct (answers p (seq_of seq i) data) eqn:Ha; [|by rewrite orb_false_r].
  apply answers_inv, Hig in Ha. destruct (existsb _ rd) eqn:Hm; [done|].
  destruct (sd_flying _ _ _ _ _ Hst i t Hi Ho Hm) as (_ & sent & Hs). congruence.
Qed.

Lemma drain_spec ok fuel : ∀ rd infl W f (w : World E ProbeResult) ds,
  received fuel (w_env w) = Some ds → standing targets ok (answered rd) f infl → pushed W0 f W →
  wp (drain p fuel infl W) (λ r _, ∃ infl' W' f', r = Some (infl', W') ∧
    standing targets ok (answered (rd ++ ds)) f' infl' ∧ pushed W0 f' W') w.
Proof.
  assert (Hempty : ∀ rd ds f, standing targets ok (answered rd) f ∅ → standing targets ok (answered (rd ++ ds)) f ∅).
  { intros rd ds f Hst. apply (standing_ext _ (answered rd)); [|done]. intros i t Hi Ho. unfold answered.
    rewrite existsb_app. destruct (existsb _ rd) eqn:Hm; [done|].
    destruct (sd_flying _ _ _ _ _ Hst i t Hi Ho Hm) as (_ & sent & Hs). by rewrite lookup_empty in Hs. }
  induction fuel as [|fuel IH]; intros rd infl W f w ds Hds Hst Hp; [done|].
  cbn [drain]. destruct (decide (infl = ∅)) as [-> |Hne].
  { apply wp_ret. exists ∅, W, f. split; [done|]. split; [by apply Hempty|done]. }
  cbn [received] in Hds. apply wp_bind. unfold wp at 1, call.
  destruct (ReadFrom (w_env w)) as [[err|data] e]; cbn [fst snd].
  { injection Hds as <-. rewrite app_nil_r. apply wp_ret. by exists infl, W, f. }
  destruct (received fuel e) as [ds'|] eqn:Hds'; [|done]. injection Hds as <-.
  assert (Hnext : ∀ infl1 W1 f1 w1, w_env w1 = e →
    standing targets ok (answered (rd ++ [data])) f1 infl1 → pushed W0 f1 W1 →
    wp (drain p fuel infl1 W1) (λ r _, ∃ infl' W' f', r = Some (infl', W') ∧
      standing targets ok (answered (rd ++ data :: ds')) f' infl' ∧ pushed W0 f' W') w1).
  { intros infl1 W1 f1 w1 He Hs1 Hp1. rewrite cons_middle, app_assoc.
    apply (IH (rd ++ [data]) infl1 W1 f1); [by rewrite He|done|done]. }
  destruct (ParseEchoReply (p_Family p) data) as [perr|[ident q]] eqn:Hparse.
  { apply (Hnext infl W f); [done| |done]. apply standing_ignored; [|done]. by rewrite Hparse. }
  destruct (ident =? p_Ident p) eqn:Hid; cbn [negb].
  2: { apply (Hnext infl W f); [done| |done]. apply standing_ignored; [|done]. rewrite Hparse.
       intros k [= -> ->]. by rewrite Z.eqb_refl in Hid. }
  apply Z.eqb_eq in Hid as ->. destruct (infl !! q) as [entry|] eqn:Hq.
  2: { apply (Hnext infl W f); [done| |done]. apply standing_ignored; [|done]. rewrite Hparse. by intros k [= ->]. }
  apply wp_bind, (wp_quiet _). intros now_ w2 Hw2.
  destruct (standing_reply ok (answered rd) f infl q entry (mkSample (since_micros now_ (pe_sent entry)) false))
    as (Hf & Ht & Hst'); [done|done|done|].
  destruct (push_to_pushed W0 f W targets _ (mkSample (since_micros now_ (pe_sent entry)) false) HW0 Ht Hf Hp) as (W' & -> & Hp').
  eapply Hnext; [done| |exact Hp']. eapply standing_ext; [|exact Hst']. intros i t Hi Ho. cbn beta.
  unfold answered. rewrite existsb_app. cbn. rewrite orb_false_r. f_equal. unfold answers.
  rewrite Hparse, Z.eqb_refl. cbn. by rewrite Z.eqb_sym.
Qed.

(** A request that loses its Sample counts as one never sent. *)
Lemma standing_loss ok m f infl k e :
  infl !! k = Some e → standing targets ok m f infl →
  f !! pe_target e = None ∧ pe_target e ∈ targets ∧
  standing targets (λ i, ok i && negb (seq_of seq i =? k)) m (<[pe_target e := mkSample 0 true]> f) (delete k infl) ∧
  ∀ i t, targets !! i = Some t → ok i && negb (seq_of seq i =? k) && m i = ok i && m i.
Proof.
  intros Hk Hst. destruct (standing_reply ok m f infl k e (mkSample 0 false) Hk eq_refl Hst) as (Hf & Ht & Hst').
  split; [done|]. split; [done|]. destruct Hst as [H1 H2 H3 H4 H5].
  destruct (H4 k e Hk) as (i0 & Hi0 & Hok0 & Hm0 & ->).
  assert (Hlt : ∀ i t, targets !! i = Some t → Z.of_nat i < 65536) by (intros i t ?%lookup_lt_Some; lia).
  assert (Hsame : ∀ i t, targets !! i = Some t → seq_of seq i = seq_of seq i0 → i = i0).
  { intros i t Hi ?%seq_of_inj; [done|by eapply Hlt..]. }
  assert (Hother : ∀ i t, targets !! i = Some t → i ≠ i0 → t ≠ pe_target e).
  { intros i t Hi Hn ->. apply Hn. by eapply NoDup_lookup. }
  split.
  - split.
    + intros i t Hi Ho. destruct (decide (i = i0)) as [-> |Hn].
      { assert (t = pe_target e) as -> by congruence. apply lookup_insert_eq. }
      rewrite lookup_insert_ne by (by eapply not_eq_sym, Hother). apply (H1 i t Hi).
      apply andb_false_iff in Ho as [Ho|Ho]; [done|]. apply negb_false_iff, Z.eqb_eq in Ho.
      by destruct Hn; eapply Hsame.
    + intros i t Hi [Ho Hq]%andb_prop Hm. apply negb_true_iff, Z.eqb_neq in Hq.
      assert (i ≠ i0) by (by intros ->). rewrite lookup_insert_ne by (by eapply not_eq_sym, Hother).
      rewrite lookup_delete_ne by done. by apply H2.
    + intros i t Hi [Ho Hq]%andb_prop Hm. apply negb_true_iff, Z.eqb_neq in Hq.
      assert (i ≠ i0) by (by intros ->). rewrite lookup_insert_ne by (by eapply not_eq_sym, Hother).
      rewrite lookup_delete_ne by done. by apply H3.
    + intros k' e' [Hkk Hk']%lookup_delete_Some. destruct (H4 k' e' Hk') as (i & Hi & Ho & Hm & ->).
      exists i. rewrite Ho, (proj2 (Z.eqb_neq _ _)) by done. done.
    + intros t s [[<- _]|[_ Hs]]%lookup_insert_Some; [done|by eapply H5].
  - intros i t Hi. destruct (Z.eqb_spec (seq_of seq i) (seq_of seq i0)) as [Heq|]; [|by rewrite andb_true_r].
    apply (Hsame i t) in Heq as ->; [|done]. by rewrite Hm0, !andb_false_r.
Qed.

Lemma lose_fold l : ∀ ok m f infl W,
  l ≡ₚ map_to_list infl → standing targets ok m f infl → pushed W0 f W →
  ∃ f' W', foldl (λ ws '(_, e), ws ← ws; push_to ws (pe_target e) (mkSample 0 true)) (Some W) l = Some W' ∧
    pushed W0 f' W' ∧ (∀ t s, f' !! t = Some s → t ∈ targets) ∧
    ∀ i t, targets !! i = Some t → ∃ s, f' !! t = Some s ∧ Lost s = negb (ok i && m i).
Proof.
  induction l as [|[k e] l IH]; intros ok m f infl W Hl Hst Hp.
  - symmetry in Hl. apply Permutation_nil_r, map_to_list_empty_iff in Hl as ->. exists f, W. split; [done|].
    split; [done|]. split; [apply Hst|]. intros i t Hi. destruct (ok i) eqn:Ho; [|by rewrite (sd_lost _ _ _ _ _ Hst i t Hi Ho); eexists].
    destruct (m i) eqn:Hm; [by destruct (sd_answered _ _ _ _ _ Hst i t Hi Ho Hm) as (_ & s & ? & ?); exists s|].
    destruct (sd_flying _ _ _ _ _ Hst i t Hi Ho Hm) as (_ & sent & Hs). by rewrite lookup_empty in Hs.
  - assert (Hk : infl !! k = Some e) by (apply elem_of_map_to_list; rewrite <- Hl; apply list_elem_of_here).
    destruct (standing_loss ok m f infl k e Hk Hst) as (Hf & Ht & Hst' & Hsame). cbn [foldl].
    destruct (push_to_pushed W0 f W targets _ (mkSample 0 true) HW0 Ht Hf Hp) as (W' & HW' & Hp').
    cbn [mbind option_bind]. rewrite HW'.
    destruct (IH _ m _ (delete k infl) W' ltac:(rewrite <- (map_to_list_delete _ _ _ Hk) in Hl; by apply Permutation_cons_inv in Hl) Hst' Hp')
      as (f' & W'' & HW'' & Hp'' & Hdom & Hall).
    exists f', W''. split; [done|]. split; [done|]. split; [done|]. intros i t Hi. destruct (Hall i t Hi) as (s & Hs & Hlost).
    exists s. split; [done|]. by rewrite Hlost, (Hsame i t Hi).
Qed.

(** Every request still in flight loses its Sample; then every Target has one. *)
Lemma recordLoss_spec ok m f infl W (w : World E ProbeResult) :
  standing targets ok m f infl → pushed W0 f W →
  wp (recordLoss infl W) (λ r _, ∃ f' W', r = Some W' ∧ pushed W0 f' W' ∧
    (∀ t s, f' !! t = Some s → t ∈ targets) ∧
    ∀ i t, targets !! i = Some t → ∃ s, f' !! t = Some s ∧ Lost s = negb (ok i && m i)) w.
Proof.
  intros Hst Hp. unfold recordLoss. apply wp_bind. unfold wp at 1, range. cbn [fst snd].
  match goal with |- context [shuffle ?c ?l] => pose proof (shuffle_Permutation c l) as Hl end.
  destruct (lose_fold _ ok m f infl W Hl Hst Hp) as (f' & W' & HW' & ?). by exists f', W'.
Qed.

Lemma standing_nil ok m : standing [] ok m ∅ ∅.
Proof. split; intros *; try rewrite lookup_nil; try rewrite lookup_empty; done. Qed.

#[local] Instance recordLoss_quiet infl W : Quiet (recordLoss (E:=E) infl W).
Proof. unfold recordLoss. quiet_by. Qed.

(** A send takes one step of the schedule, and one more when it succeeds. *)
Lemma send_all_steps addrs rest : ∀ c (w : World E ProbeResult), (send_all p addrs c rest w).1 ≠ None →
  w_sched (send_all p addrs c rest w).2 = w_sched w ∧
  w_tick (send_all p addrs c rest w).2 = (w_tick w + length rest +
    length (filter Is_true (send_results p addrs rest (cy_seq c) (w_env w)).1))%nat.
Proof.
  induction rest as [|t rest IH]; intros c w Hne; cbn [send_all send_results] in *; [cbn; split; [done|lia]|].
  unfold mbind, M_bind, send_one in *. destruct (echo_request (cy_seq c)) as [req Hreq]. rewrite Hreq in *.
  unfold call, mbind, M_bind in *. cbn [default from_option id] in *.
  destruct (WriteTo req (default None (addrs !! t)) (w_env w)) as [[err|] e1] eqn:Hwr; cbn in Hne |- *.
  - destruct (push_to _ _ _) as [W|]; cbn in Hne |- *; [|done]. destruct (IH _ _ Hne) as [-> ->]. cbn.
    destruct (send_results p _ _ _ e1) as [oks e2]. split; [done|].
    cbn [fst]. rewrite (filter_cons_False _ _ oks) by by intros []. lia.
  - destruct (IH _ _ Hne) as [-> ->]. cbn. destruct (send_results p _ _ _ e1) as [oks e2]. split; [done|].
    cbn [fst]. rewrite (filter_cons_True _ _ oks) by done. cbn. lia.
Qed.

(** Cancellation landed while a cycle that starts in [w] was sending: by the step
    at which its last send is over. *)
Definition landed_mid_send (w : World E ProbeResult) (oks : list bool) : bool :=
  cancelled_by w (w_tick w + length targets + length (filter Is_true oks))%nat.

Lemma cycle_spec fuel addrs (w : World E ProbeResult) oks e ds :
  targets = p_Targets p → 0 ≤ seq < 65536 →
  send_results p addrs targets seq (w_env w) = (oks, e) → received fuel e = Some ds →
  wp (cycle p fuel addrs W0 seq) (λ r w', ∃ f W',
    r = Some (W', seq_of seq (length targets), negb (forallb id oks)) ∧
    pushed W0 f W' ∧ (∀ t s, f !! t = Some s → t ∈ targets) ∧ (landed_mid_send w oks = true → w_env w' = e) ∧
    ∀ i t, targets !! i = Some t → ∃ s, f !! t = Some s ∧
      Lost s = negb (default false (oks !! i) && (negb (landed_mid_send w oks) && answered ds i))) w.
Proof.
  intros Htp Hseq Hsend Hds. set (ok := λ i, default false (oks !! i)).
  unfold cycle. rewrite <- Htp. apply wp_bind.
  pose proof (send_all_steps addrs targets (mkCycle ∅ W0 seq false) w) as Hsteps.
  cbn [cy_seq] in Hsteps. rewrite Hsend in Hsteps. cbn [fst] in Hsteps.
  eapply wp_mono.
  { apply (wp_conj _ (λ r w', r ≠ None → w_sched w' = w_sched w ∧
      w_tick w' = (w_tick w + length targets + length (filter Is_true oks))%nat)); [exact Hsteps|].
     apply (send_all_spec addrs ok targets [] (mkCycle ∅ W0 seq false) w ∅); cbn.
    - done.
    - unfold seq_of, u16. cbn. rewrite Z.add_0_r. symmetry. by apply Z.mod_small.
    - rewrite Hsend. cbn. intros j b Hj. unfold ok. by rewrite Hj.
    - apply standing_nil.
    - apply pushed_refl. }
  cbn. rewrite Hsend. cbn. intros _ w1 (Hst1 & c1 & f1 & -> & He & Hsq & Hsf & Hst & Hp).
  assert (Hland : landed_mid_send w oks = cancelled w1).
  { destruct Hst1 as [Hs1 Ht1]; [done|]. unfold landed_mid_send, cancelled, cancelled_by. by rewrite Hs1, Ht1. }
  clear Hst1 Hsteps. set (c := landed_mid_send w oks) in *.
  assert (Hfin : ∀ m f infl W (w2 : World E ProbeResult), (∀ i t, targets !! i = Some t → ok i && m i = ok i && (negb c && answered ds i)) →
    (c = true → w_env w2 = e) → standing targets ok m f infl → pushed W0 f W →
    wp (ws ← recordLoss infl W; mret ((λ ws, (ws, cy_seq c1, cy_sendFailed c1)) <$> ws)) (λ r w', ∃ f W',
      r = Some (W', seq_of seq (length targets), negb (forallb id oks)) ∧
      pushed W0 f W' ∧ (∀ t s, f !! t = Some s → t ∈ targets) ∧ (c = true → w_env w' = e) ∧
      ∀ i t, targets !! i = Some t → ∃ s, f !! t = Some s ∧
        Lost s = negb (ok i && (negb c && answered ds i))) w2).
  { intros m f infl W w2 Hm Hc Hst2 Hp2. apply wp_bind.
    eapply wp_mono; [apply (wp_conj _ (λ _ w', w_env w' = w_env w2)); [apply (quiet (m:=recordLoss infl W) w2)|apply (recordLoss_spec ok m f); done]|].
    cbn. intros _ w3 (Henv & f' & W' & -> & Hp' & Hdom & Hall).
    apply wp_ret. exists f', W'. cbn. rewrite Hsq, Hsf, Henv. split; [done|]. split; [done|]. split; [done|].
    split; [done|]. intros i t Hi. destruct (Hall i t Hi) as (s & Hs & Hl). exists s. by rewrite Hl, (Hm i t Hi). }
  apply wp_bind. unfold wp at 1, ctx_Err. cbn [fst snd]. rewrite <- Hland. destruct c.
  - apply (Hfin (λ _, false) f1); done.
  - apply wp_bind. eapply wp_mono.
    { apply (drain_spec ok fuel [] _ _ f1 (step w1) ds); [by cbn; rewrite He|done|done]. }
    cbn beta. intros _ w2 (infl' & W' & f' & -> & Hst' & Hp'). by apply (Hfin (answered ds) f').
Qed.

End cycle.
