(* ===== verification/PingerLoop.v ===== *)
(** * The Pinger's loop

    The properties of [pinger.go] and [socket.go] over whole runs: what a cycle
    makes of the replies, one ProbeResult per tick, and a run that ends. *)
From stdpp Require Import sorting.
From S2P Require Import Prelude GoFloat Icmp Window Aggregate Runtime NetIP Pinger.

#[local] Open Scope Z_scope.

Section loop.
Context {E : Type} `{HC : PingConn E, HD : Dialer E}.
Context (p : Pinger).

(** Every sequence of reads ends with a failed one, as the deadline makes it. *)
Definition reads_end : Prop := ∀ e : E, ∃ n ds, received n e = Some ds.

(** ** Fuel *)

Lemma received_mono n m (e : E) ds : received n e = Some ds → (n ≤ m)%nat → received m e = Some ds.
Proof.
  revert m e ds. induction n as [|n IH]; intros m e ds Hn Hm; [done|]. destruct m as [|m]; [lia|]. cbn in Hn |- *.
  destruct (ReadFrom e) as [[?|data] e']; [done|]. destruct (received n e') as [ds'|] eqn:Hds; [|done].
  by rewrite (IH m e' ds' Hds) by lia.
Qed.

(** With the reads ending within [n], more fuel changes nothing. *)
Lemma drain_mono n m infl W ds : (n ≤ m)%nat → ∀ w : World E ProbeResult,
  received n (w_env w) = Some ds → drain p m infl W w = drain p n infl W w.
Proof.
  revert m infl W ds. induction n as [|n IH]; intros m infl W ds Hm w Hn; [done|]. destruct m as [|m]; [lia|].
  cbn [drain received] in Hn |- *. destruct (decide (infl = ∅)); [done|]. unfold mbind, M_bind, call.
  destruct (ReadFrom (w_env w)) as [[?|data] e']; [done|]. destruct (received n e') as [ds'|] eqn:Hds; [|done].
  assert (Hrec : ∀ infl1 W1 w1, w_env w1 = e' → drain p m infl1 W1 w1 = drain p n infl1 W1 w1).
  { intros infl1 W1 w1 He. apply (IH m infl1 W1 ds'); [lia|by rewrite He]. }
  destruct (ParseEchoReply _ _) as [|[ident q]]; [by apply Hrec|]. destruct (negb _); [by apply Hrec|].
  destruct (infl !! q) as [entry|]; [|by apply Hrec]. unfold now. destruct (push_to _ _ _); [|done]. by apply Hrec.
Qed.

(** ** Silence: only the loop sends results *)

#[local] Instance send_one_silent addrs c t : Silent (send_one (E:=E) p addrs c t).
Proof.
  unfold send_one. destruct (EchoRequestBytes _ _ _ _); [|apply _]. apply silent_bind; [apply _|].
  intros [?|]; apply _.
Qed.

#[local] Instance send_all_silent addrs c ts : Silent (send_all (E:=E) p addrs c ts).
Proof. revert c. induction ts as [|t ts IH]; intros c; [apply _|]. apply silent_bind; [apply _|]. intros []; apply _. Qed.

#[local] Instance drain_silent fuel infl W : Silent (drain (E:=E) p fuel infl W).
Proof.
  revert infl W. induction fuel as [|fuel IH]; intros infl W; cbn [drain]; destruct (decide _); try apply _.
  apply silent_bind; [apply _|]. intros [?|data]; [apply _|].
  destruct (ParseEchoReply _ _) as [|[ident q]]; [apply _|]. destruct (negb _); [apply _|].
  destruct (infl !! q); [|apply _]. apply silent_bind; [apply _|]. intros now_. destruct (push_to _ _ _); apply _.
Qed.

#[local] Instance recordLoss_silent infl W : Silent (recordLoss (E:=E) infl W).
Proof. unfold recordLoss. apply _. Qed.

#[local] Instance cycle_silent fuel addrs W seq : Silent (cycle (E:=E) p fuel addrs W seq).
Proof.
  unfold cycle. apply silent_bind; [apply _|]. intros [c|]; [|apply _]. apply silent_bind; [apply _|].
  intros [?|]; [apply _|]. apply silent_bind; [apply _|]. intros [[infl W']|]; apply _.
Qed.

#[export] Instance close_silent s : Silent (close (E:=E) s).
Proof. unfold close. destruct (sk_open s); apply _. Qed.

#[export] Instance open_silent s : Silent (open (E:=E) p s).
Proof. unfold open. destruct (sk_open s); apply _. Qed.

#[local] Instance recheck_silent s : Silent (recheck (E:=E) p s).
Proof.
  unfold recheck. destruct (negb _); [apply _|]. apply silent_bind; [apply _|]. intros r.
  destruct (match r with inl _ => _ | inr _ => _ end); apply _.
Qed.

#[export] Instance sample_silent fuel addrs st : Silent (sample (E:=E) p fuel addrs st).
Proof.
  unfold sample, lose_all. destruct (negb _); [apply _|]. apply silent_bind; [apply _|].
  intros [[[ws seq] failed]|]; [|apply _]. destruct failed; apply _.
Qed.

#[export] Instance result_silent W : Silent (result (E:=E) p W).
Proof. unfold result. apply silent_bind; [apply _|]. intros. destruct (Aggregate _); apply _. Qed.

(** ** The Windows after [k] ticks *)

Context (Hnd : NoDup (p_Targets p)) (Hfew : Z.of_nat (length (p_Targets p)) ≤ 65536)
  (Hne : p_Targets p ≠ []) (Hsize : p_WindowSize p < 2 ^ 53) (Hinterval : 0 < p_Interval p).

(** A Window that took [k] Samples. *)
Record aged (k : Z) (w : WindowStats) : Prop := {
  ag_wf : wf w;
  ag_capacity : w_capacity w = p_WindowSize p;
  ag_filled : w_filled w = (p_WindowSize p <=? k);
  ag_head : w_filled w = false → w_head w = k
}.

Definition windows_aged (k : Z) (W : gmap string WindowStats) : Prop :=
  (∀ t, is_Some (W !! t) ↔ t ∈ p_Targets p) ∧ ∀ t w, W !! t = Some w → aged k w.

Lemma NewWindow_aged w : NewWindow (p_WindowSize p) = Some w → aged 0 w.
Proof.
  intros Hw. destruct (NewWindow_wf _ _ Hw) as (Hwf & _ & Hc). split; [done|done| |].
  - unfold NewWindow in Hw. destruct (_ <=? 0); [done|]. by injection Hw as <-.
  - intros _. unfold NewWindow in Hw. destruct (_ <=? 0); [done|]. by injection Hw as <-.
Qed.

Lemma Push_aged k w s w' : 0 ≤ k → aged k w → Push w s = Some w' → aged (k + 1) w'.
Proof.
  intros Hk [Hwf Hc Hf Hh] HP. destruct (Push_ok w s Hwf) as (w1 & HP' & Hwf' & Hc' & _ & Hh' & Hf').
  assert (w1 = w') as <- by congruence.
  assert (Hcase : w_filled w1 = (p_WindowSize p <=? k + 1) ∧ (w_filled w1 = false → w_head w1 = k + 1)).
  { destruct (w_filled w).
    - assert (Hf1 : w_filled w1 = true) by (rewrite Hf'; by destruct (_ =? _)). rewrite Hf1. split; [|done].
      symmetry in Hf |- *. apply Z.leb_le in Hf. apply Z.leb_le. lia.
    - rewrite Hh' in Hf' |- *. rewrite Hc, Hh in Hf' |- * by done. symmetry in Hf. apply Z.leb_gt in Hf.
      destruct (Z.eq_dec (k + 1) (p_WindowSize p)) as [Heq|Hneq].
      + rewrite <- Heq, Z.mod_same in * by lia. rewrite Z.leb_refl. by rewrite Hf'.
      + rewrite Z.mod_small in * by lia. rewrite (proj2 (Z.eqb_neq (k + 1) 0)) in Hf' by lia.
        rewrite Hf', (proj2 (Z.leb_gt _ _)) by lia. done. }
  destruct Hcase. split; [done|congruence|done|done].
Qed.

Lemma pushed_aged k W f W' : 0 ≤ k → windows_aged k W → pushed W f W' →
  (∀ t, is_Some (f !! t) ↔ t ∈ p_Targets p) → windows_aged (k + 1) W'.
Proof.
  intros Hk [Hdom Hag] Hp Hf.
  assert (Hat : ∀ t, t ∈ p_Targets p → ∃ w', W' !! t = Some w' ∧ aged (k + 1) w').
  { intros t Ht. destruct (proj2 (Hdom t) Ht) as [w Hw]. destruct (proj2 (Hf t) Ht) as [s Hs].
    destruct (Push_ok w s (ag_wf _ _ (Hag t w Hw))) as (w' & HP & _). exists w'.
    rewrite (Hp t), Hs, Hw. split; [done|]. by eapply Push_aged; [|apply (Hag t)|]. }
  assert (Hout : ∀ t, is_Some (W' !! t) → t ∈ p_Targets p).
  { intros t Ht. rewrite (Hp t) in Ht. destruct (f !! t) as [s|] eqn:Hs; [by apply Hf; rewrite Hs|by apply Hdom]. }
  split.
  - intros t. split; [apply Hout|]. intros Ht. destruct (Hat t Ht) as (w' & Hw & _). by rewrite Hw.
  - intros t w Hw. destruct (Hat t (Hout t ltac:(by rewrite Hw))) as (w' & Hw' & ?). by assert (w' = w) as <- by congruence.
Qed.

Lemma windows_aged_wf k W : windows_aged k W → wf_windows W (p_Targets p).
Proof. intros [Hd Ha] t Ht. destruct (proj2 (Hd t) Ht) as [w Hw]. exists w. split; [done|]. by apply (Ha t w). Qed.

(** ** No connection: every Target loses its Sample *)

Lemma lose_all_fold W0 k (l : list (string * WindowStats)) : windows_aged k W0 → ∀ f W,
  NoDup l.*1 → (∀ t, t ∈ l.*1 → t ∈ p_Targets p ∧ f !! t = None) → pushed W0 f W →
  ∃ f' W', foldl (λ ws '(t, _), ws ← ws; push_to ws t (mkSample 0 true)) (Some W) l = Some W' ∧ pushed W0 f' W' ∧
    (∀ t, f' !! t = (if decide (t ∈ l.*1) then Some (mkSample 0 true) else f !! t)).
Proof.
  intros Hag. induction l as [|[t w] l IH]; intros f W Hl Hdom Hp.
  { exists f, W. split; [done|]. split; [done|]. intros t. by rewrite decide_False by apply not_elem_of_nil. }
  cbn [fmap list_fmap fst] in Hl, Hdom. apply NoDup_cons in Hl as [Ht Hl].
  destruct (Hdom t (list_elem_of_here _ _)) as [Htt Hft].
  destruct (push_to_pushed W0 f W (p_Targets p) t (mkSample 0 true) (windows_aged_wf _ _ Hag) Htt Hft Hp) as (W1 & HW1 & Hp1).
  cbn [foldl]. cbn [mbind option_bind]. rewrite HW1.
  destruct (IH (<[t := mkSample 0 true]> f) W1) as (f' & W' & HW' & Hp' & Hf'); [done| |done|].
  { intros t' Ht'. split; [apply Hdom; by apply list_elem_of_further|].
    rewrite lookup_insert_ne by (intros ->; done). apply Hdom. by apply list_elem_of_further. }
  exists f', W'. split; [exact HW'|]. split; [done|]. intros t'. rewrite Hf'. cbn [fmap list_fmap fst].
  destruct (decide (t' ∈ l.*1)) as [Hin|Hin].
  - rewrite decide_True; [done|]. by apply list_elem_of_further.
  - destruct (decide (t' = t)) as [-> |Hneq].
    + rewrite lookup_insert_eq, decide_True; [done|]. apply list_elem_of_here.
    + rewrite lookup_insert_ne by done. rewrite decide_False; [done|]. rewrite elem_of_cons. by intros [?|?].
Qed.

Lemma lose_all_pushed k W (w : World E ProbeResult) : windows_aged k W →
  wp (lose_all W) (λ r w', w_env w' = w_env w ∧ ∃ f W', r = Some W' ∧ pushed W f W' ∧
    ∀ t, f !! t = if decide (t ∈ p_Targets p) then Some (mkSample 0 true) else None) w.
Proof.
  intros Hag. unfold lose_all. apply wp_bind. unfold wp at 1, range. cbn [fst snd].
  match goal with |- context [shuffle ?c ?l] => pose proof (shuffle_Permutation c l) as Hl; generalize dependent (shuffle c l) end.
  intros l Hl. apply wp_ret. split; [done|].
  assert (Hkeys : ∀ t, t ∈ l.*1 ↔ t ∈ p_Targets p).
  { intros t. rewrite Hl, <- (proj1 Hag t). split.
    - intros [[t' w'] [-> Ht]]%list_elem_of_fmap. apply elem_of_map_to_list in Ht. by exists w'.
    - intros [w' Hw]. apply list_elem_of_fmap. exists (t, w'). split; [done|]. by apply elem_of_map_to_list. }
  destruct (lose_all_fold W k l Hag ∅ W) as (f & W' & HW & Hp & Hf).
  - rewrite Hl. apply NoDup_fst_map_to_list.
  - intros t Ht. by rewrite <- Hkeys, lookup_empty.
  - apply pushed_refl.
  - exists f, W'. split; [exact HW|]. split; [done|]. intros t. rewrite Hf, lookup_empty.
    by apply decide_ext.
Qed.

Lemma lose_all_spec k W (w : World E ProbeResult) : 0 ≤ k → windows_aged k W →
  wp (lose_all W) (λ r _, ∃ W', r = Some W' ∧ windows_aged (k + 1) W') w.
Proof.
  intros Hk Hag. eapply wp_mono; [by apply (lose_all_pushed k)|]. cbn beta. intros _ w' (_ & f & W' & -> & Hp & Hf).
  exists W'. split; [done|]. apply (pushed_aged k W f W'); [done..|]. intros t. rewrite Hf.
  destruct (decide _) as [Ht|Ht]; [|by split; [intros []|]]. split; [done|]. by eexists.
Qed.

(** ** One tick *)

Context (Hreads : reads_end).

(** A cycle from a running state, with enough fuel for its reads. *)
Lemma cycle_enough k addrs W seq (w : World E ProbeResult) :
  0 ≤ k → windows_aged k W → 0 ≤ seq < 65536 →
  ∃ n, (∀ fuel, (n ≤ fuel)%nat → cycle p fuel addrs W seq w = cycle p n addrs W seq w) ∧
    wp (cycle p n addrs W seq) (λ r _, ∃ W' failed, r = Some (W', seq_of seq (length (p_Targets p)), failed) ∧
      windows_aged (k + 1) W') w.
Proof.
  intros Hk Hag Hseq. destruct (send_results p addrs (p_Targets p) seq (w_env w)) as [oks e] eqn:Hsend.
  destruct (Hreads e) as (n & ds & Hds). exists n. split.
  - intros fuel Hfuel. unfold cycle, mbind, M_bind.
    assert (He : w_env (send_all p addrs (mkCycle ∅ W seq false) (p_Targets p) w).2 = e).
    { pose proof (send_all_spec p seq W (p_Targets p) Hfew Hnd (windows_aged_wf _ _ Hag) addrs
        (λ i, default false (oks !! i)) (p_Targets p) [] (mkCycle ∅ W seq false) w ∅) as Hspec.
      unfold wp in Hspec. cbn [cy_seq cy_inflight cy_windows length app plus] in Hspec. rewrite Hsend in Hspec. cbn [fst snd] in Hspec.
      destruct Hspec as (? & ? & _ & ? & _); [done| | | | |done].
      - unfold seq_of, u16. by rewrite Z.add_0_r, Z.mod_small.
      - intros j b Hj. by rewrite Hj.
      - apply standing_nil.
      - apply pushed_refl. }
    destruct (send_all _ _ _ _ _) as [[c|] w1]; [|done]. cbn [snd] in He. unfold ctx_Err. destruct (cancelled w1); [done|].
    by rewrite (drain_mono n fuel _ _ ds Hfuel (step w1)) by (by cbn; rewrite He).
  - eapply wp_mono; [by apply (cycle_spec p seq W (p_Targets p) Hfew Hnd (windows_aged_wf _ _ Hag) n addrs w oks e ds)|].
    cbn beta. intros _ w' (f & W' & -> & Hp & Hdom & _ & Hall). do 2 eexists. split; [done|].
    eapply pushed_aged; [done|exact Hag|exact Hp|]. intros t. split; [intros [s Hs]; by eapply Hdom|].
    intros [i Hi]%list_elem_of_lookup. destruct (Hall i t Hi) as (s & Hs & _). by exists s.
Qed.

(** The state of a loop that took [k] ticks. *)
Definition ready (k : Z) (st : run_state) : Prop := windows_aged k (ru_windows st) ∧ 0 ≤ ru_seq st < 65536.

Lemma sample_enough k addrs st (w : World E ProbeResult) : 0 ≤ k → ready k st →
  ∃ n, (∀ fuel, (n ≤ fuel)%nat → sample p fuel addrs st w = sample p n addrs st w) ∧
    wp (sample p n addrs st) (λ r _, ∃ st', r = Some st' ∧ ready (k + 1) st') w.
Proof.
  intros Hk [Hag Hseq]. unfold sample. destruct (negb (sk_open (ru_sock st))).
  - exists O. split; [done|]. apply wp_bind. eapply wp_mono; [by apply (lose_all_spec k)|].
    cbn beta. intros _ w' (W' & -> & Hag'). apply wp_ret. eexists. split; [done|]. by split.
  - destruct (cycle_enough k addrs (ru_windows st) (ru_seq st) w Hk Hag Hseq) as (n & Hmono & Hn). exists n. split.
    + intros fuel Hfuel. unfold mbind, M_bind. by rewrite (Hmono fuel Hfuel).
    + apply wp_bind. eapply wp_mono; [exact Hn|]. cbn beta. intros _ w' (W' & failed & -> & Hag').
      apply wp_bind, wp_any. intros sock w2. apply wp_ret. eexists. split; [done|]. split; [done|]. apply u16_range.
Qed.

(** The result of the [k]th tick. *)
Definition good (k : Z) (r : ProbeResult) : Prop :=
  pr_Wan r = p_Wan p ∧ pr_Family r = p_Family p ∧
  fs_WindowFilled (pr_Stats r) = (p_WindowSize p <=? k) ∧
  ts_Target <$> fs_PerTarget (pr_Stats r) ≡ₚ p_Targets p.

Lemma result_spec k W (w : World E ProbeResult) : windows_aged k W →
  wp (result p W) (λ r _, ∃ res, r = Some res ∧ good k res) w.
Proof.
  intros [Hdom Hag]. unfold result. apply wp_bind. unfold wp at 1, range. cbn [fst snd].
  match goal with |- context [shuffle ?c ?l] => pose proof (shuffle_Permutation c l) as Hl; generalize dependent (shuffle c l) end.
  intros l Hl.
  assert (Hin : ∀ e, e ∈ l → aged k e.2).
  { intros [t w'] He. rewrite Hl in He. apply elem_of_map_to_list in He. by apply (Hag t). }
  assert (Hkeys : l.*1 ≡ₚ p_Targets p).
  { rewrite Hl. apply NoDup_Permutation; [apply NoDup_fst_map_to_list|done|]. intros t. rewrite <- (Hdom t). split.
    - intros [[t' w'] [-> Ht]]%list_elem_of_fmap. apply elem_of_map_to_list in Ht. by exists w'.
    - intros [w' Hw]. apply list_elem_of_fmap. exists (t, w'). split; [done|]. by apply elem_of_map_to_list. }
  assert (Hlne : l ≠ []) by (intros ->; symmetry in Hkeys; by apply Permutation_nil_r in Hkeys).
  destruct (target_stats_total l) as (tss & HM & _).
  { intros e He. destruct (Hin e He) as [Hwf Hc _ _]. split; [done|]. unfold Capacity. by rewrite Hc. }
  rewrite (Aggregate_spec l tss HM Hlne). apply wp_bind, wp_any. intros t w2. apply wp_ret. eexists. split; [done|].
  unfold good. cbn. split; [done|]. split; [done|]. split.
  - destruct l as [|e l]; [done|]. assert (Hf : ∀ e', e' ∈ e :: l → Filled e'.2 = (p_WindowSize p <=? k)) by (intros e' He'; apply (Hin e' He')).
    destruct (p_WindowSize p <=? k).
    + apply List.forallb_forall. intros e' He'. apply Hf. by apply list_elem_of_In.
    + cbn. by rewrite (Hf e (list_elem_of_here _ _)).
  - rewrite merge_sort_Permutation. rewrite (target_stats_Target l tss HM). exact Hkeys.
Qed.

(** ** The loop and the run *)

Definition ticks (turns : list ptick) : nat := length (filter (λ t, t ≠ PDone) turns).

(** A dial that failed for another reason than an absent interface. *)
Definition dial_error (err : error) : Prop :=
  ∃ cause e, err = Wrapf "probe: open icmp" cause ∧ (dial (p_Family p) (p_Interface p) e).1 = inl cause ∧
    Is cause ENODEV = false.

(** What stops a loop: the cancelled context, or such a dial. *)
Definition loop_error (err : error) (w : World E ProbeResult) : Prop :=
  err = ErrCanceled ∧ cancelled w = true ∨ dial_error err.

(** What stops a run. *)
Definition run_error (err : error) (w : World E ProbeResult) : Prop :=
  resolveTargets p (p_Targets p) ∅ = inl err ∨ new_windows p (p_Targets p) ∅ = inl err ∨ loop_error err w.

Lemma open_error s (w : World E ProbeResult) :
  wp (open p s) (λ '(_, err) _, ∀ e, err = Some e → dial_error e) w.
Proof.
  unfold open. destruct (sk_open s); [by apply wp_ret|]. apply wp_bind. unfold wp at 1, call.
  destruct (dial (p_Family p) (p_Interface p) (w_env w)) as [[err|bound] e'] eqn:Hd; cbn [fst snd]; [|by apply wp_ret].
  destruct (Is err ENODEV) eqn:He; apply wp_ret; [done|]. intros e [= <-]. exists err, (w_env w). by rewrite Hd.
Qed.

(** What a run leaves behind: a result per tick from the [k]th on, all of them
    sent when it still waits, and an error of [P] when it returned. *)
Definition ran (P : error → World E ProbeResult → Prop) (k : Z) (turns : list ptick) (log : list ProbeResult) (r : option outcome)
    (w' : World E ProbeResult) : Prop :=
  ∃ results, w_log w' = log ++ results ∧
    (∀ j res, results !! j = Some res → good (k + Z.of_nat j + 1) res) ∧
    match r with
    | None => False
    | Some (Returned err _) => (length results ≤ ticks turns)%nat ∧ P err w'
    | Some (Waiting st) => length results = ticks turns ∧ ready (k + Z.of_nat (ticks turns)) st
    end.

Lemma ran_none (P : error → World E ProbeResult → Prop) k turns log err s (w' : World E ProbeResult) :
  w_log w' = log → P err w' → ran P k turns log (Some (Returned err s)) w'.
Proof. intros Hl HP. exists []. rewrite app_nil_r. split; [done|]. split; [done|]. cbn. split; [lia|done]. Qed.

Lemma ran_mono (P P' : error → World E ProbeResult → Prop) k turns log r (w' : World E ProbeResult) :
  (∀ err, P err w' → P' err w') → ran P k turns log r w' → ran P' k turns log r w'.
Proof. intros HP (results & Hl & Hg & Hr). exists results. destruct r as [[]|]; naive_solver. Qed.

Lemma ran_emit P k d turns log res r (w' : World E ProbeResult) : good (k + 1) res →
  ran P (k + 1) turns (log ++ [res]) r w' → ran P k (PTick d :: turns) log r w'.
Proof.
  intros Hres (results & Hl & Hgood & Hr). exists (res :: results).
  assert (Hticks : ticks (PTick d :: turns) = S (ticks turns)) by (unfold ticks; by rewrite filter_cons_True).
  split; [by rewrite Hl, <- app_assoc|]. split.
  - intros [|j] res' Hj; cbn in Hj; [injection Hj as <-; by rewrite Z.add_0_r|].
    replace (k + Z.of_nat (S j) + 1) with (k + 1 + Z.of_nat j + 1) by lia. by apply Hgood.
  - destruct r as [[err s|st]|]; [|rewrite Hticks; cbn..|done]; [destruct Hr; split; [rewrite Hticks; cbn; lia|done]|].
    destruct Hr as [Hlen Hst]. split; [lia|]. by replace (k + Z.of_nat (S (ticks turns))) with (k + 1 + Z.of_nat (ticks turns)) by lia.
Qed.

Lemma run_loop_spec addrs turns : ∀ k st (w : World E ProbeResult), 0 ≤ k → ready k st →
  ∃ n, ∀ fuel, (n ≤ fuel)%nat → wp (run_loop p fuel addrs st turns) (ran loop_error k turns (w_log w)) w.
Proof.
  induction turns as [|[|d] turns IH]; intros k st w Hk Hst.
  - exists O. intros fuel _. apply wp_ret. exists []. rewrite app_nil_r. split; [done|]. split; [done|].
    cbn. by rewrite Z.add_0_r.
  - destruct (IH k st (step w) Hk Hst) as [n Hn]. exists n. intros fuel Hfuel. cbn [run_loop].
    apply wp_bind. unfold wp at 1, ctx_Err. cbn [fst snd]. destruct (cancelled w) eqn:Hc.
    { apply wp_ret, ran_none; [done|]. left. split; [done|]. by apply cancelled_step. }
    by apply Hn.
  - cbn [run_loop]. destruct (open p (ru_sock st) w) as [[sock err] w1] eqn:Hopen.
    assert (Hl1 := silent_eq _ _ _ _ Hopen).
    assert (Herr := open_error (ru_sock st) w). unfold wp in Herr. rewrite Hopen in Herr. cbn [fst snd] in Herr.
    destruct err as [err|].
    { exists O. intros fuel _. eapply wp_bind_eq; [exact Hopen|]. apply wp_ret. apply ran_none; [done|]. right. by apply Herr. }
    destruct (sample_enough k addrs (mkRun sock (ru_windows st) (ru_seq st)) w1 Hk) as (n1 & Hmono & Hs); [exact Hst|].
    unfold wp in Hs. destruct (sample p n1 addrs _ w1) as [r2 w2] eqn:Hsample. cbn [fst snd] in Hs. destruct Hs as (st2 & -> & Hst2).
    assert (Hl2 := silent_eq _ _ _ _ Hsample).
    pose proof (result_spec (k + 1) (ru_windows st2) w2 (proj1 Hst2)) as Hr. unfold wp in Hr.
    destruct (result p (ru_windows st2) w2) as [r3 w3] eqn:Hresult. cbn [fst snd] in Hr. destruct Hr as (res & -> & Hres).
    assert (Hl3 := silent_eq _ _ _ _ Hresult).
    set (m4 := if d : bool then mret None else ctx_Err : M E ProbeResult (option error)).
    assert (Hm : w_log (m4 w3).2 = w_log w3 ∧ ∀ e, (m4 w3).1 = Some e → loop_error e (m4 w3).2).
    { subst m4. destruct d; [done|]. cbn. destruct (cancelled w3) eqn:Hc; [|done]. split; [done|]. intros e [= <-].
      left. split; [done|]. by apply cancelled_step. }
    destruct (m4 w3) as [e4 w4] eqn:Hm4. cbn [fst snd] in Hm. destruct Hm as [Hl4 He4].
    destruct (IH (k + 1) st2 (mkWorld (w_sched w4) (w_tick w4) (w_env w4) (w_log w4 ++ [res])) ltac:(lia) Hst2) as [n2 Hn2].
    exists (n1 `max` n2)%nat. intros fuel Hfuel. eapply wp_bind_eq; [exact Hopen|]. cbn beta iota.
    eapply wp_bind_eq; [apply Hmono; lia|].
    eapply wp_bind_eq; [exact Hresult|]. eapply wp_bind_eq; [exact Hm4|].
    destruct e4 as [err|]; [apply wp_ret, ran_none; [congruence|by apply He4]|].
    apply wp_bind. unfold wp at 1, emit. cbn [fst snd]. eapply wp_mono; [apply (Hn2 fuel); lia|].
    cbn [w_log]. intros r w5 Hran. apply (ran_emit _ _ _ _ _ res); [done|]. by rewrite <- Hl1, <- Hl2, <- Hl3, <- Hl4.
Qed.

Lemma new_windows_aged ts : ∀ out W, (∀ t w, out !! t = Some w → aged 0 w) →
  new_windows p ts out = inr W →
  (∀ t, is_Some (W !! t) ↔ t ∈ ts ∨ is_Some (out !! t)) ∧ ∀ t w, W !! t = Some w → aged 0 w.
Proof.
  induction ts as [|t ts IH]; intros out W Hout HW; cbn [new_windows] in HW.
  { injection HW as <-. split; [|done]. intros t. rewrite elem_of_nil. naive_solver. }
  destruct (NewWindow (p_WindowSize p)) as [w|] eqn:Hw; [|done]. apply NewWindow_aged in Hw.
  destruct (IH (<[t := w]> out) W) as [Hdom Hag]; [|done|].
  - intros t' w' [[<- <-]|[_ H]]%lookup_insert_Some; [done|by eapply Hout].
  - split; [|done]. intros t'. rewrite Hdom, elem_of_cons. destruct (decide (t' = t)) as [-> |Hneq].
    + rewrite lookup_insert_eq. split; [by left; left|]. intros _. right. by eexists.
    + rewrite lookup_insert_ne by done. naive_solver.
Qed.

Lemma pinger_run_spec sock turns (w : World E ProbeResult) :
  ∃ n, ∀ fuel, (n ≤ fuel)%nat → wp (run p fuel sock turns) (ran run_error 0 turns (w_log w)) w.
Proof.
  unfold run. destruct (resolveTargets p (p_Targets p) ∅) as [err|addrs] eqn:Haddrs.
  { exists O. intros fuel _. apply wp_ret, ran_none; [done|by left]. }
  destruct (new_windows p (p_Targets p) ∅) as [err|W] eqn:HW.
  { exists O. intros fuel _. apply wp_ret, ran_none; [done|by right; left]. }
  apply new_windows_aged in HW as [Hdom Hag]; [|done].
  assert (Herr := open_error sock w). unfold wp in Herr.
  destruct (open p sock w) as [[sock' err] w1] eqn:Hopen. pose proof (silent_eq _ _ _ _ Hopen) as Hl. cbn [fst snd] in Herr.
  destruct err as [err|].
  { exists O. intros fuel _. eapply wp_bind_eq; [exact Hopen|]. apply wp_ret, ran_none; [done|]. right; right; right. by apply Herr. }
  destruct (run_loop_spec addrs turns 0 (mkRun sock' W 0) w1) as [n Hn]; [done| |].
  { split; [|done]. split; [|done]. intros t. rewrite Hdom, lookup_empty. split; [intros [?|[]%is_Some_None]; done|by left]. }
  exists n. intros fuel Hfuel. eapply wp_bind_eq; [exact Hopen|]. rewrite <- Hl.
  rewrite (proj2 (Z.leb_gt _ _)) by done. eapply wp_mono; [by apply Hn|]. intros r w'. apply ran_mono. intros err He. by right; right.
Qed.

Lemma close_closes s (w : World E ProbeResult) : wp (close s) (λ s' _, sk_open s' = false) w.
Proof. unfold close. destruct (sk_open s) eqn:Ho; [|by apply wp_ret]. apply wp_bind, wp_any. intros. by apply wp_ret. Qed.

Lemma pinger_Run_spec turns (w : World E ProbeResult) :
  ∃ n, ∀ fuel, (n ≤ fuel)%nat → wp (Run p fuel turns) (λ r w', ran run_error 0 turns (w_log w) r w' ∧
    ∀ err s, r = Some (Returned err s) → sk_open s = false) w.
Proof.
  destruct (pinger_run_spec newSocket turns w) as [n Hn]. exists n. intros fuel Hfuel. unfold Run. apply wp_bind.
  eapply wp_mono; [by apply Hn|]. intros [[err s|st]|] w' Hran; [|by apply wp_ret|by apply wp_ret].
  apply wp_bind. destruct (close s w') as [s' w2] eqn:Hclose. unfold wp at 1. rewrite Hclose. cbn [fst snd].
  apply wp_ret. pose proof (close_closes s w') as Hc. unfold wp in Hc. rewrite Hclose in Hc. cbn [fst snd] in Hc.
  split; [|by intros ?? [= <- <-]]. destruct Hran as (results & Hlog & Hg & Hlen & He). exists results.
  rewrite (silent_eq _ _ _ _ Hclose). do 3 (split; [done|]).
  destruct He as [?|[?|[[-> Hcan]|?]]]; [by left|by right; left| |by right; right; right].
  right; right; left. split; [done|]. pose proof (extending (m:=close s) w') as Hext. rewrite Hclose in Hext.
  by eapply extends_cancelled.
Qed.

(** ** Descriptors *)

(** [conns] counts the connections an environment holds open: a dial that
    succeeds opens one, and Close closes it. *)
Record counts (conns : E → nat) : Prop := {
  ct_dial fam iface e : conns (dial fam iface e).2 = match (dial fam iface e).1 with inl _ => conns e | inr _ => S (conns e) end;
  ct_close e : conns (Close e) = pred (conns e);
  ct_write req ip e : conns (WriteTo req ip e).2 = conns e;
  ct_read e : conns (ReadFrom e).2 = conns e;
  ct_ifindex iface e : conns (ifindex iface e).2 = conns e
}.

Section conns.
Context (conns : E → nat) (HN : counts conns).

(** A socket holds the only connection beyond [base], if it is open. *)
Definition holds (base : nat) (s : socket) (w : World E ProbeResult) : Prop :=
  conns (w_env w) = (base + (if sk_open s then 1 else 0))%nat.

Lemma open_holds base s (w : World E ProbeResult) : holds base s w →
  wp (open p s) (λ '(s', _) w', holds base s' w') w.
Proof.
  unfold holds, open. intros H. destruct (sk_open s) eqn:Ho; [apply wp_ret; by rewrite Ho|]. apply wp_bind.
  unfold wp at 1, call. pose proof (ct_dial _ HN (p_Family p) (p_Interface p) (w_env w)) as Hd.
  destruct (dial _ _ (w_env w)) as [[err|bound] e']; cbn [fst snd] in *.
  - destruct (Is err ENODEV); apply wp_ret; cbn; rewrite ?Ho, Hd; lia.
  - apply wp_ret. cbn. rewrite Hd. lia.
Qed.

Lemma close_holds base s (w : World E ProbeResult) : holds base s w →
  wp (close s) (λ s' w', sk_open s' = false ∧ holds base s' w') w.
Proof.
  unfold holds, close. intros H. destruct (sk_open s) eqn:Ho; [|apply wp_ret; by rewrite Ho].
  apply wp_bind. unfold wp at 1, call. cbn [fst snd]. apply wp_ret. cbn. rewrite (ct_close _ HN). split; [done|lia].
Qed.

Lemma recheck_holds base s (w : World E ProbeResult) : holds base s w →
  wp (recheck p s) (λ s' w', holds base s' w') w.
Proof.
  intros H. unfold recheck. destruct (negb _); [by apply wp_ret|]. apply wp_bind. unfold wp at 1, call.
  pose proof (ct_ifindex _ HN (p_Interface p) (w_env w)) as Hi.
  destruct (ifindex (p_Interface p) (w_env w)) as [r e']; cbn [fst snd] in *.
  destruct (match r with inl _ => _ | inr _ => _ end); [apply wp_ret; unfold holds in *; cbn; congruence|].
  apply wp_bind. eapply wp_mono; [by apply (close_holds base); unfold holds in *; cbn; rewrite Hi|].
  cbn beta. intros s' w' [_ Hs]. by apply wp_ret.
Qed.

#[local] Instance send_all_keeps addrs c ts : Keeps conns (send_all (E:=E) p addrs c ts).
Proof.
  revert c. induction ts as [|t ts IH]; intros c; cbn [send_all]; [apply _|]. apply keeps_bind; [|by intros []; apply _].
  unfold send_one. destruct (EchoRequestBytes _ _ _ _); [|apply _].
  apply keeps_bind; [apply keeps_call; intros; apply (ct_write _ HN)|]. intros [?|]; apply _.
Qed.

#[local] Instance drain_keeps fuel infl W : Keeps conns (drain (E:=E) p fuel infl W).
Proof.
  revert infl W. induction fuel as [|fuel IH]; intros infl W; cbn [drain]; destruct (decide _); try apply _.
  apply keeps_bind; [apply keeps_call; intros; apply (ct_read _ HN)|]. intros [?|data]; [apply _|].
  destruct (ParseEchoReply _ _) as [|[ident q]]; [apply _|]. destruct (negb _); [apply _|].
  destruct (infl !! q); [|apply _]. apply keeps_bind; [apply _|]. intros now_. destruct (push_to _ _ _); apply _.
Qed.

#[local] Instance cycle_keeps fuel addrs W seq : Keeps conns (cycle (E:=E) p fuel addrs W seq).
Proof. unfold cycle, recordLoss. keeps_by. Qed.

Lemma sample_holds base fuel addrs st (w : World E ProbeResult) : holds base (ru_sock st) w →
  wp (sample p fuel addrs st) (λ r w', ∀ st', r = Some st' → holds base (ru_sock st') w') w.
Proof.
  intros H. unfold sample. destruct (negb (sk_open (ru_sock st))).
  - apply wp_bind. unfold lose_all. apply (wp_quiet _). intros [ws|] w' Hw; apply wp_ret; [|done].
    intros st' [= <-]. unfold holds in *. cbn. congruence.
  - apply wp_bind. apply (wp_keeps conns _). intros [[[ws q] failed]|] w1 Hw; [|by apply wp_ret].
    assert (H1 : holds base (ru_sock st) w1) by (unfold holds in *; congruence).
    apply wp_bind. eapply (wp_mono _ (λ s' w', holds base s' w')); [destruct failed; [by apply recheck_holds|by apply wp_ret]|].
    cbn beta. intros s' w' Hs. apply wp_ret. by intros st' [= <-].
Qed.

#[local] Instance result_quiet W : Quiet (result (E:=E) p W).
Proof. unfold result. apply quiet_bind; [apply _|]. intros entries. destruct (Aggregate entries); apply _. Qed.

(** Where a run's connection is. *)
Definition held (base : nat) (r : option outcome) (w : World E ProbeResult) : Prop :=
  match r with
  | None => True
  | Some (Returned _ s) => holds base s w
  | Some (Waiting st) => holds base (ru_sock st) w
  end.

Lemma run_loop_holds base fuel addrs turns : ∀ st (w : World E ProbeResult), holds base (ru_sock st) w →
  wp (run_loop p fuel addrs st turns) (held base) w.
Proof.
  induction turns as [|[|d] turns IH]; intros st w H; cbn [run_loop]; [by apply wp_ret|..].
  - apply wp_bind, (wp_quiet _). intros [err|] w' Hw; [apply wp_ret|apply IH]; unfold held, holds in *; congruence.
  - apply wp_bind. eapply wp_mono; [by apply (open_holds base)|]. cbn beta. intros [sock [err|]] w1 H1; [by apply wp_ret|].
    apply wp_bind. eapply wp_mono; [by apply (sample_holds base)|]. cbn beta. intros [st2|] w2 H2; [|by apply wp_ret].
    specialize (H2 st2 eq_refl). apply wp_bind, (wp_quiet _). intros [res|] w3 Hw3; [|by apply wp_ret].
    assert (H3 : holds base (ru_sock st2) w3) by (unfold holds in *; congruence).
    apply wp_bind. apply (wp_mono _ (λ _ w', holds base (ru_sock st2) w')); [by destruct d|].
    intros [err|] w4 H4; [by apply wp_ret|]. apply wp_bind, (wp_quiet _). intros [] w5 Hw5.
    apply IH. unfold holds in *. congruence.
Qed.

(** A run holds its socket's connection alone, and none when it has returned. *)
Lemma pinger_Run_holds fuel turns (w : World E ProbeResult) :
  wp (Run p fuel turns) (held (conns (w_env w))) w.
Proof.
  assert (H0 : holds (conns (w_env w)) newSocket w) by (unfold holds; cbn; lia). unfold Run. apply wp_bind.
  apply (wp_mono _ (held (conns (w_env w)))).
  - unfold run. destruct (resolveTargets p _ ∅); [by apply wp_ret|]. destruct (new_windows p _ ∅); [by apply wp_ret|].
    apply wp_bind. eapply wp_mono; [by apply (open_holds _ _ _ H0)|]. cbn beta. intros [sock [err|]] w1 H1; [by apply wp_ret|].
    destruct (_ <=? 0); [by apply wp_ret|]. by apply run_loop_holds.
  - intros [[err s|st]|] w1 H1; [|by apply wp_ret..]. apply wp_bind. eapply wp_mono; [by apply (close_holds _ _ _ H1)|].
    cbn beta. intros s' w2 [_ H2]. by apply wp_ret.
Qed.

End conns.

End loop.

(** ** A connection for the witnesses *)

Module Example.

(** A network that holds one reply; the interface has index 3, and [conns]
    connections are open. *)
Record net := mkNet { reply : option (list Z); refuse : list (list Z); conns : nat }.

#[local] Instance conn : PingConn net := {
  WriteTo := λ req ip e,
    if decide (IP_bytes (To4 ip) ∈ refuse e) then (Some (Errno 100), e)
    else (None, mkNet (Some (reply_to FamilyV4 0 0 req)) (refuse e) (conns e));
  ReadFrom := λ e,
    match reply e with
    | None => (inl (ErrSentinel "os.ErrDeadlineExceeded"), e)
    | Some d => (inr d, mkNet None (refuse e) (conns e))
    end;
  Close := λ e, mkNet (reply e) (refuse e) (pred (conns e))
}.

#[local] Instance dialer : Dialer net := {
  dial := λ _ _ e, (inr 3, mkNet (reply e) (refuse e) (S (conns e)));
  ifindex := λ _ e, (inr 3, e)
}.

Definition pinger : Pinger := mkPinger "wan0" FamilyV4 "eth0" ["192.0.2.1"; "192.0.2.2"; "192.0.2.3"] 4660 500000000 1000000000 2.

Definition start : World net ProbeResult :=
  mkWorld (mkSchedule None (λ n, Pos.of_succ_nat n) (λ _ i, i)) 0 (mkNet None [[192; 0; 2; 2]] 0) [].

(** The same start, with the context cancelled at step [n]. *)
Definition start_cancelled (n : nat) : World net ProbeResult :=
  mkWorld (mkSchedule (Some n) (λ n, Pos.of_succ_nat n) (λ _ i, i)) 0 (mkNet None [[192; 0; 2; 2]] 0) [].

Lemma reads : @reads_end net conn.
Proof.
  intros [r f c]. exists 2%nat. destruct r as [d|]; eexists; cbn; reflexivity.
Qed.

Lemma counted : @counts net conn dialer conns.
Proof.
  split; try done.
  - intros req ip e. cbn. by destruct (decide _).
  - intros e. cbn. by destruct (reply e).
Qed.

Definition addrs : gmap string IP :=
  match resolveTargets pinger (p_Targets pinger) ∅ with inl _ => ∅ | inr addrs => addrs end.

Definition windows : gmap string WindowStats :=
  match new_windows pinger (p_Targets pinger) ∅ with inl _ => ∅ | inr windows => windows end.

Lemma windows_wf : wf_windows windows (p_Targets pinger).
Proof.
  intros t Ht. exists (mkWindowStats 2 [zeroSample; zeroSample] 0 false). split; [|by split].
  by repeat (apply elem_of_cons in Ht as [-> |Ht]; [by vm_compute|]); apply elem_of_nil in Ht.
Qed.

Lemma nodup : NoDup (p_Targets pinger).
Proof. by apply (bool_decide_unpack _). Qed.

Lemma few : Z.of_nat (length (p_Targets pinger)) ≤ 65536.
Proof. by vm_compute. Qed.

Lemma seq_range : 0 ≤ 65534 < 65536.
Proof. lia. Qed.

End Example.

(** ** Properties *)

(** C10. A cycle gives every Target exactly one Sample, for distinct Targets, no
    more than there are sequence numbers (65,536). Given the outcomes of the
    sends and the datagrams the socket returns before its read deadline, a
    cycle terminates, reports whether a send failed, advances the 16-bit
    sequence number by one per Target, and pushes onto each Target's Window one
    Sample, which is not lost exactly if its send succeeded, the context was not
    cancelled by the step the last send ends at (a send takes a step, and a
    successful one reads the clock, which takes one more), and some datagram
    carries the Pinger's identifier and the sequence number of that request. So
    all Samples are lost when cancellation lands mid-send, and then nothing is
    read from the socket. No other Window changes: stale, foreign and repeated
    replies are ignored. *)
Theorem pinger_cycle {E} `{HC : PingConn E, HD : Dialer E} p fuel addrs W seq (w : World E ProbeResult) oks e ds :
  NoDup (p_Targets p) → Z.of_nat (length (p_Targets p)) ≤ 65536 → wf_windows W (p_Targets p) → 0 ≤ seq < 65536 →
  send_results p addrs (p_Targets p) seq (w_env w) = (oks, e) → received fuel e = Some ds →
  let landed := match sch_cancel (w_sched w) with
                | None => false
                | Some n => bool_decide (n ≤ w_tick w + length (p_Targets p) + length (filter Is_true oks))%nat
                end in
  wp (cycle p fuel addrs W seq) (λ r w', ∃ W',
    r = Some (W', u16 (seq + Z.of_nat (length (p_Targets p))), negb (forallb id oks)) ∧
    (landed = true → w_env w' = e) ∧
    (∀ t, t ∉ p_Targets p → W' !! t = W !! t) ∧
    ∀ i t, p_Targets p !! i = Some t → ∃ s win, W !! t = Some win ∧ W' !! t = Push win s ∧
      Lost s = negb (default false (oks !! i) && negb landed && existsb (answers p (u16 (seq + Z.of_nat i))) ds)) w.
Proof.
  intros Hnd Hfew HW Hseq Hsend Hds landed.
  eapply wp_mono; [by apply (cycle_spec p seq W (p_Targets p) Hfew Hnd HW fuel addrs w oks e ds)|].
  cbn beta. intros _ w' (f & W' & -> & Hp & Hdom & Hc & Hall). exists W'. split; [done|]. split; [exact Hc|]. split.
  - intros t Ht. rewrite (Hp t). destruct (f !! t) as [s|] eqn:Hs; [|done]. by destruct Ht; eapply Hdom.
  - intros i t Hi. destruct (Hall i t Hi) as (s & Hs & Hl). destruct (HW t) as (win & Hwin & _); [by eapply list_elem_of_lookup_2|].
    exists s, win. split; [done|]. split; [by rewrite (Hp t), Hs, Hwin|]. rewrite Hl, <- andb_assoc. done.
Qed.

(** Three Targets: the first reply is overwritten by the third one in the one
    slot of the network, and the second send is refused. Cancelled at the fifth
    step, when the last reply's send is over, all three are lost. *)
Lemma pinger_cycle_witness :
  wp (@cycle _ Example.conn Example.pinger 2 Example.addrs Example.windows 65534) (λ r _, ∃ W', r = Some (W', 1, true) ∧
    (∃ s win, W' !! "192.0.2.1" = Push win s ∧ Lost s = true) ∧
    (∃ s win, W' !! "192.0.2.2" = Push win s ∧ Lost s = true) ∧
    (∃ s win, W' !! "192.0.2.3" = Push win s ∧ Lost s = false)) Example.start ∧
  wp (@cycle _ Example.conn Example.pinger 2 Example.addrs Example.windows 65534) (λ r w', ∃ W', r = Some (W', 1, true) ∧
    Example.reply (w_env w') ≠ None ∧
    ∃ s win, W' !! "192.0.2.3" = Push win s ∧ Lost s = true) (Example.start_cancelled 5).
Proof.
  destruct (@send_results _ Example.conn Example.pinger Example.addrs (p_Targets Example.pinger) 65534 (w_env Example.start))
    as [oks e] eqn:Hsend.
  assert (Hok : oks = [true; false; true]) by (vm_compute in Hsend; by injection Hsend).
  assert (Hrep : Example.reply e ≠ None) by (vm_compute in Hsend; by injection Hsend as _ <-).
  destruct (@received _ Example.conn 2 e) as [ds|] eqn:Hds; [|vm_compute in Hsend; injection Hsend as <- <-; by vm_compute in Hds].
  assert (Hans : (λ i, existsb (answers Example.pinger (u16 (65534 + Z.of_nat i))) ds) <$> [0%nat; 2%nat] = [false; true]).
  { vm_compute in Hsend. injection Hsend as <- <-. vm_compute in Hds. injection Hds as <-. by vm_compute. }
  injection Hans as Ha0 Ha2. pose proof Hsend as Hsend'. split.
  - pose proof (@pinger_cycle _ Example.conn Example.dialer Example.pinger 2 Example.addrs Example.windows 65534 Example.start oks e ds
      Example.nodup Example.few Example.windows_wf Example.seq_range Hsend Hds) as Hcycle.
    unfold wp in Hcycle |- *. destruct (cycle _ _ _ _ _ _) as [r w']. cbn [fst snd] in Hcycle |- *.
    destruct Hcycle as (W' & Hr & _ & _ & Hall). exists W'. rewrite Hok in *. split; [exact Hr|].
    split; [|split].
    + destruct (Hall 0%nat "192.0.2.1" eq_refl) as (s & win & _ & HW & Hl). exists s, win. split; [done|]. by rewrite Hl, Ha0.
    + destruct (Hall 1%nat "192.0.2.2" eq_refl) as (s & win & _ & HW & Hl). by exists s, win.
    + destruct (Hall 2%nat "192.0.2.3" eq_refl) as (s & win & _ & HW & Hl). exists s, win. split; [done|]. by rewrite Hl, Ha2.
  - change (w_env Example.start) with (w_env (Example.start_cancelled 5)) in Hsend'.
    pose proof (@pinger_cycle _ Example.conn Example.dialer Example.pinger 2 Example.addrs Example.windows 65534
      (Example.start_cancelled 5) oks e ds Example.nodup Example.few Example.windows_wf Example.seq_range Hsend' Hds) as Hcycle.
    unfold wp in Hcycle |- *. destruct (cycle _ _ _ _ _ _) as [r w']. cbn [fst snd] in Hcycle |- *.
    destruct Hcycle as (W' & Hr & He & _ & Hall). exists W'. rewrite Hok in *. split; [exact Hr|].
    rewrite He by done. split; [done|].
    destruct (Hall 2%nat "192.0.2.3" eq_refl) as (s & win & _ & HW & Hl). by exists s, win.
Defined.

(** C18. A run terminates over any finite sequence of ticks and wake-ups, for
    every duplicate-free, non-empty list of at most 65,536 Targets and positive
    interval, whatever the socket, the kernel, the clock and the schedule do,
    provided the read deadline ends every cycle's reads: it neither panics nor
    loops. It sends one ProbeResult per tick, in order, until it returns; the
    [k]th carries the Pinger's WAN and Family, covers exactly its Targets, and
    reports its Window filled from the [WindowSize]th on. It returns for a Target
    or Window size it cannot use, with the context's error once that context is
    cancelled, or with what a dial really failed with, other than an absent
    interface; in any other case it is still waiting for a tick. While it waits,
    it has one connection open or none, and once it has returned, every
    connection it opened was closed. *)
Theorem pinger_run {E} `{HC : PingConn E, HD : Dialer E} p turns (w : World E ProbeResult) (conns : E → nat) :
  NoDup (p_Targets p) → Z.of_nat (length (p_Targets p)) ≤ 65536 → p_Targets p ≠ [] →
  p_WindowSize p < 2 ^ 53 → 0 < p_Interval p → reads_end (E:=E) → counts conns →
  ∃ n, ∀ fuel, (n ≤ fuel)%nat → wp (Run p fuel turns) (λ r w', ∃ results,
    w_log w' = w_log w ++ results ∧
    (∀ k res, results !! k = Some res →
       pr_Wan res = p_Wan p ∧ pr_Family res = p_Family p ∧
       fs_WindowFilled (pr_Stats res) = (p_WindowSize p <=? Z.of_nat k + 1) ∧
       ts_Target <$> fs_PerTarget (pr_Stats res) ≡ₚ p_Targets p) ∧
    match r with
    | None => False
    | Some (Returned err s) => (length results ≤ ticks turns)%nat ∧
        sk_open s = false ∧ conns (w_env w') = conns (w_env w) ∧
        (resolveTargets p (p_Targets p) ∅ = inl err ∨ new_windows p (p_Targets p) ∅ = inl err ∨
         err = ErrCanceled ∧ cancelled w' = true ∨
         ∃ cause e, err = Wrapf "probe: open icmp" cause ∧
           (dial (p_Family p) (p_Interface p) e).1 = inl cause ∧ Is cause ENODEV = false)
    | Some (Waiting st) => length results = ticks turns ∧
        conns (w_env w') = (conns (w_env w) + (if sk_open (ru_sock st) then 1 else 0))%nat
    end) w.
Proof.
  intros Hnd Hfew Hne Hsize Hint Hreads Hct. destruct (pinger_Run_spec p Hnd Hfew Hne Hsize Hint Hreads turns w) as [n Hn].
  exists n. intros fuel Hfuel. pose proof (pinger_Run_holds p conns Hct fuel turns w) as Hheld.
  eapply wp_mono; [eapply (wp_conj _ (held conns _)); [exact Hheld|by apply Hn]|].
  cbn beta. intros r w' [Hh [(results & Hl & Hg & Hr) Hclosed]].
  exists results. split; [done|]. split; [intros k res Hk; by apply (Hg k res)|].
  destruct r as [[err s|st]|]; [|by destruct Hr|done]. destruct Hr as [Hr Herr].
  pose proof (Hclosed err s eq_refl) as Hs. unfold held, holds in Hh. rewrite Hs, Nat.add_0_r in Hh.
  done.
Qed.

(** Two ticks leave the run waiting with its one connection; cancelled at the
    first step, it ends at the next wake-up, and the connection is closed. *)
Lemma pinger_run_witness : ∃ fuel,
  (∃ results : list ProbeResult,
    w_log (@Run _ Example.conn Example.dialer Example.pinger fuel [PTick true; PTick true] Example.start).2 = results ∧
    ∀ k res, results !! k = Some res → fs_WindowFilled (pr_Stats res) = (2 <=? Z.of_nat k + 1)) ∧
  Example.conns (w_env (@Run _ Example.conn Example.dialer Example.pinger fuel [PTick true; PDone] (Example.start_cancelled 1)).2) = 0%nat.
Proof.
  destruct (@pinger_run _ Example.conn Example.dialer Example.pinger [PTick true; PTick true] Example.start Example.conns)
    as [n Hn]; [exact Example.nodup|done|done|done|done|exact Example.reads|exact Example.counted|].
  destruct (@pinger_run _ Example.conn Example.dialer Example.pinger [PTick true; PDone] (Example.start_cancelled 1) Example.conns)
    as [m Hm]; [exact Example.nodup|done|done|done|done|exact Example.reads|exact Example.counted|].
  exists (m `max` S n)%nat. split.
  - destruct (Hn (m `max` S n)%nat ltac:(lia)) as (results & Hl & Hg & _). exists results. split; [exact Hl|].
    intros k res Hk. apply (Hg k res Hk).
  - assert (HR : match (@Run _ Example.conn Example.dialer Example.pinger (m `max` S n) [PTick true; PDone] (Example.start_cancelled 1)).1
            with Some (Returned _ _) => true | _ => false end = true).
    { assert (Hx : ∀ k, match (@Run _ Example.conn Example.dialer Example.pinger (S k) [PTick true; PDone] (Example.start_cancelled 1)).1
            with Some (Returned _ _) => true | _ => false end = true) by (intros k; by vm_compute).
      replace (m `max` S n)%nat with (S (pred (m `max` S n))) by lia. apply Hx. }
    destruct (Hm (m `max` S n)%nat ltac:(lia)) as (results & _ & _ & Hr).
    destruct (@Run _ Example.conn Example.dialer Example.pinger (m `max` S n) [PTick true; PDone] (Example.start_cancelled 1)) as [[[err s|st]|] w'];
      [|done..]. by destruct Hr as (_ & _ & -> & _).
Defined.
