(* ===== verification/Probers.v ===== *)
(** * Starting the probers ([probers.go])

    One Pinger per WAN and probed Family, with the identifiers [Ident] allocates
    and the settings of the configuration. *)
From S2P Require Import Prelude GoFloat Icmp Window NetIP Runtime Selector Config Ident Aggregate Pinger PingerLoop.

#[local] Open Scope Z_scope.

(** The zero value of a WAN, which indexing the map of WANs gives for a missing key. *)
Definition zeroWan : Wan :=
  mkWan "" "" false (mkProbe "" (mkTargets [] []) 0 0 0 (mkThresholds 0 0 0 0) (mkHysteresisCfg 0 0) "").

(** [time.Duration(ms) * time.Millisecond] *)
Definition milliseconds (ms : Z) : Z := int_wrap (ms * 1000000).

(** daemon/cmd/wanwatchd/probers.go:36-47 (startProbers): the Pinger of a key *)
Definition prober (cfg : Config) (idents : gmap IdentKey Z) (k : IdentKey) : Pinger :=
  let wan := default zeroWan (c_Wans cfg !! ik_Wan k) in
  mkPinger (ik_Wan k) (ik_Family k) (w_Interface wan) (For_ (Config.p_Targets (w_Probe wan)) (ik_Family k))
    (default 0 (idents !! k)) (milliseconds (IntervalMs (w_Probe wan))) (milliseconds (TimeoutMs (w_Probe wan)))
    (WindowSize (w_Probe wan)).

(** daemon/cmd/wanwatchd/probers.go:27-54 (startProbers): a Pinger per key; each
    runs under [superviseSubsystem] *)
Definition startProbers (cfg : Config) : error + list Pinger :=
  let keys := identKeysFor cfg in
  match AllocateIdents keys with
  | inl err => inl (Wrapf "allocate idents" err)
  | inr idents => inr (prober cfg idents <$> keys)
  end.

(** ** Resolution *)

Lemma resolveTarget_ok p t a family :
  (p_Family p, family) ∈ [(FamilyV4, targetFamilyV4); (FamilyV6, targetFamilyV6)] →
  ParseAddr t = Some a → Addr_Zone a = "" → tf_holds family a = true → Addr_Is4In6 a = false →
  resolveTarget p t = inr (ParseIP t) ∧ is_Some (ParseIP t).
Proof.
  intros Hf Ha Hz Hh Hm. destruct (ParseIP_To4 t a Ha Hz) as [[ip Hip] H4].
  unfold resolveTarget. rewrite Hip in *. cbv zeta. split; [|by eexists].
  apply elem_of_cons in Hf as [[= Hfam ->]|Hf]; [|apply list_elem_of_singleton in Hf as [= Hfam ->]]; rewrite Hfam; cbn in Hh.
  - by rewrite (bool_decide_true (is_Some _)) by (apply H4; by left).
  - rewrite (bool_decide_false (is_Some _)); [done|]. rewrite H4. unfold Addr_Is6 in Hh. rewrite negb_true_iff in Hh. intros [|[]]; congruence.
Qed.

Lemma resolveTargets_ok p family targets addrs : ∀ out,
  (p_Family p, family) ∈ [(FamilyV4, targetFamilyV4); (FamilyV6, targetFamilyV6)] →
  mapM ParseAddr targets = Some addrs →
  Forall (λ a, Addr_Zone a = "" ∧ tf_holds family a = true ∧ Addr_Is4In6 a = false) addrs →
  ∃ m, resolveTargets p targets out = inr m ∧
    ∀ t, m !! t = if decide (t ∈ targets) then Some (ParseIP t) else out !! t.
Proof.
  intros out Hf HM. apply mapM_Some in HM. revert out. induction HM as [|t a targets addrs Ht HM IH]; intros out Hall.
  - exists out. split; [done|]. intros t. by rewrite decide_False by apply not_elem_of_nil.
  - apply Forall_cons in Hall as [(Hz & Hh & Hm) Hall]. cbn [resolveTargets].
    destruct (resolveTarget_ok p t a family Hf Ht Hz Hh Hm) as [-> _].
    destruct (IH (<[t := ParseIP t]> out) Hall) as (m & -> & Hlook). exists m. split; [done|].
    intros t'. rewrite Hlook. destruct (decide (t' ∈ targets)) as [Hin|Hin].
    + rewrite decide_True; [done|]. by apply list_elem_of_further.
    + destruct (decide (t' = t)) as [-> |Hne].
      * rewrite lookup_insert_eq, decide_True; [done|]. apply list_elem_of_here.
      * rewrite lookup_insert_ne by done. rewrite decide_False; [done|]. rewrite elem_of_cons. by intros [|].
Qed.

Lemma valid_bucket_NoDup family targets : valid_bucket family targets → NoDup targets.
Proof.
  intros (addrs & HM & Hnd & _). apply mapM_Some in HM. revert Hnd.
  induction HM as [|t a targets addrs Ht HM IH]; intros Hnd; [constructor|]. apply NoDup_cons in Hnd as [Ha Hnd].
  apply NoDup_cons. split; [|by apply IH]. intros Hin. apply Ha.
  apply list_elem_of_lookup in Hin as [i Hi]. destruct (Forall2_lookup_l _ _ _ _ _ HM Hi) as (a' & Ha' & Hp).
  assert (a' = a) as -> by congruence. by eapply list_elem_of_lookup_2.
Qed.

Lemma new_windows_ok p ts : ∀ out, 0 < p_WindowSize p → ∃ W, new_windows p ts out = inr W.
Proof.
  induction ts as [|t ts IH]; intros out Hs; cbn [new_windows]; [by eexists|]. unfold NewWindow.
  rewrite (proj2 (Z.leb_gt _ _)) by done. by apply IH.
Qed.

Lemma bucket_resolves p family :
  (p_Family p, family) ∈ [(FamilyV4, targetFamilyV4); (FamilyV6, targetFamilyV6)] →
  valid_bucket family (p_Targets p) →
  ∃ addrs, resolveTargets p (p_Targets p) ∅ = inr addrs ∧
    ∀ t, t ∈ p_Targets p → addrs !! t = Some (ParseIP t) ∧ is_Some (ParseIP t).
Proof.
  intros Hf (addrs & HM & _ & Hall). destruct (resolveTargets_ok p family _ addrs ∅ Hf HM Hall) as (m & Hm & Hlook).
  exists m. split; [done|]. intros t Ht. rewrite Hlook, decide_True by done. split; [done|].
  apply mapM_Some in HM. apply list_elem_of_lookup in Ht as [i Hi].
  destruct (Forall2_lookup_l _ _ _ _ _ HM Hi) as (a & Ha & Hp). rewrite Forall_forall in Hall.
  destruct (Hall a) as (Hz & _); [by eapply list_elem_of_lookup_2|]. by destruct (ParseIP_To4 t a Hp Hz).
Qed.

Lemma elem_of_Families t fam : fam ∈ Families t ↔ (fam = FamilyV4 ∨ fam = FamilyV6) ∧ For_ t fam ≠ [].
Proof.
  unfold Families, For_. rewrite elem_of_app.
  destruct fam, (V4 t), (V6 t); cbn; rewrite ?list_elem_of_singleton, ?elem_of_nil; naive_solver.
Qed.

(** The Pinger of a key of a valid configuration. *)
Lemma prober_ok cfg idents k :
  Valid cfg → map_Forall (λ _ w, IntervalMs (w_Probe w) ≤ 9223372036854) (c_Wans cfg) →
  k ∈ identKeysFor cfg → let p := prober cfg idents k in
  ∃ wan, c_Wans cfg !! p_Wan p = Some wan ∧ p_Interface p = w_Interface wan ∧
    p_Targets p = For_ (Config.p_Targets (w_Probe wan)) (p_Family p) ∧
    NoDup (p_Targets p) ∧ p_Targets p ≠ [] ∧ 0 < p_Interval p ∧ p_WindowSize p = WindowSize (w_Probe wan) ∧
    (∃ addrs, resolveTargets p (p_Targets p) ∅ = inr addrs ∧
       ∀ t, t ∈ p_Targets p → addrs !! t = Some (ParseIP t) ∧ is_Some (ParseIP t)) ∧
    ∃ W, new_windows p (p_Targets p) ∅ = inr W.
Proof.
  intros HV Hint Hk p. destruct k as [name fam]. apply elem_of_identKeysFor in Hk as (wan & Hw & Hf).
  apply elem_of_Families in Hf as [Hf Hne]. assert (Hvp := vw_probe _ _ (v_wans _ HV name wan Hw)).
  assert (Hp : p = mkPinger name fam (w_Interface wan) (For_ (Config.p_Targets (w_Probe wan)) fam) (default 0 (idents !! mkIdentKey name fam))
    (milliseconds (IntervalMs (w_Probe wan))) (milliseconds (TimeoutMs (w_Probe wan))) (WindowSize (w_Probe wan))).
  { subst p. unfold prober. cbn. by rewrite Hw. }
  assert (Hb : ∃ family, (p_Family p, family) ∈ [(FamilyV4, targetFamilyV4); (FamilyV6, targetFamilyV6)] ∧ valid_bucket family (p_Targets p)).
  { rewrite Hp. cbn. destruct Hf as [-> | ->]; eexists; (split; [|apply Hvp]); set_solver. }
  destruct Hb as (family & Hpf & Hb). exists wan. rewrite Hp at 1 2 3. cbn [p_Wan p_Interface p_Targets].
  split; [done|]. split; [done|]. split; [by rewrite Hp|]. split; [by eapply valid_bucket_NoDup|].
  split; [by rewrite Hp|]. split.
  { rewrite Hp. cbn. unfold milliseconds. pose proof (vp_interval _ Hvp). specialize (Hint name wan Hw). cbn in Hint.
    rewrite int_wrap_small; unfold two63; lia. }
  split; [by rewrite Hp|]. split; [by eapply bucket_resolves|]. apply new_windows_ok. rewrite Hp. apply Hvp.
Qed.

(** ** Properties *)

(** C35. The probers of a valid configuration start. With at most 32768 WANs
    and intervals that fit a [time.Duration],
    [startProbers] makes one Pinger for every WAN and Family with a Target,
    distinct ones having distinct identifiers, and each of them gets past its
    start-up: its Targets are distinct and resolve, each to the address its
    literal denotes, its Windows are made, and its ticker accepts the interval.
    The configuration check and the resolution at start-up agree, also on
    IPv4-mapped IPv6 literals. *)
Theorem probers_start cfg :
  Valid cfg → Z.of_nat (size (c_Wans cfg)) ≤ 32768 →
  map_Forall (λ _ w, IntervalMs (w_Probe w) ≤ 9223372036854) (c_Wans cfg) →
  ∃ ps, startProbers cfg = inr ps ∧
    (∀ name fam, (∃ p, p ∈ ps ∧ p_Wan p = name ∧ p_Family p = fam) ↔
       ∃ wan, c_Wans cfg !! name = Some wan ∧ fam ∈ Families (Config.p_Targets (w_Probe wan))) ∧
    NoDup (p_Ident <$> ps) ∧
    ∀ p, p ∈ ps → ∃ wan, c_Wans cfg !! p_Wan p = Some wan ∧ p_Interface p = w_Interface wan ∧
      p_Targets p = For_ (Config.p_Targets (w_Probe wan)) (p_Family p) ∧
      NoDup (p_Targets p) ∧ p_Targets p ≠ [] ∧ 0 < p_Interval p ∧ p_WindowSize p = WindowSize (w_Probe wan) ∧
      (∃ addrs, resolveTargets p (p_Targets p) ∅ = inr addrs ∧
         ∀ t, t ∈ p_Targets p → addrs !! t = Some (ParseIP t) ∧ is_Some (ParseIP t)) ∧
      ∃ W, new_windows p (p_Targets p) ∅ = inr W.
Proof.
  intros HV Hsize Hint. pose proof (AllocateIdents_spec (identKeysFor cfg)) as Halloc. unfold startProbers.
  destruct (AllocateIdents _) as [e|idents].
  { destruct Halloc as [H|H]; [|by destruct H; apply identKeysFor_NoDup].
    pose proof (length_identKeysFor cfg). change identSpace with 65536 in H. lia. }
  destruct Halloc as (_ & _ & [Hd _ Hi _]). eexists. split; [done|]. split; [|split].
  - intros name fam. rewrite <- elem_of_identKeysFor. split.
    + intros (p & Hp & <- & <-). by apply list_elem_of_fmap in Hp as ([] & -> & Hk).
    + intros Hk. exists (prober cfg idents (mkIdentKey name fam)). split; [by apply list_elem_of_fmap_2|done].
  - rewrite <- list_fmap_compose. apply NoDup_fmap_2_strong; [|apply identKeysFor_NoDup].
    intros k k' Hk Hk'. apply Hd in Hk as [c Hc]. apply Hd in Hk' as [c' Hc']. cbn. rewrite Hc, Hc'. cbn.
    intros <-. by eapply Hi.
  - intros p (k & -> & Hk)%list_elem_of_fmap. by apply prober_ok.
Qed.

Lemma probers_start_witness :
  ∃ ps, startProbers example_config = inr ps ∧
    ∃ p, p ∈ ps ∧ p_Wan p = "lte" ∧ ∃ addrs, resolveTargets p (p_Targets p) ∅ = inr addrs.
Proof.
  destruct (probers_start example_config example_config_valid) as (ps & Hps & Hkeys & _ & Hall);
    [by vm_compute|apply (bool_decide_unpack _); vm_compute; exact I|].
  exists ps. split; [exact Hps|]. destruct (proj2 (Hkeys "lte" FamilyV4)) as (p & Hp & Hw & _).
  { eexists. split; [reflexivity|]. apply list_elem_of_here. }
  exists p. split; [exact Hp|]. split; [exact Hw|].
  destruct (Hall p Hp) as (_ & _ & _ & _ & _ & _ & _ & _ & (addrs & Ha & _) & _). by exists addrs.
Defined.
