(* ===== verification/Filepath.v ===== *)
(** * File paths of the Go standard library

    [path/filepath] on Unix as the State writer and the Hook runner use it. The
    standard library is not part of the repository, so nothing here is mapped to
    a source line. *)
From Stdlib Require Import Ascii.
From S2P Require Import Prelude NetIP.

Definition slash : ascii := "/"%char.

(** The text between slashes. *)
Fixpoint segments (s : string) : list string :=
  match s with
  | EmptyString => [""]
  | String a s =>
      match segments s with
      | seg :: rest => if decide (a = slash) then "" :: seg :: rest else String a seg :: rest
      | [] => []
      end
  end.

Definition rooted (s : string) : bool :=
  match s with String a _ => bool_decide (a = slash) | EmptyString => false end.

(** One segment of a path, over the reversed segments kept so far. *)
Definition clean_step (abs : bool) (kept : list string) (seg : string) : list string :=
  if bool_decide (seg = "" ∨ seg = ".") then kept
  else if bool_decide (seg = "..") then
    match kept with
    | top :: rest => if bool_decide (top = "..") then seg :: kept else rest
    | [] => if abs then [] else [seg]
    end
  else seg :: kept.

(** [filepath.Clean] *)
Definition Clean (s : string) : string :=
  let body := join "/" (rev (foldl (clean_step (rooted s)) [] (segments s))) in
  if rooted s then "/" +:+ body else if decide (body = "") then "." else body.

(** [filepath.Join] of two elements *)
Definition Join (a b : string) : string :=
  if decide (a = "") then if decide (b = "") then "" else Clean b
  else Clean (a +:+ "/" +:+ b).

(** [filepath.Dir] *)
Definition Dir (s : string) : string :=
  match rev (segments s) with
  | _ :: (_ :: _) as init => Clean (join "/" (rev init) +:+ "/")
  | _ => "."
  end.

(** [filepath.Base] *)
Definition Base (s : string) : string :=
  if decide (s = "") then "."
  else match filter (λ seg, seg ≠ "") (rev (segments s)) with
       | last :: _ => last
       | [] => "/"
       end.

Example clean_examples :
  Clean "/etc//wanwatch/./hooks/../hooks/" = "/etc/wanwatch/hooks" ∧ Clean "" = "." ∧ Clean "/.." = "/" ∧
  Clean "a/../../b" = "../b" ∧ Join "/etc/wanwatch/hooks" "up.d" = "/etc/wanwatch/hooks/up.d" ∧
  Dir "/run/wanwatch/state.json" = "/run/wanwatch" ∧ Base "/run/wanwatch/state.json" = "state.json" ∧
  Dir "state.json" = "." ∧ Dir "/state.json" = "/" ∧ Base "/" = "/" ∧ Base "a/b/" = "b" ∧ Dir "a/b/" = "a/b".
Proof. split_and!; by vm_compute. Qed.
