(* ===== verification/Hooks.v ===== *)
(** * The Hook runner ([hooks.go])

    Scanning the event's directory, running each Hook with its environment and
    deadline, classifying how it ended, and bounding its output. The operating
    system is an interface; the text of a time is a parameter. *)
From Stdlib Require Import Ascii.
From stdpp Require Import pretty sorting.
From S2P Require Import Prelude GoFloat Runtime NetIP Filepath State.

#[local] Open Scope Z_scope.

(** ** The operating system *)

(** What a run of a process leaves: the chunks it wrote to its two streams, how
    [cmd.Run] ended, and whether its deadline had passed by then. *)
Inductive ExecError := ExitError (code : Z) | ExecFailure (err : error).

Record Execution := mkExecution {
  ex_writes : list (list Z); ex_err : option ExecError; ex_deadline : bool; ex_duration : Z
}.

Class OS (E : Type) := {
  ReadDir : string → E → (error + list (string * bool)) * E;  (* name, [IsDir] *)
  Stat : string → E → (error + Z) * E;                        (* [Mode] *)
  Environ : E → list string;
  Exec : string → list string → Z → E → Execution * E         (* path, environment, timeout *)
}.

(** The sentinels of the standard library. *)
Definition ErrNotExist : error := ErrSentinel "file does not exist".
Definition ErrDeadlineExceeded : error := ErrSentinel "context deadline exceeded".
Definition ErrProcessDone : error := ErrSentinel "os: process already finished".
Definition ESRCH : error := Errno 3.

(** [os.IsNotExist] of an error of [os.ReadDir], whose cause is an errno. *)
Definition IsNotExist (err : error) : bool := Is err (Errno 2) || Is err ErrNotExist.

(** ** Data *)

(** daemon/internal/state/hooks.go:51-66 (hookOutcome): constants *)
Inductive hookOutcome :=
| hookOK | hookNonzero | hookTimeout | hookError | hookSkipped | hookCancelled.

#[export] Instance hookOutcome_eq_dec : EqDecision hookOutcome.
Proof. solve_decision. Defined.

(** daemon/internal/state/hooks.go:56-65 (hookOutcome): the text *)
Definition hookOutcome_String (o : hookOutcome) : string :=
  match o with
  | hookOK => "ok" | hookNonzero => "nonzero" | hookTimeout => "timeout"
  | hookError => "error" | hookSkipped => "skipped" | hookCancelled => "cancelled"
  end.

(** An error value of a Hook: [cmd.Run]'s, or one of the daemon's own. *)
Inductive HookErr := FromRun (err : ExecError) | Own (err : error).

(** daemon/internal/state/hooks.go:68-78 (hookResult): fields *)
Record hookResult := mkHookResult {
  hr_Path : string; hr_Outcome : hookOutcome; hr_ExitCode : Z; hr_Err : option HookErr;
  hr_Duration : Z; hr_Output : list Z
}.

(** daemon/internal/state/hooks.go:90-94 (hookRunner): fields *)
Record hookRunner := mkHookRunner { hk_Dir : string; hk_Timeout : Z; hk_MaxHooks : Z }.

(** daemon/internal/state/hooks.go:96-98 (DefaultHookTimeout): five seconds in
    nanoseconds *)
Definition DefaultHookTimeout : Z := 5000000000.

(** daemon/internal/state/hooks.go:100-104 (maxHookOutput): bytes *)
Definition maxHookOutput : Z := Z.shiftl 16 10.

(** ** The capped buffer *)

(** daemon/internal/state/hooks.go:277-281 (cappedBuffer): fields *)
Record cappedBuffer := mkCapped { cb_limit : Z; cb_buf : list Z; cb_written : Z }.

(** daemon/internal/state/hooks.go:283-289 (cappedBuffer.Write): keeps what
    fits *)
Definition capped_Write (b : cappedBuffer) (p : list Z) : cappedBuffer :=
  let room := cb_limit b - Z.of_nat (length (cb_buf b)) in
  mkCapped (cb_limit b)
    (if 0 <? room then cb_buf b ++ take (Z.to_nat (Z.min (Z.of_nat (length p)) room)) p else cb_buf b)
    (int_wrap (cb_written b + Z.of_nat (length p))).

(** daemon/internal/state/hooks.go:295 (cappedBuffer.String): the marker *)
Definition truncated : list Z := 10 :: chars "[hook output truncated]".

(** daemon/internal/state/hooks.go:291-298 (cappedBuffer.String): the output,
    marked when some was discarded *)
Definition capped_String (b : cappedBuffer) : list Z :=
  if cb_limit b <? cb_written b then cb_buf b ++ truncated else cb_buf b.

(** ** The environment *)

(** daemon/internal/state/hooks.go:300-307 (inheritedEnv): names *)
Definition inheritedEnv : list string :=
  ["PATH"; "LANG"; "TZ"; "HOME"; "USER"; "LOGNAME"; "JOURNAL_STREAM"; "INVOCATION_ID"].

(** daemon/internal/state/hooks.go:309-312 (inheritsEnv): the allowlist *)
Definition inheritsEnv (name : string) : bool :=
  String.prefix "LC_" name || bool_decide (name ∈ inheritedEnv).

(** The text before the first equals sign, all of it if there is none. *)
Fixpoint cut_name (kv : string) : string :=
  match kv with
  | EmptyString => ""
  | String a s => if decide (a = "="%char) then "" else String a (cut_name s)
  end.

(** daemon/internal/state/hooks.go:106-125 (EnvEvent and the other names): in
    the order [buildEnv] lists them *)
Definition hookEnvNames : list string :=
  ["WANWATCH_EVENT"; "WANWATCH_GROUP"; "WANWATCH_WAN_OLD"; "WANWATCH_WAN_NEW";
   "WANWATCH_INTERFACE_OLD"; "WANWATCH_INTERFACE_NEW";
   "WANWATCH_GATEWAY_V4_OLD"; "WANWATCH_GATEWAY_V4_NEW"; "WANWATCH_GATEWAY_V6_OLD"; "WANWATCH_GATEWAY_V6_NEW";
   "WANWATCH_FAMILIES_OLD"; "WANWATCH_FAMILIES_NEW"; "WANWATCH_TABLE"; "WANWATCH_MARK"; "WANWATCH_TIMESTAMP"].

Section hooks.
Context {E Ev : Type} `{HOS : OS E}.
(** [Time.Format(time.RFC3339Nano)] *)
Context (rfc3339 : Time → string).

Abbreviation M := (M E Ev).

(** daemon/internal/state/hooks.go:328-344 (buildEnv): the values, in the order
    of the names *)
Definition hookEnvValues (ctx : HookContext) (ts : Time) : list string :=
  [Event_String (hc_Event ctx); hc_Group ctx; hc_WanOld ctx; hc_WanNew ctx;
   hc_InterfaceOld ctx; hc_InterfaceNew ctx;
   hc_GatewayV4Old ctx; hc_GatewayV4New ctx; hc_GatewayV6Old ctx; hc_GatewayV6New ctx;
   join "," (hc_FamiliesOld ctx); join "," (hc_FamiliesNew ctx);
   pretty (hc_Table ctx); pretty (hc_Mark ctx); rfc3339 ts].

(** daemon/internal/state/hooks.go:314-346 (buildEnv): what a Hook inherits,
    then its own variables *)
Definition buildEnv (ctx : HookContext) : M (list string) :=
  environ ← call (λ e, (Environ e, e));
  let base := filter (λ kv, inheritsEnv (cut_name kv) = true) environ in
  ts ← (if IsZero (hc_Timestamp ctx) then now else mret (hc_Timestamp ctx));
  mret (base ++ zip_with (λ name value, name +:+ "=" +:+ value) hookEnvNames (hookEnvValues ctx ts)).

(** ** Running *)

(** daemon/internal/state/hooks.go:183-231 (runOne): run one Hook and classify
    its end; [cmd.Run] kills it at the deadline *)
Definition runOne (path : string) (env : list string) (timeout : Z) : M hookResult :=
  r ← call (Exec path env timeout);
  let out := capped_String (foldl capped_Write (mkCapped maxHookOutput [] 0) (ex_writes r)) in
  match ex_err r with
  | None => mret (mkHookResult path hookOK 0 None (ex_duration r) out)
  | Some err =>
      let res o code err := mkHookResult path o code (Some err) (ex_duration r) out in
      parentErr ← ctx_Err;
      match parentErr with
      | Some _ => mret (res hookCancelled (-1) (FromRun err))
      | None =>
          mret (if ex_deadline r then res hookTimeout (-1) (Own ErrDeadlineExceeded)
                else match err with
                     | ExitError code => res hookNonzero code (FromRun err)
                     | ExecFailure _ => res hookError (-1) (FromRun err)
                     end)
      end
  end.

(** daemon/internal/state/hooks.go:155-166 (hookRunner.run): the executable
    files of a directory *)
Fixpoint executables (eventDir : string) (entries : list (string * bool)) : M (list string) :=
  match entries with
  | [] => mret []
  | (name, isDir) :: entries =>
      if isDir : bool then executables eventDir entries
      else
        info ← call (Stat (Join eventDir name));
        paths ← executables eventDir entries;
        mret (match info with
              | inl _ => paths
              | inr mode => if Z.land mode 73 =? 0 then paths else Join eventDir name :: paths
              end)
  end.

(** daemon/internal/state/hooks.go:169-180 (hookRunner.run): the loop over the
    sorted paths from index [i] *)
Fixpoint run_paths (r : hookRunner) (env : list string) (timeout : Z) (i : Z) (paths : list string)
    : M (list hookResult) :=
  match paths with
  | [] => mret []
  | p :: paths =>
      parentErr ← ctx_Err;
      match parentErr with
      | Some _ => mret []
      | None =>
          res ← (if (0 <? hk_MaxHooks r) && (hk_MaxHooks r <=? i)
                 then mret (mkHookResult p hookSkipped (-1) None 0 [])
                 else runOne p env timeout);
          rest ← run_paths r env timeout (i + 1) paths;
          mret (res :: rest)
      end
  end.

(** daemon/internal/state/hooks.go:127-181 (hookRunner.run): all Hooks of an
    event *)
Definition run (r : hookRunner) (ctx : HookContext) : M (list hookResult) :=
  let eventDir := Join (hk_Dir r) (Event_String (hc_Event ctx) +:+ ".d") in
  entries ← call (ReadDir eventDir);
  match entries with
  | inl err =>
      mret (if IsNotExist err then []
            else [mkHookResult eventDir hookError (-1) (Some (Own err)) 0 []])
  | inr entries =>
      let timeout := if hk_Timeout r =? 0 then DefaultHookTimeout else hk_Timeout r in
      env ← buildEnv ctx;
      paths ← executables eventDir entries;
      run_paths r env timeout 0 (sort_strings paths)
  end.

(** daemon/internal/state/hooks.go:254-269 (cancelHook): kill the process group,
    and the process alone when the group is not there *)
Definition cancelHook (pgrpKill procKill : E → option error * E) : M (option error) :=
  err ← call pgrpKill;
  match err with
  | None => mret None
  | Some err =>
      if negb (Is err ESRCH) then mret (Some err)
      else
        killErr ← call procKill;
        mret (match killErr with
              | Some killErr => if Is killErr ErrProcessDone then Some ErrProcessDone else Some killErr
              | None => None
              end)
  end.

End hooks.

(** ** The output *)

Lemma capped_fold lim ws : 0 ≤ lim → ∀ b done,
  cb_limit b = lim → cb_buf b = take (Z.to_nat lim) done → cb_written b = Z.of_nat (length done) →
  Z.of_nat (length (done ++ concat ws)) < two63 →
  let b' := foldl capped_Write b ws in
  cb_limit b' = lim ∧ cb_buf b' = take (Z.to_nat lim) (done ++ concat ws) ∧
  cb_written b' = Z.of_nat (length (done ++ concat ws)).
Proof.
  intros Hlim. induction ws as [|p ws IH]; intros b done Hl Hb Hw Hlen; cbn [foldl concat].
  { by rewrite app_nil_r. }
  cbn [concat] in Hlen. rewrite app_assoc in Hlen |- *. apply IH; [by cbn| | |done].
  - cbn. rewrite Hl, Hb, length_take, take_app.
    destruct (0 <? _) eqn:Hroom; bool_to_Prop.
    + f_equal.
      destruct (Z.le_gt_cases (Z.of_nat (length p)) (lim - Z.of_nat (length done))) as [Hfit|Hfit].
      * rewrite !take_ge; [done|lia..].
      * f_equal. lia.
    + rewrite (proj2 (Nat.sub_0_le _ _)) by lia. by rewrite take_0, app_nil_r.
  - cbn. rewrite Hw, int_wrap_small; rewrite length_app in *; rewrite ?length_app in Hlen; unfold two63 in *; lia.
Qed.

Lemma capped_output lim ws : 0 ≤ lim → Z.of_nat (length (concat ws)) < two63 →
  capped_String (foldl capped_Write (mkCapped lim [] 0) ws) =
    if lim <? Z.of_nat (length (concat ws)) then take (Z.to_nat lim) (concat ws) ++ truncated else concat ws.
Proof.
  intros Hlim Hlen. destruct (capped_fold lim ws Hlim (mkCapped lim [] 0) []) as (Hl & Hb & Hw); [done|by rewrite take_nil|done|done|].
  unfold capped_String. rewrite Hl, Hb, Hw. cbn [app]. destruct (lim <? _) eqn:Hlt; bool_to_Prop; [done|].
  by rewrite take_ge by lia.
Qed.

(** ** A run *)

(** What the operating system keeps to: looking at a file changes nothing, and
    no process writes 8 EiB. *)
Class OSLaws (E : Type) `{OS E} := {
  stat_pure path e : (Stat path e).2 = e;
  exec_writes path env timeout e : Z.of_nat (length (concat (ex_writes (Exec path env timeout e).1))) < two63
}.

(** The output kept of the bytes a Hook wrote. *)
Definition output_of (bytes : list Z) : list Z :=
  if 16384 <? Z.of_nat (length bytes) then take (Z.to_nat 16384) bytes ++ truncated else bytes.

Section run.
Context {E Ev : Type} `{HOS : OS E, HL : !OSLaws E}.
Context (rfc3339 : Time → string).

(** How the result of a run Hook reads: what ended it, with which exit code. *)
Definition classified (env : list string) (timeout : Z) (res : hookResult) : Prop :=
  ∃ e x, x = (Exec (hr_Path res) env timeout e).1 ∧
    hr_Output res = output_of (concat (ex_writes x)) ∧
    match hr_Outcome res with
    | hookOK => ex_err x = None ∧ hr_ExitCode res = 0 ∧ hr_Err res = None
    | hookNonzero => ex_err x = Some (ExitError (hr_ExitCode res)) ∧ ex_deadline x = false ∧
        hr_Err res = Some (FromRun (ExitError (hr_ExitCode res)))
    | hookTimeout => is_Some (ex_err x) ∧ ex_deadline x = true ∧ hr_ExitCode res = -1 ∧
        hr_Err res = Some (Own ErrDeadlineExceeded)
    | hookError => ∃ err, ex_err x = Some (ExecFailure err) ∧ ex_deadline x = false ∧ hr_ExitCode res = -1 ∧
        hr_Err res = Some (FromRun (ExecFailure err))
    | hookCancelled => ∃ err, ex_err x = Some err ∧ hr_ExitCode res = -1 ∧ hr_Err res = Some (FromRun err)
    | hookSkipped => False
    end.

Lemma runOne_spec path env timeout (w : World E Ev) :
  wp (runOne path env timeout) (λ res w', hr_Path res = path ∧ classified env timeout res ∧
    (hr_Outcome res = hookCancelled → cancelled w' = true)) w.
Proof.
  unfold runOne. apply wp_bind. unfold wp at 1, call.
  destruct (Exec path env timeout (w_env w)) as [x e'] eqn:Hx. cbn [fst snd].
  assert (Hout : capped_String (foldl capped_Write (mkCapped maxHookOutput [] 0) (ex_writes x)) = output_of (concat (ex_writes x))).
  { rewrite capped_output; [done|done|]. pose proof (exec_writes path env timeout (w_env w)) as Hw. by rewrite Hx in Hw. }
  rewrite Hout. assert (Hx' : x = (Exec path env timeout (w_env w)).1) by (by rewrite Hx).
  destruct (ex_err x) as [err|] eqn:Herr.
  - apply wp_bind. unfold wp at 1, ctx_Err. cbn [fst snd]. destruct (cancelled _) eqn:Hc; apply wp_ret.
    + split; [done|]. split; [|intros _; by apply cancelled_step]. exists (w_env w), x. naive_solver.
    + destruct (ex_deadline x) eqn:Hd; [|destruct err as [code|err]];
        (split; [done|]; split; [exists (w_env w), x; naive_solver|done]).
  - apply wp_ret. split; [done|]. split; [|done]. exists (w_env w), x. naive_solver.
Qed.

#[export] Instance runOne_extending path env timeout : Extending (runOne (E:=E) (Ev:=Ev) path env timeout).
Proof. unfold runOne. extending_by. Qed.

#[export] Instance run_paths_extending r env timeout i paths :
  Extending (run_paths (E:=E) (Ev:=Ev) r env timeout i paths).
Proof. revert i. induction paths as [|p paths IH]; intros i; cbn [run_paths]; extending_by. Qed.

(** Whether the cap on the Hooks of an event leaves out the [i]th. *)
Definition over_cap (r : hookRunner) (i : Z) : bool := (0 <? hk_MaxHooks r) && (hk_MaxHooks r <=? i).

Lemma run_paths_spec r env timeout paths : ∀ i (w : World E Ev),
  wp (run_paths r env timeout i paths) (λ results w', ∃ n,
    hr_Path <$> results = take n paths ∧ (length results < length paths → cancelled w' = true)%nat ∧
    (cancelled w = true → results = []) ∧
    ∀ j res, results !! j = Some res →
      (if over_cap r (i + Z.of_nat j) then hr_Outcome res = hookSkipped ∧ hr_ExitCode res = -1 else classified env timeout res) ∧
      (hr_Outcome res = hookCancelled → cancelled w' = true)) w.
Proof.
  induction paths as [|p paths IH]; intros i w; cbn [run_paths].
  { apply wp_ret. exists 0%nat. split; [done|]. split; [cbn; lia|]. split; [done|]. by intros j res Hj. }
  apply wp_bind. unfold wp at 1, ctx_Err. cbn [fst snd]. destruct (cancelled w) eqn:Hc.
  { apply wp_ret. exists 0%nat. split; [done|]. split; [intros _; by apply cancelled_step|]. split; [done|]. by intros j res Hj. }
  set (one := if (0 <? hk_MaxHooks r) && (hk_MaxHooks r <=? i) then _ else _).
  assert (Hone : wp one (λ res w', hr_Path res = p ∧
    (if over_cap r i then hr_Outcome res = hookSkipped ∧ hr_ExitCode res = -1 else classified env timeout res) ∧
    (hr_Outcome res = hookCancelled → cancelled w' = true)) (step w)).
  { subst one. unfold over_cap. destruct (_ && _); [by apply wp_ret|]. apply runOne_spec. }
  apply wp_bind. eapply wp_mono; [exact Hone|]. intros res w1 (Hp & Hres & Hcan). apply wp_bind.
  eapply wp_mono; [apply wp_and_extends, (IH (i + 1) w1); apply _|].
  cbn beta. intros rest w2 ((n & Hpaths & Hlen & _ & Hall) & Hext). apply wp_ret. exists (S n).
  split; [cbn; by rewrite Hp, Hpaths|]. split; [cbn; intros ?; apply Hlen; lia|]. split; [done|].
  intros [|j] res' Hj; cbn in Hj.
  - injection Hj as <-. rewrite Z.add_0_r. split; [done|]. intros Ho. by eapply extends_cancelled; [|apply Hcan].
  - replace (i + Z.of_nat (S j)) with (i + 1 + Z.of_nat j) by lia. by apply Hall.
Qed.

(** The executable files of a directory, in its order. *)
Definition exec_paths (e : E) (eventDir : string) (entries : list (string * bool)) : list string :=
  omap (λ '(name, isDir),
    if isDir : bool then None
    else match (Stat (Join eventDir name) e).1 with
         | inl _ => None
         | inr mode => if Z.land mode 73 =? 0 then None else Some (Join eventDir name)
         end) entries.

Lemma executables_spec eventDir entries (w : World E Ev) :
  wp (executables eventDir entries) (λ paths w', paths = exec_paths (w_env w) eventDir entries ∧
    w_env w' = w_env w) w.
Proof.
  revert w. induction entries as [|[name isDir] entries IH]; intros w; cbn [executables]; [by apply wp_ret|].
  destruct isDir; [apply IH|]. apply wp_bind. unfold wp at 1, call.
  pose proof (stat_pure (Join eventDir name) (w_env w)) as Hpure.
  destruct (Stat (Join eventDir name) (w_env w)) as [info e'] eqn:Hs. cbn [fst snd] in Hpure |- *. subst e'.
  apply wp_bind. eapply wp_mono; [apply IH|]. cbn beta. intros paths w' (-> & He). apply wp_ret.
  split; [|done]. cbn. rewrite Hs. cbn. destruct info as [|mode]; [done|]. by destruct (Z.land mode 73 =? 0).
Qed.

#[export] Instance executables_extending eventDir entries : Extending (executables (E:=E) (Ev:=Ev) eventDir entries).
Proof. induction entries as [|[name []] entries IH]; cbn [executables]; extending_by. Qed.

(** ** The environment *)

(** What a Hook reads for a name: the last binding of it. *)
Definition getenv (env : list string) (name : string) : option string :=
  last (filter (λ kv, cut_name kv = name) env).

Fixpoint no_equals (s : string) : bool :=
  match s with EmptyString => true | String a s => negb (bool_decide (a = "="%char)) && no_equals s end.

Lemma cut_name_binding name value : no_equals name = true → cut_name (name +:+ "=" +:+ value) = name.
Proof.
  induction name as [|a name IH]; [done|]. cbn [no_equals]. intros [Ha Hn]%andb_prop.
  apply negb_true_iff, bool_decide_eq_false in Ha.
  change (String a name +:+ "=" +:+ value) with (String a (name +:+ "=" +:+ value)). cbn [cut_name].
  rewrite decide_False by done. f_equal. by apply IH.
Qed.

Definition binding (name value : string) : string := name +:+ "=" +:+ value.

Lemma filter_bindings name names : ∀ values, Forall (λ n, no_equals n = true) names →
  name ∉ names → filter (λ kv, cut_name kv = name) (zip_with binding names values) = [].
Proof.
  induction names as [|n names IH]; intros [|v values] Hn Hin; try done. cbn [zip_with].
  apply Forall_cons in Hn as [Hn1 Hn]. apply not_elem_of_cons in Hin as [Hne Hin].
  rewrite filter_cons_False; [by apply IH|]. unfold binding. by rewrite cut_name_binding.
Qed.

Lemma filter_binding names : ∀ values i name value, Forall (λ n, no_equals n = true) names → NoDup names →
  names !! i = Some name → values !! i = Some value →
  filter (λ kv, cut_name kv = name) (zip_with binding names values) = [binding name value].
Proof.
  induction names as [|n names IH]; intros [|v values] i name value Hn Hnd Hi Hv; try done.
  apply Forall_cons in Hn as [Hn1 Hn]. apply NoDup_cons in Hnd as [Hnin Hnd]. cbn [zip_with].
  destruct i as [|i]; cbn in Hi, Hv.
  - injection Hi as <-. injection Hv as <-. rewrite filter_cons_True by (unfold binding; by apply cut_name_binding).
    by rewrite filter_bindings.
  - rewrite filter_cons_False; [by eapply IH|]. unfold binding. rewrite cut_name_binding by done.
    intros ->. by apply Hnin; eapply list_elem_of_lookup_2.
Qed.

Lemma hook_names_ok : NoDup hookEnvNames ∧ Forall (λ n, no_equals n = true ∧ inheritsEnv n = false) hookEnvNames.
Proof.
  split; [apply (bool_decide_eq_true_1 (NoDup _)); by vm_compute|].
  apply (bool_decide_eq_true_1 (Forall _ _)). by vm_compute.
Qed.

Lemma filter_inherited name environ :
  filter (λ kv, cut_name kv = name) (filter (λ kv, inheritsEnv (cut_name kv) = true) environ) =
    if inheritsEnv name then filter (λ kv, cut_name kv = name) environ else [].
Proof.
  induction environ as [|kv environ IH]; [by destruct (inheritsEnv name)|].
  rewrite (filter_cons (λ kv, inheritsEnv (cut_name kv) = true)), (filter_cons (λ kv, cut_name kv = name) kv environ).
  destruct (decide (inheritsEnv (cut_name kv) = true)) as [Hi|Hi]; [rewrite filter_cons|];
    destruct (decide (cut_name kv = name)) as [Hk|Hk]; try done.
  - rewrite Hk in Hi. rewrite Hi in *. by rewrite IH.
  - rewrite Hk in Hi. destruct (inheritsEnv name); [done|]. exact IH.
Qed.

Lemma buildEnv_spec ctx (w : World E Ev) :
  wp (buildEnv rfc3339 ctx) (λ env w', w_env w' = w_env w ∧ ∃ ts,
    (IsZero (hc_Timestamp ctx) = false → ts = hc_Timestamp ctx) ∧
    (∀ i name value, hookEnvNames !! i = Some name → hookEnvValues rfc3339 ctx ts !! i = Some value →
       getenv env name = Some (binding name value)) ∧
    (∀ name, name ∉ hookEnvNames →
       getenv env name = if inheritsEnv name then getenv (Environ (w_env w)) name else None)) w.
Proof.
  unfold buildEnv. apply wp_bind. unfold wp at 1, call. cbn [fst snd w_env]. apply wp_bind.
  set (ts0 := if IsZero (hc_Timestamp ctx) then _ else _).
  assert (Hts : wp ts0 (λ ts w', w_env w' = w_env w ∧ (IsZero (hc_Timestamp ctx) = false → ts = hc_Timestamp ctx))
    (mkWorld (w_sched w) (S (w_tick w)) (w_env w) (w_log w))).
  { subst ts0. destruct (IsZero _); [|by apply wp_ret]. by split. }
  eapply wp_mono; [exact Hts|]. intros ts w1 [He Hz]. apply wp_ret. split; [done|]. exists ts. split; [done|].
  destruct hook_names_ok as [Hnd Hok].
  assert (Hno : Forall (λ n, no_equals n = true) hookEnvNames) by (eapply Forall_impl; [exact Hok|]; naive_solver).
  change (λ name value, name +:+ "=" +:+ value) with binding. unfold getenv. split.
  - intros i name value Hi Hv. rewrite filter_app, filter_inherited, (filter_binding hookEnvNames _ i name value) by done.
    rewrite Forall_forall in Hok. destruct (Hok name) as [_ ->]; [by eapply list_elem_of_lookup_2|]. done.
  - intros name Hin. rewrite filter_app, filter_inherited, filter_bindings, app_nil_r by done. by destruct (inheritsEnv name).
Qed.

#[export] Instance buildEnv_extending ctx : Extending (buildEnv (E:=E) (Ev:=Ev) rfc3339 ctx).
Proof. unfold buildEnv. extending_by. Qed.

End run.

(** ** Properties *)



Module Example.

#[export] Instance os : OS nat := {
  ReadDir := λ _ e, (inr [("20-b", false); ("lib", true); ("10-a", false); ("30-c", false); ("README", false)], e);
  Stat := λ p e, (inr (if decide (Base p = "README") then 420 else 493), e);
  Environ := λ _, ["PATH=/bin"; "NOTIFY_SOCKET=/run/systemd/notify"; "LC_TIME=C"];
  Exec := λ p _ _ e, (mkExecution [[104]; [105; 10]] (if decide (e = 0%nat) then None else Some (ExitError 3)) false 1, S e)
}.

#[export] Instance laws : OSLaws nat.
Proof. by split. Qed.

Definition start : World nat unit := mkWorld (mkSchedule None (λ n, Pos.of_succ_nat n) (λ _ i, i)) 0 0%nat [].

Definition context : HookContext :=
  mkHookContext EventUp "default" "" "wan0" "" "eth0" "" "192.0.2.1" "" "" [] ["v4"; "v6"] 1000 256 0%N.

Definition runner : hookRunner := mkHookRunner "/etc/wanwatch/hooks" 0 2.

End Example.

#[local] Existing Instances Example.os Example.laws.


Example hook_environment_example :
  getenv (buildEnv (Ev:=unit) (λ _, "T") Example.context Example.start).1 <$> ["PATH"; "LC_TIME"; "NOTIFY_SOCKET"; "WANWATCH_FAMILIES_NEW"] =
    [Some "PATH=/bin"; Some "LC_TIME=C"; None; Some "WANWATCH_FAMILIES_NEW=v4,v6"].
Proof. by vm_compute. Qed.
