(* ===== verification/Notifier.v ===== *)
(** * The Hook notifier ([notifications.go])

    The bounded queue between the event loop and the worker that runs Hooks, as
    a step relation: [Notify] and [Close] hold the mutex and are functions on the
    shared state; the worker, its [select] and the cancellation of the daemon
    interleave with them in any order. *)
From S2P Require Import Prelude GoFloat Runtime Metrics State Hooks.

(** ** State *)

(** daemon/internal/state/notifications.go:29-32 (hookQueueCapacity): and the
    limit of Hooks per event *)
Definition hookQueueCapacity : nat := 32.

(** daemon/internal/state/notifications.go:29-32 (maxHooksPerEvent): constant *)
Definition maxHooksPerEvent : Z := 8.

(** daemon/internal/state/notifications.go:34-40 (NewHookNotifier): the runner
    it builds *)
Definition newHookRunner (dir : string) (timeout : Z) : hookRunner := mkHookRunner dir timeout maxHooksPerEvent.

(** Where the worker is: not started, at its [select], holding a job it received,
    running one, or returned. *)
Inductive worker := WNone | WSelect | WReceived (h : HookContext) | WRunning (h : HookContext) | WExited.

(** daemon/internal/state/notifications.go:13-27 (HookNotifier): the channel, nil
    as [None], and whether Close ran; [done] is closed once the worker exited *)
Record HookNotifier := mkNotifier {
  nt_jobs : option (list HookContext); nt_closed : bool; nt_worker : worker
}.

(** daemon/internal/state/notifications.go:42-46 (newHookNotifier): no worker yet *)
Definition newHookNotifier : HookNotifier := mkNotifier None false WNone.

(** The copy [Notify] queues, stamped when it has no timestamp. *)
Definition stamp (now_ : Time) (h : HookContext) : HookContext :=
  if IsZero (hc_Timestamp h) then
    mkHookContext (hc_Event h) (hc_Group h) (hc_WanOld h) (hc_WanNew h) (hc_InterfaceOld h) (hc_InterfaceNew h)
      (hc_GatewayV4Old h) (hc_GatewayV4New h) (hc_GatewayV6Old h) (hc_GatewayV6New h)
      (hc_FamiliesOld h) (hc_FamiliesNew h) (hc_Table h) (hc_Mark h) now_
  else h.

(** daemon/internal/state/notifications.go:48-77 (Notify): start the worker on
    the first event, queue the event, drop it when the queue is full *)
Definition Notify (cancelled : bool) (now_ : Time) (n : HookNotifier) (h : HookContext) : bool * HookNotifier :=
  if nt_closed n || cancelled then (false, n)
  else
    let n := match nt_jobs n with None => mkNotifier (Some []) (nt_closed n) WSelect | Some _ => n end in
    let jobs := default [] (nt_jobs n) in
    if decide (length jobs < hookQueueCapacity) then
      (true, mkNotifier (Some (jobs ++ [stamp now_ h])) (nt_closed n) (nt_worker n))
    else (false, n).

(** daemon/internal/state/notifications.go:84-91 (Close): the part under the
    mutex *)
Definition Close_begin (n : HookNotifier) : HookNotifier := mkNotifier (nt_jobs n) true (nt_worker n).

(** daemon/internal/state/notifications.go:91-96 (Close): it returns at once
    without a worker, else when the worker is done *)
Definition Close_returns (n : HookNotifier) : bool :=
  match nt_jobs n with None => true | Some _ => match nt_worker n with WExited => true | _ => false end end.

(** ** Steps *)

Record system := mkSystem { sy_notifier : HookNotifier; sy_cancelled : bool }.

Definition init : system := mkSystem newHookNotifier false.

Inductive label :=
| LNotify (h : HookContext) (accepted : bool)   (* [h] as queued *)
| LClose | LClosed | LCancel
| LReceive | LStart (h : HookContext) | LDrop (h : HookContext) | LFinish (h : HookContext) | LExit.

(** The worker's own steps. *)
Definition of_worker (l : label) : bool :=
  match l with LReceive | LStart _ | LDrop _ | LFinish _ | LExit => true | _ => false end.

(** daemon/internal/state/notifications.go:98-111 (deliver): the worker's part of
    the relation; the rest are the calls of other goroutines *)
Inductive step : system → label → system → Prop :=
| step_Notify n c now_ h ok n' : Notify c now_ n h = (ok, n') →
    step (mkSystem n c) (LNotify (stamp now_ h) ok) (mkSystem n' c)
| step_Close n c : step (mkSystem n c) LClose (mkSystem (Close_begin n) c)
| step_Closed n c : nt_closed n = true → Close_returns n = true → step (mkSystem n c) LClosed (mkSystem n c)
| step_Cancel n c : step (mkSystem n c) LCancel (mkSystem n true)
| step_Done q cl : step (mkSystem (mkNotifier q cl WSelect) true) LExit (mkSystem (mkNotifier q cl WExited) true)
| step_Receive h q cl c :
    step (mkSystem (mkNotifier (Some (h :: q)) cl WSelect) c) LReceive (mkSystem (mkNotifier (Some q) cl (WReceived h)) c)
| step_NotOk c :
    step (mkSystem (mkNotifier (Some []) true WSelect) c) LExit (mkSystem (mkNotifier (Some []) true WExited) c)
| step_Drop h q cl :
    step (mkSystem (mkNotifier q cl (WReceived h)) true) (LDrop h) (mkSystem (mkNotifier q cl WExited) true)
| step_Start h q cl :
    step (mkSystem (mkNotifier q cl (WReceived h)) false) (LStart h) (mkSystem (mkNotifier q cl (WRunning h)) false)
| step_Finish h q cl c :
    step (mkSystem (mkNotifier q cl (WRunning h)) c) (LFinish h) (mkSystem (mkNotifier q cl WSelect) c).

Inductive steps : system → list label → system → Prop :=
| steps_nil s : steps s [] s
| steps_cons s l s1 tr s2 : step s l s1 → steps s1 tr s2 → steps s (l :: tr) s2.

(** ** Executing a job *)

Section execute.
Context {E Ev : Type} `{HOS : OS E, HMS : MetricSink Ev}.
Context (rfc3339 : Time → string).

(** daemon/internal/state/notifications.go:116-130 (execute): the counted
    outcomes; logging has no behaviour *)
Definition counted (h : HookContext) (r : hookResult) : option (list string) :=
  match hr_Outcome r with
  | hookSkipped | hookCancelled => None
  | o => Some [hc_Group h; Event_String (hc_Event h); hookOutcome_String o]
  end.

(** daemon/internal/state/notifications.go:113-132 (execute): run the Hooks and
    count them *)
Definition execute (r : hookRunner) (h : HookContext) : M E Ev unit :=
  results ← run rfc3339 r h;
  forM results (λ res, match counted h res with None => mret () | Some labels => Inc HookInvocations labels end).

End execute.

(** ** Traces *)

Definition accepted (tr : list label) : list HookContext :=
  omap (λ l, match l with LNotify h true => Some h | _ => None end) tr.
Definition started (tr : list label) : list HookContext :=
  omap (λ l, match l with LStart h => Some h | _ => None end) tr.
Definition dropped (tr : list label) : list HookContext :=
  omap (λ l, match l with LDrop h => Some h | _ => None end) tr.
Definition finished (tr : list label) : list HookContext :=
  omap (λ l, match l with LFinish h => Some h | _ => None end) tr.

Definition queue (n : HookNotifier) : list HookContext := default [] (nt_jobs n).
Definition received (n : HookNotifier) : list HookContext :=
  match nt_worker n with WReceived h => [h] | _ => [] end.
Definition running (n : HookNotifier) : list HookContext :=
  match nt_worker n with WRunning h => [h] | _ => [] end.

Lemma steps_cons_inv s l tr s' : steps s (l :: tr) s' ↔ ∃ m, step s l m ∧ steps m tr s'.
Proof.
  split; [|intros (m & ? & ?); by econstructor]. intros H. inversion H; subst. eauto.
Qed.

Lemma steps_nil_inv s s' : steps s [] s' ↔ s' = s.
Proof. split; [by inversion 1|intros ->; constructor]. Qed.

Lemma steps_app s tr1 tr2 s' : steps s (tr1 ++ tr2) s' ↔ ∃ m, steps s tr1 m ∧ steps m tr2 s'.
Proof.
  revert s. induction tr1 as [|l tr1 IH]; intros s; cbn [app].
  - setoid_rewrite steps_nil_inv. naive_solver.
  - rewrite steps_cons_inv. setoid_rewrite steps_cons_inv. setoid_rewrite IH. naive_solver.
Qed.

Lemma steps_snoc s tr l s' : steps s (tr ++ [l]) s' ↔ ∃ m, steps s tr m ∧ step m l s'.
Proof. rewrite steps_app. setoid_rewrite steps_cons_inv. setoid_rewrite steps_nil_inv. naive_solver. Qed.

(** The invariant of a run from the start. *)
Record inv (tr : list label) (s : system) : Prop := {
  iv_accepted : accepted tr = started tr ++ dropped tr ++ received (sy_notifier s) ++ queue (sy_notifier s);
  iv_running : started tr = finished tr ++ running (sy_notifier s);
  iv_bound : (length (queue (sy_notifier s)) ≤ hookQueueCapacity)%nat;
  iv_worker : nt_worker (sy_notifier s) = WNone ↔ nt_jobs (sy_notifier s) = None;
  iv_dropped : dropped tr = [] ∨ nt_worker (sy_notifier s) = WExited ∧ length (dropped tr) = 1%nat;
  iv_exited : nt_worker (sy_notifier s) = WExited → sy_cancelled s = true ∨
    nt_closed (sy_notifier s) = true ∧ queue (sy_notifier s) = [] ∧ dropped tr = []
}.

Lemma omap_snoc' {A B} (f : A → option B) l x :
  omap f (l ++ [x]) = omap f l ++ match f x with Some y => [y] | None => [] end.
Proof. rewrite omap_app. cbn. by destruct (f x). Qed.

Lemma Notify_cases c now_ n h ok n' : Notify c now_ n h = (ok, n') →
  (ok = false ∧ n' = n ∧ (nt_closed n = true ∨ c = true ∨ length (queue n) = hookQueueCapacity ∨ (hookQueueCapacity < length (queue n))%nat)) ∨
  (ok = true ∧ nt_closed n = false ∧ c = false ∧ nt_closed n' = false ∧
   nt_jobs n' = Some (queue n ++ [stamp now_ h]) ∧ (length (queue n) < hookQueueCapacity)%nat ∧
   nt_worker n' = match nt_jobs n with None => WSelect | Some _ => nt_worker n end).
Proof.
  unfold Notify, queue. destruct (nt_closed n) eqn:Hc; cbn [orb]; [intros [= <- <-]; left; auto|].
  destruct c; [intros [= <- <-]; left; auto|].
  destruct n as [[q|] cl wk]; cbn in *; subst cl; destruct (decide _) as [Hl|Hl]; intros [= <- <-].
  - right. auto 10.
  - left. split; [done|]. split; [done|]. right; right. lia.
  - right. auto 10.
  - unfold hookQueueCapacity in Hl. cbn in Hl. lia.
Qed.

Lemma inv_notify tr n c now_ h ok n' : inv tr (mkSystem n c) → Notify c now_ n h = (ok, n') →
  inv (tr ++ [LNotify (stamp now_ h) ok]) (mkSystem n' c).
Proof.
  intros [H1 H2 H3 H4 H5 H6] [(-> & -> & _)|(-> & Hcl & -> & Hcl' & Hj & Hlen & Hw)]%Notify_cases.
  - split; unfold accepted, started, dropped, finished in *; rewrite ?omap_snoc', ?app_nil_r; done.
  - cbn [sy_notifier sy_cancelled] in *.
    assert (Hsame : received n' = received n ∧ running n' = running n ∧ nt_worker n' ≠ WNone ∧ (nt_worker n' = WExited → nt_worker n = WExited)).
    { unfold received, running. rewrite Hw. destruct (nt_jobs n) eqn:Hjn; [|rewrite (proj2 H4 eq_refl); naive_solver].
      split; [done|]. split; [done|]. split; [|done]. intros Hn. by apply H4 in Hn. }
    destruct Hsame as (Hrc & Hrn & Hnn & Hex).
    assert (Hq : queue n' = queue n ++ [stamp now_ h]) by (unfold queue at 1; by rewrite Hj). split; unfold accepted, started, dropped, finished in *; cbn [sy_notifier sy_cancelled] in *;
      rewrite ?omap_snoc', ?app_nil_r, ?Hrc, ?Hrn, ?Hq.
    + rewrite H1, <- !app_assoc. done.
    + done.
    + rewrite length_app. cbn. unfold hookQueueCapacity in *. lia.
    + rewrite Hj. done.
    + destruct H5 as [H5|[H5 _]]; [by left|]. exfalso. destruct (H6 H5) as [?|(? & _)]; congruence.
    + intros He. exfalso. destruct (H6 (Hex He)) as [?|(? & _)]; congruence.
Qed.

Lemma inv_reachable tr s : steps init tr s → inv tr s.
Proof.
  revert s. induction tr as [|l tr IH] using rev_ind; intros s.
  { intros ->%steps_nil_inv. split; cbn; auto; try done. unfold hookQueueCapacity. lia. }
  intros (m & Hm & Hst)%steps_snoc. pose proof (IH m Hm) as Hinv. clear IH Hm.
  destruct Hst; try (by eapply inv_notify); destruct Hinv as [H1 H2 H3 H4 H5 H6]; split;
    unfold accepted, started, dropped, finished, queue, received, running in *;
    rewrite ?omap_snoc', ?app_nil_r; cbn in *; rewrite ?app_nil_r in *.
  all: try solve [done | auto | naive_solver | lia | destruct H5 as [H5|[]]; [right; rewrite H5; by split|done]].
  - by rewrite H1, <- !app_assoc.
  - destruct H5 as [H5|[]]; [|done]. by rewrite H1, H5, <- !app_assoc.
  - by rewrite H2.
Qed.

(** ** What never happens *)

Lemma cancelled_stays s tr s' : steps s tr s' → sy_cancelled s = true → sy_cancelled s' = true ∧ started tr = [].
Proof.
  induction 1 as [s|s l s1 tr s2 Hst Htr IH]; intros Hc; [by split|].
  assert (H1 : sy_cancelled s1 = true ∧ started [l] = []) by (by destruct Hst).
  destruct H1 as [H1 Hl], (IH H1) as [H2 Htr']. split; [done|].
  change (l :: tr) with ([l] ++ tr). unfold started in *. by rewrite omap_app, Hl, Htr'.
Qed.

Lemma closed_stays s tr s' : steps s tr s' → nt_closed (sy_notifier s) = true ∨ sy_cancelled s = true →
  (nt_closed (sy_notifier s') = true ∨ sy_cancelled s' = true) ∧ accepted tr = [].
Proof.
  induction 1 as [s|s l s1 tr s2 Hst Htr IH]; intros Hc; [by split|].
  assert (H1 : (nt_closed (sy_notifier s1) = true ∨ sy_cancelled s1 = true) ∧ accepted [l] = []).
  { destruct Hst; cbn in Hc |- *; try tauto.
    destruct (Notify_cases _ _ _ _ _ _ H) as [(-> & -> & _)|(_ & Hcl & Hca & _)]; [done|]. destruct Hc; congruence. }
  destruct H1 as [H1 Hl], (IH H1) as [H2 Htr']. split; [done|].
  change (l :: tr) with ([l] ++ tr). unfold accepted in *. by rewrite omap_app, Hl, Htr'.
Qed.

Lemma not_cancelled tr s : steps init tr s → LCancel ∉ tr → sy_cancelled s = false.
Proof.
  revert s. induction tr as [|l tr IH] using rev_ind; intros s; [by intros ->%steps_nil_inv|].
  intros (m & Hm & Hst)%steps_snoc Hin. rewrite not_elem_of_app in Hin. destruct Hin as [Hin Hl].
  specialize (IH m Hm Hin). destruct Hst; cbn in *; try done. by destruct Hl; apply list_elem_of_singleton.
Qed.

(** ** The worker's progress *)

(** How many steps the worker can still take by itself. *)
Definition budget (s : system) : nat :=
  let n := sy_notifier s in
  3 * length (queue n) +
    match nt_worker n with WNone | WExited => 0 | WSelect => 1 | WRunning _ => 2 | WReceived _ => 3 end.

Lemma budget_step s l s' : step s l s' → nt_closed (sy_notifier s) = true ∨ sy_cancelled s = true →
  (budget s' + (if of_worker l then 1 else 0) ≤ budget s)%nat.
Proof.
  unfold budget, queue. intros Hst Hc. destruct Hst; cbn in *; try lia.
  destruct (Notify_cases _ _ _ _ _ _ H) as [(-> & -> & _)|(_ & Hcl & Hca & _)]; [lia|]. destruct Hc; congruence.
Qed.

Lemma budget_steps s tr s' : steps s tr s' → nt_closed (sy_notifier s) = true ∨ sy_cancelled s = true →
  (length (filter (λ l, of_worker l = true) tr) + budget s' ≤ budget s)%nat.
Proof.
  induction 1 as [s|s l s1 tr s2 Hst Htr IH]; intros Hc; [cbn; lia|].
  pose proof (budget_step s l s1 Hst Hc) as Hb.
  destruct (closed_stays s [l] s1) as [Hc1 _]; [by apply steps_cons_inv; exists s1; rewrite steps_nil_inv|done|].
  specialize (IH Hc1). rewrite filter_cons. destruct (decide _) as [Hw|Hw]; cbn [length].
  - rewrite Hw in Hb. cbv iota in Hb. lia.
  - destruct (of_worker l); [done|]. cbv iota in Hb. lia.
Qed.

(** The worker is never stuck before it is done. *)
Lemma worker_progress tr s : steps init tr s → nt_closed (sy_notifier s) = true ∨ sy_cancelled s = true →
  Close_returns (sy_notifier s) = true ∨ ∃ l s', of_worker l = true ∧ step s l s'.
Proof.
  intros Hr Hc. destruct (inv_reachable tr s Hr) as [_ _ _ Hw _ _].
  destruct s as [[[q|] cl [|  |h|h|]] c]; cbn in *; try tauto;
    try (exfalso; by pose proof (proj1 Hw eq_refl)); right.
  - destruct c; [do 2 eexists; split; [|apply step_Done]; done|]. destruct Hc as [-> |]; [|done].
    destruct q as [|h q]; do 2 eexists; (split; [|first [apply step_NotOk | apply step_Receive]]); done.
  - destruct c; do 2 eexists; (split; [|first [apply step_Drop | apply step_Start]]); done.
  - do 2 eexists; (split; [|apply step_Finish]); done.
Qed.

Lemma closed_returns_done tr s s' : steps init tr s → LCancel ∉ tr → step s LClosed s' → finished tr = accepted tr.
Proof.
  intros Hr Hnc Hst. pose proof (not_cancelled tr s Hr Hnc) as Hc. destruct (inv_reachable tr s Hr) as [H1 H2 _ H4 H5 H6].
  inversion Hst; subst. cbn in *. unfold Close_returns in *. unfold received, running, queue in *.
  destruct (nt_jobs n) as [q|] eqn:Hj; cbn in *.
  - destruct (nt_worker n); try done. destruct (H6 eq_refl) as [?|(_ & -> & Hd)]; [congruence|].
    rewrite Hd in H1. cbn in H1. rewrite ?app_nil_r in *. congruence.
  - rewrite (proj2 H4 eq_refl) in *. destruct H5 as [H5|[]]; [|done]. rewrite H5 in H1. cbn in H1.
    rewrite ?app_nil_r in *. congruence.
Qed.

(** ** Properties *)

(** C16. Delivery of Hook events. However [Notify], [Close], the worker and the
    cancellation interleave, events start in the order they were accepted,
    without loss or repetition and one at a time: those that started are the
    first ones accepted, those that finished are the first ones started and all
    but at most one of them; at most 32 accepted events wait besides the one the
    worker holds. After the cancellation no event starts; after [Close] none is
    accepted; and when [Close] returns without cancellation, every accepted
    event has finished. *)
Theorem notifier_delivery tr s : steps init tr s →
  (∃ rest, accepted tr = started tr ++ rest ∧ (length rest ≤ 33)%nat) ∧
  (∃ busy, started tr = finished tr ++ busy ∧ (length busy ≤ 1)%nat) ∧
  (∀ tr1 tr2, tr = tr1 ++ LCancel :: tr2 → started tr2 = []) ∧
  (∀ tr1 tr2, tr = tr1 ++ LClose :: tr2 → accepted tr2 = []) ∧
  (∀ tr1 tr2, tr = tr1 ++ LClosed :: tr2 → LCancel ∉ tr1 → finished tr1 = accepted tr1).
Proof.
  intros Hr. destruct (inv_reachable tr s Hr) as [H1 H2 H3 _ H5 _]. split; [|split; [|split; [|split]]].
  - eexists. split; [exact H1|]. rewrite !length_app. unfold hookQueueCapacity in H3. unfold received.
    destruct H5 as [-> |[-> ->]]; [|cbn; lia]. destruct (nt_worker _); cbn; lia.
  - eexists. split; [exact H2|]. unfold running. destruct (nt_worker _); cbn; lia.
  - intros tr1 tr2 ->. apply steps_app in Hr as (m & _ & (m' & Hst & Htr)%steps_cons_inv).
    apply (cancelled_stays m' tr2 s Htr). by inversion Hst.
  - intros tr1 tr2 ->. apply steps_app in Hr as (m & _ & (m' & Hst & Htr)%steps_cons_inv).
    apply (closed_stays m' tr2 s Htr). left. by inversion Hst.
  - intros tr1 tr2 -> Hnc. apply steps_app in Hr as (m & Hm & (m' & Hst & _)%steps_cons_inv).
    by eapply closed_returns_done.
Qed.

Lemma notifier_delivery_witness : ∃ tr s, steps init tr s ∧ finished tr = accepted tr ∧ length (accepted tr) = 1%nat.
Proof.
  pose (h := stamp 1%N Hooks.Example.context).
  pose (tr := [LNotify h true; LReceive; LStart h; LClose; LFinish h; LExit; LClosed]).
  assert (Hr : steps init tr (mkSystem (mkNotifier (Some []) true WExited) false)).
  { repeat (eapply steps_cons; [first [by eapply step_Notify | apply step_Receive | apply step_Start | apply step_Close
      | apply step_Finish | apply step_NotOk | by apply step_Closed]|]). apply steps_nil. }
  eexists tr, _. split; [exact Hr|]. split; [|done].
  destruct (notifier_delivery _ _ Hr) as (_ & _ & _ & _ & Hclosed).
  apply (Hclosed [LNotify h true; LReceive; LStart h; LClose; LFinish h; LExit] []); [reflexivity|].
  intros Hin. repeat (apply elem_of_cons in Hin as [Hin|Hin]; [discriminate Hin|]). by apply elem_of_nil in Hin.
Defined.

(** C19. [Close] returns. From any reachable state where the notifier is closed or
    the daemon cancelled, whatever else happens, the worker takes at most 99
    more steps of its own (three per queued event, of which there are at most
    32, and three for the one in hand), and until [Close] can return it always
    has a step to take: delivery ends after finitely many Hook runs and never
    deadlocks. *)
Theorem notifier_close_terminates tr s tr' s' : steps init tr s →
  nt_closed (sy_notifier s) = true ∨ sy_cancelled s = true → steps s tr' s' →
  (length (filter (λ l, of_worker l = true) tr') ≤ 99)%nat ∧
  (Close_returns (sy_notifier s') = true ∨ ∃ l s'', of_worker l = true ∧ step s' l s'').
Proof.
  intros Hr Hc Hs. split.
  - pose proof (budget_steps s tr' s' Hs Hc) as Hb. pose proof (iv_bound _ _ (inv_reachable tr s Hr)) as Hq.
    unfold budget, hookQueueCapacity in *. destruct (nt_worker (sy_notifier s)); lia.
  - apply (worker_progress (tr ++ tr')); [apply steps_app; by exists s|]. by apply (closed_stays s tr' s').
Qed.

Lemma notifier_close_terminates_witness : ∃ tr s, steps init tr s ∧ nt_closed (sy_notifier s) = true ∧
  ∃ l s'', of_worker l = true ∧ step s l s''.
Proof.
  pose (h := stamp 1%N Hooks.Example.context).
  assert (Hr : steps init [LNotify h true; LClose] (mkSystem (mkNotifier (Some [h]) true WSelect) false)).
  { eapply steps_cons; [by eapply step_Notify|]. eapply steps_cons; [apply step_Close|]. apply steps_nil. }
  eexists _, _. split; [exact Hr|]. split; [done|].
  destruct (notifier_close_terminates _ _ [] _ Hr (or_introl eq_refl) (steps_nil _)) as [_ [H|H]]; [discriminate H|exact H].
Defined.
