(* ===== verification/StateWriter.v ===== *)
(** * The State writer ([state.go])

    [Writer.Write] over an interface of the file system: the temporary file, its
    promotion by rename and its removal on every error path. The JSON encoder
    is a parameter. The log of a run is what a concurrent reader, or a crash,
    can find: the file system after each operation. *)
From S2P Require Import Prelude GoFloat Runtime NetIP Filepath State.

#[local] Open Scope Z_scope.

(** ** The file system *)

(** The operations of the [os] package the writer performs. *)
Class FileSystem (F : Type) := {
  file_at : string → F → option (list Z * Z);                 (* content and mode *)
  CreateTemp : string → string → F → (error + string) * F;    (* directory, pattern; the name *)
  file_Write : string → list Z → F → option error * F;
  file_Chmod : string → Z → F → option error * F;
  file_Close : string → F → option error * F;
  Rename : string → string → F → option error * F;
  Remove : string → F → option error * F
}.

(** [f] and [f'] differ at most at the names of [ns]. *)
Definition same_but {F} `{FileSystem F} (ns : list string) (f f' : F) : Prop :=
  ∀ p, p ∉ ns → file_at p f' = file_at p f.

(** What the operations are documented to do, for the temporary files of [path]. *)
Class FileSystemLaws (F : Type) `{FileSystem F} (path : string) := {
  create_ok f n f' : CreateTemp (Dir path) (Base path +:+ ".tmp.*") f = (inr n, f') →
    file_at n f = None ∧ file_at n f' = Some ([], 384) ∧ same_but [n] f f' ∧
    ∃ r, Base n = Base path +:+ ".tmp." +:+ r;
  create_error f err f' : CreateTemp (Dir path) (Base path +:+ ".tmp.*") f = (inl err, f') → same_but [] f f';
  write_only n data f : same_but [n] f (file_Write n data f).2;
  write_ok n data f f' b m : file_Write n data f = (None, f') → file_at n f = Some (b, m) →
    file_at n f' = Some (b ++ data, m);
  chmod_only n m f : same_but [n] f (file_Chmod n m f).2;
  chmod_ok n m f f' b m0 : file_Chmod n m f = (None, f') → file_at n f = Some (b, m0) → file_at n f' = Some (b, m);
  close_same n f : same_but [] f (file_Close n f).2;
  rename_ok n p f f' : Rename n p f = (None, f') →
    same_but [n; p] f f' ∧ file_at p f' = file_at n f ∧ (n ≠ p → file_at n f' = None);
  rename_error n p f err f' : Rename n p f = (Some err, f') → same_but [] f f';
  remove_only n f : same_but [n] f (Remove n f).2;
  remove_ok n f f' : Remove n f = (None, f') → file_at n f' = None
}.

(** ** Writing *)

Section writer.
Context {F : Type} `{HF : FileSystem F}.
(** [json.MarshalIndent] *)
Context (MarshalIndent : State → error + list Z).

Abbreviation M := (M F F).

(** A reader may look. *)
Definition look : M unit := λ w, emit (w_env w) w.

(** An operation, after which a reader may look. *)
Definition op {A} (f : F → A * F) : M A := x ← call f; _ ← look; mret x.

(** daemon/internal/state/state.go:132-138 (Writer.Write): the deferred cleanup
    of a temporary file that was not renamed *)
Definition cleanup (tmpName : string) : M unit :=
  _ ← op (file_Close tmpName);
  _ ← op (Remove tmpName);
  mret ().

(** daemon/internal/state/state.go:112-115 (Writer.Write): the State as written *)
Definition fill (updatedAt : Time) (s : State) : State :=
  mkState SchemaVersion (st_Version s) (st_StartedAt s) updatedAt (st_Wans s) (st_Groups s).

(** An error path: the deferred cleanup runs, the error is returned. *)
Definition failed (tmpName msg : string) (err : error) : M (option error) :=
  _ ← cleanup tmpName; mret (Some (Wrapf msg err)).

(** daemon/internal/state/state.go:97-154 (Writer.Write): encode, write the
    temporary file, rename it *)
Definition Write (path : string) (s : State) : M (option error) :=
  updatedAt ← (if IsZero (st_UpdatedAt s) then now else mret (st_UpdatedAt s));
  match MarshalIndent (fill updatedAt s) with
  | inl err => mret (Some (Wrapf "state: marshal" err))
  | inr data =>
      tmp ← op (CreateTemp (Dir path) (Base path +:+ ".tmp.*"));
      match tmp with
      | inl err => mret (Some (Wrapf "state: create tmpfile" err))
      | inr tmpName =>
          err ← op (file_Write tmpName data);
          match err with
          | Some err => failed tmpName "state: write" err
          | None =>
              err ← op (file_Chmod tmpName 420);
              match err with
              | Some err => failed tmpName "state: chmod" err
              | None =>
                  err ← op (file_Close tmpName);
                  match err with
                  | Some err => failed tmpName "state: close" err
                  | None =>
                      err ← op (Rename tmpName path);
                      match err with
                      | Some err => failed tmpName "state: rename" err
                      | None => mret None
                      end
                  end
              end
          end
      end
  end.

(** ** What readers see *)

Context (path : string) `{HL : !FileSystemLaws F path}.
Context (f0 : F).

(** While the temporary file [n] exists, the rest is as before. *)
Definition untouched (n : string) (f : F) : Prop := n ≠ path ∧ same_but [n] f0 f ∧ file_at n f0 = None.

(** The outcomes of a write of [data] by the time the file systems [seen] were
    visible. *)
Definition outcome (data : list Z) (err : option error) (seen : list F) (f : F) : Prop :=
  match err with
  | Some _ => Forall (λ f, file_at path f = file_at path f0) seen ∧ file_at path f = file_at path f0 ∧
      ((∀ n f, (Remove n f).1 = None) → same_but [] f0 f)
  | None => ∃ before after, seen = before ++ [after] ∧ Forall (λ f, file_at path f = file_at path f0) before ∧
      file_at path after = Some (data, 420) ∧ file_at path f = Some (data, 420) ∧ same_but [path] f0 f
  end.

Lemma untouched_path n f : untouched n f → file_at path f = file_at path f0.
Proof. intros (Hn & Hs & _). apply Hs. by intros ->%list_elem_of_singleton. Qed.

Lemma untouched_step n f f' : untouched n f → same_but [n] f f' → untouched n f'.
Proof. intros (Hn & Hs & H0) H. split; [done|]. split; [|done]. intros p Hp. by rewrite (H p Hp), (Hs p Hp). Qed.

Lemma same_but_nil n (f f' : F) : same_but [] f f' → same_but [n] f f'.
Proof. intros H p _. apply H, not_elem_of_nil. Qed.

(** One operation, seen. *)
Lemma wlog_op {A} (f : F → A * F) (Q : A → list F → World F F → Prop) (w : World F F) :
  (∀ w', w_env w' = (f (w_env w)).2 → Q (f (w_env w)).1 [w_env w'] w') → wlog (op f) Q w.
Proof.
  intros HQ. unfold wlog, op, look, wp, mbind, M_bind, call, emit, mret, M_ret. destruct (f (w_env w)) as [x e] eqn:Hf. cbn.
  exists [e]. split; [done|]. cbn in HQ.
  by apply (HQ (mkWorld (w_sched w) (S (w_tick w)) e (w_log w ++ [e]))).
Qed.

Lemma cleanup_spec n data err (w : World F F) seen :
  Forall (λ f, file_at path f = file_at path f0) seen → untouched n (w_env w) →
  wlog (cleanup n) (λ _ l w', outcome data (Some err) (seen ++ l) (w_env w')) w.
Proof.
  intros Hseen Hu. unfold cleanup. apply wlog_bind, wlog_op. intros w1 H1. apply wlog_bind, wlog_op. intros w2 H2.
  apply wlog_ret.
  assert (Hu1 : untouched n (w_env w1)).
  { rewrite H1. eapply untouched_step; [exact Hu|]. apply same_but_nil, close_same. }
  assert (Hu2 : untouched n (w_env w2)) by (rewrite H2; eapply untouched_step; [exact Hu1|apply remove_only]).
  split; [|split].
  - apply Forall_app. split; [done|]. repeat constructor; by eapply untouched_path.
  - by eapply untouched_path.
  - intros Hrm p _. destruct (decide (p = n)) as [-> |Hp].
    + rewrite (proj2 (proj2 Hu)). destruct (Remove n (w_env w1)) as [r f'] eqn:Hr. cbn in H2. rewrite H2.
      apply (remove_ok (path:=path) n (w_env w1)). specialize (Hrm n (w_env w1)). rewrite Hr in Hrm. cbn in Hrm. by rewrite Hr, Hrm.
    + apply (proj1 (proj2 Hu2)). by intros ->%list_elem_of_singleton.
Qed.

(** The outcome wanted of the rest of a write after the file systems [seen]. *)
Definition rest (data : list Z) (seen : list F) (m : M (option error)) : World F F → Prop :=
  wlog m (λ err l w', outcome data err (seen ++ l) (w_env w')).

Lemma failed_spec n data msg err (w : World F F) seen :
  Forall (λ f, file_at path f = file_at path f0) seen → untouched n (w_env w) → rest data seen (failed n msg err) w.
Proof.
  intros Hseen Hu. unfold rest, failed. apply wlog_bind. eapply wlog_mono; [by apply (cleanup_spec n data err)|].
  intros u l w' Ho. apply wlog_ret. by rewrite app_nil_r.
Qed.

(** An operation on the temporary file, with its error path. *)
Lemma temp_op n data msg (f : F → option error * F) (k : M (option error)) (w : World F F) seen :
  Forall (λ f, file_at path f = file_at path f0) seen → untouched n (w_env w) →
  same_but [n] (w_env w) (f (w_env w)).2 →
  (∀ w', w_env w' = (f (w_env w)).2 → (f (w_env w)).1 = None → untouched n (w_env w') →
     Forall (λ f, file_at path f = file_at path f0) (seen ++ [w_env w']) → rest data (seen ++ [w_env w']) k w') →
  rest data seen (err ← op f; match err with Some err => failed n msg err | None => k end) w.
Proof.
  intros Hseen Hu Hs Hk. unfold rest. apply wlog_bind, wlog_op. intros w' Hw'.
  assert (Hu' : untouched n (w_env w')) by (rewrite Hw'; by eapply untouched_step).
  assert (Hseen' : Forall (λ f, file_at path f = file_at path f0) (seen ++ [w_env w'])).
  { apply Forall_app. split; [done|]. repeat constructor. by eapply untouched_path. }
  destruct ((f (w_env w)).1) as [err|] eqn:Hf.
  - eapply wlog_mono; [by apply (failed_spec n data msg err w' (seen ++ [w_env w']))|]. intros r0 l w2 Ho. cbn beta in Ho; rewrite <- app_assoc in Ho. exact Ho.
  - eapply wlog_mono; [by apply (Hk w')|]. intros r0 l w2 Ho. cbn beta in Ho; rewrite <- app_assoc in Ho. exact Ho.
Qed.

Lemma rename_spec n data (w : World F F) seen :
  Forall (λ f, file_at path f = file_at path f0) seen → untouched n (w_env w) → file_at n (w_env w) = Some (data, 420) →
  rest data seen (err ← op (Rename n path); match err with Some err => failed n "state: rename" err | None => mret None end) w.
Proof.
  intros Hseen Hu Hn. unfold rest. apply wlog_bind, wlog_op. intros w' Hw'.
  destruct (Rename n path (w_env w)) as [[err|] f'] eqn:Hr; cbn [fst snd] in Hw' |- *.
  - assert (Hu' : untouched n (w_env w')).
    { rewrite Hw'. eapply untouched_step; [exact Hu|]. by eapply same_but_nil, rename_error. }
    eapply wlog_mono; [apply (failed_spec n data _ err w' (seen ++ [w_env w'])); [|exact Hu']|]; [|intros r0 l w2 Ho; cbn beta in Ho; rewrite <- app_assoc in Ho; exact Ho].
    apply Forall_app. split; [done|]. repeat constructor. by eapply untouched_path.
  - apply rename_ok in Hr as (Hs & Hp & Hgone). apply wlog_ret. cbn. exists seen, (w_env w').
    rewrite Hw', Hp, Hn. split; [done|]. split; [done|]. split; [done|]. split; [done|].
    intros p Hne. destruct (decide (p = n)) as [-> |Hpn].
    + rewrite Hgone by apply Hu. symmetry. apply Hu.
    + rewrite Hs; [apply (proj1 (proj2 Hu)); by intros ->%list_elem_of_singleton|].
      rewrite not_elem_of_cons. split; [done|exact Hne].
Qed.

Lemma string_length_app a b : String.length (a +:+ b) = (String.length a + String.length b)%nat.
Proof. induction a as [|c a IH]; [done|]. change (String c a +:+ b) with (String c (a +:+ b)). cbn. by rewrite IH. Qed.

Lemma temp_name n r : Base n = Base path +:+ ".tmp." +:+ r → n ≠ path.
Proof.
  intros Hb ->. assert (Hl : String.length (Base path) = String.length (Base path +:+ ".tmp." +:+ r)) by (by rewrite <- Hb).
  rewrite !string_length_app in Hl. cbn in Hl. lia.
Qed.

Lemma Write_spec s (w : World F F) : w_env w = f0 →
  wlog (Write path s) (λ err seen w', ∃ updatedAt,
    (IsZero (st_UpdatedAt s) = false → updatedAt = st_UpdatedAt s) ∧
    match MarshalIndent (fill updatedAt s) with
    | inl _ => is_Some err ∧ seen = [] ∧ w_env w' = f0
    | inr data => outcome data err seen (w_env w')
    end) w.
Proof.
  intros H0. unfold Write. apply wlog_bind.
  set (t := if IsZero (st_UpdatedAt s) then _ else _).
  assert (Ht : wlog t (λ ts l w', l = [] ∧ w_env w' = f0 ∧ (IsZero (st_UpdatedAt s) = false → ts = st_UpdatedAt s)) w).
  { subst t. destruct (IsZero _); [|by apply wlog_ret]. exists []. by rewrite app_nil_r. }
  eapply wlog_mono; [exact Ht|]. intros ts l w1 (-> & Hw1 & Hts). cbn beta.
  destruct (MarshalIndent (fill ts s)) as [err|data] eqn:Hdata.
  { apply wlog_ret. exists ts. rewrite Hdata. split; [done|]. split; [by eexists|done]. }
  eapply (wlog_mono _ (λ err seen w', outcome data err seen (w_env w'))).
  2: { intros err seen w' Ho. exists ts. rewrite Hdata. by split. }
  apply wlog_bind, wlog_op. intros w2 H2. rewrite Hw1 in H2 |- *.
  destruct (CreateTemp (Dir path) (Base path +:+ ".tmp.*") f0) as [[err|n] f2] eqn:Hcreate; cbn [fst snd] in H2 |- *.
  { apply wlog_ret. split; [|split].
    - repeat constructor. rewrite H2. by apply create_error in Hcreate as ->; [|apply not_elem_of_nil].
    - rewrite H2. by apply create_error in Hcreate as ->; [|apply not_elem_of_nil].
    - intros _. rewrite H2. by eapply create_error. }
  apply create_ok in Hcreate as (Hfresh & Hn & Hs & r & Hname). rewrite <- H2 in Hn, Hs.
  assert (Hu : untouched n (w_env w2)) by (split; [by eapply temp_name|by split]).
  assert (Hseen : Forall (λ f, file_at path f = file_at path f0) [w_env w2]) by (repeat constructor; by eapply untouched_path).
  apply (temp_op n data "state: write" (file_Write n data) _ w2 [w_env w2]); [done|done|apply write_only|].
  intros w3 H3 Hok3 Hu3 Hseen3. destruct (file_Write n data (w_env w2)) as [e3 f3] eqn:Hf3. cbn in H3, Hok3. subst e3 f3.
  apply (write_ok (path:=path) _ _ _ _ _ _ Hf3) in Hn. cbn [app] in Hn.
  apply temp_op; [done|done|apply chmod_only|].
  intros w4 H4 Hok4 Hu4 Hseen4. destruct (file_Chmod n 420 (w_env w3)) as [e4 f4] eqn:Hf4. cbn in H4, Hok4. subst e4 f4.
  apply (chmod_ok (path:=path) _ _ _ _ _ _ Hf4) in Hn.
  apply temp_op; [done|done|apply same_but_nil, close_same|].
  intros w5 H5 _ Hu5 Hseen5. apply rename_spec; [done|done|].
  rewrite H5, (close_same (path:=path) n (w_env w4) n) by apply not_elem_of_nil. exact Hn.
Qed.

End writer.

(** ** Properties *)

(** C15. Publication of state.json is atomic. In every file system a concurrent
    reader, or a crash, can find during a [Write], the file is either what it
    was before or the whole new document with mode 0644: it is the old one until
    the rename, the last operation, and the new one from then on. [Write]
    returns nil exactly if the new document is in place; it carries schema 1 and
    the caller's timestamp unless that is zero. On every error the old file
    stays, and when removal works the directory is as it was; on success no
    other file has changed. *)
Theorem state_write_atomic {F} `{HF : FileSystem F} MarshalIndent path `{HL : !FileSystemLaws F path} s (w : World F F) :
  wp (Write MarshalIndent path s) (λ err w', ∃ seen updatedAt, w_log w' = w_log w ++ seen ∧
    (st_UpdatedAt s ≠ zero_time → updatedAt = st_UpdatedAt s) ∧
    match MarshalIndent (mkState 1 (st_Version s) (st_StartedAt s) updatedAt (st_Wans s) (st_Groups s)) with
    | inl _ => is_Some err ∧ seen = [] ∧ w_env w' = w_env w
    | inr data =>
        match err with
        | Some _ =>
            Forall (λ f, file_at path f = file_at path (w_env w)) seen ∧
            file_at path (w_env w') = file_at path (w_env w) ∧
            ((∀ n f, (Remove n f).1 = None) → ∀ p, file_at p (w_env w') = file_at p (w_env w))
        | None => ∃ before after, seen = before ++ [after] ∧
            Forall (λ f, file_at path f = file_at path (w_env w)) before ∧
            file_at path after = Some (data, 420) ∧ file_at path (w_env w') = Some (data, 420) ∧
            ∀ p, p ≠ path → file_at p (w_env w') = file_at p (w_env w)
        end
    end) w.
Proof.
  pose proof (Write_spec MarshalIndent path (w_env w) s w eq_refl) as H. unfold wlog in H.
  eapply wp_mono; [exact H|]. cbn beta. intros err w' (seen & Hl & ts & Hts & Ho). exists seen, ts. split; [done|].
  split; [intros Hz; apply Hts; by apply bool_decide_eq_false|]. change (mkState 1 _ _ ts _ _) with (fill ts s).
  destruct (MarshalIndent (fill ts s)) as [e|data]; [done|]. destruct err as [err|].
  - destruct Ho as (H1 & H2 & H3). split; [done|]. split; [done|]. intros Hrm p. apply (H3 Hrm), not_elem_of_nil.
  - destruct Ho as (before & after & H1 & H2 & H3 & H4 & H5). exists before, after. split; [done|]. split; [done|].
    split; [done|]. split; [done|]. intros p Hp. apply H5. by intros ->%list_elem_of_singleton.
Qed.

Module Example.

Definition path : string := "/run/wanwatch/state.json".
Definition temp : string := "/run/wanwatch/state.json.tmp.7".

(** A disk where only one temporary name is free. *)
Abbreviation disk := (gmap string (list Z * Z)).

Definition update (n : string) (g : list Z * Z → list Z * Z) (f : disk) : option error * disk :=
  match f !! n with None => (Some (Errno 2), f) | Some x => (None, <[n := g x]> f) end.

#[export] Instance files : FileSystem disk := {
  file_at := λ p f, f !! p;
  CreateTemp := λ _ _ f, match f !! temp with Some _ => (inl (Errno 17), f) | None => (inr temp, <[temp := ([], 384)]> f) end;
  file_Write := λ n data, update n (λ x, (x.1 ++ data, x.2));
  file_Chmod := λ n m, update n (λ x, (x.1, m));
  file_Close := λ _ f, (None, f);
  Rename := λ n p f, match f !! n with None => (Some (Errno 2), f) | Some x => (None, <[p := x]> (delete n f)) end;
  Remove := λ n f, (None, delete n f)
}.

Lemma update_only n g (f : disk) : same_but [n] f (update n g f).2.
Proof.
  intros p Hp. unfold update. destruct (f !! n); [|done]. apply lookup_insert_ne. intros ->. apply Hp, list_elem_of_here.
Qed.

Lemma update_ok n g (f f' : disk) x : update n g f = (None, f') → f !! n = Some x → f' !! n = Some (g x).
Proof. unfold update. intros H Hn. rewrite Hn in H. injection H as <-. apply lookup_insert_eq. Qed.

#[export] Instance laws : FileSystemLaws disk path.
Proof.
  split.
  - intros f n f' H. cbn in H. destruct (f !! temp) eqn:Ht; [done|]. injection H as <- <-. split; [done|].
    split; [apply lookup_insert_eq|]. split; [|exists "7"; by vm_compute].
    intros p Hp. apply lookup_insert_ne. intros <-. apply Hp, list_elem_of_here.
  - intros f err f' H. cbn in H. destruct (f !! temp); [|done]. by injection H as _ <-.
  - intros n data f. apply update_only.
  - intros n data f f' b m H Hn. exact (update_ok _ _ _ _ _ H Hn).
  - intros n m f. apply update_only.
  - intros n m f f' b m0 H Hn. exact (update_ok _ _ _ _ _ H Hn).
  - done.
  - intros n p f f' H. cbn in H. destruct (f !! n) as [x|] eqn:Hn; [|done]. injection H as <-. split; [|split].
    + intros q Hq. apply not_elem_of_cons in Hq as [H1 H2]. change ((<[p := x]> (delete n f) : disk) !! q = f !! q).
      rewrite lookup_insert_ne by (intros <-; apply H2, list_elem_of_here). apply lookup_delete_ne. congruence.
    + change ((<[p := x]> (delete n f) : disk) !! p = f !! n). rewrite Hn. apply lookup_insert_eq.
    + intros Hne. change ((<[p := x]> (delete n f) : disk) !! n = None). rewrite lookup_insert_ne by done. apply lookup_delete_eq.
  - intros n p f err f' H. cbn in H. destruct (f !! n); [done|]. by injection H as _ <-.
  - intros n f p Hp. apply lookup_delete_ne. intros ->. apply Hp, list_elem_of_here.
  - intros n f f' H. cbn in H. injection H as <-. apply lookup_delete_eq.
Qed.

Definition start : World disk disk :=
  mkWorld (mkSchedule None (λ n, Pos.of_succ_nat n) (λ _ i, i)) 0 {[ path := ([123; 125], 420) ]} [].

End Example.

#[local] Existing Instances Example.files Example.laws.

Lemma state_write_atomic_witness :
  let w' := (Write (λ s, inr [Z.of_N (st_UpdatedAt s)]) Example.path (mkState 0 "1.0" 1%N 9%N ∅ ∅) Example.start).2 in
  file_at Example.path (w_env w') = Some ([9], 420) ∧ length (w_log w') = 5%nat ∧ file_at Example.temp (w_env w') = None.
Proof.
  cbv zeta. pose proof (state_write_atomic (HL:=Example.laws) (λ s, inr [Z.of_N (st_UpdatedAt s)]) Example.path
    (mkState 0 "1.0" 1%N 9%N ∅ ∅) Example.start) as H. unfold wp in H.
  assert (Herr : (Write (λ s, inr [Z.of_N (st_UpdatedAt s)]) Example.path (mkState 0 "1.0" 1%N 9%N ∅ ∅) Example.start).1 = None)
    by (vm_compute; reflexivity).
  assert (Hlog : length (w_log (Write (λ s, inr [Z.of_N (st_UpdatedAt s)]) Example.path (mkState 0 "1.0" 1%N 9%N ∅ ∅) Example.start).2) = 5%nat)
    by (vm_compute; reflexivity).
  destruct (Write _ _ _ _) as [err w']. cbn [fst snd] in *. subst err.
  destruct H as (seen & ts & _ & Hts & before & after & _ & _ & _ & Hpath & Hrest).
  split; [rewrite Hpath, Hts; [reflexivity|discriminate]|]. split; [exact Hlog|].
  rewrite Hrest; [reflexivity|discriminate].
Defined.
