(* ===== verification/Flags.v ===== *)
(** * Command-line flags ([main.go])

    The daemon's two flags, and what package flag does with string flags. *)
From Stdlib Require Import Ascii.
From S2P Require Import Prelude Runtime.

(** ** Package flag *)

(** [flag.ErrHelp] *)
Definition ErrHelp : error := ErrSentinel "flag: help requested".

(** A name and the value after the first equals sign, if there is one. *)
Fixpoint split_value (s : string) : string * option string :=
  match s with
  | EmptyString => ("", None)
  | String c rest =>
      if decide (c = "="%char) then ("", Some rest)
      else let '(name, value) := split_value rest in (String c name, value)
  end.

(** What an argument is to [FlagSet.parseOne]. *)
Inductive argument := NotFlag | Terminator | BadSyntax | Named (name : string) (value : option string).

Definition classify_name (s : string) : argument :=
  match s with
  | EmptyString => BadSyntax
  | String c _ =>
      if decide (c = "-"%char ∨ c = "="%char) then BadSyntax
      else let '(name, value) := split_value s in Named name value
  end.

Definition classify (s : string) : argument :=
  match s with
  | String c (String c2 rest) =>
      if decide (c = "-"%char) then
        if decide (c2 = "-"%char) then match rest with EmptyString => Terminator | _ => classify_name rest end
        else classify_name (String c2 rest)
      else NotFlag
  | _ => NotFlag
  end.

(** [FlagSet.Parse] for a set of string flags, with their values so far: the
    flags before the first argument that is none. *)
Fixpoint FlagSet_Parse (flags : gmap string string) (args : list string) : error + gmap string string :=
  match args with
  | [] => inr flags
  | arg :: args =>
      match classify arg with
      | NotFlag | Terminator => inr flags
      | BadSyntax => inl (Errorf "bad flag syntax")
      | Named name value =>
          if decide (is_Some (flags !! name)) then
            match value, args with
            | Some v, _ => FlagSet_Parse (<[name := v]> flags) args
            | None, v :: args => FlagSet_Parse (<[name := v]> flags) args
            | None, [] => inl (Errorf "flag needs an argument")
            end
          else if decide (name = "help" ∨ name = "h") then inl ErrHelp
          else inl (Errorf "flag provided but not defined")
      end
  end.

(** ** The daemon's *)

(** daemon/cmd/wanwatchd/main.go:43-49 (flags): fields *)
Record flags := mkFlags { fl_configPath : string; fl_logLevel : string }.

(** daemon/cmd/wanwatchd/main.go:51-60 (parseFlags): two string flags with their
    defaults *)
Definition parseFlags (args : list string) : error + flags :=
  let fs : gmap string string := <["config" := "/etc/wanwatch/config.json"]> {[ "log-level" := "" ]} in
  match FlagSet_Parse fs args with
  | inl err => inl err
  | inr fs => inr (mkFlags (default "" (fs !! "config")) (default "" (fs !! "log-level")))
  end.

(** ** Lemmas *)

(** An option as it is given on the command line. *)
Inductive given := GConfig (path : string) | GLogLevel (level : string).

(** Its four spellings. *)
Inductive spelling := Dash | DashDash | DashEq | DashDashEq.

Definition spell (sp : spelling) (g : given) : list string :=
  let '(name, v) := match g with GConfig p => ("config", p) | GLogLevel l => ("log-level", l) end in
  match sp with
  | Dash => ["-" +:+ name; v]
  | DashDash => ["--" +:+ name; v]
  | DashEq => ["-" +:+ name +:+ "=" +:+ v]
  | DashDashEq => ["--" +:+ name +:+ "=" +:+ v]
  end.

Definition set_given (f : flags) (g : given) : flags :=
  match g with
  | GConfig p => mkFlags p (fl_logLevel f)
  | GLogLevel l => mkFlags (fl_configPath f) l
  end.

Definition flag_values (f : flags) : gmap string string :=
  <["config" := fl_configPath f]> {[ "log-level" := fl_logLevel f ]}.

Lemma flag_values_set f g :
  <[match g with GConfig _ => "config" | GLogLevel _ => "log-level" end :=
    match g with GConfig p => p | GLogLevel l => l end]> (flag_values f) = flag_values (set_given f g).
Proof.
  unfold flag_values. destruct g; cbn [set_given fl_configPath fl_logLevel].
  - by rewrite insert_insert_eq.
  - rewrite insert_insert_ne by done. by rewrite insert_singleton_eq.
Qed.

Lemma FlagSet_Parse_spell f sp g args :
  FlagSet_Parse (flag_values f) (spell sp g ++ args) = FlagSet_Parse (flag_values (set_given f g)) args.
Proof.
  rewrite <- flag_values_set.
  assert (Hs : is_Some (flag_values f !! match g with GConfig _ => "config" | GLogLevel _ => "log-level" end)).
  { destruct g; unfold flag_values; [by rewrite lookup_insert_eq|].
    by rewrite lookup_insert_ne, lookup_singleton_eq. }
  destruct g, sp; cbn [spell app FlagSet_Parse];
    (match goal with |- context [classify ?a] => let r := eval vm_compute in (classify a) in change (classify a) with r end);
    cbn beta iota; by rewrite decide_True.
Qed.

(** However its options are spelled, the last one of each kind wins; an operand
    or [--] ends them. *)
Theorem flags_last_win (opts : list (spelling * given)) (rest : list string) :
  match rest with [] => True | arg :: _ => classify arg = NotFlag ∨ classify arg = Terminator end →
  parseFlags ((opts ≫= λ '(sp, g), spell sp g) ++ rest) =
    inr (foldl set_given (mkFlags "/etc/wanwatch/config.json" "") (snd <$> opts)).
Proof.
  intros Hr. unfold parseFlags. cbv zeta.
  change (<["config" := "/etc/wanwatch/config.json"]> {[ "log-level" := "" ]})
    with (flag_values (mkFlags "/etc/wanwatch/config.json" "")).
  set (f := mkFlags _ _). clearbody f.
  assert (FlagSet_Parse (flag_values f) ((opts ≫= λ '(sp, g), spell sp g) ++ rest)
    = inr (flag_values (foldl set_given f (snd <$> opts)))) as ->.
  { revert f. induction opts as [|[sp g] opts IH]; intros f; cbn [mbind list_bind fmap list_fmap foldl snd].
    - destruct rest as [|arg rest]; [done|]. cbn. by destruct Hr as [-> | ->].
    - rewrite <- app_assoc, FlagSet_Parse_spell. apply IH. }
  set (g := foldl _ _ _). unfold flag_values. rewrite lookup_insert_eq, lookup_insert_ne, lookup_singleton_eq by done.
  by destruct g.
Qed.
