(* ===== verification/Lifecycle.v ===== *)
(** * The process lifecycle ([main.go], [sdnotify.go], [eventloop.go])

    Log level, supervision and the cause of a stop, the exit status, the metrics
    server's retries, the systemd protocol, and [run], which puts the daemon
    together. *)
From Stdlib Require Import Ascii.
From S2P Require Import Prelude GoFloat Icmp Aggregate Runtime Metrics NetIP Selector State Config Rtnl Routes Health Decision Apply Gateway Daemon Publication Ident Pinger Probers Hooks Notifier Flags.

#[local] Open Scope Z_scope.

(** ** Log level *)

(** [slog.Level] *)
Inductive Level := LevelDebug | LevelInfo | LevelWarn | LevelError.

(** daemon/cmd/wanwatchd/main.go:62-78 (parseLogLevel): the empty name is info *)
Definition parseLogLevel (name : string) : error + Level :=
  if decide (name = "debug") then inr LevelDebug
  else if decide (name = "info" ∨ name = "") then inr LevelInfo
  else if decide (name = "warn") then inr LevelWarn
  else if decide (name = "error") then inr LevelError
  else inl (Errorf "unknown log level (want debug|info|warn|error)").

(** ** Causes *)

(** daemon/cmd/wanwatchd/main.go:194-199 (errShutdown): the sentinel *)
Definition errShutdown : error := ErrSentinel "shutdown signal received".

(** daemon/cmd/wanwatchd/main.go:211-216 (errSubsystemStopped): the sentinel *)
Definition errSubsystemStopped : error := ErrSentinel "exited while the daemon was running".

(** daemon/cmd/wanwatchd/main.go:201-209 (isCleanShutdown): a signal, a cancelled
    parent, or no cause *)
Definition isCleanShutdown (cause : option error) : bool :=
  match cause with
  | None => true
  | Some cause => Is cause errShutdown || Is cause ErrCanceled
  end.

(** The [cancel] of [context.WithCancelCause]: the first cause wins, and a nil
    one is [context.Canceled]. *)
Definition cancel (cause err : option error) : option error :=
  match cause with Some _ => cause | None => Some (default ErrCanceled err) end.

(** daemon/cmd/wanwatchd/main.go:236-245 (superviseSubsystem): the cause of a
    subsystem's exit; the text of a Canceled is kept, not the error *)
Definition exit_cause (name : string) (err : option error) : error :=
  match err with
  | None => Wrapf name errSubsystemStopped
  | Some err => if Is err ErrCanceled then Wrapf name errSubsystemStopped else Wrapf name err
  end.

(** daemon/cmd/wanwatchd/main.go:227-248 (superviseSubsystem): an exit is a cause
    only while the context is live *)
Definition supervise (name : string) (err : option error) (cause : option error) : option error :=
  match cause with
  | Some _ => cause
  | None => cancel cause (Some (exit_cause name err))
  end.

(** What can stop the daemon: a signal, the end of its parent context with the
    cause it had, a subsystem's exit, and a step of the start-up that failed. *)
Inductive stop := Signalled | ParentDone (cause : error) | Exited (name : string) (err : option error) | StartFailed (step : string) (err : error).

(** daemon/cmd/wanwatchd/main.go:122-130 (run): the context, which takes over its
    parent's cause, and the goroutine that turns a signal into a cause *)
Definition stopped (cause : option error) (s : stop) : option error :=
  match s with
  | Signalled => cancel cause (Some errShutdown)
  | ParentDone err => cancel cause (Some err)
  | Exited name err => supervise name err cause
  | StartFailed step err => cancel cause (Some (Wrapf step err))
  end.

(** daemon/cmd/wanwatchd/main.go:301-307 (exitError): the result of [run] *)
Definition exitError (cause : option error) : option error :=
  if isCleanShutdown cause then None else Some (Wrapf "daemon stopped" (default ErrCanceled cause)).

(** ** The metrics server's retries *)

(** daemon/cmd/wanwatchd/main.go:250-254 (retryBackoff): fields, in nanoseconds *)
Record retryBackoff := mkRetryBackoff { rb_min : Z; rb_max : Z }.

(** daemon/cmd/wanwatchd/main.go:256-259 (metricsRetryBackoff): a second, a
    minute *)
Definition metricsRetryBackoff : retryBackoff := mkRetryBackoff 1000000000 60000000000.

(** How a run of the server ended, and after how long. *)
Class Serving (E : Type) := serve_metrics : E → (option error * Z) * E.

Section keepServing.
Context {E : Type} `{HS : Serving E}.

(** daemon/cmd/wanwatchd/main.go:269-293 (keepServing): one run after the other;
    a turn tells whether its wait ran out before cancellation; the effects are
    the delays waited *)
Fixpoint keepServing (backoff : retryBackoff) (delay : Z) (turns : list bool) : M E Z unit :=
  match turns with
  | [] => mret ()
  | waited :: turns =>
      '(_, elapsed) ← call serve_metrics;
      err ← ctx_Err;
      match err with
      | Some _ => mret ()
      | None =>
          let delay := if rb_max backoff <=? elapsed then rb_min backoff else delay in
          _ ← emit delay;
          err ← (if waited : bool then mret None else ctx_Err);
          match err with
          | Some _ => mret ()
          | None => keepServing backoff (Z.min (int_wrap (2 * delay)) (rb_max backoff)) turns
          end
      end
  end.

End keepServing.

(** ** systemd *)

(** [strconv.Atoi] *)
Fixpoint digits (s : list Z) (acc : Z) : option Z :=
  match s with
  | [] => Some acc
  | c :: s => if is_digit c then digits s (acc * 10 + (c - 48)) else None
  end.

Definition Atoi (s : string) : option Z :=
  let '(sign, ds) := match chars s with
                     | 43 :: ds => (1, ds)
                     | 45 :: ds => (-1, ds)
                     | ds => (1, ds)
                     end in
  if decide (ds = []) then None
  else n ← digits ds 0; let n := sign * n in if (- two63 <=? n) && (n <? two63) then Some n else None.

(** The process's view of systemd: its variables (empty when unset), its PID and
    the notification socket. *)
Class Systemd (E : Type) := {
  Getenv : string → E → string;
  Getpid : E → Z;
  DialUnix : string → E → option error * E;
  conn_Write : string → E → option error * E;
  conn_Close : E → E
}.

Definition NUL : ascii := "000"%char.

(** daemon/cmd/wanwatchd/sdnotify.go:26-31 (sdNotify): an abstract name begins
    with NUL *)
Definition socket_name (socket : string) : string :=
  match socket with
  | String a rest => if decide (a = "@"%char) then String NUL rest else socket
  | EmptyString => socket
  end.

Section systemd.
Context {E Ev : Type} `{HS : Systemd E}.

Abbreviation M := (M E Ev).

(** daemon/cmd/wanwatchd/sdnotify.go:13-41 (sdNotify): one datagram, nothing when
    there is no socket *)
Definition sdNotify (state : string) : M (option error) :=
  socket ← call (λ e, (Getenv "NOTIFY_SOCKET" e, e));
  if decide (socket = "") then mret None
  else
    err ← call (DialUnix (socket_name socket));
    match err with
    | Some err => mret (Some (Wrapf "sd_notify: dial" err))
    | None =>
        err ← call (conn_Write state);
        _ ← call (λ e, ((), conn_Close e));
        match err with
        | Some err => mret (Some (Wrapf "sd_notify: write" err))
        | None => mret None
        end
    end.

(** daemon/cmd/wanwatchd/sdnotify.go:43-65 (watchdogInterval): half the timeout,
    zero when the watchdog is not this process's *)
Definition watchdogInterval (e : E) : Z :=
  let usecStr := Getenv "WATCHDOG_USEC" e in
  if decide (usecStr = "") then 0
  else
    let pidStr := Getenv "WATCHDOG_PID" e in
    if negb (bool_decide (pidStr = "")) && negb (bool_decide (Atoi pidStr = Some (Getpid e))) then 0
    else match Atoi usecStr with
         | Some usec => if usec <=? 0 then 0 else Z.quot (int_wrap (usec * 1000)) 2
         | None => 0
         end.

(** The case of the watchdog's first [select], and for a tick whether the event
    loop takes the challenge and acknowledges it before cancellation. *)
Inductive wturn := WDone | WTick (taken acked : bool).

(** daemon/cmd/wanwatchd/sdnotify.go:90-110 (runWatchdog): the loop *)
Fixpoint watchdog_loop (turns : list wturn) : M unit :=
  match turns with
  | [] => mret ()
  | WDone :: turns =>
      err ← ctx_Err;
      match err with Some _ => mret () | None => watchdog_loop turns end
  | WTick taken acked :: turns =>
      err ← (if taken : bool then mret None else ctx_Err);
      match err with
      | Some _ => mret ()
      | None =>
          err ← (if acked : bool then mret None else ctx_Err);
          match err with
          | Some _ => mret ()
          | None => _ ← sdNotify "WATCHDOG=1"; watchdog_loop turns
          end
      end
  end.

(** daemon/cmd/wanwatchd/sdnotify.go:82-111 (runWatchdog): no loop without an
    interval *)
Definition runWatchdog (turns : list wturn) : M unit :=
  interval ← call (λ e, (watchdogInterval e, e));
  if interval <=? 0 then mret () else watchdog_loop turns.

End systemd.

(** ** The daemon *)

(** The goroutines beside the event loop: the two subscribers, which [Start]
    with the watched interfaces and return their snapshots, the stops raised so
    far in order, and the end of Hook delivery. *)
Class Subsystems (E : Type) := {
  StartLinks : gset string → E → (error + list LinkEvent) * E;
  StartRoutes : gset string → E → (error + list RouteEvent) * E;
  stops : E → list stop;
  CloseHooks : E → E
}.

(** The error of an answer. *)
Definition answer_of {A} (r : error + A) : option error := match r with inl err => Some err | inr _ => None end.

(** [cmp.Or] of two strings *)
Definition Or (a b : string) : string := if decide (a = "") then b else a.

(** daemon/cmd/wanwatchd/main.go:187-192 (newHookNotifier): the runner of the
    configured directory and timeout *)
Definition newHookNotifier (cfg : Config) : hookRunner :=
  newHookRunner (HooksDir (c_Global cfg)) (milliseconds (HookTimeoutMs (c_Global cfg))).

(** How far [run] got: nothing started, a step that failed, or the event loop
    that ended. *)
Inductive reached := Helped | Refused | Failed (s : stop) | Served (d : daemon) (acks : nat).

Section run.
Context {E : Type} `{HK : Kernel E, HSS : StateSink E, HHS : HookSink E, HSD : Systemd E, HSU : Subsystems E}.
(** The linker's build information. *)
Context (version revision goVersion : string).
(** The file system and the JSON decoder. *)
Context (ReadFile : string → E → (error + list Z) * E).
Context (decode : list Z → error + Config * list Z) (trailing : list Z → option error).

Abbreviation M := (M E effect).

(** daemon/internal/config/config.go:143-154 (Load): read and parse *)
Definition Load (path : string) : M (error + Config) :=
  data ← call (ReadFile path);
  match data with
  | inl err => mret (inl (Wrapf "config: reading" err))
  | inr data => Parse decode trailing data
  end.

(** daemon/cmd/wanwatchd/main.go:295-308 (exitError): after the stops so far and
    the daemon's own *)
Definition exit (own : list stop) : M (option error) :=
  history ← call (λ e, (stops e, e));
  mret (exitError (foldl stopped None (history ++ own))).

(** daemon/cmd/wanwatchd/main.go:145-148 (run): a step of the start-up that
    failed *)
Definition fail (s : stop) : M (option error * reached) :=
  err ← exit [s]; mret (err, Failed s).

(** daemon/cmd/wanwatchd/eventloop.go:61-74 (serve): the event loop, then the end
    of Hook delivery *)
Definition serve (d : daemon) (turns : list turn) : M (daemon * nat) :=
  r ← eventLoop version d 0 turns;
  _ ← call (λ e, ((), CloseHooks e));
  mret r.

(** daemon/cmd/wanwatchd/subscribers.go:22-33 (startLinkSubscriber): the watched
    interfaces' links *)
Definition startLinkSubscriber (cfg : Config) : M (error + list LinkEvent) :=
  r ← call (StartLinks (watchedInterfaces cfg));
  _ ← emit (ESubscribe "link" (answer_of r));
  mret match r with inl err => inl (Wrapf "rtnl link subscriber start" err) | inr s => inr s end.

(** daemon/cmd/wanwatchd/subscribers.go:45-56 (startRouteSubscriber): the watched
    interfaces' default routes *)
Definition startRouteSubscriber (cfg : Config) : M (error + list RouteEvent) :=
  r ← call (StartRoutes (watchedInterfaces cfg));
  _ ← emit (ESubscribe "route" (answer_of r));
  mret match r with inl err => inl (Wrapf "rtnl route subscriber start" err) | inr s => inr s end.

(** daemon/cmd/wanwatchd/main.go:132-184 (run): from a configuration on; the
    metrics server and the signal handler run beside it *)
Definition start (cfg : Config) (turns : list turn) : M (option error * reached) :=
  _ ← emit (EMetric (SetBuildInfo version revision goVersion));
  d ← newDaemon cfg;
  err ← bootstrap version d;
  match err with
  | Some err => fail (StartFailed "bootstrap" err)
  | None =>
      match startProbers cfg with
      | inl err => fail (StartFailed "probers" err)
      | inr _ =>
          links ← startLinkSubscriber cfg;
          match links with
          | inl err => fail (StartFailed "link subscriber" err)
          | inr links =>
              routes ← startRouteSubscriber cfg;
              match routes with
              | inl err => fail (StartFailed "route subscriber" err)
              | inr routes =>
                  d ← prime version d (mkStartupSnapshot links routes);
                  _ ← sdNotify "READY=1";
                  '(d, acks) ← serve d turns;
                  err ← exit [];
                  mret (err, Served d acks)
              end
          end
      end
  end.

(** daemon/cmd/wanwatchd/main.go:87-106 (run): flags, configuration, log level,
    and the daemon *)
Definition run (args : list string) (turns : list turn) : M (option error * reached) :=
  match parseFlags args with
  | inl err => mret (if Is err ErrHelp then (None, Helped) else (Some (Wrapf "flags" err), Refused))
  | inr f =>
      cfg ← Load (fl_configPath f);
      match cfg with
      | inl err => mret (Some (Wrapf "config" err), Refused)
      | inr cfg =>
          match parseLogLevel (Or (fl_logLevel f) (LogLevel (c_Global cfg))) with
          | inl err => mret (Some (Wrapf "log-level" err), Refused)
          | inr _ => start cfg turns
          end
      end
  end.

End run.

(** ** Causes and the exit status *)

Lemma stopped_first c l : foldl stopped (Some c) l = Some c.
Proof. by induction l as [|[] l IH]. Qed.

(** The exit status after the stops [l], in order: the first one decides. *)
Definition exit_of (err : option error) (l : list stop) : Prop :=
  match l with
  | [] | Signalled :: _ => err = None
  | ParentDone cause :: _ =>
      err = if Is cause errShutdown || Is cause ErrCanceled then None else Some (Wrapf "daemon stopped" cause)
  | Exited name None :: _ => err = Some (Wrapf "daemon stopped" (Wrapf name errSubsystemStopped))
  | Exited name (Some e) :: _ =>
      err = Some (Wrapf "daemon stopped" (Wrapf name (if Is e ErrCanceled then errSubsystemStopped else e)))
  | StartFailed step e :: _ =>
      err = if Is e errShutdown || Is e ErrCanceled then None else Some (Wrapf "daemon stopped" (Wrapf step e))
  end.

Lemma Is_Wrapf msg e target : (∀ m c, target ≠ Wrapf m c) → Is (Wrapf msg e) target = Is e target.
Proof. intros Ht. cbn [Is]. rewrite bool_decide_false; [done|]. intros <-. by apply (Ht msg e). Qed.

Lemma exit_first l :
  (∀ name e, Exited name (Some e) ∈ l → Is e errShutdown = false) → exit_of (exitError (foldl stopped None l)) l.
Proof.
  intros Hl. destruct l as [|s l]; [done|]. cbn [foldl].
  destruct s as [|cause|name [e|]|step e]; cbn [stopped supervise cancel]; rewrite stopped_first; try done.
  cbn [exit_of exit_cause]. assert (He : Is e errShutdown = false) by (apply (Hl name e), list_elem_of_here).
  unfold exitError, isCleanShutdown. destruct (Is e ErrCanceled) eqn:Hc; [done|].
  cbn [from_option id]. by rewrite !Is_Wrapf, He, Hc.
Qed.

Section exits.
Context {E : Type} `{HK : Kernel E, HSS : StateSink E, HHS : HookSink E, HSD : Systemd E, HSU : Subsystems E}.
Context (version revision goVersion : string).
Context (ReadFile : string → E → (error + list Z) * E).
Context (decode : list Z → error + Config * list Z) (trailing : list Z → option error).
(** No subsystem returns the daemon's own sentinel. *)
Context (Hstops : ∀ (e : E) name err, Exited name (Some err) ∈ stops e → Is err errShutdown = false).

Lemma exit_spec own (w : World E effect) : (∀ name err, Exited name err ∉ own) →
  wp (exit own) (λ err w', exit_of err (stops (w_env w') ++ own)) w.
Proof.
  intros Hown. unfold exit. apply wp_bind. unfold wp at 1, call. cbn [fst snd]. apply wp_ret.
  apply exit_first. intros name e [He|He]%elem_of_app; [by eapply Hstops|by apply Hown in He].
Qed.

#[local] Instance Validate_silent cfg : Silent (Validate (E:=E) (Ev:=effect) cfg).
Proof.
  unfold Validate, validateGroups, validateGroup, first_failure. destruct (validateGlobal _); [apply _|].
  apply silent_bind; [apply _|]. intros [err|]; [apply _|]. apply silent_bind; [apply _|]. intros entries.
  apply silent_foldM. intros acc [key g]. destruct acc; [apply _|]. destruct (andThen _ _); apply _.
Qed.

Lemma Load_silent path : Silent (Load (E:=E) ReadFile decode trailing path).
Proof.
  unfold Load, Parse. apply silent_bind; [apply _|]. intros [err|data]; [apply _|].
  destruct (decode data) as [err|[cfg rest]]; [apply _|]. destruct (trailing rest); [apply _|].
  destruct (negb _); apply _.
Qed.

(** The refusals among the effects of a start-up. *)
Definition refused_rule (e : effect) : option error :=
  match e with EEnsureRule _ answer => answer | _ => None end.

Definition refused_subscriber (e : effect) : option stop :=
  match e with
  | ESubscribe kind (Some err) =>
      Some (StartFailed (kind ++ " subscriber") (Wrapf ("rtnl " ++ kind ++ " subscriber start") err))
  | _ => None
  end.

(** The step of the start-up that failed, by the kernel's answers and the
    Targets: a rule, the probers, or a subscriber. *)
Definition start_failure (cfg : Config) (l : list effect) : list stop :=
  match omap refused_rule l, startProbers cfg, omap refused_subscriber l with
  | err :: _, _, _ => [StartFailed "bootstrap" err]
  | [], inl err, _ => [StartFailed "probers" err]
  | [], inr _, s :: _ => [s]
  | [], inr _, [] => []
  end.

(** An effect of the daemon at work, which refuses no start-up step. *)
Definition working (e : effect) : Prop := refused_rule e = None ∧ refused_subscriber e = None.

(** An effect of a start-up. *)
Definition starting (e : effect) : Prop :=
  match e with EMetric _ | EEnsureRule _ _ | ESubscribe _ _ | EPublish _ => True | _ => False end.

Lemma omap_working l : Forall working l → omap refused_rule l = [] ∧ omap refused_subscriber l = [].
Proof.
  induction 1 as [|e l [H1 H2] _ [IH1 IH2]]; [done|]. cbn. by rewrite H1, H2.
Qed.

(** Follow a computation of the daemon down to its effects. *)
Create HintDb handlers.
Hint Unfold Set_ Inc Observe forM kernel_EnsureRule kernel_IfIndex kernel_WriteRoute kernel_InterfaceAddrs
  kernel_FlushConntrack stateW_Write hooks_Notify publishSelected commit refresh Recompute DProbe RouteObserved
  writeOne applyRoutes writeStateSnapshot notifyHooks flushVacatedConntrack publishDecision bootstrap : handlers.

Ltac working_by :=
  repeat match goal with
  | |- ∀ _, _ => intros
  | |- Emits _ (mret _) => apply emits_ret
  | |- Emits _ (mbind _ _) => apply emits_bind
  | |- Emits _ (foldM _ _ _) => apply emits_foldM
  | |- Emits _ (emit _) => apply emits_emit; first [exact I | by split]
  | _ => progress unfold Set_, Inc, Observe
  | _ => typeclasses eauto
  | _ => apply emits_silent; typeclasses eauto
  | _ => case_match
  end.

Ltac new_by :=
  unfold newDaemon, Health.New, newWan, recordStats, recordLink, DNew, publishSelected, forM, Set_, Inc; working_by.

Ltac emitting_effects :=
  repeat first
    [ progress intros
    | apply emits_ret
    | apply emits_bind
    | apply emits_foldM
    | apply emits_emit; done
    | typeclasses eauto
    | apply emits_silent; typeclasses eauto
    | case_match
    | progress autounfold with handlers ].

Section effects.
Context `{HKL : !KernelLaws E}.

(** A metric operation is an effect of both kinds. *)
#[local] Instance working_metric op : Emits working (emit (E:=E) (metric_event (Ev:=effect) op)).
Proof. by apply emits_emit. Qed.
#[local] Instance starting_metric op : Emits starting (emit (E:=E) (metric_event (Ev:=effect) op)).
Proof. by apply emits_emit. Qed.

#[local] Instance working_writeFamilies d g wan i n fams : Emits working (writeFamilies (E:=E) d g wan i n fams).
Proof. revert n. induction fams; intros n; cbn [writeFamilies]; emitting_effects. Qed.
#[local] Instance working_applyRoutes d g sel fams : Emits working (applyRoutes (E:=E) d g sel fams).
Proof. emitting_effects. Qed.
#[local] Instance working_publishDecision d g c : Emits working (publishDecision (E:=E) version d g c).
Proof. emitting_effects. Qed.
#[local] Instance working_loop_live {A} (body : daemon → A → M E effect daemon) d l :
  (∀ d x, Emits working (body d x)) → Emits working (loop_live body d l).
Proof. intros Hb. revert d. induction l; intros d; cbn [loop_live]; emitting_effects. Qed.
#[local] Instance working_recomputeGroup wan reason d entry : Emits working (recomputeGroup (E:=E) version wan reason d entry).
Proof. unfold recomputeGroup, Recompute, commit. emitting_effects. Qed.
#[local] Instance working_recomputeAffectedGroups reason d wan :
  Emits working (recomputeAffectedGroups (E:=E) version reason d wan).
Proof. unfold recomputeAffectedGroups. emitting_effects. Qed.
#[local] Instance working_publishHealthChange d c reason : Emits working (publishHealthChange (E:=E) version d c reason).
Proof. unfold publishHealthChange. emitting_effects. Qed.
#[local] Instance working_forward op d entry :
  (∀ ar g, (∀ n f, Emits working (ar n f)) → Emits working (op ar g)) → Emits working (forward (E:=E) version op d entry).
Proof. intros Hop. unfold forward. emitting_effects. Qed.
#[local] Instance working_DProbe ar g wan :
  (∀ n f, Emits working (ar n f)) → Emits working (DProbe (E:=E) (Ev:=effect) ar g wan).
Proof. intros Har. emitting_effects. Qed.
#[local] Instance working_RouteObserved ar g wan fam :
  (∀ n f, Emits working (ar n f)) → Emits working (RouteObserved (E:=E) (Ev:=effect) ar g wan fam).
Proof. intros Har. emitting_effects. Qed.
#[local] Instance working_retryGroupDecisions d wan : Emits working (retryGroupDecisions (E:=E) version d wan).
Proof. unfold retryGroupDecisions. emitting_effects. Qed.
#[local] Instance working_observeRoute e d wans : Emits working (observeRoute (E:=E) version e d wans).
Proof. revert d. induction wans as [|[n w] wans IH]; intros d; cbn [observeRoute]; emitting_effects. Qed.
#[local] Instance working_recordStats wan fam stats : Emits working (recordStats (E:=E) (Ev:=effect) wan fam stats).
Proof. unfold recordStats, forM. working_by. Qed.
#[local] Instance working_Probe h r : Emits working (Health.Probe (E:=E) (Ev:=effect) h r).
Proof. unfold Health.Probe, recordProbe. working_by. Qed.
#[local] Instance working_recordLink ws : Emits working (recordLink (E:=E) (Ev:=effect) ws).
Proof. unfold recordLink, forM. working_by. Qed.
#[local] Instance working_link_one e acc entry : Emits working (link_one (E:=E) (Ev:=effect) e acc entry).
Proof. unfold link_one. working_by. Qed.
#[local] Instance working_Link h e : Emits working (Health.Link (E:=E) (Ev:=effect) h e).
Proof. unfold Health.Link. working_by. Qed.
#[local] Instance working_writeStateSnapshot d t : Emits working (writeStateSnapshot (E:=E) version d t).
Proof. emitting_effects. Qed.
#[local] Instance working_dispatch d ev : Emits working (dispatch (E:=E) version d ev).
Proof.
  destruct ev; cbn [dispatch]; unfold handleProbeResult, handleLinkEvent, handleRouteEvent; working_by.
Qed.
#[local] Instance working_eventLoop d acks turns : Emits working (eventLoop (E:=E) version d acks turns).
Proof. revert d acks. induction turns as [|[]]; intros d acks; cbn [eventLoop]; working_by. Qed.
#[local] Instance working_newDaemon cfg : Emits working (newDaemon (E:=E) cfg).
Proof. new_by. Qed.
#[local] Instance working_prime d snap : Emits working (prime (E:=E) version d snap).
Proof. unfold prime, prime_links. working_by. Qed.
#[local] Instance working_sdNotify st : Emits working (sdNotify (E:=E) (Ev:=effect) st).
Proof. unfold sdNotify. emitting_effects. Qed.
#[local] Instance working_serve d turns : Emits working (serve (E:=E) version d turns).
Proof. unfold serve. emitting_effects. Qed.

#[local] Instance starting_ensureGroupRules g fams : Emits starting (ensureGroupRules (E:=E) g fams).
Proof. induction fams; cbn [ensureGroupRules]; emitting_effects. Qed.
#[local] Instance starting_newDaemon cfg : Emits starting (newDaemon (E:=E) cfg).
Proof. new_by. Qed.
#[local] Instance starting_bootstrap d : Emits starting (bootstrap (E:=E) version d).
Proof. emitting_effects. Qed.

Lemma bootstrap_no_subscriber d : Emits (λ e, refused_subscriber e = None) (bootstrap (E:=E) version d).
Proof.
  assert (Hg : ∀ g fams, Emits (λ e, refused_subscriber e = None) (ensureGroupRules (E:=E) g fams)).
  { intros g fams. induction fams; cbn [ensureGroupRules]; emitting_effects. }
  emitting_effects.
Qed.

Lemma refused_actions l : omap refused_rule (actions l) = omap refused_rule l.
Proof.
  induction l as [|e l IH]; [done|]. unfold actions in *. rewrite filter_cons. destruct (decide _) as [Ha|Ha].
  - cbn. destruct (refused_rule e); [|exact IH]. f_equal. exact IH.
  - rewrite IH. by destruct e.
Qed.

Lemma refused_granted rs : omap refused_rule (granted <$> rs) = [].
Proof. by induction rs. Qed.

(** The refusals of [bootstrap] are its result. *)
Lemma bootstrap_refusals d (w : World E effect) :
  wlog (bootstrap version d) (λ err l _, omap refused_rule l = option_list err ∧ omap refused_subscriber l = [] ∧
    Forall starting l) w.
Proof.
  pose proof (wlog_and_emits _ _ _ _ (bootstrap_no_subscriber d) (bootstrap_effects version d w)) as H.
  pose proof (wlog_and_emits _ _ _ _ (starting_bootstrap d) H) as H'. eapply wlog_mono; [exact H'|]. cbn beta.
  intros err l w' (((groups & lw & rest & _ & He & Ha & ->) & Hs) & Hst). split; [|split; [|done]].
  - rewrite <- refused_actions, Ha, omap_app. destruct err as [err|]; cbn [ensured] in He.
    + destruct He as (dn & r & rest & _ & ->). by rewrite omap_app, refused_granted.
    + by rewrite He, refused_granted.
  - clear -Hs. induction Hs as [|e l He _ IH]; [done|]. cbn. by rewrite He.
Qed.

(** What a start says: the first failed step follows the stops so far. *)
Definition started (cfg : Config) (err : option error) (l : list effect) (w' : World E effect) : Prop :=
  exit_of err (stops (w_env w') ++ start_failure cfg l) ∧ (start_failure cfg l ≠ [] → Forall starting l).

Lemma fail_spec cfg l step cause (w : World E effect) : start_failure cfg l = [StartFailed step cause] → Forall starting l →
  wlog (fail (StartFailed step cause)) (λ r l', started cfg r.1 (l ++ l')) w.
Proof.
  intros Hf Hl. unfold fail. apply wlog_bind, wlog_silent_wp; [unfold exit; apply _|].
  eapply wp_mono; [apply exit_spec; by intros name e He%list_elem_of_singleton|].
  intros err w' He. apply wlog_ret. unfold started. rewrite !app_nil_r, Hf. by split.
Qed.

(** A prefix of the effects of a start, with the refusals in it. *)
Definition prefix (l : list effect) (rules : list error) (subs : list stop) : Prop :=
  omap refused_rule l = rules ∧ omap refused_subscriber l = subs ∧ Forall starting l.

Lemma prefix_app l l' rules subs rules' subs' :
  prefix l rules subs → prefix l' rules' subs' → prefix (l ++ l') (rules ++ rules') (subs ++ subs').
Proof. intros (<- & <- & H) (<- & <- & H'). unfold prefix. rewrite !omap_app. do 2 (split; [done|]). by apply Forall_app. Qed.

Lemma prefix_newDaemon cfg (w : World E effect) : wlog (newDaemon cfg) (λ _ l _, prefix l [] []) w.
Proof.
  destruct (starting_newDaemon cfg w) as (l & Hl & Hs). destruct (working_newDaemon cfg w) as (l' & Hl' & Hw).
  rewrite Hl in Hl'. apply app_inv_head in Hl' as <-. exists l. split; [done|].
  by destruct (omap_working l Hw) as [H1 H2].
Qed.

(** The rest of a start, with the effects [l] behind it. *)
Definition after (cfg : Config) (l : list effect) (m : M E effect (option error * reached)) (w : World E effect) : Prop :=
  wlog m (λ '(err, _) l' w', started cfg err (l ++ l') w') w.

Lemma after_bind {A} cfg l (m : M E effect A) f w :
  wlog m (λ x l' w', after cfg (l ++ l') (f x) w') w → after cfg l (m ≫= f) w.
Proof.
  intros H. apply wlog_bind. eapply wlog_mono; [exact H|]. cbn beta. intros x l1 w1 H1. unfold after in H1.
  eapply wlog_mono; [exact H1|]. intros [err r] l2 w2. by rewrite app_assoc.
Qed.

(** A step that fails. *)
Lemma after_fail cfg l rules subs step cause (w : World E effect) : prefix l rules subs →
  start_failure cfg l = [StartFailed step cause] → after cfg l (fail (StartFailed step cause)) w.
Proof. intros (_ & _ & Hl) Hf. eapply wlog_mono; [by apply (fail_spec cfg l)|]. by intros [err r]. Qed.

(** After the start-up, no effect refuses anything. *)
Lemma started_working cfg l l' err (w : World E effect) : prefix l [] [] → (∃ ps, startProbers cfg = inr ps) →
  Forall working l' → exit_of err (stops (w_env w)) → started cfg err (l ++ l') w.
Proof.
  intros (Hr & Hs & _) [ps Hps] [Hr' Hs']%omap_working He.
  assert (Hf : start_failure cfg (l ++ l') = []) by (unfold start_failure; by rewrite !omap_app, Hr, Hs, Hr', Hs', Hps).
  unfold started. by rewrite Hf, app_nil_r.
Qed.

(** A subscriber's answer. *)
Lemma prefix_subscriber {A} l kind (r : error + A) : prefix l [] [] →
  prefix (l ++ [ESubscribe kind (answer_of r)]) [] (match r with inl err => [StartFailed (kind ++ " subscriber")
    (Wrapf ("rtnl " ++ kind ++ " subscriber start") err)] | inr _ => [] end).
Proof. intros H. apply (prefix_app _ _ [] [] [] _ H). destruct r; by repeat constructor. Qed.

Lemma start_spec cfg turns (w : World E effect) : after cfg [] (start version revision goVersion cfg turns) w.
Proof.
  unfold start. apply after_bind, wlog_emit. intros w1 _.
  apply after_bind. eapply wlog_mono; [apply prefix_newDaemon|]. intros d l1 w2 H1.
  apply after_bind. eapply wlog_mono; [apply bootstrap_refusals|]. intros err l2 w3 H2.
  assert (H3 : prefix (([EMetric (SetBuildInfo version revision goVersion)] ++ l1) ++ l2) (option_list err) []).
  { apply (prefix_app _ _ [] []); [|exact H2]. apply (prefix_app _ _ [] []); [by repeat constructor|done]. }
  cbn [app] in *. set (l := _ :: _) in *. clearbody l. clear H1 H2 l1 l2. destruct err as [err|].
  { apply (after_fail _ _ _ _ _ _ _ H3). unfold start_failure. destruct H3 as (-> & -> & _). done. }
  destruct (startProbers cfg) as [err|ps] eqn:Hps.
  { apply (after_fail _ _ _ _ _ _ _ H3). unfold start_failure. destruct H3 as (-> & -> & _). by rewrite Hps. }
  apply after_bind. unfold startLinkSubscriber at 1. apply wlog_bind, wlog_silent; [apply _|]. intros links w4.
  apply wlog_bind, wlog_emit. intros w5 _. apply wlog_ret. cbn [app].
  pose proof (prefix_subscriber l "link" links H3) as H4. destruct links as [err|links].
  { apply (after_fail _ _ _ _ _ _ _ H4). unfold start_failure. destruct H4 as (-> & -> & _). by rewrite Hps. }
  apply after_bind. unfold startRouteSubscriber at 1. apply wlog_bind, wlog_silent; [apply _|]. intros routes w6.
  apply wlog_bind, wlog_emit. intros w7 _. apply wlog_ret. cbn [app].
  pose proof (prefix_subscriber _ "route" routes H4) as H5. destruct routes as [err|routes].
  { apply (after_fail _ _ _ _ _ _ _ H5). unfold start_failure. destruct H5 as (-> & -> & _). by rewrite Hps. }
  set (l6 := _ ++ _) in *. clearbody l6. unfold after.
  apply (wlog_mono _ (λ '(err, _) l' w', exit_of err (stops (w_env w')) ∧ Forall working l')).
  - apply wlog_bind, (wlog_emits working); [apply _|]. intros d1 l7 w8 H7.
    apply wlog_bind, (wlog_emits working); [apply _|]. intros _ l8 w9 H8.
    apply wlog_bind, (wlog_emits working); [apply _|]. intros [d2 acks] l9 w10 H9.
    apply wlog_bind, wlog_silent_wp; [unfold exit; apply _|]. eapply wp_mono; [apply exit_spec; by intros ?? ?%elem_of_nil|].
    cbn beta. intros err w11 He. apply wlog_ret. rewrite app_nil_r in He. split; [done|].
    rewrite !app_nil_r. by rewrite !Forall_app.
  - intros [err r] l' w' [He Hw]. apply started_working; eauto.
Qed.

End effects.

End exits.

(** ** The delays of [keepServing] *)

Section delays.
Context {E : Type} `{HS : Serving E}.
Context (b : retryBackoff) (Hmin : 0 < rb_min b) (Hmax : rb_min b ≤ rb_max b) (Hfit : 2 * rb_max b < two63).

(** Delays from [delay] on: within bounds, and doubling from the one before
    unless a long run reset them. *)
Fixpoint paced (delay : Z) (ds : list Z) : Prop :=
  match ds with
  | [] => True
  | d :: ds => (d = delay ∨ d = rb_min b) ∧ rb_min b ≤ d ≤ rb_max b ∧ paced (Z.min (2 * d) (rb_max b)) ds
  end.

Lemma keepServing_spec turns : ∀ delay (w : World E Z), rb_min b ≤ delay ≤ rb_max b →
  wlog (keepServing b delay turns) (λ _ ds w', paced delay ds ∧ (length ds ≤ length turns)%nat ∧
    (cancelled w' = false → length ds = length turns)) w.
Proof.
  induction turns as [|waited turns IH]; intros delay w Hd; cbn [keepServing]; [by apply wlog_ret|].
  apply wlog_bind, wlog_silent; [apply _|]. intros [err elapsed] w1. apply wlog_bind, wlog_ctx_Err; intros Hc1.
  { intros w2 Hc2. apply wlog_ret. split; [done|]. split; [cbn; lia|]. intros ?. congruence. }
  cbv zeta. set (d := if _ <=? elapsed then _ else _).
  assert (Hdb : (d = delay ∨ d = rb_min b) ∧ rb_min b ≤ d ≤ rb_max b) by (subst d; destruct (_ <=? _); split; auto; lia).
  apply wlog_bind, wlog_emit. intros w3 _.
  assert (Hstop : ∀ w4 : World E Z, cancelled w4 = true →
    wlog (mret ()) (λ _ l w', paced delay ([] ++ [d] ++ l) ∧ (length ([] ++ [d] ++ l) ≤ length (waited :: turns))%nat ∧
      (cancelled w' = false → length ([] ++ [d] ++ l) = length (waited :: turns))) w4).
  { intros w4 Hc4. apply wlog_ret. cbn. split; [naive_solver|]. split; [lia|]. intros ?. congruence. }
  assert (Hgo : ∀ w4 : World E Z,
    wlog (keepServing b (Z.min (int_wrap (2 * d)) (rb_max b)) turns) (λ _ l w', paced delay ([] ++ [d] ++ l) ∧
      (length ([] ++ [d] ++ l) ≤ length (waited :: turns))%nat ∧
      (cancelled w' = false → length ([] ++ [d] ++ l) = length (waited :: turns))) w4).
  { intros w4. rewrite int_wrap_small by (unfold two63 in *; lia).
    eapply wlog_mono; [apply IH; lia|]. intros u ds w5 (Hp & Hl & He). cbn [app length paced].
    split; [naive_solver|]. split; [lia|]. intros H5. by rewrite He. }
  apply wlog_bind. destruct waited; [by apply wlog_ret|].
  apply wlog_ctx_Err; [intros _ w4 Hc4; by apply Hstop|]. intros _. apply Hgo.
Qed.

Lemma paced_spec ds : ∀ delay, paced delay ds →
  (∀ d, d ∈ ds → rb_min b ≤ d ≤ rb_max b) ∧ head ds ∈ [None; Some delay; Some (rb_min b)] ∧
  ∀ i d d', ds !! i = Some d → ds !! S i = Some d' → d' = rb_min b ∨ d' = Z.min (2 * d) (rb_max b).
Proof.
  induction ds as [|d ds IH]; intros delay Hp.
  { split; [by intros ? ?%elem_of_nil|]. split; [apply list_elem_of_here|done]. }
  destruct Hp as (Hd & Hb & Hp). destruct (IH _ Hp) as (H1 & H2 & H3). split; [|split].
  - intros d' [-> |Hd']%elem_of_cons; [done|by apply H1].
  - cbn. rewrite !elem_of_cons. naive_solver.
  - intros [|i] d0 d' Hi Hi'; cbn in Hi, Hi'; [|by eapply H3]. injection Hi as <-.
    destruct ds as [|d1 ds]; [done|]. injection Hi' as <-. destruct Hp as [[-> | ->] _]; auto.
Qed.

End delays.

(** ** Properties *)

Module Example.

Import Daemon.Example.

#[export] Instance systemd : Systemd nat := {
  Getenv := λ name _, if decide (name = "WATCHDOG_USEC") then "30000000" else "";
  Getpid := λ _, 4242;
  DialUnix := λ _ e, (None, e);
  conn_Write := λ _ e, (None, e);
  conn_Close := λ e, e
}.

(** A prober that returns without an error, then a signal. *)
#[export] Instance subsystems : Subsystems nat := {
  StartLinks := λ _ e, (inr [], e);
  StartRoutes := λ _ e, (inr [], e);
  stops := λ _, [Exited "prober fiber/v4" None; Signalled];
  CloseHooks := λ e, e
}.

(** Nothing stops the daemon but its own start-up. *)
Definition unstopped : Subsystems nat := {|
  StartLinks := λ _ e, (inr [], e);
  StartRoutes := λ _ e, (inr [], e);
  stops := λ _, [];
  CloseHooks := λ e, e
|}.

Lemma subsystems_stops (e : nat) name err : Exited name (Some err) ∈ stops e → Is err errShutdown = false.
Proof. intros [Hin|Hin]%elem_of_cons; [discriminate Hin|]. apply list_elem_of_singleton in Hin. discriminate Hin. Qed.

Lemma unstopped_stops (e : nat) name err : Exited name (Some err) ∈ @stops _ unstopped e → Is err errShutdown = false.
Proof. by intros Hin%elem_of_nil. Qed.

(** The configuration of the witnesses is valid. *)
Lemma loaded : (Load (λ _ (e : nat), (inr [], e)) (λ _, inr (example_config, [])) (λ _, None)
  "/etc/wanwatch/config.json" Daemon.Example.world).1 = inr example_config.
Proof. vm_compute. reflexivity. Qed.

#[export] Instance serving : Serving nat := λ e, ((None, 0), S e).

End Example.

#[local] Existing Instances Example.systemd Example.subsystems Example.serving
  Daemon.Example.kernel Daemon.Example.kernel_laws Daemon.Example.state_sink Daemon.Example.hook_sink.



(** The metrics server's retries are paced. Whatever its runs return and
    however long they last, [keepServing] waits between the minimum and the
    maximum of the backoff before every retry, starting from the minimum and
    doubling up to the maximum, except that a run as long as the maximum resets
    it to the minimum; it retries after every return until the daemon stops. *)
Theorem metrics_backoff {E} `{HS : Serving E} b turns (w : World E Z) :
  0 < rb_min b → rb_min b ≤ rb_max b → 2 * rb_max b < two63 →
  wp (keepServing b (rb_min b) turns) (λ _ w', ∃ ds, w_log w' = w_log w ++ ds ∧
    (length ds ≤ length turns)%nat ∧
    (cancelled w' = false → length ds = length turns) ∧
    (∀ d, d ∈ ds → rb_min b ≤ d ≤ rb_max b) ∧
    (∀ d, ds !! 0%nat = Some d → d = rb_min b) ∧
    ∀ i d d', ds !! i = Some d → ds !! S i = Some d' → d' = rb_min b ∨ d' = Z.min (2 * d) (rb_max b)) w.
Proof.
  intros Hmin Hmax Hfit. pose proof (keepServing_spec b Hmin Hmax Hfit turns (rb_min b) w ltac:(lia)) as H. unfold wlog in H.
  eapply wp_mono; [exact H|]. cbn beta. intros u w' (ds & Hl & Hp & Hlen & Hall). exists ds.
  destruct (paced_spec b ds _ Hp) as (H1 & H2 & H3). split; [done|]. split; [done|]. split; [done|]. split; [done|].
  split; [|done]. intros d Hd. destruct ds as [|d0 ds]; [done|]. injection Hd as <-. cbn in H2.
  rewrite !elem_of_cons in H2. naive_solver.
Qed.

Lemma metrics_backoff_witness : ∃ ds,
  w_log (keepServing metricsRetryBackoff (rb_min metricsRetryBackoff) [true; true; true]
    (mkWorld (mkSchedule None (λ _, 1%positive) (λ _ _, 0%nat)) 0 0%nat [])).2 = ds ∧
  ds = [1000000000; 2000000000; 4000000000] ∧ ∀ d, d ∈ ds → 1000000000 ≤ d ≤ 60000000000.
Proof.
  destruct (metrics_backoff metricsRetryBackoff [true; true; true] (mkWorld (mkSchedule None (λ _, 1%positive) (λ _ _, 0%nat)) 0 0%nat []))
    as (ds & Hl & _ & _ & Hb & _); [reflexivity|discriminate|reflexivity|].
  exists ds. split; [exact Hl|]. split; [|exact Hb]. cbn [w_log app] in Hl. rewrite <- Hl. vm_compute. reflexivity.
Defined.
