(* ===== verification/Telemetry.v ===== *)
(** * Metrics over the daemon's life

    The metric operations of [Metrics] in a run of the daemon fit the catalog, so
    the Prometheus library has no reason to panic. *)
From S2P Require Import Prelude GoFloat Icmp Aggregate Hysteresis Runtime Metrics NetIP Selector State Config.
From S2P Require Import Rtnl Routes Health Decision Apply Gateway Daemon Coordination.
From S2P Require Import Filepath Hooks Notifier Flags Probers Lifecycle.

#[local] Open Scope Z_scope.

(** ** Operations that fit the catalog *)

(** The values docs/metrics.md lists for a label; the others are open. *)
Definition documented (label value : string) : bool :=
  if decide (label = "reason") then bool_decide (value ∈ ["health"; "carrier"])
  else if decide (label = "op") then bool_decide (value ∈ ["conntrack_flush"; "ifindex_lookup"; "rule_install"])
  else if decide (label = "state") then
    bool_decide (value ∈ ["up"; "down"; "dormant"; "lowerlayerdown"; "notpresent"; "testing"; "unknown"])
  else if decide (label = "event") then bool_decide (value ∈ ["up"; "down"; "switch"])
  else if decide (label = "result") then bool_decide (value ∈ ["ok"; "nonzero"; "timeout"; "error"])
  else true.

Definition labels_ok (m : Metric) (labels : list string) : bool :=
  forallb (λ '(l, v), documented l v) (zip (o_labels (catalog m)) labels).

(** A metric operation names a value per label of a metric of its kind, and only
    documented values. *)
Definition op_fits (op : MetricOp) : bool :=
  op_ok op && match op with MSet m labels _ | MInc m labels | MObserve m labels _ => labels_ok m labels end.

Definition fitting (e : effect) : Prop :=
  match e with EMetric op => op_fits op = true | _ => True end.

(** The reasons a Decision is counted under. *)
Class known_reason (reason : string) := documented_reason : documented "reason" reason = true.

Section fitting.
Context {E : Type} `{HK : Kernel E, HSS : StateSink E, HHS : HookSink E, HKL : !KernelLaws E} (version : string).

Lemma fitting_Set m labels v : op_fits (MSet m labels v) = true → Emits fitting (Set_ (E:=E) m labels v).
Proof. intros H. by apply emits_emit. Qed.

Lemma fitting_Inc m labels : op_fits (MInc m labels) = true → Emits fitting (Inc (E:=E) m labels).
Proof. intros H. by apply emits_emit. Qed.

Lemma fitting_Observe m labels n : op_fits (MObserve m labels n) = true → Emits fitting (Observe (E:=E) m labels n).
Proof. intros H. by apply emits_emit. Qed.

#[local] Instance fitting_Decisions g reason : known_reason reason → Emits fitting (Inc (E:=E) GroupDecisions [g; reason]).
Proof.
  intros Hr. apply fitting_Inc. unfold op_fits, labels_ok. cbn [op_ok catalog o_labels zip zip_with forallb].
  by rewrite documented_reason.
Qed.

#[local] Instance known_health : known_reason reasonHealth.
Proof. by vm_compute. Qed.
#[local] Instance known_carrier : known_reason reasonCarrier.
Proof. by vm_compute. Qed.

(** Follow a computation down to its metric operations. *)
Ltac fitting_by :=
  repeat first
    [ progress intros
    | apply emits_ret
    | apply fitting_Set; reflexivity
    | apply fitting_Inc; reflexivity
    | apply fitting_Observe; reflexivity
    | apply emits_emit; exact I
    | apply emits_bind
    | apply emits_foldM
    | typeclasses eauto
    | apply emits_silent; typeclasses eauto
    | case_match ].

#[local] Instance fitting_recordStats wan fam stats : Emits fitting (recordStats (E:=E) wan fam stats).
Proof. unfold recordStats, forM. fitting_by. Qed.
#[local] Instance fitting_recordProbe ws fs r : Emits fitting (recordProbe (E:=E) ws fs r).
Proof. unfold recordProbe. fitting_by. Qed.
#[local] Instance fitting_recordLink ws : Emits fitting (recordLink (E:=E) ws).
Proof. unfold recordLink, forM. fitting_by. Qed.
#[local] Instance fitting_New cfgs : Emits fitting (Health.New (E:=E) cfgs).
Proof. unfold Health.New, newWan. fitting_by. Qed.
#[local] Instance fitting_Probe h r : Emits fitting (Health.Probe (E:=E) h r).
Proof. unfold Health.Probe. fitting_by. Qed.
#[local] Instance fitting_link_one e acc entry : Emits fitting (link_one (E:=E) e acc entry).
Proof. unfold link_one. fitting_by. Qed.
#[local] Instance fitting_Link h e : Emits fitting (Health.Link (E:=E) h e).
Proof. unfold Health.Link. fitting_by. Qed.
#[local] Instance fitting_MemberHealth h g : Emits fitting (Health.MemberHealth (E:=E) h g).
Proof. unfold Health.MemberHealth. fitting_by. Qed.

#[local] Instance fitting_publishSelected g : Emits fitting (publishSelected (E:=E) g).
Proof. unfold publishSelected, forM. fitting_by. Qed.
#[local] Instance fitting_DNew g : Emits fitting (DNew (E:=E) g).
Proof. unfold DNew. fitting_by. Qed.

#[local] Instance fitting_writeOne d g wan i fam : Emits fitting (writeOne (E:=E) d g wan i fam).
Proof. unfold writeOne, kernel_WriteRoute. fitting_by. Qed.
#[local] Instance fitting_writeFamilies d g wan i n fams : Emits fitting (writeFamilies (E:=E) d g wan i n fams).
Proof. revert n. induction fams; intros n; cbn [writeFamilies]; fitting_by. Qed.
#[local] Instance fitting_applyRoutes d g sel fams : Emits fitting (applyRoutes (E:=E) d g sel fams).
Proof. unfold applyRoutes, kernel_IfIndex. fitting_by. Qed.

Section group.
Context (ar : ApplyRoutes (E:=E) (Ev:=effect)) (Har : ∀ n f, Emits fitting (ar n f)).
#[local] Instance fitting_commit g next : Emits fitting (commit ar g next).
Proof. unfold commit. fitting_by. Qed.
#[local] Instance fitting_refresh g fams : Emits fitting (refresh ar g fams).
Proof. unfold refresh. fitting_by. Qed.
Lemma fitting_Recompute g ms reason : known_reason reason → Emits fitting (Recompute ar g ms reason).
Proof. unfold Recompute. fitting_by. Qed.
Lemma fitting_DProbe g wan : Emits fitting (DProbe ar g wan).
Proof. unfold DProbe. fitting_by. Qed.
Lemma fitting_RouteObserved g wan fam : Emits fitting (RouteObserved ar g wan fam).
Proof. unfold RouteObserved. fitting_by. Qed.
End group.
#[local] Existing Instances fitting_Recompute fitting_DProbe fitting_RouteObserved.

#[local] Instance fitting_writeStateSnapshot d t : Emits fitting (writeStateSnapshot (E:=E) version d t).
Proof. unfold writeStateSnapshot, stateW_Write. fitting_by. Qed.
#[local] Instance fitting_notifyHooks d g e c : Emits fitting (notifyHooks (E:=E) d g e c).
Proof. unfold notifyHooks, hooks_Notify. fitting_by. Qed.
#[local] Instance fitting_flushVacated d g old : Emits fitting (flushVacatedConntrack (E:=E) d g old).
Proof. unfold flushVacatedConntrack, forM, kernel_FlushConntrack, kernel_InterfaceAddrs. fitting_by. Qed.
#[local] Instance fitting_publishDecision d g c : Emits fitting (publishDecision (E:=E) version d g c).
Proof. unfold publishDecision. fitting_by. Qed.

#[local] Instance fitting_loop_live {A} (body : daemon → A → M E effect daemon) d l :
  (∀ d x, Emits fitting (body d x)) → Emits fitting (loop_live body d l).
Proof. intros Hb. revert d. induction l; intros d; cbn [loop_live]; fitting_by. Qed.
#[local] Instance fitting_recomputeGroup wan reason d entry : known_reason reason → Emits fitting (recomputeGroup (E:=E) version wan reason d entry).
Proof. unfold recomputeGroup. fitting_by. Qed.
#[local] Instance fitting_recomputeAffectedGroups reason d wan : known_reason reason →
  Emits fitting (recomputeAffectedGroups (E:=E) version reason d wan).
Proof. unfold recomputeAffectedGroups. fitting_by. Qed.
#[local] Instance fitting_publishHealthChange d c reason : known_reason reason → Emits fitting (publishHealthChange (E:=E) version d c reason).
Proof. unfold publishHealthChange. fitting_by. Qed.
#[local] Instance fitting_forward op d entry :
  (∀ ar g, (∀ n f, Emits fitting (ar n f)) → Emits fitting (op ar g)) → Emits fitting (forward (E:=E) version op d entry).
Proof. intros Hop. unfold forward. fitting_by. Qed.
#[local] Instance fitting_retryGroupDecisions d wan : Emits fitting (retryGroupDecisions (E:=E) version d wan).
Proof. unfold retryGroupDecisions. fitting_by. Qed.
#[local] Instance fitting_observeRoute e d wans : Emits fitting (observeRoute (E:=E) version e d wans).
Proof.
  revert d. induction wans as [|[n w] wans IH]; intros d; cbn [observeRoute]; fitting_by.
Qed.
#[local] Instance fitting_dispatch d ev : Emits fitting (dispatch (E:=E) version d ev).
Proof. destruct ev; cbn [dispatch]; unfold handleProbeResult, handleLinkEvent, handleRouteEvent; fitting_by. Qed.
#[local] Instance fitting_eventLoop d acks turns : Emits fitting (eventLoop (E:=E) version d acks turns).
Proof. revert d acks. induction turns as [|[]]; intros d acks; cbn [eventLoop]; fitting_by; done. Qed.
#[local] Instance fitting_prime d snap : Emits fitting (prime (E:=E) version d snap).
Proof. unfold prime, prime_links. fitting_by. Qed.
#[local] Instance fitting_newDaemon cfg : Emits fitting (newDaemon (E:=E) cfg).
Proof. unfold newDaemon. fitting_by. Qed.
#[local] Instance fitting_ensureGroupRules g fams : Emits fitting (ensureGroupRules (E:=E) g fams).
Proof. induction fams; cbn [ensureGroupRules]; unfold kernel_EnsureRule; fitting_by. Qed.
#[local] Instance fitting_bootstrap d : Emits fitting (bootstrap (E:=E) version d).
Proof. unfold bootstrap. fitting_by. Qed.

Lemma fitting_life cfg snap turns : Emits fitting (life (E:=E) version cfg snap turns).
Proof. unfold life. fitting_by. Qed.

Section run.
Context `{HSD : Systemd E, HSU : Subsystems E} (revision goVersion : string).
Context (ReadFile : string → E → (error + list Z) * E).
Context (decode : list Z → error + Config * list Z) (trailing : list Z → option error).

#[local] Instance silent_Load path : Silent (Load (E:=E) ReadFile decode trailing path).
Proof. unfold Load, Parse, Validate, validateGroups, validateGroup, first_failure. silent_by. Qed.
#[local] Instance silent_fail s : Silent (fail (E:=E) s).
Proof. unfold fail, exit. silent_by. Qed.
#[local] Instance silent_sdNotify s : Silent (sdNotify (E:=E) (Ev:=effect) s).
Proof. unfold sdNotify. silent_by. Qed.

#[local] Instance fitting_start cfg turns : Emits fitting (start (E:=E) version revision goVersion cfg turns).
Proof.
  unfold start, serve, exit, startLinkSubscriber, startRouteSubscriber. fitting_by.
Qed.

Lemma fitting_run args turns :
  Emits fitting (Lifecycle.run (E:=E) version revision goVersion ReadFile decode trailing args turns).
Proof.
  unfold Lifecycle.run. case_match; [fitting_by|]. apply emits_bind; [apply emits_silent, _|]. fitting_by.
Qed.
End run.

End fitting.

(** The notifier's own operations. *)
Section execute.
Context {E : Type} `{HOS : OS E} (rfc3339 : Time → string).

#[local] Instance silent_executables dir es : Silent (executables (E:=E) (Ev:=MetricOp) dir es).
Proof. induction es as [|[n []] es IH]; cbn [executables]; silent_by. Qed.

#[local] Instance silent_run_paths r env t ps : ∀ i, Silent (run_paths (E:=E) (Ev:=MetricOp) r env t i ps).
Proof. induction ps as [|p ps IH]; intros i; cbn [run_paths]; unfold runOne; silent_by. Qed.

#[local] Instance silent_hooks_run r h : Silent (Hooks.run (E:=E) (Ev:=MetricOp) rfc3339 r h).
Proof. unfold Hooks.run, buildEnv. silent_by. Qed.

Lemma fitting_execute r h : Emits (λ op, op_fits op = true) (execute (E:=E) rfc3339 r h).
Proof.
  unfold execute. apply emits_bind; [apply emits_silent, _|]. intros results. apply emits_foldM. intros [] res _.
  destruct (counted h res) as [labels|] eqn:Hc; [|apply emits_ret]. apply emits_emit. unfold counted in Hc.
  destruct (hr_Outcome res); try done; injection Hc as <-; by destruct (hc_Event h).
Qed.
End execute.

(** ** Properties *)

(** C13. Metric operations are well typed. Whatever the command line, the
    configuration, the kernel, the State writer, the Hooks and the events do,
    every metric operation of a run of the daemon, and of the Hook notifier
    beside it, fits the catalog: it sets a gauge, increments a counter or
    observes a histogram that is one, with exactly one value per label, so that
    the Prometheus library never panics; and the labels with a documented set of
    values (reason, op, state, event, result) have only those. *)
Theorem metrics_fit_catalog {E} `{HK : Kernel E, HSS : StateSink E, HHS : HookSink E, HKL : !KernelLaws E}
    `{HSD : Systemd E, HSU : Subsystems E} {E'} `{HOS : OS E'}
    version revision goVersion ReadFile decode trailing args turns (w : World E effect)
    rfc3339 r h (w' : World E' MetricOp) :
  (∃ l, w_log (Lifecycle.run version revision goVersion ReadFile decode trailing args turns w).2 = w_log w ++ l ∧
     ∀ op, EMetric op ∈ l → op_fits op = true) ∧
  (∃ l, w_log (execute rfc3339 r h w').2 = w_log w' ++ l ∧ ∀ op, op ∈ l → op_fits op = true).
Proof.
  split.
  - destruct (fitting_run version revision goVersion ReadFile decode trailing args turns w) as (l & Hl & HP).
    exists l. split; [done|]. rewrite Forall_forall in HP. intros op Hop. exact (HP _ Hop).
  - destruct (fitting_execute rfc3339 r h w') as (l & Hl & HP). exists l. split; [done|]. by apply Forall_forall.
Qed.

#[local] Existing Instances Daemon.Example.kernel Daemon.Example.kernel_laws Daemon.Example.state_sink
  Daemon.Example.hook_sink Lifecycle.Example.systemd Lifecycle.Example.subsystems Hooks.Example.os.

(** A served run and two Hooks: the reported operations fit. *)
Lemma metrics_fit_catalog_witness :
  let l := w_log (Lifecycle.run "1.0" "rev" "go1.24" (λ _ e, (inr [], e)) (λ _, inr (example_config, [])) (λ _, None)
                    [] Daemon.Example.turns Daemon.Example.world).2 in
  let l' := w_log (execute (λ _, "") Hooks.Example.runner Hooks.Example.context
                     (mkWorld (mkSchedule None (λ n, Pos.of_succ_nat n) (λ _ i, i)) 0 0%nat [])).2 in
  (20 <? length l)%nat = true ∧ (∀ op, EMetric op ∈ l → op_fits op = true) ∧
  (length l' =? 2)%nat = true ∧ ∀ op, op ∈ l' → op_fits op = true.
Proof.
  intros l l'. split; [vm_compute; reflexivity|].
  assert (Hl : (length l' =? 2)%nat = true) by (vm_compute; reflexivity).
  destruct (metrics_fit_catalog "1.0" "rev" "go1.24" (λ _ e, (inr [], e)) (λ _, inr (example_config, [])) (λ _, None)
    [] Daemon.Example.turns Daemon.Example.world (λ _, "") Hooks.Example.runner Hooks.Example.context
    (mkWorld (mkSchedule None (λ n, Pos.of_succ_nat n) (λ _ i, i)) 0 0%nat [])) as [(l1 & H1 & HP1) (l2 & H2 & HP2)].
  split; [intros op Hop; apply HP1; unfold l in Hop; rewrite H1 in Hop; exact Hop|].
  split; [exact Hl|]. intros op Hop. apply HP2. unfold l' in Hop. rewrite H2 in Hop. exact Hop.
Defined.
