(* ===== verification/Detection.v ===== *)
(** * Outages are detected

    The probe cycle composed with everything behind it: the Windows of
    [Pinger], the statistics of [Aggregate], the thresholds and Hysteresis of
    [Health], and the daemon's Decisions. From the moment a network answers none
    of a Family's requests, the Family is unhealthy within a number of cycles
    that its configuration fixes, and no Group wants its WAN any more. *)
From Stdlib Require Import QArith.QArith QArith.Qcanon.
From stdpp Require Import sorting.
From S2P Require Import Prelude GoFloat Icmp Window Aggregate Hysteresis Runtime Metrics NetIP Selector State Config.
From S2P Require Import Rtnl Routes Health Decision Apply Gateway Daemon Coordination Ident Pinger PingerLoop Probers.

#[local] Open Scope Z_scope.

(** ** Statistics of a lost Window *)

(** The last [n] Samples of a list are lost. *)
Definition tail_lost (n : nat) (l : list Sample) : Prop :=
  ∀ i s, l !! i = Some s → (length l ≤ i + n)%nat → Lost s = true.

Lemma tail_lost_snoc n l s : tail_lost n l → Lost s = true → tail_lost (S n) (l ++ [s]).
Proof.
  intros Hl Hs i x Hx Hi. rewrite length_app in Hi. cbn in Hi.
  apply lookup_app_Some in Hx as [Hx|[? Hx]]; [apply (Hl i); [done|lia]|].
  by apply list_lookup_singleton_Some in Hx as [_ <-].
Qed.

Lemma tail_lost_take_last n m l : tail_lost n l → tail_lost n (take_last m l).
Proof.
  unfold take_last. intros Hl i x Hx Hi. rewrite lookup_drop in Hx. apply (Hl _ _ Hx).
  rewrite length_drop in Hi. lia.
Qed.

Lemma tail_lost_all n l : tail_lost n l → (length l ≤ n)%nat → ∀ s, s ∈ l → Lost s = true.
Proof. intros Hl Hn s [i Hi]%list_elem_of_lookup. apply (Hl i s Hi). lia. Qed.

Lemma losses_all l : (∀ s, s ∈ l → Lost s = true) → losses l = Z.of_nat (length l).
Proof.
  intros Hl. unfold losses. induction l as [|s l IH]; [done|].
  rewrite filter_cons_True by (apply Hl; apply list_elem_of_here). cbn [length].
  rewrite !Nat2Z.inj_succ, IH; [done|]. intros s' Hs'. apply Hl. by apply list_elem_of_further.
Qed.

Lemma NewRat_self n : 0 < n → NewRat n n = 1%Qc.
Proof.
  intros Hn. apply Qc_is_canon. unfold NewRat. cbn [this Q2Qc]. rewrite Qred_correct. unfold Qeq. cbn [Qnum Qden].
  rewrite Z2Pos.id by done.
  change (QDen (Qred 1)) with 1. change (Qnum (Qred 1)) with 1. lia.
Qed.

Lemma qsum_ones l : (∀ q, q ∈ l → q = 1%Qc) → qsum l = NewRat (Z.of_nat (length l)) 1.
Proof.
  intros Hl. induction l as [|q l IH]; [done|]. cbn [qsum foldr]. fold (qsum l).
  rewrite IH by (intros q' ?; apply Hl; by apply list_elem_of_further).
  rewrite (Hl q) by apply list_elem_of_here.
  apply Qc_is_canon. unfold NewRat. cbn [this Q2Qc Qcplus]. rewrite !Qred_correct. unfold Qeq. cbn -[Z.of_nat]. lia.
Qed.

Lemma NewRat_div_self n : 0 < n → (NewRat n 1 / NewRat n 1)%Qc = 1%Qc.
Proof.
  intros Hn. apply Qcmult_inv_r. intros H. apply (f_equal this) in H. unfold NewRat in H. cbn [this Q2Qc] in H.
  assert (Heq : (Qred (n # Z.to_pos 1) == Qred 0)%Q) by (by rewrite H).
  rewrite !Qred_correct in Heq. unfold Qeq in Heq. cbn in Heq. lia.
Qed.

(** Only lost Samples, in every Window of a full Family. *)
Definition all_lost (st : FamilyStats) : Prop :=
  fs_ExactLoss st = Some 1%Qc ∧ fs_RTTMicros st = None ∧ fs_WindowFilled st = true.

(** The aggregate of full Windows that hold nothing else. *)
Lemma Aggregate_lost entries fs :
  entries ≠ [] → Z.of_nat (length entries) < two63 → Aggregate entries = Some fs →
  (∀ e, e ∈ entries → wf e.2 ∧ Capacity e.2 < 2 ^ 53 ∧ Filled e.2 = true ∧ ∀ s, s ∈ contents e.2 → Lost s = true) →
  all_lost fs.
Proof.
  intros Hne Hlen HA Hall. assert (Hwf : ∀ e, e ∈ entries → wf e.2 ∧ Capacity e.2 < 2 ^ 53) by (intros e ?; split; by apply Hall).
  destruct (target_stats_total entries Hwf) as (tss & HM & HF). rewrite (Aggregate_spec _ _ HM Hne) in HA. injection HA as <-.
  assert (Hone : ∀ e, e ∈ entries → entry_loss e = Some 1%Qc ∧ rtts (contents e.2) = []).
  { intros e He. destruct (Hall e He) as (Hw & _ & Hf & Hl). split; [|by apply rtts_nil].
    unfold entry_loss. rewrite losses_all, length_contents by done. rewrite Filled_Len in Hf by done. apply Z.eqb_eq in Hf.
    pose proof (wf_capacity _ Hw). unfold Capacity in Hf. rewrite (proj2 (Z.ltb_lt _ _)) by lia. rewrite NewRat_self; [done|lia]. }
  assert (Hls : omap ts_ExactLoss tss = replicate (length entries) 1%Qc).
  { rewrite (family_losses entries tss) by done. clear -Hone. induction entries as [|e l IH]; [done|].
    rewrite omap_cons'. rewrite (proj1 (Hone e (list_elem_of_here _ _))). cbn. f_equal. apply IH. intros e' ?. apply Hone. by apply list_elem_of_further. }
  assert (Hpos : 0 < Z.of_nat (length entries)) by (destruct entries; [done|cbn; lia]).
  split; [|split]; unfold family_stats; cbn.
  - rewrite Hls, length_replicate. unfold ratMean_mean. cbn. rewrite int_wrap_small by (unfold two63 in *; lia).
    rewrite (proj2 (Z.eqb_neq _ _)) by lia. rewrite qsum_ones by (intros q Hq; by apply elem_of_replicate_inv in Hq).
    by rewrite length_replicate, NewRat_div_self.
  - apply intMean_None; [pose proof (length_omap ts_RTTMicros tss); pose proof (Forall2_length _ _ _ HF); unfold two63, two64 in *; lia|].
    apply omap_nil. apply (Forall2_entries (λ ts, ts_RTTMicros ts = None) (λ e, mean_of (rtts (contents e.2)) = None) entries tss HF).
    + intros [name w] ts He Hts. destruct (Hwf _ He) as [Hw Hc]. destruct (target_stats_wf name w Hw Hc) as (j & Hts' & _).
      rewrite Hts in Hts'. by injection Hts' as ->.
    + intros e He. by rewrite (proj2 (Hone e He)).
  - apply List.forallb_forall. intros e He. apply Hall. by apply list_elem_of_In.
Qed.

(** Such statistics are never healthy under valid thresholds. *)
Lemma all_lost_unhealthy prev st t : all_lost st → valid_thresholds t → evaluateThresholds prev st t = false.
Proof.
  intros (Hl & _) [[H0 H1] H2 _]. unfold evaluateThresholds. rewrite Hl. cbn [default from_option id].
  assert (Hc : ∀ pct, (comparePct 1%Qc pct = Lt ↔ 100 < pct) ∧ (comparePct 1%Qc pct = Gt ↔ pct < 100)).
  { intros pct. unfold comparePct, Qccompare, NewRat. cbn [this Q2Qc]. 
    rewrite !Qred_correct. unfold Qcompare. cbn [Qnum Qden]. change (Z.to_pos 100) with 100%positive.
    rewrite Z.compare_lt_iff, Z.compare_gt_iff. lia. }
  destruct prev.
  - destruct (comparePct _ (LossPctDown t)) eqn:E; [done| |done]. apply Hc in E. lia.
  - destruct (comparePct _ (LossPctUp t)) eqn:E; [| |done].
    + assert (Hg : comparePct 1%Qc (LossPctUp t) = Gt) by (apply Hc; lia). congruence.
    + apply Hc in E. lia.
Qed.

(** ** Hysteresis under such statistics *)

(** A Family whose verdict is that of its Hysteresis, which counts fewer than [d]
    unhealthy results while it is healthy. *)
Record counting (d : Z) (fs : family) : Prop := {
  ct_down : h_consecutiveDown (f_hyst fs) = d;
  ct_healthy : f_cooked fs = true → f_healthy fs = h_healthy (f_hyst fs);
  ct_count : f_cooked fs = true → f_healthy fs = true → 0 ≤ h_unhealthyCount (f_hyst fs) < d
}.

(** The unhealthy results that [fs] still stands. *)
Definition patience (d : Z) (fs : family) : Z :=
  if f_cooked fs then (if f_healthy fs then d - h_unhealthyCount (f_hyst fs) else 0) else 1.

Lemma newFamily_counting cfg fam :
  1 ≤ ConsecutiveDown (p_Hysteresis (w_Probe cfg)) →
  counting (ConsecutiveDown (p_Hysteresis (w_Probe cfg))) (newFamily cfg fam).
Proof.
  intros Hd. split; [|done|done]. destruct (newHysteresis_thresholds
    (ConsecutiveUp (p_Hysteresis (w_Probe cfg))) (ConsecutiveDown (p_Hysteresis (w_Probe cfg)))) as [_ H].
  cbn [newFamily f_hyst]. lia.
Qed.

Lemma fam_next_counting d t fs st : 1 ≤ d < two63 → counting d fs → counting d (fam_next t fs st).
Proof.
  intros Hd [H1 H2 H3]. unfold fam_next. destruct (f_cooked fs || _) eqn:Hc; [|by split].
  destruct (f_cooked fs) eqn:Hk.
  - specialize (H2 eq_refl). specialize (H3 eq_refl). rewrite H2 in H3.
    unfold observe. destruct (evaluateThresholds _ _ _); (split; [done|done|]); cbn; intros _ Hh; [lia|].
    destruct (h_healthy (f_hyst fs)) eqn:Hhh; [|done]. specialize (H3 eq_refl). rewrite H1 in *.
    cbn [andb] in Hh. rewrite int_wrap_small in * by (unfold two63 in *; lia).
    destruct (d <=? _) eqn:E; [done|]. bool_to_Prop. lia.
  - split; [done|done|]. cbn. intros _ _. lia.
Qed.

Lemma fam_next_lost d t fs st : 1 ≤ d < two63 → valid_thresholds t → all_lost st → counting d fs →
  f_cooked (fam_next t fs st) = true ∧ patience d (fam_next t fs st) ≤ Z.max 0 (patience d fs - 1).
Proof.
  intros Hd Ht Hst [H1 H2 H3]. unfold fam_next. destruct Hst as (? & ? & Hf) eqn:Hs.
  rewrite Hf, orb_true_r, (all_lost_unhealthy _ _ _ Hst Ht). split; [done|]. unfold patience. cbn [f_cooked f_healthy f_hyst].
  destruct (f_cooked fs) eqn:Hk; [|cbn; lia]. rewrite (H2 eq_refl) in *. specialize (H3 eq_refl). unfold observe. cbn.
  destruct (h_healthy (f_hyst fs)); [|cbn; lia]. specialize (H3 eq_refl). rewrite H1 in *. cbn [andb].
  rewrite int_wrap_small by (unfold two63 in *; lia). destruct (d <=? _) eqn:E; bool_to_Prop; lia.
Qed.

Lemma foldl_counting d t l : ∀ fs, 1 ≤ d < two63 → counting d fs → counting d (foldl (fam_next t) fs l).
Proof. induction l as [|st l IH]; intros fs Hd Hc; [done|]. cbn [foldl]. apply IH; [done|]. by apply fam_next_counting. Qed.

Lemma patience_bounds d fs : 1 ≤ d → counting d fs → 0 ≤ patience d fs ≤ d.
Proof.
  intros Hd [H1 H2 H3]. unfold patience. destruct (f_cooked fs), (f_healthy fs); lia.
Qed.

Lemma foldl_lost d t l : ∀ fs, 1 ≤ d < two63 → valid_thresholds t → (∀ st, st ∈ l → all_lost st) → counting d fs →
  l ≠ [] → f_cooked (foldl (fam_next t) fs l) = true ∧
    patience d (foldl (fam_next t) fs l) ≤ Z.max 0 (patience d fs - Z.of_nat (length l)).
Proof.
  induction l as [|st l IH]; intros fs Hd Ht Hl Hc Hne; [done|]. cbn [foldl].
  destruct (fam_next_lost d t fs st Hd Ht) as [Hk Hp]; [apply Hl; apply list_elem_of_here|done|].
  destruct l as [|st' l]; [cbn [length foldl]; split; [done|lia]|].
  destruct (IH (fam_next t fs st)) as [Hk' Hp']; [done|done| |by apply fam_next_counting|done|].
  - intros s' Hs'. apply Hl. by apply list_elem_of_further.
  - split; [done|]. cbn [length] in *. lia.
Qed.

(** After [d] such results, whatever came before, the Family votes unhealthy. *)
Lemma history_lost name cfg events fam old new :
  let d := ConsecutiveDown (p_Hysteresis (w_Probe cfg)) in
  1 ≤ d < two63 → valid_thresholds (p_Thresholds (w_Probe cfg)) →
  results name fam events = old ++ new → (∀ st, st ∈ new → all_lost st) → d ≤ Z.of_nat (length new) →
  votes_healthy (fam_history name cfg events fam) = false.
Proof.
  intros d Hd Ht Hr Hnew Hlen. unfold fam_history. rewrite Hr, foldl_app.
  set (t := p_Thresholds _) in *. set (fs := foldl _ _ old).
  assert (Hc : counting d fs) by (apply foldl_counting; [done|apply newFamily_counting; lia]).
  destruct (foldl_lost d t new fs Hd Ht Hnew Hc) as [Hk Hp]; [by intros ->; cbn in Hlen; lia|].
  pose proof (patience_bounds d fs ltac:(lia) Hc) as Hb.
  pose proof (ct_count _ _ (foldl_counting d t new fs Hd Hc)) as Hct.
  unfold votes_healthy, patience in *. rewrite Hk in *. destruct (f_healthy _); [|done].
  specialize (Hct eq_refl eq_refl). lia.
Qed.

(** ** A network that answers nothing *)

(** A computation that stays within a set of environments. *)
Class Preserves {E Ev A} (D : E → Prop) (m : M E Ev A) := preserves w : D (w_env w) → D (w_env (m w).2).

#[local] Instance preserves_quiet {E Ev A} (D : E → Prop) (m : M E Ev A) : Quiet m → Preserves D m.
Proof. intros Hm w HD. by rewrite Hm. Qed.

#[local] Instance preserves_bind {E Ev A B} (D : E → Prop) (m : M E Ev A) (k : A → M E Ev B) :
  Preserves D m → (∀ x, Preserves D (k x)) → Preserves D (x ← m; k x).
Proof. intros Hm Hk w HD. unfold mbind, M_bind. specialize (Hm w HD). destruct (m w) as [x w']. by apply Hk. Qed.

Lemma preserves_call {E Ev A} (D : E → Prop) (g : E → A * E) :
  (∀ e, D e → D (g e).2) → Preserves D (call (Ev:=Ev) g).
Proof. intros Hg w HD. unfold call. specialize (Hg _ HD). by destruct (g (w_env w)). Qed.

Section outage.
Context {E : Type} `{HC : PingConn E, HD : Dialer E}.
Context (p : Pinger).

(** Whatever the Pinger does, the network stays in [D], where no datagram carries
    its identifier. *)
Record unanswered (D : E → Prop) : Prop := {
  un_write req ip e : D e → D (WriteTo req ip e).2;
  un_read e : D e → D (ReadFrom e).2;
  un_close e : D e → D (Close e);
  un_dial fam iface e : D e → D (dial fam iface e).2;
  un_ifindex iface e : D e → D (ifindex iface e).2;
  un_foreign e data q : D e → (ReadFrom e).1 = inr data → ParseEchoReply (p_Family p) data ≠ inr (p_Ident p, q)
}.

Context (D : E → Prop) (HU : unanswered D).

#[local] Instance open_preserves s : Preserves D (open p s).
Proof.
  unfold open. destruct (sk_open s); [apply _|]. apply preserves_bind; [|apply _].
  apply preserves_call. intros e He. by apply (un_dial _ HU).
Qed.

#[local] Instance recheck_preserves s : Preserves D (recheck p s).
Proof.
  unfold recheck, close. destruct (negb _); [apply _|]. apply preserves_bind; [apply preserves_call; intros e He; by apply (un_ifindex _ HU)|].
  intros r. destruct (match r with inl _ => _ | inr _ => _ end); [apply _|]. apply preserves_bind; [|apply _].
  destruct (sk_open s); [|apply _]. apply preserves_bind; [|apply _]. apply preserves_call. intros e. apply (un_close _ HU).
Qed.

Lemma send_results_D addrs ts : ∀ q e, D e → D (send_results p addrs ts q e).2.
Proof.
  induction ts as [|t ts IH]; intros q e He; cbn [send_results]; [done|].
  pose proof (un_write _ HU (default [] (EchoRequestBytes (p_Family p) (p_Ident p) q [])) (default None (addrs !! t)) e He) as He'.
  destruct (WriteTo _ _ e) as [err e']. specialize (IH (u16 (q + 1)) e' He'). by destruct (send_results p addrs ts (u16 (q + 1)) e').
Qed.

(** The read loop ignores everything it receives. *)
Lemma drain_unanswered fuel infl W (w : World E ProbeResult) : D (w_env w) →
  wp (drain p fuel infl W) (λ r w', D (w_env w') ∧ (r = None ∨ r = Some (infl, W))) w.
Proof.
  revert w. induction fuel as [|fuel IH]; intros w He; cbn [drain]; (destruct (decide (infl = ∅)); [apply wp_ret; auto|]).
  { apply wp_ret; auto. }
  apply wp_bind. unfold wp at 1, call. pose proof (un_read _ HU _ He) as Hr.
  pose proof (λ data q, un_foreign _ HU _ data q He) as Hf.
  destruct (ReadFrom (w_env w)) as [[err|data] e']; cbn [fst snd] in *; [apply wp_ret; auto|].
  destruct (ParseEchoReply (p_Family p) data) as [|[i q]] eqn:Hp; [by apply IH|].
  destruct (Z.eqb_spec i (p_Ident p)) as [-> |]; cbn [negb]; [|by apply IH]. by destruct (Hf data q eq_refl).
Qed.

Context (Hnd : NoDup (p_Targets p)) (Hfew : Z.of_nat (length (p_Targets p)) ≤ 65536)
  (Hne : p_Targets p ≠ []) (Hsize : p_WindowSize p < 2 ^ 53).

(** The last [n] Samples of every Window are lost. *)
Definition lost_for (n : nat) (W : gmap string WindowStats) : Prop :=
  ∀ t w, W !! t = Some w → tail_lost n (contents w).

Lemma pushed_lost k n W f W' : windows_aged p k W → pushed W f W' → lost_for n W →
  (∀ t, t ∈ p_Targets p → ∃ s, f !! t = Some s ∧ Lost s = true) → lost_for (S n) W'.
Proof.
  intros [Hdom Hag] Hp Hl Hf t w' Hw'. rewrite (Hp t) in Hw'.
  assert (Ht : t ∈ p_Targets p).
  { apply Hdom. destruct (f !! t), (W !! t); try done; by eexists. }
  destruct (Hf t Ht) as (s & Hs & Hlost). rewrite Hs in Hw'. destruct (W !! t) as [w|] eqn:Hw; [|done]. cbn in Hw'.
  destruct (Push_contents w s w' (ag_wf _ _ _ (Hag t w Hw)) Hw') as (_ & _ & -> & _).
  apply tail_lost_take_last, tail_lost_snoc; [|done]. by apply (Hl t).
Qed.

Lemma recordLoss_env infl W : Quiet (recordLoss (E:=E) infl W).
Proof. unfold recordLoss. apply _. Qed.

Lemma cycle_unanswered k n fuel addrs W q (w : World E ProbeResult) :
  0 ≤ k → windows_aged p k W → lost_for n W → 0 ≤ q < 65536 → D (w_env w) →
  wp (cycle p fuel addrs W q) (λ r w', D (w_env w') ∧ ∀ W' q' failed, r = Some (W', q', failed) →
    windows_aged p (k + 1) W' ∧ lost_for (S n) W' ∧ 0 ≤ q' < 65536) w.
Proof.
  intros Hk Hag Hl Hq He. pose proof (windows_aged_wf _ _ _ Hag) as Hwf.
  destruct (send_results p addrs (p_Targets p) q (w_env w)) as [oks e] eqn:Hsend.
  pose proof (send_results_D addrs (p_Targets p) q _ He) as HeD. rewrite Hsend in HeD. cbn [snd] in HeD.
  set (ok := λ i, default false (oks !! i)). unfold cycle. apply wp_bind. eapply wp_mono.
  { apply (send_all_spec p q W (p_Targets p) Hfew Hnd Hwf addrs ok (p_Targets p) [] (mkCycle ∅ W q false) w ∅); cbn.
    - done.
    - unfold seq_of, u16. by rewrite Z.add_0_r, Z.mod_small.
    - rewrite Hsend. cbn. intros j b Hj. unfold ok. by rewrite Hj.
    - apply standing_nil.
    - apply pushed_refl. }
  cbn. rewrite Hsend. cbn. intros _ w1 (c1 & f1 & -> & He1 & Hsq & _ & Hst & Hp).
  assert (Hfin : ∀ w2 : World E ProbeResult, D (w_env w2) →
    wp (ws ← recordLoss (cy_inflight c1) (cy_windows c1); mret ((λ ws, (ws, cy_seq c1, cy_sendFailed c1)) <$> ws))
      (λ r w', D (w_env w') ∧ ∀ W' q' failed, r = Some (W', q', failed) →
        windows_aged p (k + 1) W' ∧ lost_for (S n) W' ∧ 0 ≤ q' < 65536) w2).
  { intros w2 H2. apply wp_bind. pose proof (recordLoss_env (cy_inflight c1) (cy_windows c1) w2) as Hq2.
    pose proof (recordLoss_spec q W (p_Targets p) Hfew Hnd Hwf ok (λ _, false) f1 (cy_inflight c1) (cy_windows c1) w2 Hst Hp) as H.
    unfold wp in H |- *. destruct (recordLoss _ _ w2) as [r w3]. cbn [fst snd] in *.
    destruct H as (f & W' & -> & Hp' & Hdom & Hall). cbn. rewrite Hq2. split; [done|].
    intros W'' q' failed [= <- <- <-].
    assert (Hlost : ∀ t, t ∈ p_Targets p → ∃ s, f !! t = Some s ∧ Lost s = true).
    { intros t [i Hi]%list_elem_of_lookup. destruct (Hall i t Hi) as (s & Hs & Hls). exists s. by rewrite andb_false_r in Hls. }
    split; [|split; [by eapply pushed_lost|rewrite Hsq; apply u16_range]].
    eapply pushed_aged; [done|done|exact Hag|exact Hp'|]. intros t. split; [intros [s Hs]; by eapply Hdom|].
    intros Ht. destruct (Hlost t Ht) as (s & Hs & _). by exists s. }
  rewrite <- He1 in HeD.
  apply wp_bind. unfold wp at 1, ctx_Err. cbn [fst snd]. destruct (cancelled w1); [by apply Hfin|].
  apply wp_bind. eapply wp_mono; [by apply drain_unanswered|]. cbn beta. intros r w2 [HD2 [-> | ->]]; [by apply wp_ret|by apply Hfin].
Qed.

Lemma sample_unanswered k n fuel addrs st (w : World E ProbeResult) :
  0 ≤ k → ready p k st → lost_for n (ru_windows st) → D (w_env w) →
  wp (sample p fuel addrs st) (λ r w', D (w_env w') ∧ ∀ st', r = Some st' →
    ready p (k + 1) st' ∧ lost_for (S n) (ru_windows st')) w.
Proof.
  intros Hk [Hag Hq] Hl He. unfold sample. destruct (negb _); apply wp_bind.
  - eapply wp_mono; [by apply (lose_all_pushed p k)|]. cbn beta. intros _ w1 (Henv & f & W' & -> & Hp & Hf). apply wp_ret.
    rewrite Henv. split; [done|]. intros st' [= <-]. unfold ready. cbn [ru_windows ru_seq]. split; [split; [|done]|].
    + eapply pushed_aged; [done|done|exact Hag|exact Hp|]. intros t. rewrite Hf. destruct (decide _); naive_solver.
    + eapply (pushed_lost k n); [done|exact Hp|done|]. intros t Ht. rewrite Hf, decide_True by done. by eexists.
  - eapply wp_mono; [by apply (cycle_unanswered k n)|]. cbn beta. intros [[[W' q'] failed]|] w1 [H1 H2]; [|by apply wp_ret].
    destruct (H2 W' q' failed eq_refl) as (? & ? & ?). apply wp_bind.
    match goal with |- wp ?m _ _ => assert (HP : Preserves D m) by (destruct failed; apply _) end.
    pose proof (HP w1 H1) as HD2. unfold wp at 1. destruct (_ w1) as [s' w2]. apply wp_ret. split; [done|]. by intros st' [= <-].
Qed.

(** The result of such a tick, once the Windows hold nothing else. *)
Lemma result_unanswered k n W (w : World E ProbeResult) :
  windows_aged p k W → lost_for n W → p_WindowSize p ≤ Z.of_nat n → Z.of_nat n ≤ k →
  wp (result p W) (λ r w', w_env w' = w_env w ∧ ∀ res, r = Some res → all_lost (pr_Stats res)) w.
Proof.
  intros [Hdom Hag] Hl Hn Hk. unfold result. apply wp_bind. unfold wp at 1, range. cbn [fst snd].
  match goal with |- context [shuffle ?c ?l] => pose proof (shuffle_Permutation c l) as Hlp; generalize dependent (shuffle c l) end.
  intros l Hlp.
  assert (Hin : ∀ e, e ∈ l → aged p k e.2 ∧ ∀ s, s ∈ contents e.2 → Lost s = true).
  { intros [t w'] He. rewrite Hlp in He. apply elem_of_map_to_list in He. pose proof (Hag t w' He) as Ha.
    split; [done|]. apply (tail_lost_all n); [by apply (Hl t)|].
    pose proof (length_contents w' (ag_wf _ _ _ Ha)). pose proof (Len_bounds w' (ag_wf _ _ _ Ha)) as Hb.
    unfold Capacity in Hb. rewrite (ag_capacity _ _ _ Ha) in Hb. cbn [snd]. lia. }
  destruct (Aggregate l) as [fs|] eqn:HA; [|by apply wp_ret]. apply wp_bind. unfold wp at 1, now. cbn [fst snd]. apply wp_ret.
  split; [done|]. intros res [= <-]. cbn [pr_Stats].
  assert (Hkeys : l.*1 ≡ₚ p_Targets p).
  { rewrite Hlp. apply NoDup_Permutation; [apply NoDup_fst_map_to_list|done|]. intros t. rewrite <- (Hdom t). split.
    - intros [[t' w'] [-> Ht]]%list_elem_of_fmap. apply elem_of_map_to_list in Ht. by exists w'.
    - intros [w' Hw]. apply list_elem_of_fmap. exists (t, w'). split; [done|]. by apply elem_of_map_to_list. }
  apply (Aggregate_lost l); [|apply Permutation_length in Hkeys; rewrite length_fmap in Hkeys; unfold two63; lia|done|].
  - intros ->. symmetry in Hkeys. by apply Permutation_nil_r in Hkeys.
  - intros e He. destruct (Hin e He) as [[Hwf Hc Hf _] Hls]. split; [done|]. split; [unfold Capacity; by rewrite Hc|].
    split; [|done]. unfold Filled. rewrite Hf. apply Z.leb_le. lia.
Qed.

#[local] Instance result_quiet W : Preserves D (result (E:=E) p W).
Proof.
  unfold result. apply preserves_bind; [apply _|]. intros entries. destruct (Aggregate entries); apply _.
Qed.

Lemma run_loop_unanswered fuel addrs turns : ∀ k n st (w : World E ProbeResult),
  0 ≤ k → Z.of_nat n ≤ k → ready p k st → lost_for n (ru_windows st) → D (w_env w) →
  wp (run_loop p fuel addrs st turns) (λ r w', ∀ st', r = Some (Waiting st') → ∃ late,
    w_log w' = w_log w ++ late ∧ length late = ticks turns ∧
    ∀ j res, late !! j = Some res → p_WindowSize p ≤ Z.of_nat (n + j + 1) → all_lost (pr_Stats res)) w.
Proof.
  induction turns as [|[|d] turns IH]; intros k n st w Hk Hn Hst Hl He; cbn [run_loop].
  - apply wp_ret. intros st' _. exists []. by rewrite app_nil_r.
  - apply wp_bind. unfold wp at 1, ctx_Err. cbn [fst snd]. destruct (cancelled w); [by apply wp_ret|]. exact (IH k n st (step w) Hk Hn Hst Hl He).
  - destruct (open p (ru_sock st) w) as [[sock err] w1] eqn:Hopen. eapply wp_bind_eq; [exact Hopen|]. cbn beta iota.
    pose proof (open_preserves (ru_sock st) w He) as He1. rewrite Hopen in He1. apply silent_eq in Hopen; [|apply _].
    destruct err as [err|]; [by apply wp_ret|]. cbn [snd] in He1.
    pose proof (sample_unanswered k n fuel addrs (mkRun sock (ru_windows st) (ru_seq st)) w1 Hk Hst Hl He1) as Hs.
    unfold wp in Hs. destruct (sample p fuel addrs _ w1) as [r2 w2] eqn:Hsample. eapply wp_bind_eq; [exact Hsample|].
    apply silent_eq in Hsample; [|apply _]. cbn [fst snd] in Hs. destruct Hs as [He2 Hs]. destruct r2 as [st2|]; [|by apply wp_ret].
    destruct (Hs st2 eq_refl) as [Hst2 Hl2].
    pose proof (result_quiet (ru_windows st2) w2 He2) as He3.
    pose proof (result_unanswered (k + 1) (S n) (ru_windows st2) w2 (proj1 Hst2) Hl2) as Hres. unfold wp in Hres.
    destruct (result p (ru_windows st2) w2) as [r3 w3] eqn:Hresult. eapply wp_bind_eq; [exact Hresult|].
    apply silent_eq in Hresult; [|apply _]. cbn [fst snd] in *. destruct r3 as [res|]; [|by apply wp_ret].
    apply wp_bind. match goal with |- wp ?m _ _ => assert (Hm : Quiet m) by (destruct d; apply _); assert (Hsi : Silent m) by (destruct d; apply _) end.
    pose proof (Hm w3) as Hq. pose proof (Hsi w3) as Hlg. unfold wp at 1. destruct (_ w3) as [e4 w4]. cbn [fst snd] in *.
    destruct e4 as [err|]; [by apply wp_ret|]. apply wp_bind. unfold wp at 1, emit. cbn [fst snd].
    eapply wp_mono; [apply (IH (k + 1) (S n)); [lia|lia|done|done|cbn; by rewrite Hq]|].
    cbn [w_log]. intros r w5 Hr st' ->. destruct (Hr st' eq_refl) as (late & Hlog & Hlen & Hall). exists (res :: late).
    split; [rewrite Hlog, <- app_assoc; cbn; congruence|].
    assert (Hticks : ticks (PTick d :: turns) = S (ticks turns)) by (unfold ticks; by rewrite filter_cons_True).
    split; [rewrite Hticks; cbn [length]; by rewrite Hlen|]. intros [|j] res' Hj Hw; cbn in Hj.
    + injection Hj as <-. apply Hres; [lia|lia|done].
    + apply (Hall j); [done|lia].
Qed.

(** ** A run seen at the beginning of the outage *)

(** A result does not depend on the fuel. *)
Lemma drain_more n : ∀ m infl W (w : World E ProbeResult) x w', (n ≤ m)%nat →
  drain p n infl W w = (Some x, w') → drain p m infl W w = (Some x, w').
Proof using.
  induction n as [|n IH]; intros m infl W w x w' Hm; destruct m as [|m]; try lia; cbn [drain];
    destruct (decide (infl = ∅)); try done.
  unfold mbind, M_bind. destruct (call ReadFrom w) as [[err|data] w1]; [done|].
  destruct (ParseEchoReply _ _) as [|[i q]]; [by apply IH; lia|]. destruct (negb _); [by apply IH; lia|].
  destruct (infl !! q) as [e|]; [|by apply IH; lia]. destruct (now w1) as [t w2].
  destruct (push_to _ _ _); [|done]. by apply IH; lia.
Qed.

Lemma sample_more n m addrs st (w : World E ProbeResult) x w' : (n ≤ m)%nat →
  sample p n addrs st w = (Some x, w') → sample p m addrs st w = (Some x, w').
Proof using.
  intros Hm. unfold sample. destruct (negb _); [done|]. unfold cycle, mbind, M_bind.
  destruct (send_all _ _ _ _ w) as [[c|] w1]; [|done]. destruct (ctx_Err w1) as [[err|] w2]; [done|].
  destruct (drain p n _ _ w2) as [[[infl W]|] w3] eqn:Hd; [|done]. by rewrite (drain_more _ _ _ _ _ _ _ Hm Hd).
Qed.

Lemma run_loop_more n m addrs turns : ∀ st (w : World E ProbeResult) x w', (n ≤ m)%nat →
  run_loop p n addrs st turns w = (Some x, w') → run_loop p m addrs st turns w = (Some x, w').
Proof using.
  induction turns as [|[|d] turns IH]; intros st w x w' Hm; cbn [run_loop]; [done|..]; unfold mbind, M_bind.
  - destruct (ctx_Err w) as [[err|] w1]; [done|]. by apply IH.
  - destruct (open p (ru_sock st) w) as [[sock [err|]] w1]; [done|].
    destruct (sample p n addrs _ w1) as [[st1|] w2] eqn:Hs; [|done]. rewrite (sample_more _ _ _ _ _ _ _ Hm Hs).
    destruct (result p _ w2) as [[res|] w3]; [|done].
    match goal with |- context [let '(_, _) := ?m w3 in _] => destruct (m w3) as [[err|] w4] end; [done|].
    destruct (emit res w4) as [[] w5]. by apply IH.
Qed.

Lemma run_loop_app fuel addrs t1 t2 : ∀ st (w : World E ProbeResult) st1 w1,
  run_loop p fuel addrs st t1 w = (Some (Waiting st1), w1) →
  run_loop p fuel addrs st (t1 ++ t2) w = run_loop p fuel addrs st1 t2 w1.
Proof using.
  induction t1 as [|[|d] t1 IH]; intros st w st1 w1; cbn [run_loop app]; [by intros [= <- <-]|..]; unfold mbind, M_bind.
  - destruct (ctx_Err w) as [[err|] w2]; [done|]. apply IH.
  - destruct (open p (ru_sock st) w) as [[sock [err|]] w2]; [done|].
    destruct (sample p fuel addrs _ w2) as [[st2|] w3]; [|done]. destruct (result p _ w3) as [[res|] w4]; [|done].
    match goal with |- context [let '(_, _) := ?m w4 in _] => destruct (m w4) as [[err|] w5] end; [done|].
    destruct (emit res w5) as [[] w6]. apply IH.
Qed.

Lemma Run_Waiting fuel turns (w : World E ProbeResult) st w' :
  Run p fuel turns w = (Some (Waiting st), w') ↔ run p fuel newSocket turns w = (Some (Waiting st), w').
Proof using.
  unfold Run, mbind, M_bind. destruct (run p fuel newSocket turns w) as [[[err s|st1]|] w1]; [|done|done].
  destruct (close s w1). by split.
Qed.

(** The loop that a waiting run is in. *)
Lemma Run_loop fuel turns (w : World E ProbeResult) st w' : Run p fuel turns w = (Some (Waiting st), w') →
  ∃ addrs st0 w0, ∀ m turns' st' x,
    Run p m turns' w = (Some (Waiting st'), x) ↔ run_loop p m addrs st0 turns' w0 = (Some (Waiting st'), x).
Proof using.
  rewrite Run_Waiting. intros H. setoid_rewrite Run_Waiting. unfold run in *.
  destruct (resolveTargets p _ ∅) as [err|addrs]; [done|]. destruct (new_windows p _ ∅) as [err|W]; [done|].
  unfold mbind, M_bind in *. destruct (open p newSocket w) as [[sock [err|]] w1]; [done|].
  destruct (_ <=? 0); [done|]. by exists addrs, (mkRun sock W 0), w1.
Qed.

Context (Hinterval : 0 < p_Interval p) (Hreads : reads_end (E:=E)).

(** A run that waits is ready, and has sent a result per tick. *)
Lemma Run_ready fuel turns (w : World E ProbeResult) st w' : Run p fuel turns w = (Some (Waiting st), w') →
  ready p (Z.of_nat (ticks turns)) st ∧ ∃ before, w_log w' = w_log w ++ before.
Proof using Hnd Hfew Hne Hsize Hinterval Hreads.
  intros HR. destruct (pinger_Run_spec p Hnd Hfew Hne Hsize Hinterval Hreads turns w) as [n Hn].
  specialize (Hn (n `max` fuel)%nat ltac:(lia)). destruct (Run_loop _ _ _ _ _ HR) as (addrs & st0 & w0 & Hiff).
  assert (HR' : Run p (n `max` fuel) turns w = (Some (Waiting st), w')).
  { apply Hiff. apply (run_loop_more fuel); [lia|]. by apply Hiff. }
  unfold wp in Hn. rewrite HR' in Hn. cbn [fst snd] in Hn. destruct Hn as [(res & Hlog & _ & _ & Hst) _].
  rewrite Z.add_0_l in Hst. split; [done|]. by exists res.
Qed.

(** What the Pinger sends during the outage. *)
Lemma Run_unanswered fuel t1 t2 (w : World E ProbeResult) st1 w1 st2 w2 :
  Run p fuel t1 w = (Some (Waiting st1), w1) → D (w_env w1) → Run p fuel (t1 ++ t2) w = (Some (Waiting st2), w2) →
  ∃ before late, w_log w2 = w_log w ++ before ++ late ∧ length late = ticks t2 ∧
    ∀ j res, late !! j = Some res → p_WindowSize p ≤ Z.of_nat (j + 1) → all_lost (pr_Stats res).
Proof using All.
  intros HR1 HD1 HR2. destruct (Run_ready _ _ _ _ _ HR1) as [Hst1 [before Hb]].
  destruct (Run_loop _ _ _ _ _ HR1) as (addrs & st0 & w0 & Hiff). apply Hiff in HR1, HR2.
  rewrite (run_loop_app _ _ _ _ _ _ _ _ HR1) in HR2.
  assert (Hl : lost_for 0 (ru_windows st1)).
  { intros t win _ i s Hi Hlen. apply lookup_lt_Some in Hi. lia. }
  pose proof (run_loop_unanswered fuel addrs t2 (Z.of_nat (ticks t1)) 0 st1 w1 ltac:(lia) ltac:(lia) Hst1 Hl HD1) as H.
  unfold wp in H. rewrite HR2 in H. destruct (H st2 eq_refl) as (late & Hlog & Hall).
  exists before, late. cbn [snd] in Hlog. by rewrite Hlog, Hb, <- app_assoc.
Qed.

End outage.

(** The results a Pinger sent by the [n]th tick since the network answers none of
    its requests. *)
Inductive out_for {E} `{HC : PingConn E, HD : Dialer E} (p : Pinger) (n : nat) (sent : list ProbeResult) : Prop :=
| out_for_intro D fuel t1 t2 (w : World E ProbeResult) st1 w1 st2 w2 :
    unanswered p D → Run p fuel t1 w = (Some (Waiting st1), w1) → D (w_env w1) →
    Run p fuel (t1 ++ t2) w = (Some (Waiting st2), w2) → w_log w2 = w_log w ++ sent → ticks t2 = n →
    out_for p n sent.

(** ** The daemon behind it *)

(** The configured values fit the types they are converted to, and one echo
    identifier serves the Targets. *)
Record fits (wan : Wan) : Prop := {
  ft_interval : IntervalMs (w_Probe wan) ≤ 9223372036854;
  ft_window : WindowSize (w_Probe wan) < 2 ^ 53;
  ft_down : ConsecutiveDown (p_Hysteresis (w_Probe wan)) < 2 ^ 63;
  ft_targets fam : Z.of_nat (length (For_ (Config.p_Targets (w_Probe wan)) fam)) ≤ 65536
}.

(** Cycles from the beginning of an outage to its detection. *)
Definition detection (wan : Wan) : Z := WindowSize (w_Probe wan) + ConsecutiveDown (p_Hysteresis (w_Probe wan)) - 1.

Lemma out_for_votes {E} `{HC : PingConn E, HD : Dialer E} cfg idents name fam wan n sent events :
  Valid cfg → map_Forall (λ _, fits) (c_Wans cfg) → reads_end (E:=E) → c_Wans cfg !! name = Some wan →
  fam ∈ Families (Config.p_Targets (w_Probe wan)) →
  out_for (E:=E) (prober cfg idents (mkIdentKey name fam)) n sent →
  results name fam events = pr_Stats <$> sent → detection wan ≤ Z.of_nat n →
  votes_healthy (fam_history name wan events fam) = false.
Proof.
  intros HV Hfits Hreads Hw Hf Hout Hr Hn. set (p := prober cfg idents (mkIdentKey name fam)) in *.
  assert (Hk : mkIdentKey name fam ∈ identKeysFor cfg) by (apply elem_of_identKeysFor; by exists wan).
  destruct (prober_ok cfg idents (mkIdentKey name fam) HV (map_Forall_impl _ _ _ Hfits (λ _ _, ft_interval _)) Hk)
    as (wan' & Hw' & _ & Htg & Hnd & Hne & Hint & Hsz & _).
  fold p in Hw', Htg, Hnd, Hne, Hint, Hsz. assert (wan' = wan) as -> by (cbn in Hw'; congruence).
  pose proof (Hfits name wan Hw) as [_ H53 H63 Hfew]. destruct (vw_probe _ _ (v_wans _ HV name wan Hw)).
  destruct Hout as [D fuel t1 t2 w st1 w1 st2 w2 HU HR1 HD1 HR2 Hlog <-].
  destruct (Run_unanswered p D HU Hnd ltac:(by rewrite Htg) Hne ltac:(by rewrite Hsz) Hint Hreads _ _ _ _ _ _ _ _ HR1 HD1 HR2)
    as (before & late & Hlog' & Hlen & Hlost).
  assert (sent = before ++ late) as -> by (rewrite Hlog in Hlog'; by apply app_inv_head in Hlog').
  unfold detection in Hn. set (k := Z.to_nat (WindowSize (w_Probe wan) - 1)).
  apply (history_lost _ _ _ _ (pr_Stats <$> before ++ take k late) (pr_Stats <$> drop k late)); [unfold two63; lia|done| | |].
  - by rewrite <- fmap_app, <- app_assoc, take_drop.
  - intros st (res & -> & [j Hj]%list_elem_of_lookup)%list_elem_of_fmap. rewrite lookup_drop in Hj.
    apply (Hlost _ _ Hj). rewrite Hsz. lia.
  - rewrite length_fmap, length_drop. lia.
Qed.

(** A WAN with such Families is unhealthy. *)
Lemma votes_unhealthy cfgs events name wan F :
  cfgs !! name = Some wan → F ≠ [] → F ⊆ Families (Config.p_Targets (w_Probe wan)) →
  (FamilyHealthPolicy (w_Probe wan) = familyPolicyAny → Families (Config.p_Targets (w_Probe wan)) ⊆ F) →
  (∀ fam, fam ∈ F → votes_healthy (fam_history name wan events fam) = false) →
  Healthy (health_spec cfgs events) name = false.
Proof.
  intros Hw Hne Hsub Hany Hv. rewrite Healthy_history, Hw. unfold healthy_after. apply andb_false_iff. right.
  destruct (Families _) as [|f0 fs] eqn:Hf; [done|]. rewrite <- Hf in *. case_decide as Hp.
  - apply not_true_iff_false. rewrite existsb_exists. intros (fam & Hin%list_elem_of_In & Hh). apply (Hany Hp), Hv in Hin. congruence.
  - destruct F as [|fam F]; [done|]. apply not_true_iff_false. rewrite List.forallb_forall. intros Hall.
    specialize (Hall fam). rewrite Hv in Hall by apply list_elem_of_here. discriminate Hall.
    apply list_elem_of_In, Hsub, list_elem_of_here.
Qed.

(** ** Properties *)

(** C3. An outage is detected, end to end. Let the network of some Families of a
    WAN answer none of their Pingers' requests any more, at whatever point of
    their runs, whether datagrams are lost, sends fail, the interface is gone or
    only foreign datagrams arrive. Once each of these Pingers has sent the
    result of the [WindowSize + ConsecutiveDown - 1]th tick since, and the daemon,
    not stopped, has handled the results, whatever else it handled in between
    and whatever came before, the WAN is unhealthy and no Group wants it, if the
    policy is "all" or these are all the probed Families of the WAN. *)
Theorem outage_detected {E} `{HC : PingConn E, HD : Dialer E} {K} `{HK : Kernel K, HSS : StateSink K, HHS : HookSink K, HKL : !KernelLaws K}
    version cfg idents snap turns name wan F (w : World K effect) :
  Valid cfg → map_Forall (λ _, fits) (c_Wans cfg) → reads_end (E:=E) →
  c_Wans cfg !! name = Some wan → F ≠ [] → F ⊆ Families (Config.p_Targets (w_Probe wan)) →
  (FamilyHealthPolicy (w_Probe wan) = "any" → Families (Config.p_Targets (w_Probe wan)) ⊆ F) →
  (∀ fam, fam ∈ F → ∃ n sent,
     out_for (E:=E) (prober cfg idents (mkIdentKey name fam)) n sent ∧
     WindowSize (w_Probe wan) + ConsecutiveDown (p_Hysteresis (w_Probe wan)) - 1 ≤ Z.of_nat n ∧
     results name fam (health_events (turn_events turns)) = pr_Stats <$> sent) →
  let '(r, w') := life version cfg snap turns w in
  cancelled w' = false →
  match r with
  | inl _ => True
  | inr (d, _) =>
      Healthy (dm_health d) name = false ∧
      ∀ group dg, dm_groups d !! group = Some dg → intent dg ≠ mkActive name true
  end.
Proof.
  intros HV Hfits Hreads Hw Hne Hsub Hany Hout.
  pose proof (life_tracks version cfg (Valid_well_keyed _ HV) snap turns w) as H. unfold wp in H.
  destruct (life version cfg snap turns w) as [[err|[d acks]] w']; [done|]. cbn [fst snd] in H. intros Hc.
  destruct H as [?|[_ Hh _ Hs]]; [congruence|].
  assert (Hun : Healthy (dm_health d) name = false).
  { rewrite Hh. apply (votes_unhealthy _ _ _ wan F); [done..|]. intros fam Hfam.
    destruct (Hout fam Hfam) as (n & sent & Ho & Hn & Hr).
    apply (out_for_votes cfg idents name fam wan n sent _ HV Hfits Hreads Hw); [by apply Hsub|done| |done].
    rewrite <- Hr. unfold results. rewrite omap_app. clear. by induction (ss_links snap). }
  split; [done|]. intros group dg Hdg Hi. pose proof (Hs _ _ Hdg) as Hb. unfold group_synced, best in Hb.
  rewrite Hi in Hb. cbn in Hb. destruct Hb as (m & Hm & Hmh & Hname & _).
  unfold members_of in Hm. apply list_elem_of_fmap in Hm as ([k m'] & -> & _). cbn in *. congruence.
Qed.

(** ** A network that falls silent *)

Module Silence.

(** A network that answers as many requests as it is told, and holds one reply. *)
Record net := mkNet { answered : nat; held : option (list Z) }.

#[local] Instance conn : PingConn net := {
  WriteTo := λ req _ e,
    (None, match answered e with O => e | S n => mkNet n (Some (reply_to FamilyV4 0 0 req)) end);
  ReadFrom := λ e,
    match held e with
    | None => (inl (ErrSentinel "os.ErrDeadlineExceeded"), e)
    | Some d => (inr d, mkNet (answered e) None)
    end;
  Close := λ e, e
}.

#[local] Instance dialer : Dialer net := { dial := λ _ _ e, (inr 3, e); ifindex := λ _ e, (inr 3, e) }.

Definition silent (e : net) : Prop := answered e = 0%nat ∧ held e = None.

Lemma unanswered_silent p : unanswered p silent.
Proof.
  split; try done; intros *; match goal with |- context [silent ?e] => destruct e as [n h] end; intros [Hn Hh];
    cbn in Hn, Hh; by subst.
Qed.

Lemma silent_reads : reads_end (E:=net).
Proof. intros [n [d|]]; [exists 2%nat|exists 1%nat]; eexists; cbn; reflexivity. Qed.

(** Two cycles are answered, then none. *)
Definition start : World net ProbeResult :=
  mkWorld (mkSchedule None (λ _, 7%positive) (λ _ _, 0%nat)) 0 (mkNet 2 None) [].

Definition lte : Pinger := prober example_config ∅ (mkIdentKey "lte" FamilyV4).

Definition sent : list ProbeResult := w_log (Run lte 9 (replicate 4 (PTick true)) start).2.

Lemma out : out_for (E:=net) lte 2 sent.
Proof.
  assert (Hr1 : match (Run lte 9 (replicate 2 (PTick true)) start).1 with
                | Some (Waiting _) => silent (w_env (Run lte 9 (replicate 2 (PTick true)) start).2)
                | _ => False end) by (by vm_compute).
  assert (Hr2 : match (Run lte 9 (replicate 2 (PTick true) ++ replicate 2 (PTick true)) start).1 with
                | Some (Waiting _) => True | _ => False end) by (by vm_compute).
  destruct (Run lte 9 (replicate 2 (PTick true)) start) as [r1 w1] eqn:H1.
  destruct (Run lte 9 (replicate 2 (PTick true) ++ replicate 2 (PTick true)) start) as [r2 w2] eqn:H2.
  cbn [fst snd] in Hr1, Hr2.
  destruct r1 as [[|st1]|]; [destruct Hr1| |destruct Hr1]. destruct r2 as [[|st2]|]; [destruct Hr2| |destruct Hr2].
  refine (out_for_intro lte 2 sent silent 9 _ _ start st1 w1 st2 w2 (unanswered_silent lte) H1 Hr1 H2 _ eq_refl).
  unfold sent. change (replicate 4 (PTick true)) with (replicate 2 (PTick true) ++ replicate 2 (PTick true)). rewrite H2. reflexivity.
Qed.

(** The first link is down; the second carries the Group. *)
Definition links : startupSnapshot :=
  mkStartupSnapshot
    [mkLinkEvent "eth0" CarrierDown OperstateDown zero_time; mkLinkEvent "wwan0" CarrierUp OperstateUp zero_time] [].

Definition heard (n : nat) : list turn := (λ r, TEvent (DProbeResult r)) <$> take n sent.

Lemma results_turns : results "lte" FamilyV4 (health_events (turn_events (heard 4))) = pr_Stats <$> sent.
Proof.
  assert (Hl : (length sent <=? 4)%nat = true) by (by vm_compute).
  assert (Hk : forallb (λ r, bool_decide (pr_Wan r = "lte" ∧ pr_Family r = FamilyV4)) sent = true) by (by vm_compute).
  unfold heard. apply Nat.leb_le in Hl. rewrite take_ge by done. revert Hk. generalize sent. clear. intros l.
  induction l as [|r l IH]; [done|]. cbn [forallb]. intros [Hr Hl]%andb_prop. specialize (IH Hl).
  unfold results, health_events, turn_events in *. cbn. rewrite Hr. by f_equal.
Qed.

Import Daemon.Example.

(** What the Group wants after the first [n] results. *)
Definition wanted (n : nat) : option Active :=
  match (life "1.0" example_config links (heard n) world).1 with
  | inl _ => None
  | inr (d, _) => intent <$> (dm_groups d !! "home")
  end.

Lemma fits_example : map_Forall (λ _, fits) (c_Wans example_config).
Proof.
  intros k wan Hk. unfold example_config in Hk. cbn in Hk.
  apply lookup_insert_Some in Hk as [[_ <-]|[_ [_ <-]%lookup_singleton_Some]];
    (split; [vm_compute; discriminate|by vm_compute|by vm_compute|intros []; vm_compute; discriminate]).
Qed.

End Silence.

Import Daemon.Example.
#[local] Existing Instances Silence.conn Silence.dialer.

(** After two answered cycles the Group wants "lte", after two silent ones none. *)
Lemma outage_detected_witness :
  Silence.wanted 2 = Some (mkActive "lte" true) ∧ Silence.wanted 4 ≠ Some (mkActive "lte" true).
Proof.
  split; [by vm_compute|].
  assert (Hc : cancelled (life "1.0" example_config Silence.links (Silence.heard 4) Daemon.Example.world).2 = false) by (by vm_compute).
  pose proof (outage_detected "1.0" example_config ∅ Silence.links (Silence.heard 4) "lte"
    (mkWan "lte" "wwan0" true (mkProbe "icmp" (mkTargets ["192.0.2.1"] []) 500 1000 2
       (mkThresholds 30 10 200 100) (mkHysteresisCfg 1 1) "all")) [FamilyV4] Daemon.Example.world
    example_config_valid Silence.fits_example Silence.silent_reads eq_refl ltac:(discriminate)) as H.
  unfold Silence.wanted. destruct (life _ _ _ _ _) as [r w'].
  assert (Ho : ∃ n sent, out_for (E:=Silence.net) Silence.lte n sent ∧ 2 ≤ Z.of_nat n ∧
    results "lte" FamilyV4 (health_events (turn_events (Silence.heard 4))) = pr_Stats <$> sent).
  { exists 2%nat, Silence.sent. split; [exact Silence.out|]. split; [discriminate|exact Silence.results_turns]. }
  destruct r as [err|[d acks]]; [discriminate|]. cbn [fst]. intros Hi. apply fmap_Some in Hi as (dg & Hdg & Hi).
  destruct H as [_ H].
  - intros fam Hf. exact Hf.
  - discriminate.
  - intros fam Hf. apply list_elem_of_singleton in Hf as ->. exact Ho.
  - exact Hc.
  - symmetry in Hi. exact (H "home" dg Hdg Hi).
Defined.
