(* ===== verification/NetlinkKernel.v ===== *)
(** * The production kernel adapter ([kernel.go], [helpers.go], internal/apply)

    [netlinkKernel], the implementation of the interface [Kernel] that the
    daemon runs with: the wrappers of internal/apply around the netlink library
    and the lookups around package net. The two libraries are parameters. What
    the daemon relies on of a kernel, [KernelSpec], is stated over a view of its
    rules and its routing tables and proved of the adapter from the documented
    behaviour of the libraries, [NetlinkLaws]. *)
From S2P Require Import Prelude Icmp NetIP Runtime Rtnl Routes Metrics State Apply Daemon.

#[local] Open Scope Z_scope.

(** ** The libraries *)

(** [net.Interface]: the index and the name. *)
Record NetInterface := mkNetInterface { ni_Index : Z; ni_Name : string }.

(** Package net: an interface by its name, and its addresses, [None] standing
    for one that is not an [*net.IPNet]. *)
Class Net (E : Type) := {
  InterfaceByName : string → E → (error + NetInterface) * E;
  Addrs : NetInterface → E → (error + list (option IP)) * E
}.

(** The netlink library: requests on the kernel's rules, routes and connection
    table. *)
Class Netlink (E : Type) := {
  Filter : Type;
  Handle : Type;
  AddReplyDstIP : IP → error + Filter;
  RuleList : Z → E → (error + list Rule) * E;
  RuleAdd : Rule → E → option error * E;
  RuleDel : Rule → E → option error * E;
  RouteReplace : Route → E → option error * E;
  Execute : NetlinkRequest → Z → Z → E → (list (list Z) * option error) * E;
  NewHandle : Z → E → (error + Handle) * E;
  HandleClose : Handle → E → unit * E;
  ConntrackDeleteFilters : Handle → Z → Z → Filter → E → (Z * option error) * E
}.

Definition NETLINK_NETFILTER : Z := 12.

(** ** The adapter *)

Section adapter.
Context {E : Type} `{HN : Net E, HL : Netlink E}.

Abbreviation M := (M E effect).

(** daemon/internal/apply/rule.go:39-45 (EnsureRule): over the library's rule
    requests *)
Definition apply_EnsureRule (r : FwmarkRule) : M (Z * option error) :=
  ensureRuleVia (mkRuleOps (λ f, call (RuleList f)) (λ k, call (RuleAdd k)) (λ k, call (RuleDel k))) r.

(** daemon/internal/apply/route.go:41-43 (WriteDefault): over the library's
    route replacement *)
Definition WriteDefault (d : DefaultRoute) : M (option error) :=
  writeDefaultVia (λ r, call (RouteReplace r)) d.

(** daemon/internal/apply/conntrack.go:172-175 (executeFilteredDelete): the
    error of the request *)
Definition executeFilteredDelete (req : NetlinkRequest) : M (option error) :=
  '(_, err) ← call (Execute req NETLINK_NETFILTER 0);
  mret err.

(** daemon/internal/apply/conntrack.go:177-186 (dumpDelete): one handle per
    dump, closed after it *)
Definition dumpDelete (family : Z) (filter : Filter) : M (Z * option error) :=
  h ← call (NewHandle NETLINK_NETFILTER);
  match h with
  | inl err => mret (0, Some err)
  | inr h =>
      res ← call (ConntrackDeleteFilters h ConntrackTable family filter);
      _ ← call (HandleClose h);
      mret res
  end.

(** daemon/internal/apply/conntrack.go:76-81 (FlushBySource): over the two
    requests *)
Definition FlushBySource (family : Family) (ip : IP) : M (FlushResult * option error) :=
  flushBySourceVia AddReplyDstIP (mkConntrackOps executeFilteredDelete dumpDelete) family ip.

(** daemon/cmd/wanwatchd/helpers.go:19-25 (interfaceIndex): the index, or an
    error that names the interface *)
Definition interfaceIndex (name : string) : M (error + Z) :=
  r ← call (InterfaceByName name);
  mret match r with
       | inl err => inl (Wrapf "InterfaceByName" err)
       | inr iface => inr (ni_Index iface)
       end.

(** daemon/cmd/wanwatchd/helpers.go:31-41 (interfaceAddrs): the global-unicast
    addresses of the interface *)
Definition interfaceAddrs (name : string) : M (error + list IP) :=
  r ← call (InterfaceByName name);
  match r with
  | inl err => mret (inl (Wrapf "InterfaceByName" err))
  | inr iface =>
      r ← call (Addrs iface);
      mret match r with
           | inl err => inl (Wrapf "interface addrs" err)
           | inr addrs => inr (filterGlobalUnicast addrs)
           end
  end.

(** daemon/cmd/wanwatchd/kernel.go:25-46 (netlinkKernel): the five methods *)
#[export] Instance netlinkKernel : Kernel E := {
  EnsureRule r := apply_EnsureRule r;
  IfIndex name := interfaceIndex name;
  WriteRoute d := WriteDefault d;
  InterfaceAddrs name := interfaceAddrs name;
  FlushConntrack family ip := FlushBySource family ip
}.

(** ** The handlers' interface

    Every method is a sequence of requests: it moves the world forward and
    records nothing among the daemon's own effects. *)

#[local] Instance extending_delete_copies del n copies :
  (∀ k, Extending (del k)) → Extending (delete_copies (E:=E) (Ev:=effect) del n copies).
Proof. intros Hd. revert n. induction copies as [|k l IH]; intros n; cbn [delete_copies]; extending_by; apply IH. Qed.

#[local] Instance silent_delete_copies del n copies :
  (∀ k, Silent (del k)) → Silent (delete_copies (E:=E) (Ev:=effect) del n copies).
Proof. intros Hd. revert n. induction copies as [|k l IH]; intros n; cbn [delete_copies]; silent_by; apply IH. Qed.

#[local] Instance extending_dumpFlush_loop tries del fam f n :
  (∀ a b, Extending (del a b)) → Extending (dumpFlush_loop (E:=E) (Ev:=effect) (Filter:=Filter) tries del fam f n).
Proof. intros Hd. revert n. induction tries; intros n; cbn [dumpFlush_loop]; unfold checked; extending_by; apply IHtries. Qed.

#[local] Instance silent_dumpFlush_loop tries del fam f n :
  (∀ a b, Silent (del a b)) → Silent (dumpFlush_loop (E:=E) (Ev:=effect) (Filter:=Filter) tries del fam f n).
Proof. intros Hd. revert n. induction tries; intros n; cbn [dumpFlush_loop]; unfold checked; silent_by; apply IHtries. Qed.

#[export] Instance netlinkKernel_laws : KernelLaws E.
Proof.
  split; intros; cbn [EnsureRule IfIndex WriteRoute InterfaceAddrs FlushConntrack netlinkKernel];
    unfold apply_EnsureRule, ensureRuleVia, interfaceIndex, WriteDefault, writeDefaultVia, interfaceAddrs,
      FlushBySource, flushBySourceVia, dumpFlush, executeFilteredDelete, dumpDelete, checked;
    cbn [ro_list ro_add ro_del filteredDelete Apply.dumpDelete].
  1-5: extending_by.
  all: silent_by.
Qed.
End adapter.

(** ** What the daemon relies on of a kernel

    The kernel changes under the daemon: it drops the routes of an interface that
    goes down, gives a recreated interface a new index, and serves other
    programs. A view of it has its rules per Family, and every change so far of
    the default route of some Family in some table, the newest first: one this
    daemon put in place, or one of anything else, a removal being [None]. *)
Inductive RouteChange := Ours (r : Route) | Others (family table : Z) (r : option Route).

Definition rc_Route (c : RouteChange) : option Route := match c with Ours r => Some r | Others _ _ r => r end.

Definition changes_at (f t : Z) (c : RouteChange) : Prop :=
  match c with Ours r => r_Family r = f ∧ r_Table r = t | Others f' t' _ => f' = f ∧ t' = t end.

#[export] Instance changes_at_dec f t c : Decision (changes_at f t c).
Proof. destruct c; cbn; apply _. Defined.

Class KernelView (E : Type) := {
  rules : E → Z → list Rule;
  changes : E → list RouteChange
}.

(** The newest change there, and the default route now. *)
Definition last_change {E} `{!KernelView E} (e : E) (f t : Z) : option RouteChange :=
  head (filter (changes_at f t) (changes e)).

Definition rib {E} `{!KernelView E} (e : E) (f t : Z) : option Route := last_change e f t ≫= rc_Route.

(** The default routes this daemon put in place, the newest first. *)
Definition our_routes (cs : list RouteChange) : list Route := omap (λ c, match c with Ours r => Some r | Others _ _ _ => None end) cs.

Definition ours {E} `{!KernelView E} (e : E) : list Route := our_routes (changes e).

(** The newest one of a Family in a table. *)
Definition newest (rs : list Route) (f t : Z) : option Route := head (filter (λ r, r_Family r = f ∧ r_Table r = t) rs).

(** Any changes, but none by this daemon. *)
Definition drifts (cs cs' : list RouteChange) : Prop := ∃ l, cs' = l ++ cs ∧ Forall (λ c, match c with Ours _ => False | Others _ _ _ => True end) l.

#[export] Instance drifts_preorder : PreOrder drifts.
Proof.
  split; [by intros cs; exists []|]. intros c1 c2 c3 (l & -> & Hl) (l' & -> & Hl'). exists (l' ++ l).
  split; [by rewrite app_assoc|by apply Forall_app].
Qed.

Lemma drifts_ours cs cs' : drifts cs cs' → our_routes cs' = our_routes cs.
Proof.
  intros (l & -> & Hf). unfold our_routes. rewrite omap_app. induction Hf as [|c l Hc _ IH]; [done|].
  by destruct c.
Qed.

(** The route there now is the newest of this daemon's, unless something else
    made the last change. *)
Lemma rib_ours {E} `{!KernelView E} (e : E) f t r :
  newest (ours e) f t = Some r → rib e f t = Some r ∨ ∃ r', last_change e f t = Some (Others f t r').
Proof.
  unfold rib, last_change, ours. induction (changes e) as [|c cs IH]; [done|]. cbn [our_routes omap list_omap].
  destruct c as [r0|f0 t0 r0].
  - unfold newest. rewrite !filter_cons. cbn [changes_at]. destruct (decide _) as [Hd|Hd].
    + intros [= <-]. by left.
    + apply IH.
  - rewrite filter_cons. cbn [changes_at]. destruct (decide _) as [[-> ->]|Hd]; [|apply IH].
    intros _. right. by exists r0.
Qed.

(** After one rule was ensured: whatever the outcome, no rule but copies of it
    changed, and on success exactly one copy is there. *)
Definition installs (r : FwmarkRule) (before : Z → list Rule) (res : Z * option error) (after : Z → list Rule) : Prop :=
  let f := Family_int (fr_Family r) in
  others r (after f) ≡ₚ others r (before f) ∧
  (∀ f', f' ≠ f → after f' = before f') ∧
  (res.2 = None → ∃ k, matching r (after f) = [k]).

(** After a default route was written: on success it was put in place at some
    moment of the call; the daemon changed nothing else. *)
Definition writes (r : Route) (before : list RouteChange) (err : option error) (after : list RouteChange) : Prop :=
  match err with
  | None => ∃ cs, drifts before cs ∧ drifts (Ours r :: cs) after
  | Some _ => drifts before after
  end.

Lemma writes_ours r before err after :
  writes r before err after →
  our_routes after = match err with None => r :: our_routes before | Some _ => our_routes before end.
Proof.
  destruct err; cbn [writes]; [apply drifts_ours|]. intros (cs & H1 & H2).
  rewrite (drifts_ours _ _ H2), <- (drifts_ours _ _ H1). done.
Qed.

(** A computation under which the environment evolves by [R]. *)
Class Evolves {E A} (R : relation E) (m : M E effect A) := evolves w : R (w_env w) (w_env (m w).2).

Section evolves.
Context {E : Type} (R : relation E) `{!PreOrder R}.

#[export] Instance evolves_quiet {A} (m : M E effect A) : Quiet m → Evolves R m.
Proof. intros Hm w. by rewrite Hm. Qed.

Lemma evolves_bind {A B} (m : M E effect A) (k : A → M E effect B) :
  Evolves R m → (∀ x, Evolves R (k x)) → Evolves R (x ← m; k x).
Proof.
  intros Hm Hk w. unfold mbind, M_bind. specialize (Hm w). destruct (m w) as [x w'].
  etransitivity; [exact Hm|apply Hk].
Qed.

Lemma evolves_call {A} (g : E → A * E) : (∀ e, R e (g e).2) → Evolves R (call g).
Proof. intros Hg w. unfold call. specialize (Hg (w_env w)). by destruct (g (w_env w)). Qed.
End evolves.

Ltac evolves_by :=
  repeat first
    [ progress intros
    | typeclasses eauto
    | apply evolves_bind
    | case_match ].

(** By changes of others only. *)
Definition drifting {E} `{!KernelView E} : relation E := λ e e', drifts (changes e) (changes e').

#[export] Instance drifting_preorder {E} `{!KernelView E} : PreOrder (drifting (E:=E)).
Proof.
  split; [intros e; unfold drifting; reflexivity|]. intros e1 e2 e3. unfold drifting. apply transitivity.
Qed.

#[export] Instance keeps_ours_drifting {E A} `{!KernelView E} (m : M E effect A) : Evolves drifting m → Keeps ours m.
Proof.
  intros Hm w. apply drifts_ours, Hm.
Qed.

Class KernelSpec (E : Type) `{!Kernel E, !KernelView E} : Prop := {
  EnsureRule_installs r w :
    installs r (rules (w_env w)) (EnsureRule (E:=E) r w).1 (rules (w_env (EnsureRule (E:=E) r w).2));
  WriteRoute_writes d w :
    writes (buildRoute d) (changes (w_env w)) (WriteRoute (E:=E) d w).1 (changes (w_env (WriteRoute (E:=E) d w).2));
  EnsureRule_drifts r :: Evolves drifting (EnsureRule (E:=E) r);
  IfIndex_drifts n :: Evolves drifting (IfIndex (E:=E) n);
  InterfaceAddrs_drifts n :: Evolves drifting (InterfaceAddrs (E:=E) n);
  FlushConntrack_drifts f ip :: Evolves drifting (FlushConntrack (E:=E) f ip);
  IfIndex_rules n :: Keeps rules (IfIndex (E:=E) n);
  WriteRoute_rules d :: Keeps rules (WriteRoute (E:=E) d);
  InterfaceAddrs_rules n :: Keeps rules (InterfaceAddrs (E:=E) n);
  FlushConntrack_rules f ip :: Keeps rules (FlushConntrack (E:=E) f ip)
}.

(** The State writer and the Hook notifier write no routes and leave the rules
    alone. *)
Class SinkSpec (E : Type) `{!StateSink E, !HookSink E, !KernelView E} : Prop := {
  Write_drifts s e : drifting e (Write s e).2;
  Write_rules s e : rules (Write s e).2 = rules e;
  Notify_drifts h e : drifting e (Notify h e).2;
  Notify_rules h e : rules (Notify h e).2 = rules e
}.

(** ** The adapter's contract

    The documented behaviour of the two libraries: the rule requests follow the
    laws of a rule table, and adding a rule whose preference is the kernel's
    choice never finds it there; replacing a default route that succeeds puts it
    in its Family and table; and no other request writes a default route or
    changes rules. What anything but this daemon does to the routes meanwhile,
    and which index an interface has when, is left open. *)
Class NetlinkLaws (E : Type) `{!Net E, !Netlink E, !KernelView E} : Prop := {
  nl_rules : rule_table_laws (mkRuleTable rules RuleList RuleAdd RuleDel);
  nl_fresh r e err : (RuleAdd (buildRule r) e).1 = Some err → Is err EEXIST = false;
  nl_replace r e err e' : RouteReplace r e = (err, e') → isDefaultRoute r = true →
    rules e' = rules e ∧ writes r (changes e) err (changes e');
  nl_list f e : drifting e (RuleList f e).2;
  nl_add k e : drifting e (RuleAdd k e).2;
  nl_del k e : drifting e (RuleDel k e).2;
  nl_iface n e : drifting e (InterfaceByName n e).2 ∧ rules (InterfaceByName n e).2 = rules e;
  nl_addrs i e : drifting e (Addrs i e).2 ∧ rules (Addrs i e).2 = rules e;
  nl_execute q s t e : drifting e (Execute q s t e).2 ∧ rules (Execute q s t e).2 = rules e;
  nl_open s e : drifting e (NewHandle s e).2 ∧ rules (NewHandle s e).2 = rules e;
  nl_close h e : drifting e (HandleClose h e).2 ∧ rules (HandleClose h e).2 = rules e;
  nl_delete h t f fl e : drifting e (ConntrackDeleteFilters h t f fl e).2 ∧
    rules (ConntrackDeleteFilters h t f fl e).2 = rules e
}.

Section contract.
Context {E : Type} `{HN : !Net E, HL : !Netlink E, HV : !KernelView E, HNL : !NetlinkLaws E}.

(** A request that leaves the rules alone, or only drifts. *)
#[local] Ltac request := first
  [ apply keeps_call; intros ?; (apply nl_iface || apply nl_addrs || apply nl_execute || apply nl_open ||
      apply nl_close || apply nl_delete)
  | apply evolves_call; intros ?; (apply nl_list || apply nl_add || apply nl_del || apply nl_iface || apply nl_addrs ||
      apply nl_execute || apply nl_open || apply nl_close || apply nl_delete) ].

#[local] Instance keeps_dumpFlush_loop {X} (v : E → X) tries del fam f n :
  (∀ a b, Keeps v (del a b)) → Keeps v (dumpFlush_loop (Ev:=effect) (Filter:=Filter) tries del fam f n).
Proof. intros Hd. revert n. induction tries; intros n; cbn [dumpFlush_loop]; unfold checked; keeps_by; apply IHtries. Qed.

#[local] Instance evolves_delete_copies del n copies :
  (∀ k, Evolves drifting (del k)) → Evolves drifting (delete_copies (Ev:=effect) del n copies).
Proof. intros Hd. revert n. induction copies as [|k l IH]; intros n; cbn [delete_copies]; evolves_by; apply IH. Qed.

#[local] Instance evolves_dumpFlush_loop tries del fam f n :
  (∀ a b, Evolves drifting (del a b)) → Evolves drifting (dumpFlush_loop (Ev:=effect) (Filter:=Filter) tries del fam f n).
Proof. intros Hd. revert n. induction tries; intros n; cbn [dumpFlush_loop]; unfold checked; evolves_by; apply IHtries. Qed.

#[local] Ltac keeping := repeat first [progress intros | typeclasses eauto | request
  | apply keeps_dumpFlush_loop | apply keeps_bind | apply evolves_delete_copies | apply evolves_dumpFlush_loop
  | apply evolves_bind | case_match].

Lemma WriteDefault_writes d (w : World E effect) :
  writes (buildRoute d) (changes (w_env w)) (WriteDefault d w).1 (changes (w_env (WriteDefault d w).2)) ∧
  rules (w_env (WriteDefault d w).2) = rules (w_env w).
Proof.
  unfold WriteDefault, writeDefaultVia, checked, mbind, M_bind, ctx_Err. destruct (cancelled w);
    [by split; [exists []|]|]. destruct (validateDefaultRoute d); [by split; [exists []|]|]. unfold call. cbn [w_env step].
  destruct (RouteReplace (buildRoute d) (w_env w)) as [err e'] eqn:Hr.
  destruct (nl_replace _ _ _ _ Hr (buildRoute_default d)) as [Hu Hb]. cbn [mret M_ret fst snd w_env].
  split; [by destruct err|done].
Qed.

#[export] Instance netlinkKernel_spec : KernelSpec E.
Proof.
  split; cbn [EnsureRule IfIndex WriteRoute InterfaceAddrs FlushConntrack netlinkKernel].
  - intros r w. pose proof (ensureRule_spec (Ev:=effect) _ nl_rules r w) as [[H1 H2] H3].
    split; [exact H1|]. split; [exact H2|]. intros Hn.
    destruct (H3 Hn (λ e err, nl_fresh r e err)) as (k & Hk & _). by exists k.
  - intros d w. apply WriteDefault_writes.
  - intros r. unfold apply_EnsureRule, ensureRuleVia, checked. cbn [ro_list ro_add ro_del]. keeping.
  - intros n. unfold interfaceIndex. keeping.
  - intros n. unfold interfaceAddrs. keeping.
  - intros f ip. unfold FlushBySource, flushBySourceVia, dumpFlush, executeFilteredDelete, dumpDelete, checked.
    cbn [filteredDelete Apply.dumpDelete]. keeping.
  - intros n. unfold interfaceIndex. keeping.
  - intros d w. apply WriteDefault_writes.
  - intros n. unfold interfaceAddrs. keeping.
  - intros f ip. unfold FlushBySource, flushBySourceVia, dumpFlush, executeFilteredDelete, dumpDelete, checked.
    cbn [filteredDelete Apply.dumpDelete]. keeping.
Qed.
End contract.

(** ** An example host

    A host whose requests all succeed, and whose kernel does not stand still: the
    interfaces are recreated under a new index before every lookup, and a lookup
    finds the IPv6 default routes of table 100 flushed. *)
Module Host.
Record host := mkHost { h_rules : list Rule; h_changes : list RouteChange; h_lookups : nat }.

#[export] Instance view : KernelView host := {
  rules h f := rt_rules list_table (h_rules h) f;
  changes := h_changes
}.

Definition on_rules {A} (g : list Rule → A * list Rule) (h : host) : A * host :=
  let '(x, l) := g (h_rules h) in (x, mkHost l (h_changes h) (h_lookups h)).

#[export] Instance net : Net host := {
  InterfaceByName name h :=
    (inr (mkNetInterface ((if decide (name = "eth0") then 2 else 3) + 10 * Z.of_nat (h_lookups h)) name),
     mkHost (h_rules h) (Others AF_INET6 100 None :: h_changes h) (S (h_lookups h)));
  Addrs iface h := (inr [Some (Some [192; 0; 2; 10]); None], h)
}.

#[export] Instance netlink : Netlink host := {
  Filter := IP;
  Handle := unit;
  AddReplyDstIP ip := inr ip;
  RuleList f := on_rules (rt_list list_table f);
  RuleAdd k := on_rules (rt_add list_table k);
  RuleDel k := on_rules (rt_del list_table k);
  RouteReplace r h :=
    (None, mkHost (h_rules h) (Ours r :: h_changes h) (h_lookups h));
  Execute _ _ _ h := (([], Some EINVAL), h);
  NewHandle _ h := (inr (), h);
  HandleClose _ h := ((), h);
  ConntrackDeleteFilters _ _ _ _ h := ((1, None), h)
}.

Lemma on_rules_drifting {A} (g : list Rule → A * list Rule) h : drifting h (on_rules g h).2.
Proof. unfold on_rules. destruct h as [rs cs n]. cbn. destruct (g rs). by exists []. Qed.

#[export] Instance netlink_laws : NetlinkLaws host.
Proof.
  destruct list_table_laws as [L1 L2 L3 L4 L5].
  split; cbn [RuleList RuleAdd RuleDel RouteReplace InterfaceByName Addrs Execute NewHandle HandleClose
    ConntrackDeleteFilters netlink net rules changes view]; intros; try apply on_rules_drifting; try done;
    try (split; [reflexivity|done]); unfold on_rules.
  - split; cbn [rt_list rt_add rt_del rt_rules].
    + intros f [l rs n] r e'. cbn [h_rules]. destruct (rt_list list_table f l) as [x l'] eqn:Hl. intros [= <- <-].
      by destruct (L1 _ _ _ _ Hl) as [-> ?].
    + done.
    + intros k [l rs n] e'. cbn [h_rules]. destruct (rt_add list_table k l) as [x l'] eqn:Hl. intros [= -> <-].
      by apply L3.
    + intros k [l rs n] err e'. cbn [h_rules]. destruct (rt_del list_table k l) as [x l'] eqn:Hl. intros [= -> <-].
      by rewrite (L4 _ _ _ _ Hl).
    + intros k [l rs n] e'. cbn [h_rules]. destruct (rt_del list_table k l) as [x l'] eqn:Hl. intros [= -> <-].
      by apply L5.
  - match goal with H : (None, _) = _ |- _ => injection H as <- <- end. split; [done|].
    by exists (changes e).
  - split; [|done]. exists [Others AF_INET6 100 None]. split; [done|]. by repeat constructor.
Qed.

#[export] Instance state_sink : StateSink host := λ _ h, (None, h).
#[export] Instance hook_sink : HookSink host := λ _ h, (true, h).
#[export] Instance sink_spec : SinkSpec host.
Proof. by split. Qed.

Definition world : World host effect :=
  mkWorld (mkSchedule None (λ _, 7%positive) (λ _ _, 0%nat)) 0 (mkHost [] [] 0) [].
End Host.
