(* ===== verification/Routing.v ===== *)
(** * The kernel's tables follow the daemon

    The handlers of [Daemon] over any kernel that meets [KernelSpec]: after
    bootstrap every Group has its rule, once, in both Families, and through any
    events the last routes the daemon put in a Group's table are those of its
    Selection. [Host] runs it all over the production adapter. *)
From S2P Require Import Prelude GoFloat Icmp Aggregate Runtime Metrics NetIP Selector State Config Rtnl Routes Health Decision Apply Gateway Daemon Coordination Publication NetlinkKernel.

#[local] Open Scope Z_scope.

(** ** Routes of one WAN in one Group's table *)

Lemma newest_app l rs f t :
  newest (l ++ rs) f t = match newest l f t with Some r => Some r | None => newest rs f t end.
Proof. unfold newest. rewrite filter_app. by destruct (filter _ l). Qed.

Lemma newest_Some l f t r : newest l f t = Some r → r ∈ l ∧ r_Family r = f ∧ r_Table r = t.
Proof.
  unfold newest. destruct (filter _ l) as [|x l'] eqn:Hf; [done|]. intros [= ->].
  assert (r ∈ filter (λ r, r_Family r = f ∧ r_Table r = t) l) as [? ?]%list_elem_of_filter by (rewrite Hf; by left).
  done.
Qed.

Lemma newest_None l f t (P : Route → Prop) :
  Forall P l → (∀ r, P r → ¬ (r_Family r = f ∧ r_Table r = t)) → newest l f t = None.
Proof.
  intros Hl HP. destruct (newest l f t) as [r|] eqn:Hn; [|done].
  apply newest_Some in Hn as (Hin & Hft). rewrite Forall_forall in Hl. by destruct (HP r (Hl r Hin)).
Qed.

Lemma buildRoute_fields r : r_Family (buildRoute r) = Family_int (dr_Family r) ∧ r_Table (buildRoute r) = dr_Table r.
Proof. unfold buildRoute. by destruct (dr_PointToPoint r). Qed.

Lemma route_of_fields d g wan i fam r : route_of d g wan i fam = Some r → dr_Family r = fam ∧ dr_Table r = g_table g.
Proof. unfold route_of. intros H. repeat case_match; by simplify_eq. Qed.

(** Whether there is a route does not depend on the interface's index. *)
Lemma route_of_index d g wan i i' fam : is_Some (route_of d g wan i fam) → is_Some (route_of d g wan i' fam).
Proof. unfold route_of. by repeat case_match. Qed.

Definition probed (wan : Wan) : list Family := Config.Families (p_Targets (w_Probe wan)).

Lemma probed_known wan fam : fam ∈ probed wan → fam = FamilyV4 ∨ fam = FamilyV6.
Proof.
  unfold probed, Config.Families. rewrite elem_of_app.
  destruct (V4 _), (V6 _); cbn; rewrite ?elem_of_nil, ?list_elem_of_singleton; tauto.
Qed.

Lemma Family_int_known f f' :
  f = FamilyV4 ∨ f = FamilyV6 → f' = FamilyV4 ∨ f' = FamilyV6 → Family_int f = Family_int f' → f = f'.
Proof. by intros [-> | ->] [-> | ->]. Qed.

Section wanted.
Context {E : Type} `{HV : !KernelView E}.

(** The kernel gave that index for the interface, in a lookup of this run. *)
Definition given (w : World E effect) (name : string) (i : Z) : Prop := EIfIndex name (inr i) ∈ w_log w.

Lemma given_extends (w w' : World E effect) name i : extends w w' → given w name i → given w' name i.
Proof. unfold given. intros (_ & _ & l & ->) H. apply elem_of_app. by left. Qed.

(** A route the Group wants on the WAN, through an index given. *)
Definition wanted (d : daemon) (g : Group) (wan : Wan) (w : World E effect) (fam : Family) (r : Route) : Prop :=
  ∃ i dr, given w (w_Interface wan) i ∧ route_of d g wan i fam = Some dr ∧ r = buildRoute dr.

(** Where the Group wants one, the last one put in place is it. *)
Definition routed (d : daemon) (g : Group) (wan : Wan) (w : World E effect) (fam : Family) : Prop :=
  is_Some (route_of d g wan 0 fam) →
  ∃ r, newest (ours (w_env w)) (Family_int fam) (g_table g) = Some r ∧ wanted d g wan w fam r.

(** The daemon put nothing in place but routes that satisfy [P]. *)
Definition puts (P : World E effect → Route → Prop) (w w' : World E effect) : Prop :=
  extends w w' ∧ ∃ l, ours (w_env w') = l ++ ours (w_env w) ∧ Forall (P w') l.

(** Only routes wanted on the WAN; only routes of the Group's table; none. *)
Definition towards (d : daemon) (g : Group) (wan : Wan) : relation (World E effect) :=
  puts (λ w r, ∃ fam, fam ∈ probed wan ∧ wanted d g wan w fam r).
Definition local_to (g : Group) : relation (World E effect) := puts (λ _ r, r_Table r = g_table g).
Definition calm : relation (World E effect) := puts (λ _ _, False).

Lemma wanted_extends d g wan w w' fam r : extends w w' → wanted d g wan w fam r → wanted d g wan w' fam r.
Proof. intros Hx (i & dr & Hg & H). exists i, dr. split; [by eapply given_extends|done]. Qed.

Lemma puts_trans (P : World E effect → Route → Prop) w1 w2 w3 :
  (∀ w w' r, extends w w' → P w r → P w' r) → puts P w1 w2 → puts P w2 w3 → puts P w1 w3.
Proof.
  intros HP (Hx & l & H1 & Hl) (Hx' & l' & H2 & Hl'). split; [by etransitivity|]. exists (l' ++ l).
  split; [by rewrite H2, H1, app_assoc|]. apply Forall_app. split; [done|]. eapply Forall_impl; [exact Hl|]. eauto.
Qed.

Lemma puts_mono (P Q : World E effect → Route → Prop) w w' : (∀ r, P w' r → Q w' r) → puts P w w' → puts Q w w'.
Proof. intros HPQ (Hx & l & H1 & Hl). split; [done|]. exists l. split; [done|]. by eapply Forall_impl. Qed.

Lemma calm_puts P w w' : calm w w' → puts P w w'.
Proof. by apply puts_mono. Qed.

Lemma calm_ours w w' : calm w w' → ours (w_env w') = ours (w_env w).
Proof. intros (_ & [|r l] & -> & Hl); [done|]. by apply Forall_cons in Hl as [? _]. Qed.

Lemma calm_intro w w' : extends w w' → ours (w_env w') = ours (w_env w) → calm w w'.
Proof. intros Hx He. split; [done|]. by exists []. Qed.

#[export] Instance calm_preorder : PreOrder calm.
Proof. split; [intros w; by apply calm_intro|]. intros w1 w2 w3. by apply puts_trans. Qed.

#[export] Instance towards_preorder d g wan : PreOrder (towards d g wan).
Proof.
  split; [intros w; by apply calm_puts|]. intros w1 w2 w3. apply puts_trans.
  intros w w' r Hx (fam & Hf & Hw). exists fam. split; [done|by eapply wanted_extends].
Qed.

#[export] Instance local_preorder g : PreOrder (local_to g).
Proof. split; [intros w; by apply calm_puts|]. intros w1 w2 w3. by apply puts_trans. Qed.

Lemma towards_local d g wan w w' : towards d g wan w w' → local_to g w w'.
Proof.
  apply puts_mono. intros r (fam & _ & i & dr & _ & Hr & ->). destruct (buildRoute_fields dr) as [_ ->].
  by apply route_of_fields in Hr as [_ ->].
Qed.

Lemma towards_routed d g wan w w' fam :
  towards d g wan w w' → fam ∈ probed wan → routed d g wan w fam → routed d g wan w' fam.
Proof.
  intros (Hx & l & Ho & Hl) Hf Hr Hs. rewrite Ho, newest_app.
  destruct (newest l _ _) as [r|] eqn:Hn.
  - exists r. split; [done|]. apply newest_Some in Hn as (Hin & Hfam & _). rewrite Forall_forall in Hl.
    destruct (Hl r Hin) as (fam' & Hf' & Hw). assert (fam' = fam) as ->; [|done].
    destruct Hw as (i & dr & _ & Hdr & ->). apply Family_int_known; [by eapply probed_known..|].
    rewrite <- Hfam. destruct (buildRoute_fields dr) as [-> _]. by apply route_of_fields in Hdr as [-> _].
  - destruct (Hr Hs) as (r & Hr1 & Hr2). exists r. split; [done|by eapply wanted_extends].
Qed.

(** Writes in other tables do not matter. *)
Lemma local_routed d g g' wan w w' fam :
  local_to g' w w' → g_table g ≠ g_table g' → routed d g wan w fam → routed d g wan w' fam.
Proof.
  intros (Hx & l & Ho & Hl) Hne Hr Hs. destruct (Hr Hs) as (r & Hr1 & Hr2). exists r.
  split; [|by eapply wanted_extends]. rewrite Ho, newest_app, (newest_None l _ _ _ Hl); [done|].
  cbn. intros r0 H1 [_ H2]. congruence.
Qed.

Lemma wp_calm {A} (m : M E effect A) `{!Keeps ours m, !Extending m} (Q : A → World E effect → Prop) w :
  (∀ x w', calm w w' → Q x w') → wp m Q w.
Proof. intros HQ. apply HQ, calm_intro; [apply extending|apply keeps]. Qed.
End wanted.

(** ** Writing them *)

Section writing.
Context {E : Type} `{HK : Kernel E, HSS : StateSink E, HHS : HookSink E, HV : !KernelView E,
  HKL : !KernelLaws E, HKS : !KernelSpec E, HNS : !SinkSpec E} (version : string).

Lemma writeOne_routes d g wan i fam (w : World E effect) :
  fam ∈ probed wan → given w (w_Interface wan) i →
  wp (writeOne d g wan i fam) (λ hard w',
    towards d g wan w w' ∧ (hard = false → routed d g wan w' fam)) w.
Proof.
  intros Hfam Hi. unfold writeOne.
  assert (Hr : (if w_PointToPoint wan then Some (mkDefaultRoute fam (g_table g) None i true)
    else match gw_get (dm_gateways d) (w_Interface wan) (Family_int fam) with
         | None => None
         | Some None => None
         | Some (Some gw) => Some (mkDefaultRoute fam (g_table g) (Some gw) i false)
         end) = route_of d g wan i fam).
  { unfold route_of. destruct (w_PointToPoint wan); [done|]. by destruct (gw_get _ _ _) as [[]|]. }
  rewrite Hr. cbv zeta. destruct (route_of d g wan i fam) as [r|] eqn:Hw.
  2: { apply wp_ret. split; [done|]. intros _ Hs. apply (route_of_index _ _ _ _ i) in Hs. rewrite Hw in Hs.
       by destruct Hs. }
  apply wp_bind, (wp_calm _). intros started w1 H1.
  apply wp_bind. unfold kernel_WriteRoute. apply wp_bind. unfold wp at 1.
  pose proof (writes_ours _ _ _ _ (WriteRoute_writes r w1)) as Hwr. pose proof (WriteRoute_extending r w1) as Hx.
  destruct (WriteRoute r w1) as [err w2]. cbn [fst snd] in *. fold (ours (w_env w1)) (ours (w_env w2)) in Hwr.
  rewrite (calm_ours _ _ H1) in Hwr. assert (extends w w2) as Hx2 by (etransitivity; [apply H1|done]).
  apply wp_bind, (wp_calm _). intros [] w3 H3. apply wp_ret.
  apply wp_bind, (wp_calm _). intros ended w4 H4. apply wp_bind, (wp_calm _). intros [] w5 H5.
  assert (Hgoal : ∀ w6, calm w2 w6 → towards d g wan w w6 ∧ (err = None → routed d g wan w6 fam)).
  { intros w6 H6. assert (extends w w6) as Hx6 by (etransitivity; [exact Hx2|apply H6]).
    assert (Hwant : wanted d g wan w6 fam (buildRoute r)).
    { exists i, r. split; [by eapply given_extends|done]. }
    rewrite <- (calm_ours _ _ H6) in Hwr. split.
    - split; [done|]. destruct err; [by exists []|]. exists [buildRoute r]. split; [done|].
      repeat constructor. by exists fam.
    - intros -> _. exists (buildRoute r). split; [|done]. rewrite Hwr. unfold newest.
      destruct (route_of_fields _ _ _ _ _ _ Hw) as [Hf Ht]. destruct (buildRoute_fields r) as [Hbf Hbt].
      rewrite filter_cons_True; [done|]. by rewrite Hbf, Hbt, Hf, Ht. }
  assert (calm w2 w5) as H25 by (by repeat (etransitivity; [eassumption|])).
  destruct err as [err|].
  - apply wp_bind, (wp_calm _). intros [] w6 H6. apply wp_ret.
    destruct (Hgoal w6) as [? _]; [by etransitivity|]. done.
  - apply wp_ret. destruct (Hgoal w5) as [? ?]; [done|]. auto.
Qed.

Lemma writeFamilies_routes d g wan i fams : ∀ n (w : World E effect),
  given w (w_Interface wan) i →
  wp (writeFamilies d g wan i n fams) (λ err w',
    towards d g wan w w' ∧
    (err = None → n = 0%nat ∧ ∀ fam, fam ∈ fams → fam ∈ probed wan → routed d g wan w' fam)) w.
Proof.
  induction fams as [|fam fams IH]; intros n w Hi; cbn [writeFamilies].
  { apply wp_ret. split; [done|]. case_bool_decide; [done|]. intros _. split; [lia|].
    by intros fam ?%elem_of_nil. }
  fold (probed wan). case_bool_decide as Hf; cbn [negb].
  2: { eapply wp_mono; [by apply IH|]. intros err w' [Ht Hn]. split; [done|]. intros He.
       destruct (Hn He) as [-> Hall]. split; [done|]. intros fam' [-> |Hin]%elem_of_cons; [done|by apply Hall]. }
  apply wp_bind, (wp_calm _). intros cerr w1 H1. destruct cerr as [err|].
  { apply wp_ret. split; [by apply calm_puts|done]. }
  apply wp_bind. eapply wp_mono; [apply writeOne_routes; [done|eapply given_extends; [apply H1|done]]|].
  intros hard w2 [Ht1 Hh].
  eapply wp_mono; [apply IH; eapply given_extends; [apply Ht1|eapply given_extends; [apply H1|done]]|].
  intros err w3 [Ht2 Hn]. split.
  { etransitivity; [by apply calm_puts|]. by etransitivity. }
  intros He. destruct (Hn He) as [Hz Hall]. destruct hard; [done|]. split; [done|].
  intros fam' [-> |Hin]%elem_of_cons Hp; [|by apply Hall]. eapply towards_routed; [done..|by apply Hh].
Qed.

(** What [applyRoutes] leaves: whatever the outcome it only puts routes wanted on
    the Selection in place, and on success all it was asked for. *)
Lemma applyRoutes_routes d g sel fams (w : World E effect) :
  wp (applyRoutes d g sel fams) (λ err w',
    match c_Wans (dm_cfg d) !! sel with
    | None => err ≠ None ∧ calm w w'
    | Some wan =>
        towards d g wan w w' ∧
        (err = None → ∀ fam, fam ∈ (match fams with [] => probed wan | _ => fams end) → fam ∈ probed wan →
           routed d g wan w' fam)
    end) w.
Proof.
  unfold applyRoutes. destruct (c_Wans _ !! sel) as [wan|]; [|by apply wp_ret].
  apply wp_bind. unfold kernel_IfIndex. apply wp_bind, (wp_calm _). intros index w1 H1.
  apply wp_bind. unfold wp at 1, emit. cbn [fst snd]. set (w2 := mkWorld _ _ _ _).
  assert (calm w w2) as H2.
  { etransitivity; [exact H1|]. apply calm_intro; [|done]. split; [done|]. split; [done|]. by eexists. }
  apply wp_ret. destruct index as [err|i].
  - apply wp_bind, (wp_calm _). intros [] w3 H3. apply wp_ret. split; [|done]. apply calm_puts. by etransitivity.
  - fold (probed wan). eapply wp_mono.
    { apply writeFamilies_routes. unfold given. cbn [w2 w_log]. apply elem_of_app. right. by left. }
    intros err w3 [Ht Hn]. split; [etransitivity; [by apply calm_puts|done]|]. intros He. by apply Hn.
Qed.
End writing.

(** ** A Group's operations *)

Section groups.
Context {E : Type} `{HK : Kernel E, HSS : StateSink E, HHS : HookSink E, HV : !KernelView E,
  HKL : !KernelLaws E, HKS : !KernelSpec E, HNS : !SinkSpec E} (version : string).

(** A settled Selection has its routes in the kernel, except those that [stale]
    lists by WAN and Family. A Group that has a Selection pending, or a Repair
    due, may be in the middle of writing them. *)
Definition held (stale : string → Family → Prop) (d : daemon) (w : World E effect) (dg : DGroup) : Prop :=
  d_pending dg = None → d_repairDue dg = false → a_has (d_selection dg) = true →
  ∃ wan, c_Wans (dm_cfg d) !! a_wan (d_selection dg) = Some wan ∧
    ∀ fam, fam ∈ probed wan → ¬ stale (a_wan (d_selection dg)) fam → routed d (d_cfg dg) wan w fam.

Lemma held_calm stale d w w' dg : calm w w' → held stale d w dg → held stale d w' dg.
Proof.
  intros Hc Hh Hp Hd Ha. destruct (Hh Hp Hd Ha) as (wan & Hw & Hall). exists wan. split; [done|].
  intros fam Hf Hn. eapply towards_routed; [by apply calm_puts|done|by apply Hall].
Qed.

Lemma applyRoutes_local d g sel fams (w : World E effect) :
  wp (applyRoutes d g sel fams) (λ _, local_to g w) w.
Proof.
  eapply wp_mono; [apply applyRoutes_routes|]. intros err w'. destruct (c_Wans _ !! sel) as [wan|].
  - intros [Ht _]. by eapply towards_local.
  - intros [_ Hc]. by apply calm_puts.
Qed.

(** An operation on a Group that makes fewer routes stale. *)
Definition advances (op : ApplyRoutes (E:=E) (Ev:=effect) → DGroup → M E effect (DGroup * option Commit))
    (stale stale' : string → Family → Prop) : Prop :=
  ∀ d dg (w : World E effect), held stale d w dg →
    wp (op (applyRoutes d (d_cfg dg)) dg) (λ r w',
      d_cfg r.1 = d_cfg dg ∧ local_to (d_cfg dg) w w' ∧
      held stale' d w' r.1) w.

(** The outcomes of a commit, as [wp_commit] has them, with the log. *)
Lemma wp_commit_calm (ar : ApplyRoutes (E:=E) (Ev:=effect)) g next Q (w : World E effect) :
  wp (if a_has next then ar (a_wan next) [] else mret None) (λ err w',
    match err with
    | Some _ => Q (g, None) w'
    | None => ∀ at_ w'', calm w' w'' → Q ((committed g next at_).1, Some (committed g next at_).2) w''
    end) w →
  wp (commit ar g next) Q w.
Proof.
  intros H. unfold commit. apply wp_bind. eapply wp_mono; [exact H|].
  intros [e|] w1 HQ; [by apply wp_ret|].
  apply wp_bind, (wp_calm _). intros at_ w2 H2. apply wp_bind, (wp_calm _). intros [] w3 H3.
  apply wp_ret. specialize (HQ at_ w3 (transitivity H2 H3)). unfold committed in HQ. cbn [fst snd] in HQ.
  by destruct (Commit_Event _).
Qed.

Lemma commit_held d dg next stale (w : World E effect) :
  is_Some (d_pending dg) →
  wp (commit (applyRoutes d (d_cfg dg)) dg next) (λ r w',
    d_cfg r.1 = d_cfg dg ∧ local_to (d_cfg dg) w w' ∧
    held stale d w' r.1) w.
Proof.
  intros [p Hp]. apply wp_commit_calm. destruct (a_has next) eqn:Hn.
  2: { apply wp_ret. intros at_ w2 Hc. split; [done|]. split; [by apply calm_puts|]. intros _ _. cbn. by rewrite Hn. }
  eapply wp_mono; [apply applyRoutes_routes|]. intros err w1.
  destruct (c_Wans _ !! a_wan next) as [wan|] eqn:Hw.
  - intros [Ht Hr]. pose proof (towards_local _ _ _ _ _ Ht) as Hl. destruct err as [err|].
    + split; [done|]. split; [done|]. intros H. cbn in H. congruence.
    + intros at_ w2 Hc. split; [done|]. split; [etransitivity; [done|by apply calm_puts]|].
      eapply (held_calm _ _ w1); [done|]. intros _ _ _. cbn. exists wan. split; [done|].
      intros fam Hf _. by apply Hr.
  - intros [He Hc]. destruct err as [err|]; [|done]. split; [done|]. split; [by apply calm_puts|]. intros H. cbn in H. congruence.
Qed.

Lemma refresh_held d dg fams (stale : string → Family → Prop) (w : World E effect) :
  held stale d w dg → d_pending dg = None →
  wp (refresh (applyRoutes d (d_cfg dg)) dg fams) (λ dg' w',
    d_cfg dg' = d_cfg dg ∧ local_to (d_cfg dg) w w' ∧
    held (λ s f, stale s f ∧ f ∉ fams) d w' dg') w.
Proof.
  intros Hh Hp. unfold refresh. apply wp_bind. eapply wp_mono; [apply applyRoutes_routes|]. intros err w1.
  destruct (c_Wans _ !! a_wan (d_selection dg)) as [wan|] eqn:Hw.
  2: { intros [He Hc]. destruct err as [err|]; [|done]. apply wp_ret. split; [done|]. split; [by apply calm_puts|done]. }
  intros [Ht Hr]. pose proof (towards_local _ _ _ _ _ Ht) as Hl.
  destruct err as [err|]; apply wp_ret; (split; [done|]; split; [done|]); [done|].
  intros _ _ Hs. cbn in Hs |- *. exists wan. split; [done|]. intros fam Hf Hns. specialize (Hr eq_refl).
  destruct (d_repairDue dg) eqn:Hd; [by apply Hr|].
  destruct (decide (fam ∈ fams)) as [Hin|Hin].
  - destruct fams as [|f0 fams]; [by apply elem_of_nil in Hin|]. by apply Hr.
  - destruct (Hh Hp Hd Hs) as (wan' & Hw' & Hall). assert (wan' = wan) as -> by congruence.
    eapply towards_routed; [done..|]. apply Hall; [done|]. naive_solver.
Qed.

Lemma held_weaken (stale stale' : string → Family → Prop) d w dg :
  (∀ fam, stale (a_wan (d_selection dg)) fam → d_pending dg = None → a_has (d_selection dg) = true →
     stale' (a_wan (d_selection dg)) fam) →
  held stale d w dg → held stale' d w dg.
Proof.
  intros Hs Hh Hp Hd Ha. destruct (Hh Hp Hd Ha) as (wan & Hw & Hall). exists wan. split; [done|].
  intros fam Hf Hn. apply Hall; [done|]. naive_solver.
Qed.

Lemma Recompute_advances members reason stale :
  advances (λ ar g, Recompute ar g members reason) stale stale.
Proof.
  intros d dg w Hh. unfold Recompute. destruct (Select _ _) as [err|sel]; [by apply wp_ret|].
  case_decide; [by apply wp_ret|]. cbv zeta. apply wp_bind, (wp_calm _). intros [] w1 H1.
  eapply wp_mono; [by apply (commit_held d (mkDGroup (d_cfg dg) _ _ _ (Some (s_active sel)) _))|].
  intros r w2 (? & Hl & ?). split; [done|]. split; [|done]. etransitivity; [by apply calm_puts|done].
Qed.

Lemma DProbe_advances wan stale : advances (λ ar g, DProbe ar g wan) stale stale.
Proof.
  intros d dg w Hh. unfold DProbe. destruct (d_pending dg) as [p|] eqn:Hp.
  - case_match; [by apply wp_ret|]. apply commit_held. by exists p.
  - case_match; [|by apply wp_ret]. apply wp_bind. eapply wp_mono; [by apply refresh_held|].
    intros dg' w1 (Hc & Hl & Hh'). apply wp_ret. split; [done|]. split; [done|].
    eapply held_weaken; [|exact Hh']. by intros fam [? _].
Qed.

Lemma RouteObserved_advances wan fam stale :
  advances (λ ar g, RouteObserved ar g wan fam) stale (λ s f, stale s f ∧ ¬ (s = wan ∧ f = fam)).
Proof.
  intros d dg w Hh. unfold RouteObserved.
  destruct (negb (a_has (intent dg)) || negb (bool_decide (a_wan (intent dg) = wan))) eqn:Hi.
  - apply wp_ret. split; [done|]. split; [done|]. eapply held_weaken; [|exact Hh]. cbn.
    intros f Hs Hp Ha. split; [done|]. unfold intent in Hi. rewrite Hp in Hi. cbn in Hi. rewrite Ha in Hi.
    cbn in Hi. apply negb_true_iff, bool_decide_eq_false in Hi. naive_solver.
  - destruct (d_pending dg) as [p|] eqn:Hp; [apply commit_held; by exists p|].
    apply orb_false_elim in Hi as [_ Hi]. apply negb_false_iff, bool_decide_eq_true in Hi.
    unfold intent in Hi. rewrite Hp in Hi. cbn in Hi.
    apply wp_bind. eapply wp_mono; [by apply refresh_held|].
    intros dg' w1 (Hc & Hl & Hh'). apply wp_ret. split; [done|]. split; [done|].
    eapply held_weaken; [|exact Hh']. cbn. intros f [Hs Hf] _ _. split; [done|]. intros [_ ->].
    apply Hf, list_elem_of_here.
Qed.
End groups.

(** ** The handlers *)

(** No two Groups share a routing table, as the Nix module allocates them. *)
Definition distinct_tables (cfg : Config) : Prop :=
  ∀ n1 n2 g1 g2, c_Groups cfg !! n1 = Some g1 → c_Groups cfg !! n2 = Some g2 →
    g_table g1 = g_table g2 → n1 = n2.

(** The tables of the Groups. *)
Definition group_table (cfg : Config) (tb : Z) : Prop :=
  ∃ name g, c_Groups cfg !! name = Some g ∧ g_table g = tb.

Section handlers.
Context {E : Type} `{HK : Kernel E, HSS : StateSink E, HHS : HookSink E, HV : !KernelView E,
  HKL : !KernelLaws E, HKS : !KernelSpec E, HNS : !SinkSpec E} (version : string).
Context (cfg : Config) (Htables : distinct_tables cfg) (rs0 : list Route).

(** Every Group's settled Selection has its routes, except the stale ones of
    each Group, and all the daemon put in place since [rs0] is in the Groups'
    tables. *)
Record follows (stale : string → string → Family → Prop) (d : daemon) (w : World E effect) : Prop := {
  fo_cfg : dm_cfg d = cfg;
  fo_wf : groups_wf d;
  fo_held name dg : dm_groups d !! name = Some dg → held (stale name) d w dg;
  fo_tables : ∃ l, ours (w_env w) = l ++ rs0 ∧ Forall (λ r, group_table cfg (r_Table r)) l
}.

Lemma held_core stale d d' (w : World E effect) dg :
  dm_cfg d' = dm_cfg d → dm_gateways d' = dm_gateways d →
  held stale d w dg → held stale d' w dg.
Proof. unfold held, routed, wanted, route_of. by intros -> ->. Qed.

Lemma held_local stale d (w w' : World E effect) g dg :
  local_to g w w' → g_table (d_cfg dg) ≠ g_table g →
  held stale d w dg → held stale d w' dg.
Proof.
  intros Hl Hne Hh Hp Hd Ha. destruct (Hh Hp Hd Ha) as (wan & Hw & Hall). exists wan. split; [done|].
  intros fam Hf Hn. eapply local_routed; [done..|by apply Hall].
Qed.

(** What does not change the Groups, the Gateways and the kernel. *)
Lemma follows_core stale d d' w w' :
  same_core d d' → dm_groups d' = dm_groups d → calm w w' → follows stale d w → follows stale d' w'.
Proof.
  intros (Hc & _ & Hgw & _) Hg He [H1 H2 H3 H4]. split; [congruence| | |by rewrite (calm_ours _ _ He)].
  - unfold groups_wf. by rewrite Hc, Hg.
  - intros name dg. rewrite Hg. intros Hdg. eapply held_core; [done..|]. eapply held_calm; [done|by apply H3].
Qed.

Lemma follows_calm stale d w w' : calm w w' → follows stale d w → follows stale d w'.
Proof. by apply follows_core. Qed.

Lemma follows_step stale d w : follows stale d w → follows stale d (step w).
Proof. apply follows_calm. apply calm_intro; [apply extends_step|done]. Qed.

Lemma follows_weaken (stale stale' : string → string → Family → Prop) d w :
  (∀ name s f, stale name s f → stale' name s f) → follows stale d w → follows stale' d w.
Proof.
  intros Hs [H1 H2 H3 H4]. split; [done|done| |done]. intros name dg Hdg.
  eapply held_weaken; [|by apply H3]. intros; by apply Hs.
Qed.

Lemma follows_same stale name d w :
  follows (λ n, if decide (n = name) then stale name else stale n) d w → follows stale d w.
Proof. apply follows_weaken. intros n s f. case_decide; [by subst|done]. Qed.

(** One Group after an operation on it. *)
Lemma follows_group stale stale' d name dg dg' w w' :
  follows stale d w → dm_groups d !! name = Some dg → d_cfg dg' = d_cfg dg →
  local_to (d_cfg dg) w w' → held stale' d w' dg' →
  follows (λ n, if decide (n = name) then stale' else stale n) (set_group d name dg') w'.
Proof.
  intros [H1 H2 H3 H4] Hdg Hcfg Hl Hh.
  assert (Hg : c_Groups cfg !! name = Some (d_cfg dg)) by (rewrite <- H1; by apply H2).
  split; [done|by eapply groups_wf_insert| |].
  - intros n dgn. cbn [set_group dm_groups]. case_decide as Hn.
    + subst n. rewrite lookup_insert_eq. intros [= <-]. by eapply held_core.
    + rewrite lookup_insert_ne by done. intros Hdgn. eapply held_core; [done..|].
      eapply held_local; [done| |by apply H3]. intros He. apply Hn.
      eapply Htables; [|exact Hg|exact He]. rewrite <- H1. by apply H2.
  - destruct H4 as (l & Ho & Hf), Hl as (_ & l' & Ho' & Hf'). exists (l' ++ l).
    split; [by rewrite Ho', Ho, app_assoc|]. apply Forall_app. split; [|done].
    eapply Forall_impl; [exact Hf'|]. cbn. intros r ->. by exists name, (d_cfg dg).
Qed.

#[local] Instance keeps_stateW s : Keeps (Ev:=effect) ours (call (Write (E:=E) s)).
Proof. apply keeps_call. intros e. apply drifts_ours, Write_drifts. Qed.
#[local] Instance keeps_notify h : Keeps (Ev:=effect) ours (call (Notify (E:=E) h)).
Proof. apply keeps_call. intros e. apply drifts_ours, Notify_drifts. Qed.

#[local] Instance keeps_writeState d t : Keeps ours (writeStateSnapshot (E:=E) version d t).
Proof. unfold writeStateSnapshot, stateW_Write. keeps_by. Qed.

#[local] Instance keeps_publishDecision d g c : Keeps ours (publishDecision (E:=E) version d g c).
Proof.
  unfold publishDecision, flushVacatedConntrack, notifyHooks, hooks_Notify, kernel_FlushConntrack, kernel_InterfaceAddrs. keeps_by.
Qed.

Lemma publishDecision_follows stale d g c (w : World E effect) :
  follows stale d w → wp (publishDecision version d g c) (follows stale) w.
Proof.
  intros Hf. pose proof (publishDecision_core version d g c w) as [H1 H2].
  pose proof (keeps_publishDecision d g c w) as H3. pose proof (extending_publishDecision version d g c w) as H4.
  unfold wp. eapply follows_core; [done..|by apply calm_intro|done].
Qed.

Lemma forward_follows op stale stale' d name g0 (w : World E effect) :
  (∀ dg, dm_groups d !! name = Some dg → advances op (stale name) stale') → follows stale d w →
  wp (forward version op d (name, g0)) (λ d' w',
    follows (λ n, if decide (n = name) then stale' else stale n) d' w') w.
Proof.
  intros Hop Hf. unfold forward. destruct (dm_groups d !! name) as [dg|] eqn:Hdg.
  - apply wp_bind. eapply wp_mono; [apply (Hop dg); [done|by apply Hf]|]. intros [dg' c] w1 (Hc & Hl & Hh).
    apply publishDecision_follows. by eapply follows_group.
  - apply wp_ret. destruct Hf as [H1 H2 H3 H4]. split; [done|done| |done]. intros n dg Hn.
    case_decide; [congruence|]. by apply H3.
Qed.

(** A loop over the Groups. *)
Lemma forward_loop_follows op stale (entries : list (string * DGroup)) d (w : World E effect) :
  (∀ name, advances op (stale name) (stale name)) → follows stale d w →
  wp (loop_live (forward version op) d entries) (λ r w', follows stale r.1 w') w.
Proof.
  intros Hop Hf. apply (wp_loop_live_world _ (λ _, follows stale)); [intros _; apply follows_step|done| |done|done].
  intros dn [name g] rest d1 w1 _ H1. eapply wp_mono; [by apply (forward_follows _ stale (stale name))|].
  intros d2 w2. apply follows_same.
Qed.

Lemma recomputeAffectedGroups_follows stale reason wan d (w : World E effect) :
  follows stale d w →
  wp (recomputeAffectedGroups version reason d wan) (follows stale) w.
Proof.
  intros Hf. unfold recomputeAffectedGroups. apply wp_bind. unfold wp at 1, range. cbn [fst snd].
  set (l := shuffle _ _). assert (Hp : l ≡ₚ map_to_list (c_Groups (dm_cfg d))) by apply shuffle_Permutation.
  rewrite (fo_cfg _ _ _ Hf) in Hp.
  apply wp_bind, (wp_loop_live_world _ (λ _, follows stale)); [intros _; apply follows_step|by apply follows_step| | |].
  - intros dn [name g] rest d1 w1 Hl H1. unfold recomputeGroup. case_match; [by apply wp_ret|].
    destruct (dm_groups d1 !! name) as [dg|] eqn:Hdg; [|by apply wp_ret].
    assert (g = d_cfg dg) as ->.
    { pose proof (proj2 (fo_wf _ _ _ H1) _ _ Hdg) as Hg. rewrite (fo_cfg _ _ _ H1) in Hg.
      assert (Hin : (name, g) ∈ map_to_list (c_Groups cfg)).
      { rewrite <- Hp, Hl. apply elem_of_app. right. apply list_elem_of_here. }
      apply elem_of_map_to_list in Hin. congruence. }
    apply wp_bind. unfold Health.MemberHealth. apply wp_bind, (wp_calm _). intros ms w2 H2. apply wp_ret.
    apply (follows_calm _ _ _ _ H2) in H1. apply wp_bind.
    eapply wp_mono; [apply (Recompute_advances _ reason (stale name) d1 dg); by apply H1|].
    intros [dg' c] w3 (Hc & Hlo & Hh). apply publishDecision_follows.
    apply (follows_same _ name). by eapply follows_group.
  - intros d1 w1 H1. by apply wp_ret.
  - intros dn d1 w1 _ _ H1. by apply wp_ret.
Qed.

Lemma publishHealthChange_follows stale c reason d (w : World E effect) :
  follows stale d w →
  wp (publishHealthChange version d c reason) (follows stale) w.
Proof.
  intros Hf. unfold publishHealthChange. apply wp_bind.
  apply (wp_foldM _ _ (λ _ d w, follows stale d w)); [done| |].
  - intros dn wan rest d1 w1 _ H1. by apply recomputeAffectedGroups_follows.
  - intros d1 w1 H1. destruct (ch_Republish c); [|by apply wp_ret].
    apply wp_bind, (wp_calm _). intros err w2 H2. apply (follows_calm _ _ _ _ H2) in H1. destruct err as [err|].
    + by apply wp_ret.
    + apply wp_bind, (wp_calm _). intros [] w3 H3. apply wp_ret. by eapply follows_calm.
Qed.

(** Nothing is stale unless the daemon was stopped. *)
Definition kept (d : daemon) (w : World E effect) : Prop :=
  follows (λ _ _ _, cancelled w = true) d w.

Lemma kept_mono stale d (w w' : World E effect) :
  extends w w' → follows stale d w' → (∀ n s f, stale n s f → cancelled w = true) → kept d w'.
Proof. intros Hx Hf Hs. revert Hf. apply follows_weaken. intros n s f H. eapply extends_cancelled; [done|by eapply Hs]. Qed.

Lemma publishHealthChange_kept c reason d (w : World E effect) :
  kept d w → wp (publishHealthChange version d c reason) kept w.
Proof.
  intros Hk. pose proof (publishHealthChange_follows _ c reason d w Hk) as H.
  apply wp_and_extends in H; [|apply _]. eapply wp_mono; [exact H|]. intros d' w' [Hf Hx].
  by eapply kept_mono; [exact Hx|exact Hf|].
Qed.

Lemma retry_kept wan d (w : World E effect) : kept d w → wp (retryGroupDecisions version d wan) kept w.
Proof.
  intros Hk. unfold retryGroupDecisions. apply wp_bind. unfold wp at 1, range. cbn [fst snd].
  apply wp_bind. set (w1 := step w). assert (kept d w1) as Hk1.
  { by apply (kept_mono _ d w w1 (extends_step w) (follows_step _ _ _ Hk)). }
  assert (H := forward_loop_follows (λ ar g, DProbe ar g wan) _
    (shuffle (sch_order (w_sched w) (w_tick w)) (map_to_list (dm_groups d))) d w1
    (λ name, DProbe_advances wan _) Hk1).
  apply wp_and_extends in H; [|apply extending_loop_live; intros; apply extending_forward; apply _].
  eapply wp_mono; [exact H|]. intros [d' s] w' [Hf Hx]. apply wp_ret. by eapply kept_mono; [exact Hx|exact Hf|].
Qed.

#[local] Instance keeps_Health_Probe h r : Keeps ours (Health.Probe (E:=E) (Ev:=effect) h r).
Proof. apply keeps_quiet. unfold Health.Probe, recordProbe, recordStats, forM, Set_. quiet_by. Qed.
#[local] Instance keeps_Health_Link h e : Keeps ours (Health.Link (E:=E) (Ev:=effect) h e).
Proof. apply keeps_quiet. unfold Health.Link, link_one, recordLink, forM, Set_, Inc. quiet_by. Qed.

(** New Health, old routes. *)
Lemma set_health_kept d h (w w' : World E effect) : kept d w → calm w w' → kept (set_health d h) w'.
Proof.
  intros [H1 H2 H3 H4] Hc. split; [done|done| |by rewrite (calm_ours _ _ Hc)]. intros name dg Hdg.
  apply (held_core _ d); [done..|]. eapply held_calm; [exact Hc|]. eapply held_weaken; [|by apply (H3 name)].
  intros fam Hca _ _. eapply extends_cancelled; [apply Hc|done].
Qed.

Lemma handleProbeResult_kept r d (w : World E effect) : kept d w → wp (handleProbeResult version d r) kept w.
Proof.
  intros Hk. unfold handleProbeResult. apply wp_bind, (wp_calm _). intros [h c] w1 H1.
  apply wp_bind. eapply wp_mono; [by apply publishHealthChange_kept, (set_health_kept d h w w1)|].
  intros d1 w2 Hk2. case_bool_decide; [by apply wp_ret|by apply retry_kept].
Qed.

Lemma handleLinkEvent_kept ev d (w : World E effect) : kept d w → wp (handleLinkEvent version d ev) kept w.
Proof.
  intros Hk. unfold handleLinkEvent. apply wp_bind, (wp_calm _). intros [h c] w1 H1.
  by apply publishHealthChange_kept, (set_health_kept d h w w1).
Qed.

(** ** Route events *)

(** The WANs whose route in the event's Family is still to be observed. *)
Definition unobserved (e : RouteEvent) (wans : list (string * Wan)) (s : string) (f : Family) : Prop :=
  (f = FamilyV4 ∨ f = FamilyV6) ∧ Family_int f = re_family e ∧
  ∃ wan, (s, wan) ∈ wans ∧ w_Interface wan = re_iface e.

Lemma unobserved_cons e n wan wans s f :
  unobserved e ((n, wan) :: wans) s f →
  unobserved e wans s f ∨ w_Interface wan = re_iface e ∧ s = n ∧ f = Family_of_int (re_family e).
Proof.
  intros (Hk & Hf & wan' & [[= -> ->]|Hin]%elem_of_cons & Hi).
  - right. split; [done|]. split; [done|]. rewrite <- Hf. by destruct Hk as [-> | ->].
  - left. split; [done|]. split; [done|]. by exists wan'.
Qed.

(** Every Group after it was shown one WAN's route. *)
Lemma observe_loop_follows e n (stale : string → Family → Prop) d (w : World E effect) :
  let fam := Family_of_int (re_family e) in
  follows (λ _, stale) d w →
  ∀ l, l ≡ₚ map_to_list (dm_groups d) →
  wp (loop_live (forward version (λ ar g, RouteObserved ar g n fam)) d l) (λ r w',
    (if r.2 then cancelled w' = true ∧ follows (λ _, stale) r.1 w'
     else follows (λ _ s f, stale s f ∧ ¬ (s = n ∧ f = fam)) r.1 w')) w.
Proof.
  intros fam Hf l Hp. set (stale' := λ s f, stale s f ∧ ¬ (s = n ∧ f = fam)).
  apply (wp_loop_live_world _ (λ dn, follows (λ m, if decide (m ∈ dn.*1) then stale' else stale))).
  - intros dn d1 w1. apply follows_step.
  - eapply follows_weaken; [|exact Hf]. intros m s f. by rewrite decide_False by apply not_elem_of_nil.
  - intros dn [m g] rest d1 w1 _ H1. eapply wp_mono.
    { apply (forward_follows _ (λ m, if decide (m ∈ dn.*1) then stale' else stale) stale'); [|exact H1]. intros dg _. case_decide; [|apply RouteObserved_advances].
      intros d2 dg2 w2 Hh. eapply wp_mono; [by apply (RouteObserved_advances n fam stale')|].
      intros r w3 (? & ? & Hh'). split; [done|]. split; [done|]. eapply held_weaken; [|exact Hh']. by intros f [? _]. }
    intros d2 w2. apply follows_weaken. intros k s f. rewrite fmap_app. cbn [fmap list_fmap fst].
    case_decide as Hk; [subst k|].
    + rewrite decide_True; [done|]. rewrite elem_of_app. right. apply list_elem_of_here.
    + intros H. destruct (decide (k ∈ dn.*1)) as [Hin|Hin].
      * rewrite decide_True; [done|]. apply elem_of_app. by left.
      * rewrite decide_False; [done|]. rewrite elem_of_app, list_elem_of_singleton. naive_solver.
  - intros d1 w1 H1. cbn. destruct H1 as [H1 H2 H3 H4]. split; [done|done| |done].
    intros m dg Hdg. pose proof (H3 _ _ Hdg) as Hh. rewrite decide_True in Hh; [done|].
    pose proof (proj2 H2 _ _ Hdg) as Hg. rewrite H1 in Hg.
    rewrite <- (fo_cfg _ _ _ Hf) in Hg. destruct (proj1 (fo_wf _ _ _ Hf) _ _ Hg) as (dg0 & Hdg0 & _).
    rewrite Hp. apply list_elem_of_fmap. exists (m, dg0). split; [done|]. by apply elem_of_map_to_list.
  - intros dn d1 w1 Hc _ H1. split; [done|]. eapply follows_weaken; [|exact H1]. intros m s f.
    cbn beta. case_decide; [by intros [? _]|done].
Qed.

Lemma observeRoute_kept e wans : ∀ d (w : World E effect),
  follows (λ _ s f, unobserved e wans s f ∨ cancelled w = true) d w →
  wp (observeRoute version e d wans) (λ r, kept r.1) w.
Proof.
  induction wans as [|[n wan] wans IH]; intros d w Hf; cbn [observeRoute].
  { apply wp_ret. cbn. eapply follows_weaken; [|exact Hf]. intros m s f [(_ & _ & wan & []%elem_of_nil & _)|]; done. }
  case_bool_decide as Hi; cbn [negb].
  2: { apply IH. eapply follows_weaken; [|exact Hf]. intros m s f [Hu|]; [|by right].
       apply unobserved_cons in Hu as [?|[? _]]; [by left|done]. }
  apply wp_bind. unfold wp at 1, range. cbn [fst snd]. apply wp_bind. set (w1 := step w).
  assert (H := observe_loop_follows e n _ d w1 (follows_step _ _ _ Hf) _
    (shuffle_Permutation (sch_order (w_sched w) (w_tick w)) (map_to_list (dm_groups d)))).
  apply wp_and_extends in H; [|apply extending_loop_live; intros; apply extending_forward; apply _].
  eapply wp_mono; [exact H|]. cbv beta. intros [d' s] w' [Hd Hx]. cbn [fst snd] in Hd.
  assert (Hc : cancelled w = true → cancelled w' = true).
  { intros Hc. eapply extends_cancelled; [exact Hx|]. by apply cancelled_step. }
  destruct s.
  - destruct Hd as [Hs Hd]. apply wp_ret. eapply follows_weaken; [|exact Hd]. done.
  - apply IH. eapply follows_weaken; [|exact Hd]. cbn. intros m s f [[Hu|Hcan] Hne]; [|right; by apply Hc].
    apply unobserved_cons in Hu as [?|(_ & -> & ->)]; [by left|]. by destruct Hne.
Qed.

(** A Gateway learned or lost makes stale what [handleRouteEvent] goes on to
    observe, and no more. *)
Lemma set_gateways_unobserved e gws wans d (w w' : World E effect) :
  kept d w → calm w w' → wans ≡ₚ map_to_list (c_Wans cfg) →
  (∀ i f, (i, f) ≠ (re_iface e, re_family e) → gw_get gws i f = gw_get (dm_gateways d) i f) →
  follows (λ _ s f, unobserved e wans s f ∨ cancelled w' = true) (set_gateways d gws) w'.
Proof.
  intros [H1 H2 H3 H4] Hc Hp Hg. split; [done|done| |by rewrite (calm_ours _ _ Hc)]. intros name dg Hdg Hpe Hd Ha.
  destruct (held_calm _ _ _ _ _ Hc (H3 name dg Hdg) Hpe Hd Ha) as (wan & Hw & Hall). exists wan. split; [done|].
  intros fam Hf Hn. assert (Hsame : ∀ i, route_of (set_gateways d gws) (d_cfg dg) wan i fam = route_of d (d_cfg dg) wan i fam).
  { intros i. unfold route_of. cbn [set_gateways dm_gateways]. destruct (w_PointToPoint wan); [done|].
    rewrite Hg; [done|]. intros [= Hi Hfam]. apply Hn. left.
    split; [by eapply probed_known|]. split; [done|]. exists wan. split; [|done].
    rewrite Hp, <- H1. by apply elem_of_map_to_list. }
  unfold routed, wanted. setoid_rewrite Hsame. apply Hall; [done|].
  intros Hca. apply Hn. right. eapply extends_cancelled; [apply Hc|done].
Qed.

Lemma handleRouteEvent_kept e d (w : World E effect) : kept d w → wp (handleRouteEvent version d e) kept w.
Proof.
  intros Hk. unfold handleRouteEvent. cbv zeta. apply wp_bind. unfold wp at 1, range. cbn [fst snd]. apply wp_bind.
  eapply wp_mono.
  { apply observeRoute_kept, (set_gateways_unobserved e _ _ d w); [done|apply calm_intro; [apply extends_step|done]| |].
    - cbn [set_gateways dm_cfg]. rewrite (fo_cfg _ _ _ Hk). apply shuffle_Permutation.
    - intros i f Hne. unfold gw_get, gw_set, gw_clear.
      apply not_eq_sym in Hne. destruct (re_op e); [by apply lookup_insert_ne|by apply lookup_delete_ne]. }
  intros [d' s] w1 Hk1. cbn [fst] in Hk1. destruct s; [by apply wp_ret|].
  assert (Hmono : ∀ w2, calm w1 w2 → kept d' w2).
  { intros w2 H2. eapply kept_mono; [apply H2|by eapply follows_calm|done]. }
  case_match; [|by apply wp_ret]. apply wp_bind, (wp_calm _). intros [err|] w2 H2; [apply wp_ret; auto|].
  apply wp_bind, (wp_calm _). intros [] w3 H3. apply wp_ret. apply Hmono. by etransitivity.
Qed.

Lemma dispatch_kept ev d (w : World E effect) : kept d w → wp (dispatch version d ev) kept w.
Proof.
  destruct ev; cbn [dispatch]; [apply handleProbeResult_kept|apply handleLinkEvent_kept|apply handleRouteEvent_kept].
Qed.

Lemma eventLoop_kept turns : ∀ d acks (w : World E effect),
  kept d w → wp (eventLoop version d acks turns) (λ r, kept r.1) w.
Proof.
  induction turns as [|[| |ev] turns IH]; intros d acks w Hk; cbn [eventLoop]; [by apply wp_ret| |by apply IH|];
    (apply wp_bind; unfold wp at 1, ctx_Err; cbn [fst snd];
     assert (kept d (step w)) as Hk1 by (by apply (kept_mono _ d w _ (extends_step w) (follows_step _ _ _ Hk))));
    (destruct (cancelled w); [by apply wp_ret|]); [by apply IH|].
  apply wp_bind. eapply wp_mono; [by apply dispatch_kept|]. intros d1 w1 Hd1. by apply IH.
Qed.

(** ** Start-up *)

(** No Group has decided yet. *)
Definition undecided (d : daemon) : Prop :=
  dm_cfg d = cfg ∧ groups_wf d ∧ ∀ name dg, dm_groups d !! name = Some dg → dg = fresh_group (d_cfg dg).

(** Nothing was put in place yet. *)
Lemma undecided_kept d (w : World E effect) : undecided d → ours (w_env w) = rs0 → kept d w.
Proof.
  intros (Hc & Hwf & Hd) Ho. split; [done|done| |by exists []]. intros name dg Hdg _ _ Ha.
  rewrite (Hd _ _ Hdg) in Ha. done.
Qed.

#[local] Instance keeps_prime_links h c links : Keeps ours (prime_links (E:=E) h c links).
Proof. unfold prime_links. keeps_by. Qed.
#[local] Instance extending_prime_links h c links : Extending (prime_links (E:=E) h c links).
Proof. unfold prime_links. extending_by. Qed.

Lemma prime_kept snap d (w : World E effect) :
  undecided d → ours (w_env w) = rs0 → wp (prime version d snap) kept w.
Proof.
  intros Hu Ho. unfold prime. apply wp_bind, (wp_calm _). intros [err|] w1 H1.
  { apply wp_ret. apply undecided_kept; [done|]. by rewrite (calm_ours _ _ H1). }
  cbv zeta. apply wp_bind, (wp_calm _). intros [h c] w2 H2. apply publishHealthChange_kept, undecided_kept; [done|].
  by rewrite (calm_ours _ _ H2), (calm_ours _ _ H1).
Qed.

Lemma newDaemon_undecided (w : World E effect) :
  well_keyed cfg → wp (newDaemon cfg) (λ d w', undecided d ∧ w_env w' = w_env w) w.
Proof.
  intros Hwk. assert (Hq : Quiet (newDaemon (E:=E) cfg)).
  { unfold newDaemon, Health.New, forM, Set_. quiet_by. }
  pose proof (newDaemon_tracks cfg w) as [[H1 H2 H3 H4] H5]. split; [done|]. apply Hq.
Qed.
End handlers.

(** ** Rules *)

(** The rules of all Groups, and the kernel's rules that are copies of none. *)
Definition owned (cfg : Config) (k : Rule) : Prop :=
  ∃ name g r, c_Groups cfg !! name = Some g ∧ r ∈ group_rules g ∧ matchesRule k r = true.

(** Exactly one copy of a rule. *)
Definition installed (r : FwmarkRule) (t : Z → list Rule) : Prop :=
  ∃ k, matching r (t (Family_int (fr_Family r))) = [k].

(** No rule was added or removed but copies of the Groups' own. *)
Definition rules_kept (cfg : Config) (t t' : Z → list Rule) : Prop :=
  ∀ f (P : Rule → Prop) (Hd : ∀ k, Decision (P k)), (∀ k, P k → ¬ owned cfg k) → filter P (t' f) ≡ₚ filter P (t f).

#[export] Instance rules_kept_preorder cfg : PreOrder (rules_kept cfg).
Proof.
  split; [by intros t f P ? ?|]. intros t1 t2 t3 H1 H2 f P ? HP. etransitivity; [by apply H2|by apply H1].
Qed.

Lemma filter_others (P : Rule → Prop) `{!∀ k, Decision (P k)} r l :
  (∀ k, P k → matchesRule k r ≠ true) → filter P l = filter P (others r l).
Proof.
  intros HP. unfold others. rewrite list_filter_filter. apply list_filter_iff. intros k. split; [|tauto].
  intros Hk. split; [done|by apply HP].
Qed.

(** Two rules match the same kernel rules or none in common. *)
Lemma matchesRule_both k r r' :
  matchesRule k r = true → matchesRule k r' = true → ∀ k', matchesRule k' r = matchesRule k' r'.
Proof.
  unfold matchesRule. rewrite !andb_true_iff, !Z.eqb_eq. intros [[[[-> ->] _] <-] _] [[[[Hf ->] _] ->] _] k'.
  by rewrite Hf.
Qed.

Lemma installs_installed r r' t res t' :
  installs r t res t' → res.2 = None → installed r' t → installed r' t'.
Proof.
  intros (Ho & Hf & Hn) Hres [k Hk]. unfold installed.
  destruct (decide (Family_int (fr_Family r') = Family_int (fr_Family r))) as [He|Hne];
    [|exists k; by rewrite Hf].
  assert (Hkm : matchesRule k r' = true).
  { assert (k ∈ matching r' (t (Family_int (fr_Family r')))) as [? _]%list_elem_of_filter; [|done].
    rewrite Hk. apply list_elem_of_here. }
  destruct (matchesRule k r) eqn:Hkr.
  - destruct (Hn Hres) as [k2 Hk2]. exists k2. rewrite He, <- Hk2. apply list_filter_iff.
    intros k'. by rewrite (matchesRule_both k r r').
  - exists k. apply Permutation_singleton_r. rewrite <- Hk. unfold matching.
    assert (Hd : ∀ k', matchesRule k' r' = true → matchesRule k' r ≠ true).
    { intros k' H1 H2. rewrite <- (matchesRule_both k' r' r) in Hkr; congruence. }
    rewrite (filter_others _ r _ Hd), (filter_others _ r (t _) Hd), He. by rewrite Ho.
Qed.

Lemma installs_kept cfg r t res t' :
  (∀ k, matchesRule k r = true → owned cfg k) → installs r t res t' → rules_kept cfg t t'.
Proof.
  intros Hr (Ho & Hf & _) f P ? HP. destruct (decide (f = Family_int (fr_Family r))) as [-> |Hfam]; [|by rewrite Hf].
  assert (Hne : ∀ k, P k → matchesRule k r ≠ true).
  { intros k Hk Hm. eapply HP; [done|by apply Hr]. }
  rewrite (filter_others _ r _ Hne), (filter_others _ r (t _) Hne). by rewrite Ho.
Qed.

Section rules.
Context {E : Type} `{HK : Kernel E, HSS : StateSink E, HHS : HookSink E, HV : !KernelView E,
  HKL : !KernelLaws E, HKS : !KernelSpec E, HNS : !SinkSpec E} (version : string).
Context (cfg : Config).

Lemma ensureGroupRules_rules name g fams : ∀ (w : World E effect),
  c_Groups cfg !! name = Some g → fams ⊆ AllFamilies →
  wp (ensureGroupRules g fams) (λ err w',
    rules_kept cfg (rules (w_env w)) (rules (w_env w')) ∧
    (err = None → (∀ r, installed r (rules (w_env w)) → installed r (rules (w_env w'))) ∧
       ∀ fam, fam ∈ fams → installed (mkFwmarkRule fam (g_mark g) (g_table g)) (rules (w_env w')))) w.
Proof.
  induction fams as [|fam fams IH]; intros w Hg Hsub; cbn [ensureGroupRules].
  { apply wp_ret. split; [done|]. intros _. split; [done|]. by intros fam ?%elem_of_nil. }
  set (r := mkFwmarkRule _ _ _). apply wp_bind. unfold kernel_EnsureRule. apply wp_bind. unfold wp at 1.
  pose proof (EnsureRule_installs r w) as Hi.
  destruct (EnsureRule r w) as [[n err] w1]. cbn [fst snd] in *. apply wp_bind, (wp_keeps rules _). intros [] w2 H2.
  rewrite <- H2 in Hi. apply wp_ret.
  assert (Hk : rules_kept cfg (rules (w_env w)) (rules (w_env w2))).
  { eapply installs_kept; [|exact Hi]. intros k Hm. exists name, g, r. split; [done|]. split; [|done].
    apply list_elem_of_fmap. exists fam. split; [done|]. apply Hsub, list_elem_of_here. }
  destruct err as [err|].
  { apply wp_bind, (wp_keeps rules _). intros [] w3 H3. apply wp_ret. by rewrite H3. }
  eapply wp_mono; [apply IH; [done|intros f Hf; apply Hsub; by apply list_elem_of_further]|].
  intros err w3 [Hk3 Hn]. split; [by etransitivity|]. intros He. destruct (Hn He) as [Hp Hall]. split.
  - intros r' Hr'. apply Hp. by eapply installs_installed.
  - intros f [-> |Hf]%elem_of_cons; [|by apply Hall]. apply Hp. by apply Hi.
Qed.

#[local] Instance keeps_stateW_rules s : Keeps (Ev:=effect) rules (call (Write (E:=E) s)).
Proof. apply keeps_call. intros e. apply Write_rules. Qed.
#[local] Instance keeps_notify_rules h : Keeps (Ev:=effect) rules (call (Notify (E:=E) h)).
Proof. apply keeps_call. intros e. apply Notify_rules. Qed.
#[local] Instance keeps_stateW_ours s : Keeps (Ev:=effect) ours (call (Write (E:=E) s)).
Proof. apply keeps_call. intros e. apply drifts_ours, Write_drifts. Qed.

#[local] Instance keeps_writeState_rules d t : Keeps rules (writeStateSnapshot (E:=E) version d t).
Proof. unfold writeStateSnapshot, stateW_Write. keeps_by. Qed.

#[local] Instance keeps_ensureGroupRules g fams : Keeps ours (ensureGroupRules (E:=E) g fams).
Proof. induction fams; cbn [ensureGroupRules]; unfold kernel_EnsureRule; keeps_by. Qed.

#[export] Instance keeps_bootstrap d : Keeps ours (bootstrap (E:=E) version d).
Proof. unfold bootstrap, writeStateSnapshot, stateW_Write. keeps_by. Qed.

(** Bootstrap leaves every Group's rules installed, and other rules alone. *)
Lemma bootstrap_rules_installed d (w : World E effect) :
  dm_cfg d = cfg → wp (bootstrap version d) (λ err w',
    rules_kept cfg (rules (w_env w)) (rules (w_env w')) ∧
    (err = None → ∀ name g r, c_Groups cfg !! name = Some g → r ∈ group_rules g →
       installed r (rules (w_env w')))) w.
Proof.
  intros Hc. unfold bootstrap. rewrite Hc. apply wp_bind. unfold wp at 1, range. cbn [fst snd].
  set (l := shuffle _ _). assert (Hp : l ≡ₚ map_to_list (c_Groups cfg)) by apply shuffle_Permutation.
  apply wp_bind, (wp_foldM _ _ (λ dn err w', rules_kept cfg (rules (w_env w)) (rules (w_env w')) ∧
    (err = None → ∀ name g r, (name, g) ∈ dn → r ∈ group_rules g → installed r (rules (w_env w'))))).
  - split; [done|]. by intros _ name g r ?%elem_of_nil.
  - intros dn [name g] rest err w1 Hl [Hk Hi]. destruct err as [err|]; [by apply wp_ret|].
    assert (Hg : c_Groups cfg !! name = Some g).
    { apply elem_of_map_to_list. rewrite <- Hp, Hl. apply elem_of_app. right. apply list_elem_of_here. }
    eapply wp_mono; [by apply (ensureGroupRules_rules name)|]. intros err w2 [Hk2 Hn].
    split; [by etransitivity|]. intros He. destruct (Hn He) as [H1 H2]. intros n g' r Hin Hr.
    apply elem_of_app in Hin as [Hin|Hin]; [by apply H1; eapply Hi|].
    apply list_elem_of_singleton in Hin as [= -> ->].
    apply list_elem_of_fmap in Hr as (fam & -> & Hf). by apply H2.
  - intros err w1 [Hk Hi]. destruct err as [err|]; [by apply wp_ret|]. apply wp_bind.
    apply (wp_keeps rules _). intros [] w2 H2. apply wp_ret.
    rewrite H2. split; [done|]. intros _ name g r Hg Hr. eapply Hi; [done| |done]. rewrite Hp.
    by apply elem_of_map_to_list.
Qed.

(** ** No handler touches the rules *)

#[local] Instance keeps_writeFamilies_rules d g wan i n fams :
  Keeps rules (writeFamilies (E:=E) d g wan i n fams).
Proof.
  revert n. induction fams; intros n; cbn [writeFamilies]; unfold writeOne, kernel_WriteRoute; keeps_by; apply IHfams.
Qed.
#[local] Instance keeps_applyRoutes_rules d g sel fams : Keeps rules (applyRoutes (E:=E) d g sel fams).
Proof. unfold applyRoutes, kernel_IfIndex. keeps_by. Qed.
#[local] Instance keeps_commit_rules ar dg next :
  (∀ n f, Keeps rules (ar n f)) → Keeps rules (commit (E:=E) (Ev:=effect) ar dg next).
Proof. intros Ha. unfold commit. keeps_by. Qed.
#[local] Instance keeps_refresh_rules ar dg fams :
  (∀ n f, Keeps rules (ar n f)) → Keeps rules (refresh (E:=E) (Ev:=effect) ar dg fams).
Proof. intros Ha. unfold refresh. keeps_by. Qed.
#[local] Instance keeps_publishDecision_rules d g c : Keeps rules (publishDecision (E:=E) version d g c).
Proof.
  unfold publishDecision, flushVacatedConntrack, notifyHooks, hooks_Notify, kernel_FlushConntrack, kernel_InterfaceAddrs. keeps_by.
Qed.
#[local] Instance keeps_loop_live_rules {A} (body : daemon → A → M E effect daemon) d l :
  (∀ d x, Keeps rules (body d x)) → Keeps rules (loop_live body d l).
Proof. intros Hb. revert d. induction l as [|x l IH]; intros d; cbn [loop_live]; keeps_by; apply IH. Qed.
#[local] Instance keeps_forward_rules op d entry :
  (∀ ar g, (∀ n f, Keeps rules (ar n f)) → Keeps rules (op ar g)) → Keeps rules (forward (E:=E) version op d entry).
Proof. intros Hop. unfold forward. keeps_by. Qed.
#[local] Instance keeps_DProbe_rules wan :
  ∀ ar g, (∀ n f, Keeps rules (ar n f)) → Keeps rules (DProbe (E:=E) (Ev:=effect) ar g wan).
Proof. intros ar g Ha. unfold DProbe. keeps_by. Qed.
#[local] Instance keeps_RouteObserved_rules wan fam :
  ∀ ar g, (∀ n f, Keeps rules (ar n f)) → Keeps rules (RouteObserved (E:=E) (Ev:=effect) ar g wan fam).
Proof. intros ar g Ha. unfold RouteObserved. keeps_by. Qed.
#[local] Instance keeps_Recompute_rules ar g ms reason :
  (∀ n f, Keeps rules (ar n f)) → Keeps rules (Recompute (E:=E) (Ev:=effect) ar g ms reason).
Proof. intros Ha. unfold Recompute. keeps_by. Qed.
#[local] Instance keeps_recomputeGroup_rules wan reason d entry :
  Keeps rules (recomputeGroup (E:=E) version wan reason d entry).
Proof. unfold recomputeGroup, Health.MemberHealth. keeps_by. Qed.
#[local] Instance keeps_recomputeAffected_rules reason d wan :
  Keeps rules (recomputeAffectedGroups (E:=E) version reason d wan).
Proof. unfold recomputeAffectedGroups. keeps_by. Qed.
#[local] Instance keeps_publishHealthChange_rules d c reason :
  Keeps rules (publishHealthChange (E:=E) version d c reason).
Proof. unfold publishHealthChange. keeps_by. Qed.
#[local] Instance keeps_Health_Probe_rules h r : Keeps rules (Health.Probe (E:=E) (Ev:=effect) h r).
Proof. apply keeps_quiet. unfold Health.Probe, recordProbe, recordStats, forM, Set_. quiet_by. Qed.
#[local] Instance keeps_Health_Link_rules h e : Keeps rules (Health.Link (E:=E) (Ev:=effect) h e).
Proof. apply keeps_quiet. unfold Health.Link, link_one, recordLink, forM, Set_, Inc. quiet_by. Qed.
#[local] Instance keeps_observeRoute_rules e d wans : Keeps rules (observeRoute (E:=E) version e d wans).
Proof. revert d. induction wans as [|[n wan] l IH]; intros d; cbn [observeRoute]; keeps_by; apply IH. Qed.
#[local] Instance keeps_dispatch_rules d ev : Keeps rules (dispatch (E:=E) version d ev).
Proof.
  destruct ev; cbn [dispatch]; unfold handleProbeResult, retryGroupDecisions, handleLinkEvent, handleRouteEvent; keeps_by.
Qed.
#[export] Instance keeps_eventLoop_rules turns : ∀ d acks, Keeps rules (eventLoop (E:=E) version d acks turns).
Proof. induction turns as [|[| |ev] turns IH]; intros d acks; cbn [eventLoop]; keeps_by; apply IH. Qed.
#[export] Instance keeps_prime_rules d snap : Keeps rules (prime (E:=E) version d snap).
Proof. unfold prime, prime_links. keeps_by. Qed.
End rules.

(** ** Life *)

Section life.
Context {E : Type} `{HK : Kernel E, HSS : StateSink E, HHS : HookSink E, HV : !KernelView E,
  HKL : !KernelLaws E, HKS : !KernelSpec E, HNS : !SinkSpec E} (version : string).
Context (cfg : Config) (Hcfg : Valid cfg).

Lemma life_kept snap turns (w : World E effect) :
  distinct_tables cfg → wp (life version cfg snap turns) (λ r w',
    (∃ l, ours (w_env w') = l ++ ours (w_env w) ∧ Forall (λ r, group_table cfg (r_Table r)) l) ∧
    match r with
    | inl _ => True
    | inr (d, _) => kept cfg (ours (w_env w)) d w'
    end) w.
Proof.
  intros Hd. unfold life. apply wp_bind.
  eapply wp_mono; [by apply (newDaemon_undecided cfg), Valid_well_keyed|]. intros d w1 [Hu H1].
  apply wp_bind, (wp_keeps ours _). intros [err|] w2 H2; rewrite H1 in H2.
  { apply wp_ret. split; [|done]. by exists []. }
  apply wp_bind. eapply wp_mono; [by apply (prime_kept version cfg Hd (ours (w_env w)))|].
  intros d1 w3 Hk. apply wp_bind. eapply wp_mono; [by apply (eventLoop_kept version cfg Hd)|].
  intros [d2 n] w4 Hk4. apply wp_ret. split; [|done]. apply Hk4.
Qed.

Lemma life_rules snap turns (w : World E effect) :
  wp (life version cfg snap turns) (λ r w',
    rules_kept cfg (rules (w_env w)) (rules (w_env w')) ∧
    match r with
    | inl _ => True
    | inr _ => ∀ name g r, c_Groups cfg !! name = Some g → r ∈ group_rules g → installed r (rules (w_env w'))
    end) w.
Proof.
  unfold life. apply wp_bind.
  eapply wp_mono; [by apply (newDaemon_undecided cfg), Valid_well_keyed|]. intros d w1 [(Hc & _) H1].
  apply wp_bind. eapply wp_mono; [by apply (bootstrap_rules_installed version cfg)|]. rewrite H1.
  intros [err|] w2 [Hk Hi]; [by apply wp_ret|].
  apply wp_bind, (wp_keeps rules _). intros d1 w3 H3. apply wp_bind, (wp_keeps rules _). intros [d2 n] w4 H4.
  apply wp_ret. rewrite H4, H3. split; [done|by apply Hi].
Qed.
End life.

(** ** Properties *)

(** What a route wanted on a WAN says. *)
Lemma wanted_content d g wan i fam dr :
  route_of d g wan i fam = Some dr →
  r_LinkIndex (buildRoute dr) = i ∧
  if w_PointToPoint wan
  then r_Scope (buildRoute dr) = 253 ∧ r_Gw (buildRoute dr) = None ∧
       r_Dst (buildRoute dr) = Some (match fam with FamilyV6 => mkIPNet IPv6unspecified (replicate 16 0)
                                                  | _ => mkIPNet IPv4zero (replicate 4 0) end)
  else r_Scope (buildRoute dr) = 0 ∧
       gw_get (dm_gateways d) (w_Interface wan) (Family_int fam) = Some (r_Gw (buildRoute dr)) ∧
       r_Dst (buildRoute dr) = None.
Proof.
  unfold route_of. destruct (w_PointToPoint wan).
  - intros [= <-]. split; [done|]. split; [done|]. split; [done|].
    cbn [buildRoute r_Dst dr_PointToPoint dr_Family]. unfold defaultDestination. case_decide; [by subst fam|by destruct fam].
  - destruct (gw_get _ _ _) as [[gw|]|]; [|done..]. by intros [= <-].
Qed.

Lemma example_groups n g : c_Groups example_config !! n = Some g → n = "home" ∧ g = example_group.
Proof. cbn [example_config c_Groups]. rewrite lookup_singleton_Some. by intros [<- <-]. Qed.


#[local] Existing Instances Host.view Host.net Host.netlink Host.netlink_laws Host.state_sink Host.hook_sink Host.sink_spec.


(** C14. Rules: over any kernel that meets its contract, and whatever rules it
    had, a daemon that gets past bootstrap leaves in both Families exactly one
    rule that sends all of a Group's mark to its table, for every Group, at
    start-up and through any events; and whether bootstrap succeeds or not, no
    rule is ever added, removed or changed but such copies. *)
Theorem rules_stay_installed {E} `{HK : Kernel E, HSS : StateSink E, HHS : HookSink E, HV : !KernelView E,
    HKL : !KernelLaws E, HKS : !KernelSpec E, HNS : !SinkSpec E} version cfg snap turns (w : World E effect) :
  Valid cfg →
  let '(r, w') := life version cfg snap turns w in
  (∀ f (P : Rule → Prop) (Hdec : ∀ k, Decision (P k)), (∀ k, P k → ¬ owned cfg k) →
     filter P (rules (w_env w') f) ≡ₚ filter P (rules (w_env w) f)) ∧
  match r with
  | inl _ => True
  | inr _ => ∀ name g fam, c_Groups cfg !! name = Some g → fam ∈ AllFamilies →
      ∃ k, matching (mkFwmarkRule fam (g_mark g) (g_table g)) (rules (w_env w') (Family_int fam)) = [k]
  end.
Proof.
  intros Hv. pose proof (life_rules version cfg Hv snap turns w) as H. unfold wp in H.
  destruct (life _ _ _ _ w) as [[err|res] w']; cbn [fst snd] in H; destruct H as [Hk Hi]; (split; [exact Hk|]); [done|].
  intros name g fam Hg Hf. apply (Hi name g); [done|]. apply list_elem_of_fmap. by exists fam.
Qed.

Lemma rules_stay_installed_witness :
  let r := life "1.0" example_config Daemon.Example.snapshot Daemon.Example.turns Host.world in
  match r.1 with
  | inl _ => False
  | inr _ => ∃ k, matching (mkFwmarkRule FamilyV6 200 100) (rules (w_env r.2) AF_INET6) = [k]
  end.
Proof.
  intros r. assert (Hr : match r.1 with inl _ => False | inr _ => True end) by (by vm_compute).
  pose proof (rules_stay_installed "1.0" example_config Daemon.Example.snapshot Daemon.Example.turns Host.world
    example_config_valid) as H.
  unfold r in *. destruct (life _ _ _ _ _) as [[err|res] w']; cbn [fst snd] in *; [done|].
  destruct H as [_ H]. apply (H "home" example_group FamilyV6); [done|].
  by apply list_elem_of_further, list_elem_of_here.
Defined.
